(** * Trace event importer: a shallow embedding of the big-rig tracing model

    This development embeds the parts of [TraceEventImporter]
    (trace_event_importer.js) and of [Model] (model/model.js) that the
    specification of the importer talks about, and proves or refutes the
    specification's statements on the embedding.

    Conventions of the embedding.
    - A JavaScript object used as a dictionary is a [gmap] when the code only
      reads, writes and deletes keys, and an association list in enumeration
      order when the code iterates it with [for .. in].  The names that an
      object literal inherits from [Object.prototype] are looked up with
      [JSObjects.jsLookup] where the embedding follows the code on them; where
      it does not, the definition says so and the theorems are about keys
      outside [JSObjects.onObjectPrototype].
    - [undefined] is [None]; a field that may be missing has an [option] type.
    - A function that may throw returns a [Completion].
    - Event timestamps are integral microseconds ([Z]); model timestamps are
      exact rationals in milliseconds.  IEEE rounding of the division by 1000
      is not modelled.
    - Strings are sequences of 8-bit characters. *)

From Stdlib Require Import Ascii String ZArith QArith Lia.
From stdpp Require Import gmap strings list pretty sorting.

Set Warnings "-register-all".

Local Open Scope Z_scope.
Local Open Scope string_scope.
Local Open Scope list_scope.

(** ** Completions: normal return or thrown exception *)

Inductive JSError : Type :=
| TypeError
| Error (msg : string).

Inductive Completion (A : Type) : Type :=
| Normal (a : A)
| Throw (e : JSError).
Arguments Normal {A} a.
Arguments Throw {A} e.

Definition cbind {A B} (c : Completion A) (k : A -> Completion B) : Completion B :=
  match c with
  | Normal a => k a
  | Throw e => Throw e
  end.

Notation "'let?' x := c 'in' k" := (cbind c (fun x => k))
  (at level 10, x name, c at level 100, k at level 200).

(** ** Import warnings (model.js, [importWarning]) *)

Record Warning : Type := mkWarning { wtype : string; wmessage : string }.

Global Instance Warning_eq_dec : EqDecision Warning.
Proof. solve_decision. Defined.

(** ** JavaScript values as they come out of [JSON.parse] *)

Inductive JSValue : Type :=
| JSUndefined
| JSNull
| JSBool (b : bool)
| JSNumber (n : Z)
| JSString (s : string)
| JSArray (elems : list JSValue)
| JSObject (fields : list (string * JSValue)).

(** [!!v] of JavaScript. *)
Definition truthy (v : JSValue) : bool :=
  match v with
  | JSUndefined | JSNull => false
  | JSBool b => b
  | JSNumber n => negb (n =? 0)%Z
  | JSString s => negb (String.eqb s "")
  | JSArray _ | JSObject _ => true
  end.

Fixpoint assoc_get {V} (k : string) (o : list (string * V)) : option V :=
  match o with
  | [] => None
  | (k', v) :: o' => if String.eqb k k' then Some v else assoc_get k o'
  end.

(** [v.k] for the property names the importer reads.  Reading a property of
    [undefined] or [null] throws a [TypeError]; arrays and strings have a
    [length]; a missing property reads as [undefined]. *)
Definition getProp (v : JSValue) (k : string) : Completion JSValue :=
  match v with
  | JSUndefined | JSNull => Throw TypeError
  | JSBool _ | JSNumber _ => Normal JSUndefined
  | JSString s =>
      if String.eqb k "length" then Normal (JSNumber (Z.of_nat (String.length s)))
      else Normal JSUndefined
  | JSArray l =>
      if String.eqb k "length" then Normal (JSNumber (Z.of_nat (length l)))
      else Normal JSUndefined
  | JSObject o =>
      match assoc_get k o with
      | Some x => Normal x
      | None => Normal JSUndefined
      end
  end.

Definition is_undefined (v : JSValue) : bool :=
  match v with JSUndefined => true | _ => false end.

(** ** [String.prototype.trim] on 8-bit strings

    The white space and line terminator code units below 256: tab, line
    feed, vertical tab, form feed, carriage return, space and the no-break
    space U+00A0.  The class [\s] of a regular expression is the same set. *)

Definition is_whitespace (c : ascii) : bool :=
  let n := nat_of_ascii c in
  ((9 <=? n)%nat && (n <=? 13)%nat) || (n =? 32)%nat || (n =? 160)%nat.

Fixpoint trimStart (s : string) : string :=
  match s with
  | String c s' => if is_whitespace c then trimStart s' else s
  | EmptyString => EmptyString
  end.

Definition trimEnd (s : string) : string :=
  String.rev (trimStart (String.rev s)).

Definition trim (s : string) : string := trimEnd (trimStart s).

(** [s[0]]: [None] stands for [undefined]. *)
Definition char0 (s : string) : option ascii :=
  match s with
  | String c _ => Some c
  | EmptyString => None
  end.

Definition starts_with_brace_or_bracket (s : string) : bool :=
  match char0 s with
  | Some c => Ascii.eqb c "{"%char || Ascii.eqb c "["%char
  | None => false
  end.


(** * Object literals used as dictionaries

    A dictionary of the importer is an object literal, so [dict[k]] also finds
    what the literal inherits from [Object.prototype], and [k in dict] is true
    for those names.  Which names are inherited is a parameter
    [inherited : string -> bool] of the definitions that depend on it;
    [onObjectPrototype] is the set of ECMAScript with its Annex B. *)

Module JSObjects.

Inductive Lookup (V : Type) : Type :=
| Own (v : V)
| Inherited
| Missing.
Arguments Own {V} v.
Arguments Inherited {V}.
Arguments Missing {V}.

(** [dict[k]]: an own value, an inherited one, or [undefined]. *)
Definition jsLookup {V} (inherited : string -> bool) (dict : gmap string V)
    (k : string) : Lookup V :=
  match dict !! k with
  | Some v => Own v
  | None => if inherited k then Inherited else Missing
  end.

(** [k in dict]. *)
Definition jsIn {V} (inherited : string -> bool) (dict : gmap string V)
    (k : string) : bool :=
  bool_decide (is_Some (dict !! k)) || inherited k.

Definition objectPrototypeNames : list string :=
  ["constructor"; "hasOwnProperty"; "isPrototypeOf"; "propertyIsEnumerable";
   "toLocaleString"; "toString"; "valueOf"; "__proto__"; "__defineGetter__";
   "__defineSetter__"; "__lookupGetter__"; "__lookupSetter__"].

Definition onObjectPrototype (k : string) : bool :=
  bool_decide (k ∈ objectPrototypeNames).

End JSObjects.

(** * Trace events and the parts of the model every handler shares *)

(** ** Timestamps

    Modelled from the spec: base/units/units.js is not part of the sources;
    input timestamps are microseconds and the model's unit is milliseconds. *)
Definition timestampFromUs (us : Z) : Q := (inject_Z us / inject_Z 1000)%Q.

(** [timestampFromUs] of a field that may be missing; [None] is the [NaN]
    that JavaScript computes from [undefined]. *)
Definition timestampFromUs_opt (us : option Z) : option Q :=
  option_map timestampFromUs us.

Definition maybeTimestampFromUs (us : option Z) : option Q :=
  option_map timestampFromUs us.

(** ** Colors: the color scheme of ui/base is an external collaborator *)
Class ColorScheme : Type := {
  getColorIdForReservedName : string -> option Z;
  getColorIdForGeneralPurposeString : string -> option Z
}.

(** A color id is used as a condition in [reservedColorId || ...]. *)
Definition truthyId (c : option Z) : bool :=
  match c with
  | Some n => negb (n =? 0)%Z
  | None => false
  end.

Definition truthyStr (s : option string) : bool :=
  match s with
  | Some x => negb (String.eqb x "")
  | None => false
  end.

(** ['' + v] for a string that may be [undefined]. *)
Definition jsStr (s : option string) : string := default "undefined" s.

(** ** Events *)

Definition Args : Type := list (string * JSValue).

Record Event : Type := mkEvent {
  ev_ph : string;
  ev_cat : option string;
  ev_name : option string;
  ev_pid : Z;
  ev_tid : Z;
  ev_ts : Z;
  ev_dur : option Z;
  ev_tts : option Z;
  ev_tdur : option Z;
  ev_args : option Args;
  ev_argsStripped : bool;
  ev_id : option string;
  ev_bind_id : JSValue;
  ev_flow_in : JSValue;
  ev_flow_out : JSValue;
  ev_flowPhase : option string;
  ev_bp : JSValue;
  ev_s : option string;
  ev_cname : option string;
  ev_sf : option string;
  ev_stack : option JSValue;
  ev_esf : option string;
  ev_estack : option JSValue;
  ev_use_async_tts : bool
}.

(** An event with the given phase, thread and timestamp and nothing else. *)
Definition bareEvent (ph : string) (pid tid ts : Z) : Event :=
  mkEvent ph None None pid tid ts None None None None false None
          JSUndefined JSUndefined JSUndefined None JSUndefined None None
          None None None None false.

Definition named (cat name : option string) (id : option string) (e : Event) : Event :=
  mkEvent (ev_ph e) cat name (ev_pid e) (ev_tid e) (ev_ts e) (ev_dur e)
          (ev_tts e) (ev_tdur e) (ev_args e) (ev_argsStripped e) id
          (ev_bind_id e) (ev_flow_in e) (ev_flow_out e) (ev_flowPhase e)
          (ev_bp e) (ev_s e) (ev_cname e) (ev_sf e) (ev_stack e) (ev_esf e)
          (ev_estack e) (ev_use_async_tts e).

Definition withArgs (a : option Args) (e : Event) : Event :=
  mkEvent (ev_ph e) (ev_cat e) (ev_name e) (ev_pid e) (ev_tid e) (ev_ts e)
          (ev_dur e) (ev_tts e) (ev_tdur e) a (ev_argsStripped e) (ev_id e)
          (ev_bind_id e) (ev_flow_in e) (ev_flow_out e) (ev_flowPhase e)
          (ev_bp e) (ev_s e) (ev_cname e) (ev_sf e) (ev_stack e) (ev_esf e)
          (ev_estack e) (ev_use_async_tts e).

Definition withScope (s : option string) (e : Event) : Event :=
  mkEvent (ev_ph e) (ev_cat e) (ev_name e) (ev_pid e) (ev_tid e) (ev_ts e)
          (ev_dur e) (ev_tts e) (ev_tdur e) (ev_args e) (ev_argsStripped e)
          (ev_id e) (ev_bind_id e) (ev_flow_in e) (ev_flow_out e)
          (ev_flowPhase e) (ev_bp e) s (ev_cname e) (ev_sf e) (ev_stack e)
          (ev_esf e) (ev_estack e) (ev_use_async_tts e).

Definition withFlow (dur : option Z) (bind_id flow_in flow_out : JSValue)
    (e : Event) : Event :=
  mkEvent (ev_ph e) (ev_cat e) (ev_name e) (ev_pid e) (ev_tid e) (ev_ts e) dur
          (ev_tts e) (ev_tdur e) (ev_args e) (ev_argsStripped e) (ev_id e)
          bind_id flow_in flow_out (ev_flowPhase e) (ev_bp e) (ev_s e)
          (ev_cname e) (ev_sf e) (ev_stack e) (ev_esf e) (ev_estack e)
          (ev_use_async_tts e).

Definition withBp (bp : JSValue) (e : Event) : Event :=
  mkEvent (ev_ph e) (ev_cat e) (ev_name e) (ev_pid e) (ev_tid e) (ev_ts e)
          (ev_dur e) (ev_tts e) (ev_tdur e) (ev_args e) (ev_argsStripped e)
          (ev_id e) (ev_bind_id e) (ev_flow_in e) (ev_flow_out e)
          (ev_flowPhase e) bp (ev_s e) (ev_cname e) (ev_sf e) (ev_stack e)
          (ev_esf e) (ev_estack e) (ev_use_async_tts e).

Definition withStack (sf : option string) (stack : option JSValue) (e : Event) : Event :=
  mkEvent (ev_ph e) (ev_cat e) (ev_name e) (ev_pid e) (ev_tid e) (ev_ts e)
          (ev_dur e) (ev_tts e) (ev_tdur e) (ev_args e) (ev_argsStripped e)
          (ev_id e) (ev_bind_id e) (ev_flow_in e) (ev_flow_out e)
          (ev_flowPhase e) (ev_bp e) (ev_s e) (ev_cname e) sf stack (ev_esf e)
          (ev_estack e) (ev_use_async_tts e).

(** [event.flowPhase = phase]. *)
Definition setFlowPhase (phase : string) (e : Event) : Event :=
  mkEvent (ev_ph e) (ev_cat e) (ev_name e) (ev_pid e) (ev_tid e) (ev_ts e)
          (ev_dur e) (ev_tts e) (ev_tdur e) (ev_args e) (ev_argsStripped e)
          (ev_id e) (ev_bind_id e) (ev_flow_in e) (ev_flow_out e) (Some phase)
          (ev_bp e) (ev_s e) (ev_cname e) (ev_sf e) (ev_stack e) (ev_esf e)
          (ev_estack e) (ev_use_async_tts e).

(** [event.argsStripped = true; event.args = undefined]. *)
Definition stripArgs (e : Event) : Event :=
  mkEvent (ev_ph e) (ev_cat e) (ev_name e) (ev_pid e) (ev_tid e) (ev_ts e)
          (ev_dur e) (ev_tts e) (ev_tdur e) None true (ev_id e)
          (ev_bind_id e) (ev_flow_in e) (ev_flow_out e) (ev_flowPhase e)
          (ev_bp e) (ev_s e) (ev_cname e) (ev_sf e) (ev_stack e) (ev_esf e)
          (ev_estack e) (ev_use_async_tts e).

Definition PRODUCER : string := "producer".
Definition CONSUMER : string := "consumer".
Definition STEP : string := "step".

(** A thread of the model is reached through its process id and thread id. *)
Definition ThreadRef : Type := (Z * Z)%type.

Definition threadOf (e : Event) : ThreadRef := (ev_pid e, ev_tid e).

(** [getEventColor]. *)
Definition getEventColor {colors : ColorScheme} (event : Event)
    (opt_customName : option string) : option Z :=
  if truthyStr (ev_cname event) then
    getColorIdForReservedName (jsStr (ev_cname event))
  else if truthyStr opt_customName then
    getColorIdForGeneralPurposeString (jsStr opt_customName)
  else if truthyStr (ev_name event) then
    getColorIdForGeneralPurposeString (jsStr (ev_name event))
  else None.

(** ** The warning log of the model ([Model.importWarning]) *)

Record ImportLog : Type := mkLog {
  importWarnings_ : list Warning;
  reportedImportWarnings_ : gset string
}.

Definition emptyLog : ImportLog := mkLog [] ∅.

Definition importWarning (data : Warning) (log : ImportLog) : ImportLog :=
  mkLog (importWarnings_ log ++ [data])
        ({[ wtype data ]} ∪ reportedImportWarnings_ log).

Definition warn (type message : string) : ImportLog -> ImportLog :=
  importWarning (mkWarning type message).

(** ** Stack frames *)

Record StackFrame : Type := mkStackFrame {
  frame_id : string;
  frame_title : option string
}.

(** [getStackFrameForEvent_]: the frame an event names, if any, and the
    warnings of the lookup.  A frame is returned by its fully qualified id.

    For an event with a [stack] and no [sf] the code calls
    [this.model_.resolveStackToStackFrame_]; the method of that name belongs
    to the importer, the model of model.js has none, and the call throws a
    [TypeError]. *)
Definition getStackFrameForEvent_ (stackFrames : gmap string StackFrame)
    (event : Event) (opt_lookForEndEvent : bool) (log : ImportLog)
    : Completion (option string * ImportLog) :=
  let sf := if opt_lookForEndEvent then ev_esf event else ev_sf event in
  let stack := if opt_lookForEndEvent then ev_estack event else ev_stack event in
  match stack, sf with
  | Some _, Some _ =>
      Normal (None, warn "stack_frame_and_stack_error"
                         ("Event at " +:+ pretty (ev_ts event) +:+
                          " cannot have both a stack and a stackframe.") log)
  | Some _, None => Throw TypeError
  | None, None => Normal (None, log)
  | None, Some f =>
      match stackFrames !! ("g" +:+ f) with
      | Some frame => Normal (Some (frame_id frame), log)
      | None => Normal (None, warn "sample_import_error" ("No frame for " +:+ f) log)
      end
  end.

(** The events for which the lookup of the start frame, or of the end frame,
    calls the missing method. *)
Definition stackWithoutFrame (event : Event) (opt_lookForEndEvent : bool) : bool :=
  let sf := if opt_lookForEndEvent then ev_esf event else ev_sf event in
  let stack := if opt_lookForEndEvent then ev_estack event else ev_stack event in
  match stack, sf with
  | Some _, None => true
  | _, _ => false
  end.

(** ** Argument bags *)

(** [o[k] = v]. *)
Fixpoint assoc_set {V} (k : string) (v : V) (o : list (string * V)) : list (string * V) :=
  match o with
  | [] => [(k, v)]
  | (k', v') :: o' =>
      if String.eqb k k' then (k, v) :: o' else (k', v') :: assoc_set k v o'
  end.

(** [deepCopyIfNeeded_] and [deepCopyAlways_]: a copy of an immutable value
    is the value; [undefined] becomes the empty object. *)
Definition deepCopyArgs (obj : option Args) : Args := default [] obj.

Definition deepCopyValue (v : JSValue) : JSValue :=
  match v with
  | JSUndefined => JSObject []
  | _ => v
  end.

(** [dstArgs[arg] !== undefined].  The destination is an object literal: a
    name that it does not have is looked up on [Object.prototype]. *)
Definition hasValue (arg : string) (dstArgs : Args) : bool :=
  match assoc_get arg dstArgs with
  | Some JSUndefined => false
  | Some _ => true
  | None => JSObjects.onObjectPrototype arg
  end.

(** [dstArgs[arg] = v].  Unless the destination has a property of that name
    of its own, [__proto__] is the accessor of [Object.prototype], and the
    assignment adds no property.  (For an object or [null] it replaces the
    prototype of the destination; the embedding has no prototype but
    [Object.prototype].) *)
Definition assignArg (arg : string) (v : JSValue) (dstArgs : Args) : Args :=
  if String.eqb arg "__proto__" && negb (bool_decide (is_Some (assoc_get arg dstArgs)))
  then dstArgs
  else assoc_set arg v dstArgs.

(** The source assigns no object, array or [null] to [__proto__]: the
    prototype of the destination stays [Object.prototype]. *)
Definition keepsPrototype (srcArgs : Args) : Prop :=
  Forall (fun kv : string * JSValue =>
            kv.1 = "__proto__" ->
            match deepCopyValue kv.2 with
            | JSNull | JSArray _ | JSObject _ => False
            | _ => True
            end) srcArgs.

(** [mergeArgsInto_]. *)
Fixpoint mergeArgsInto_ (dstArgs srcArgs : Args) (eventName : string)
    (log : ImportLog) : Args * ImportLog :=
  match srcArgs with
  | [] => (dstArgs, log)
  | (arg, v) :: rest =>
      let log' :=
        if hasValue arg dstArgs then
          warn "arg_merge_error"
               ("Different phases of " +:+ eventName +:+
                " provided values for argument " +:+ arg +:+ "." +:+
                " The last provided value will be used.") log
        else log in
      mergeArgsInto_ (assignArg arg (deepCopyValue v) dstArgs) rest eventName log'
  end.

(** ['' + v]; an array joins its elements with commas, and [undefined] and
    [null] elements give the empty string. *)
Fixpoint jsToString (v : JSValue) : string :=
  match v with
  | JSUndefined => "undefined"
  | JSNull => "null"
  | JSBool true => "true"
  | JSBool false => "false"
  | JSNumber n => pretty n
  | JSString s => s
  | JSArray l =>
      (fix join (l : list JSValue) : string :=
         match l with
         | [] => ""
         | x :: l' =>
             let sx := match x with
                       | JSUndefined | JSNull => ""
                       | _ => jsToString x
                       end in
             match l' with
             | [] => sx
             | _ :: _ => sx +:+ "," +:+ join l'
             end
         end)
      l
  | JSObject _ => "[object Object]"
  end.

(** Modelled from the spec: [tr.b.concatenateObjects] (base/utils.js is not
    part of the sources) gives the "concatenation" of its arguments; a later
    object overrides the keys of an earlier one. *)
Definition concatenateObjects (objs : list Args) : Args :=
  fold_left (fun acc o => fold_left (fun acc' kv => assoc_set kv.1 kv.2 acc') o acc)
            objs [].

(** * The model graph: processes, threads, slice groups, counters *)

Module TraceModel.

(** ** Slices *)

Definition SliceRef : Type := nat.

Record Slice : Type := mkSlice {
  slice_category : option string;
  slice_title : option string;
  slice_colorId : option Z;
  slice_start : Q;
  slice_duration : option Q;
  slice_cpuStart : option Q;
  slice_cpuDuration : option Q;
  slice_args : Args;
  slice_argsStripped : bool;
  slice_bindId : JSValue;
  slice_startStackFrame : option string;
  slice_endStackFrame : option string
}.

Definition setStartStackFrame (f : option string) (s : Slice) : Slice :=
  mkSlice (slice_category s) (slice_title s) (slice_colorId s) (slice_start s)
          (slice_duration s) (slice_cpuStart s) (slice_cpuDuration s)
          (slice_args s) (slice_argsStripped s) (slice_bindId s)
          f (slice_endStackFrame s).

Definition setEndStackFrame (f : option string) (s : Slice) : Slice :=
  mkSlice (slice_category s) (slice_title s) (slice_colorId s) (slice_start s)
          (slice_duration s) (slice_cpuStart s) (slice_cpuDuration s)
          (slice_args s) (slice_argsStripped s) (slice_bindId s)
          (slice_startStackFrame s) f.

Definition setArgs (a : Args) (s : Slice) : Slice :=
  mkSlice (slice_category s) (slice_title s) (slice_colorId s) (slice_start s)
          (slice_duration s) (slice_cpuStart s) (slice_cpuDuration s)
          a (slice_argsStripped s) (slice_bindId s)
          (slice_startStackFrame s) (slice_endStackFrame s).

(** The interface of [SliceGroup] (model/slice_group.js, which is not part of
    the sources).  A slice of a group is named by a reference; the importer
    reads and assigns fields of the slices that the group hands out. *)
Class SliceGroupOps (SG : Type) : Type := {
  newSliceGroup : SG;
  isTimestampValidForBeginOrEnd : SG -> Q -> bool;
  openSliceCount : SG -> nat;
  (* beginSlice(cat, title, ts, args, tts, argsStripped, colorId) *)
  beginSlice : SG -> option string -> option string -> Q -> Args ->
               option Q -> bool -> option Z -> SG * SliceRef;
  (* endSlice(ts, tts, colorId) *)
  endSlice : SG -> Q -> option Q -> option Z -> SG * SliceRef;
  (* pushCompleteSlice(cat, title, ts, duration, tts, cpuDuration, args,
                       argsStripped, colorId, bind_id) *)
  pushCompleteSlice : SG -> option string -> option string -> Q -> option Q ->
                      option Q -> option Q -> Args -> bool -> option Z ->
                      JSValue -> SG * SliceRef;
  readSlice : SG -> SliceRef -> Slice;
  writeSlice : SG -> SliceRef -> Slice -> SG;
  findSliceAtTs : SG -> Q -> option SliceRef;
  findNextSliceAfter : SG -> Q -> Z -> option SliceRef
}.

(** ** Asynchronous slices (model/async_slice.js is not part of the sources;
    the fields are those the importer passes to the constructor and assigns) *)

Inductive AsyncSlice : Type := mkAsyncSlice {
  as_category : option string;
  as_title : string;
  as_colorId : option Z;
  as_start : Q;
  as_args : Args;
  as_duration : Q;
  as_isTopLevel : option bool;
  as_cpuStart : option Q;
  as_cpuDuration : option (Q + bool);
  as_argsStripped : bool;
  as_startThread : ThreadRef;
  as_endThread : ThreadRef;
  as_startStackFrame : option string;
  as_endStackFrame : option string;
  as_id : string;
  as_error : option string;
  as_subSlices : list AsyncSlice
}.

Definition as_end (s : AsyncSlice) : Q := (as_start s + as_duration s)%Q.

(** ** Counters (model/counter.js and counter_series.js are not part of the
    sources; a counter is its list of series, a series its list of samples) *)

(** The value of a sample is what [event.args[series.name]] gives: a value
    of the arguments, or, for a name that the arguments do not have and
    object literals inherit, the member of [Object.prototype] of that
    name. *)
Inductive SampleValue : Type :=
| Given (v : JSValue)
| Member (name : string).

Record CounterSeries : Type := mkSeries {
  series_name : string;
  series_colorId : option Z;
  series_samples : list (Q * SampleValue)
}.

Record Counter : Type := mkCounter {
  counter_category : option string;
  counter_name : string;
  counter_series : list CounterSeries
}.

(** ** Instant events *)

Record InstantEvent : Type := mkInstantEvent {
  ie_category : option string;
  ie_title : option string;
  ie_colorId : option Z;
  ie_start : Q;
  ie_args : Args
}.

(** ** Threads, processes, model *)

Record Thread (SG : Type) : Type := mkThread {
  sliceGroup : SG;
  asyncSliceGroup : list AsyncSlice
}.
Arguments mkThread {SG} _ _.
Arguments sliceGroup {SG} _.
Arguments asyncSliceGroup {SG} _.

Record Process (SG : Type) : Type := mkProcess {
  threads : gmap Z (Thread SG);
  counters : gmap string Counter;
  process_instantEvents : list InstantEvent
}.
Arguments mkProcess {SG} _ _ _.
Arguments threads {SG} _.
Arguments counters {SG} _.
Arguments process_instantEvents {SG} _.

Record Model (SG : Type) : Type := mkModel {
  processes : gmap Z (Process SG);
  log : ImportLog;
  stackFrames : gmap string StackFrame;
  instantEvents : list InstantEvent
}.
Arguments mkModel {SG} _ _ _ _.
Arguments processes {SG} _.
Arguments log {SG} _.
Arguments stackFrames {SG} _.
Arguments instantEvents {SG} _.

Section WithSliceGroup.
Context {SG : Type} {ops : SliceGroupOps SG}.

Definition emptyModel : Model SG := mkModel ∅ emptyLog ∅ [].

Definition setProcesses (ps : gmap Z (Process SG)) (m : Model SG) : Model SG :=
  mkModel ps (log m) (stackFrames m) (instantEvents m).

Definition setLog (l : ImportLog) (m : Model SG) : Model SG :=
  mkModel (processes m) l (stackFrames m) (instantEvents m).

(** [this.model_.importWarning({type, message})]. *)
Definition modelWarning (type message : string) (m : Model SG) : Model SG :=
  setLog (warn type message (log m)) m.

(** Modelled from the spec: model/process.js is not part of the sources;
    "Processes/Threads/Counters are created lazily on first reference". *)
Definition newProcess : Process SG := mkProcess ∅ ∅ [].

Definition newThread : Thread SG := mkThread newSliceGroup [].

(** [Model.getOrCreateProcess]. *)
Definition getOrCreateProcess (pid : Z) (m : Model SG) : Model SG :=
  match processes m !! pid with
  | Some _ => m
  | None => setProcesses (<[pid := newProcess]> (processes m)) m
  end.

Definition theProcess (pid : Z) (m : Model SG) : Process SG :=
  default newProcess (processes m !! pid).

Definition setProcess (pid : Z) (p : Process SG) (m : Model SG) : Model SG :=
  setProcesses (<[pid := p]> (processes m)) m.

(** Modelled from the spec: [Process.getOrCreateThread] (process.js missing),
    lazy creation on first reference. *)
Definition getOrCreateThread (r : ThreadRef) (m : Model SG) : Model SG :=
  let m1 := getOrCreateProcess r.1 m in
  let p := theProcess r.1 m1 in
  match threads p !! r.2 with
  | Some _ => m1
  | None =>
      setProcess r.1 (mkProcess (<[r.2 := newThread]> (threads p)) (counters p)
                                (process_instantEvents p)) m1
  end.

Definition theThread (r : ThreadRef) (m : Model SG) : Thread SG :=
  default newThread (threads (theProcess r.1 m) !! r.2).

Definition setThread (r : ThreadRef) (t : Thread SG) (m : Model SG) : Model SG :=
  let p := theProcess r.1 m in
  setProcess r.1 (mkProcess (<[r.2 := t]> (threads p)) (counters p)
                            (process_instantEvents p)) m.

Definition setSliceGroup (r : ThreadRef) (sg : SG) (m : Model SG) : Model SG :=
  setThread r (mkThread sg (asyncSliceGroup (theThread r m))) m.

(** [thread.asyncSliceGroup.push(slice)]. *)
Definition pushAsyncSlice (r : ThreadRef) (s : AsyncSlice) (m : Model SG) : Model SG :=
  let t := theThread r m in
  setThread r (mkThread (sliceGroup t) (asyncSliceGroup t ++ [s])) m.

(** [model.pushInstantEvent] and [process.pushInstantEvent]. *)
Definition pushInstantEvent (ie : InstantEvent) (m : Model SG) : Model SG :=
  mkModel (processes m) (log m) (stackFrames m) (instantEvents m ++ [ie]).

Definition pushProcessInstantEvent (pid : Z) (ie : InstantEvent) (m : Model SG)
    : Model SG :=
  let p := theProcess pid m in
  setProcess pid (mkProcess (threads p) (counters p)
                            (process_instantEvents p ++ [ie])) m.

End WithSliceGroup.

End TraceModel.
(** * The acceptance predicate *)

Module CanImport.

(** [arr.length && arr[0].ph], for a value already known to be an array. *)
Definition firstHasPh (elems : list JSValue) : Completion bool :=
  match elems with
  | [] => Normal false
  | e0 :: _ => let? ph := getProp e0 "ph" in Normal (truthy ph)
  end.

(** [TraceEventImporter.canImport]. *)
Definition canImport (eventData : JSValue) : Completion bool :=
  match eventData with
  | JSString s => Normal (starts_with_brace_or_bracket (trim s))
  | _ =>
      let? isEvents := match eventData with
                  | JSArray elems => firstHasPh elems
                  | _ => Normal false
                  end in
      if isEvents then Normal true
      else
        let? traceEvents := getProp eventData "traceEvents" in
        if truthy traceEvents then
          match traceEvents with
          | JSArray tes =>
              let? hasPh := firstHasPh tes in
              if hasPh then Normal true
              else
                let? samples := getProp eventData "samples" in
                let? len := getProp samples "length" in
                if truthy len then
                  let? stackFrames := getProp eventData "stackFrames" in
                  if is_undefined stackFrames then Normal false
                  else Normal true
                else Normal false
          | _ => Normal false
          end
        else Normal false
  end.

(** The acceptance predicate in the words of the specification: a string
    beginning with a brace or bracket, an array whose first element has a
    [ph] field, an object whose [traceEvents] is such an array, or an object
    whose [samples] and [stackFrames] are present. *)
Definition hasField (v : JSValue) (k : string) : bool :=
  match v with
  | JSObject o => bool_decide (is_Some (assoc_get k o))
  | _ => false
  end.

Definition spec_eventArray (v : JSValue) : bool :=
  match v with
  | JSArray (e0 :: _) => hasField e0 "ph"
  | _ => false
  end.

Definition spec_canImport (v : JSValue) : bool :=
  match v with
  | JSString s => starts_with_brace_or_bracket (trim s)
  | JSArray _ => spec_eventArray v
  | JSObject o =>
      match assoc_get "traceEvents" o with
      | Some te => spec_eventArray te
      | None => false
      end
      || (hasField v "samples" && hasField v "stackFrames")
  | _ => false
  end.

(** What the code accepts: the [ph] of the first element must be truthy, and
    [samples] and [stackFrames] are only looked at inside a [traceEvents]
    array, where [samples.length] must be truthy and [stackFrames] must not
    be [undefined]. *)
Definition field (o : list (string * JSValue)) (k : string) : JSValue :=
  default JSUndefined (assoc_get k o).

Definition truthyPh (e : JSValue) : bool :=
  match e with
  | JSObject o => truthy (field o "ph")
  | _ => false
  end.

Definition firstTruthyPh (elems : list JSValue) : bool :=
  match elems with
  | e0 :: _ => truthyPh e0
  | [] => false
  end.

Definition truthyLength (v : JSValue) : bool :=
  match v with
  | JSString s => negb (String.eqb s "")
  | JSArray l => negb (Nat.eqb (length l) 0)
  | JSObject o => truthy (field o "length")
  | _ => false
  end.

Definition accepts (v : JSValue) : bool :=
  match v with
  | JSString s => starts_with_brace_or_bracket (trim s)
  | JSArray elems => firstTruthyPh elems
  | JSObject o =>
      match field o "traceEvents" with
      | JSArray tes =>
          firstTruthyPh tes
          || (truthyLength (field o "samples")
              && negb (is_undefined (field o "stackFrames")))
      | _ => false
      end
  | _ => false
  end.

(** The inputs on which [canImport] reads a property of [undefined] or
    [null]. *)
Definition nullish (v : JSValue) : bool :=
  match v with JSUndefined | JSNull => true | _ => false end.

Definition firstNullish (elems : list JSValue) : bool :=
  match elems with
  | e0 :: _ => nullish e0
  | [] => false
  end.

Definition derefsNullish (v : JSValue) : bool :=
  match v with
  | JSUndefined | JSNull => true
  | JSArray elems => firstNullish elems
  | JSObject o =>
      match field o "traceEvents" with
      | JSArray tes =>
          firstNullish tes
          || (negb (firstTruthyPh tes) && nullish (field o "samples"))
      | _ => false
      end
  | _ => false
  end.

(** An object with [samples] and [stackFrames] and no [traceEvents]. *)
Definition samplesOnly : JSValue :=
  JSObject [("samples", JSArray [JSObject [("ts", JSNumber 1)]]);
            ("stackFrames", JSObject [])].

End CanImport.

(** * [Model.getAllThreads] (model/model.js) *)

Module ModelThreads.

Record Thread : Type := mkThread { thread_tid : string; thread_name : option string }.

(** A process with its [threads] dictionary, a kernel with its own, and the
    model with its [processes] dictionary; each dictionary lists its entries
    in [for .. in] order. *)
Record Process : Type := mkProcess {
  process_pid : string;
  process_threads : list (string * Thread)
}.

Record Kernel : Type := mkKernel { kernel_threads : list (string * Thread) }.

Record Model : Type := mkModel {
  kernel : Kernel;
  processes : list (string * Process)
}.

Definition keys {V} (o : list (string * V)) : list string := map fst o.

(** A dictionary has each key once. *)
Definition wfObj {V} (o : list (string * V)) : Prop := NoDup (keys o).

(** The variables of [getAllThreads]: the array [threads] and the function
    scoped [var process], which is declared in the second loop and therefore
    is [undefined] until that loop assigns it. *)
Record Locals : Type := mkLocals {
  l_threads : list (option Thread);
  l_process : option Process
}.

(** [for (var k in o) body]. *)
Fixpoint forIn {S} (ks : list string) (body : string -> S -> Completion S)
    (st : S) : Completion S :=
  match ks with
  | [] => Normal st
  | k :: ks' => let? st' := body k st in forIn ks' body st'
  end.

(** [threads.push(process.threads[tid])]. *)
Definition pushThreadOf (tid : string) (st : Locals) : Completion Locals :=
  match l_process st with
  | None => Throw TypeError
  | Some p =>
      Normal (mkLocals (l_threads st ++ [assoc_get tid (process_threads p)])
                       (l_process st))
  end.

(** The body of the loop over [this.processes]. *)
Definition eachProcess (m : Model) (pid : string) (st : Locals) : Completion Locals :=
  let st' := mkLocals (l_threads st) (assoc_get pid (processes m)) in
  match l_process st' with
  | None => Throw TypeError
  | Some p => forIn (keys (process_threads p)) pushThreadOf st'
  end.

Definition getAllThreads (m : Model) : Completion (list (option Thread)) :=
  let st0 := mkLocals [] None in
  let? st1 := forIn (keys (kernel_threads (kernel m))) pushThreadOf st0 in
  let? st2 := forIn (keys (processes m)) (eachProcess m) st1 in
  Normal (l_threads st2).

(** The threads of all processes, process by process. *)
Definition threadsOf (p : Process) : list (option Thread) :=
  map (fun kv => Some (snd kv)) (process_threads p).

Definition allProcessThreads (m : Model) : list (option Thread) :=
  flat_map (fun kv => threadsOf (snd kv)) (processes m).

(** Two example models. *)
Definition browser : Process :=
  mkProcess "1" [("1", mkThread "1" (Some "CrBrowserMain")); ("7", mkThread "7" None)].

Definition renderer : Process :=
  mkProcess "2" [("3", mkThread "3" (Some "CrRendererMain"))].

Definition userlandModel : Model :=
  mkModel (mkKernel []) [("1", browser); ("2", renderer)].

Definition kernelModel : Model :=
  mkModel (mkKernel [("0", mkThread "0" (Some "swapper"))]) [("1", browser)].

End ModelThreads.

(** * The phase dispatcher and the handlers that run during dispatch *)

Module Dispatch.
Import TraceModel.

(** An entry of one of the deferred queues.  Entries of the flow queue also
    carry [refGuid] and, for events with flow info, the slice. *)
Record EventState : Type := mkEventState {
  sequenceNumber : nat;
  es_event : Event;
  es_thread : ThreadRef;
  es_refGuid : option Z;
  es_slice : option SliceRef
}.

(** An event of the input array; [raw_stripped] says that its [args] is the
    string ['__stripped__']. *)
Record RawEvent : Type := mkRaw {
  raw_event : Event;
  raw_stripped : bool
}.

Definition phIn (e : Event) (phases : list string) : bool :=
  existsb (String.eqb (ev_ph e)) phases.

(** [s.indexOf(pat) > -1]. *)
Definition contains (s pat : string) : bool :=
  match String.index 0 pat s with
  | Some _ => true
  | None => false
  end.

Definition doubleQuote : string := String (ascii_of_nat 34) EmptyString.

Section Handlers.
Context {SG : Type} {ops : SliceGroupOps SG} {colors : ColorScheme}.

(** The importer's private fields that are not modelled, the handlers that
    only touch the model and those fields, and the key under which a process
    files a counter (process.js is not part of the sources). *)
Context {Aux : Type}.
Variable counterKey : option string -> string -> string.
Variable processTraceSampleEvent : Event -> Model SG -> Aux -> Completion (Model SG * Aux).
Variable processMetadataEvent : Event -> Model SG -> Aux -> Completion (Model SG * Aux).
Variable processMemoryDumpEvent : Event -> Model SG -> Aux -> Completion (Model SG * Aux).
Variable processJitCodeEvent : Event -> Aux -> Completion Aux.
Variable getLastGuid : Model SG -> Z.

Record Importer : Type := mkImporter {
  model_ : Model SG;
  allAsyncEvents_ : list EventState;
  allFlowEvents_ : list EventState;
  allObjectEvents_ : list EventState;
  aux : Aux
}.

Definition newImporter (m : Model SG) (a : Aux) : Importer :=
  mkImporter m [] [] [] a.

Definition setModel (m : Model SG) (imp : Importer) : Importer :=
  mkImporter m (allAsyncEvents_ imp) (allFlowEvents_ imp)
             (allObjectEvents_ imp) (aux imp).

(** [processAsyncEvent]. *)
Definition processAsyncEvent (event : Event) (imp : Importer) : Importer :=
  let m := getOrCreateThread (threadOf event) (model_ imp) in
  mkImporter m
    (allAsyncEvents_ imp ++
       [mkEventState (length (allAsyncEvents_ imp)) event (threadOf event) None None])
    (allFlowEvents_ imp) (allObjectEvents_ imp) (aux imp).

(** [processFlowEvent]. *)
Definition processFlowEvent (event : Event) (opt_slice : option SliceRef)
    (imp : Importer) : Importer :=
  let m := getOrCreateThread (threadOf event) (model_ imp) in
  mkImporter m (allAsyncEvents_ imp)
    (allFlowEvents_ imp ++
       [mkEventState (length (allFlowEvents_ imp)) event (threadOf event)
                     (Some (getLastGuid m)) opt_slice])
    (allObjectEvents_ imp) (aux imp).

(** [processObjectEvent]. *)
Definition processObjectEvent (event : Event) (imp : Importer) : Importer :=
  let m := getOrCreateThread (threadOf event) (model_ imp) in
  mkImporter m (allAsyncEvents_ imp) (allFlowEvents_ imp)
    (allObjectEvents_ imp ++
       [mkEventState (length (allObjectEvents_ imp)) event (threadOf event) None None])
    (aux imp).

(** [processDurationEvent]. *)
Definition processDurationEvent (event : Event) (imp : Importer) : Completion Importer :=
  let r := threadOf event in
  let m := getOrCreateThread r (model_ imp) in
  let sg := sliceGroup (theThread r m) in
  let ts := timestampFromUs (ev_ts event) in
  if negb (isTimestampValidForBeginOrEnd sg ts) then
    Normal (setModel (modelWarning "duration_parse_error"
                                   "Timestamps are moving backward." m) imp)
  else if String.eqb (ev_ph event) "B" then
    let '(sg1, ref) :=
      beginSlice sg (ev_cat event) (ev_name event) ts (deepCopyArgs (ev_args event))
                 (timestampFromUs_opt (ev_tts event)) (ev_argsStripped event)
                 (getEventColor event None) in
    let? found := getStackFrameForEvent_ (stackFrames m) event false (log m) in
    let '(frame, log1) := found in
    let sg2 := writeSlice sg1 ref (setStartStackFrame frame (readSlice sg1 ref)) in
    Normal (setModel (setSliceGroup r sg2 (setLog log1 m)) imp)
  else if phIn event ["I"; "i"; "R"] then
    let? checked :=
      match ev_s event with
      | Some s =>
          if negb (String.eqb s "t") then Throw (Error "This should never happen")
          else Normal tt
      | None => Normal tt
      end in
    let '(sg1, _) :=
      beginSlice sg (ev_cat event) (ev_name event) ts (deepCopyArgs (ev_args event))
                 (timestampFromUs_opt (ev_tts event)) (ev_argsStripped event)
                 (getEventColor event None) in
    let '(sg2, ref) := endSlice sg1 ts (timestampFromUs_opt (ev_tts event)) None in
    let? found := getStackFrameForEvent_ (stackFrames m) event false (log m) in
    let '(frame, log1) := found in
    let sg3 := writeSlice sg2 ref
                 (setEndStackFrame None (setStartStackFrame frame (readSlice sg2 ref))) in
    Normal (setModel (setSliceGroup r sg3 (setLog log1 m)) imp)
  else if Nat.eqb (openSliceCount sg) 0 then
    Normal (setModel (modelWarning "duration_parse_error"
                        "E phase event without a matching B phase event." m) imp)
  else
    let '(sg1, ref) := endSlice sg ts (timestampFromUs_opt (ev_tts event))
                                (getEventColor event None) in
    let slice := readSlice sg1 ref in
    let log1 :=
      if truthyStr (ev_name event) && negb (bool_decide (slice_title slice = ev_name event))
      then warn "title_match_error"
                ("Titles do not match. Title is " +:+ jsStr (slice_title slice) +:+
                 " in openSlice, and is " +:+ jsStr (ev_name event) +:+ " in endSlice")
                (log m)
      else log m in
    let? found := getStackFrameForEvent_ (stackFrames m) event false log1 in
    let '(frame, log2) := found in
    let '(args', log3) :=
      mergeArgsInto_ (slice_args slice) (default [] (ev_args event))
                     (jsStr (slice_title slice)) log2 in
    let sg2 := writeSlice sg1 ref (setArgs args' (setEndStackFrame frame slice)) in
    Normal (setModel (setSliceGroup r sg2 (setLog log3 m)) imp).

(** [processCompleteEvent]: the importer, the event with its [flowPhase]
    assigned, and the slice ([None] is [undefined]).  The two lookups of the
    stack frames come after the slice is pushed; when one of them throws the
    import is over. *)
Definition isOverhead (event : Event) : bool :=
  match ev_cat event with
  | Some c => contains c "trace_event_overhead"
  | None => false
  end.

Definition assignFlowPhase (event : Event) : Event :=
  if truthy (ev_flow_out event) then
    if truthy (ev_flow_in event) then setFlowPhase STEP event
    else setFlowPhase PRODUCER event
  else if truthy (ev_flow_in event) then setFlowPhase CONSUMER event
  else event.

Definition processCompleteEvent (event : Event) (imp : Importer)
    : Completion (Importer * Event * option SliceRef) :=
  if isOverhead event then Normal (imp, event, None)
  else
    let r := threadOf event in
    let m := getOrCreateThread r (model_ imp) in
    let sg := sliceGroup (theThread r m) in
    let event' := assignFlowPhase event in
    let '(sg1, ref) :=
      pushCompleteSlice sg (ev_cat event) (ev_name event)
        (timestampFromUs (ev_ts event))
        (maybeTimestampFromUs (ev_dur event))
        (maybeTimestampFromUs (ev_tts event))
        (maybeTimestampFromUs (ev_tdur event))
        (deepCopyArgs (ev_args event)) (ev_argsStripped event)
        (getEventColor event None) (ev_bind_id event) in
    let? start := getStackFrameForEvent_ (stackFrames m) event' false (log m) in
    let '(f1, log1) := start in
    let? finish := getStackFrameForEvent_ (stackFrames m) event' true log1 in
    let '(f2, log2) := finish in
    let sg2 := writeSlice sg1 ref
                 (setEndStackFrame f2 (setStartStackFrame f1 (readSlice sg1 ref))) in
    Normal (setModel (setSliceGroup r sg2 (setLog log2 m)) imp, event', Some ref).

(** [processInstantEvent]. *)
Definition isJitCodeEvent (event : Event) : bool :=
  bool_decide (ev_name event = Some "JitCodeAdded") ||
  bool_decide (ev_name event = Some "JitCodeMoved").

Definition instantEventOf (event : Event) : InstantEvent :=
  mkInstantEvent (ev_cat event) (ev_name event) (getEventColor event None)
                 (timestampFromUs (ev_ts event)) (deepCopyArgs (ev_args event)).

Definition processInstantEvent (event : Event) (imp : Importer) : Completion Importer :=
  if isJitCodeEvent event then
    let? a := processJitCodeEvent event (aux imp) in
    Normal (mkImporter (model_ imp) (allAsyncEvents_ imp) (allFlowEvents_ imp)
                       (allObjectEvents_ imp) a)
  else
    match ev_s event with
    | None => processDurationEvent event imp
    | Some s =>
        if String.eqb s "t" then processDurationEvent event imp
        else if String.eqb s "g" then
          Normal (setModel (pushInstantEvent (instantEventOf event) (model_ imp)) imp)
        else if String.eqb s "p" then
          let m := getOrCreateProcess (ev_pid event) (model_ imp) in
          Normal (setModel (pushProcessInstantEvent (ev_pid event)
                              (instantEventOf event) m) imp)
        else
          Normal (setModel (modelWarning "instant_parse_error"
                    ("I phase event with unknown " +:+ doubleQuote +:+ "s" +:+
                     doubleQuote +:+ " field value.") (model_ imp)) imp)
    end.

(** Modelled from the spec: [Process.getOrCreateCounter] (process.js is
    missing): counters are "created lazily on first reference" and "keyed by
    (category,name)".  The key itself is [counterKey cat name]. *)
Definition getOrCreateCounter (pid : Z) (cat : option string) (name : string)
    (m : Model SG) : Model SG :=
  let m1 := getOrCreateProcess pid m in
  let p := theProcess pid m1 in
  match counters p !! counterKey cat name with
  | Some _ => m1
  | None =>
      setProcess pid
        (mkProcess (threads p)
                   (<[counterKey cat name := mkCounter cat name []]> (counters p))
                   (process_instantEvents p)) m1
  end.

Definition theCounter (pid : Z) (cat : option string) (name : string)
    (m : Model SG) : Counter :=
  default (mkCounter cat name [])
          (counters (theProcess pid m) !! counterKey cat name).

Definition setCounters (pid : Z) (cs : gmap string Counter) (m : Model SG) : Model SG :=
  let p := theProcess pid m in
  setProcess pid (mkProcess (threads p) cs (process_instantEvents p)) m.

(** The name of the counter of a [C] event. *)
Definition ctr_name (event : Event) : string :=
  match ev_id event with
  | Some id => jsStr (ev_name event) +:+ "[" +:+ id +:+ "]"
  | None => jsStr (ev_name event)
  end.

(** The series that the first event of a counter creates, one per argument. *)
Definition initialSeries (event : Event) (ctrName : string) : list CounterSeries :=
  let reservedColorId :=
    if truthyStr (ev_cname event) then getEventColor event None else None in
  map (fun kv : string * JSValue =>
         let seriesName := kv.1 in
         let colorId :=
           if truthyId reservedColorId then reservedColorId
           else getEventColor event (Some (ctrName +:+ "." +:+ seriesName)) in
         mkSeries seriesName colorId [])
      (default [] (ev_args event)).

(** [event.args[name] ? event.args[name] : 0]: the arguments are an object
    literal, and a member of [Object.prototype] is truthy. *)
Definition counterValue (args : Args) (name : string) : SampleValue :=
  match assoc_get name args with
  | Some v => if truthy v then Given v else Given (JSNumber 0)
  | None =>
      if JSObjects.onObjectPrototype name then Member name else Given (JSNumber 0)
  end.

(** [series.addCounterSample(ts, val)] with
    [val = event.args[series.name] ? event.args[series.name] : 0]. *)
Definition addCounterSample (ts : Q) (args : Args) (series : CounterSeries)
    : CounterSeries :=
  mkSeries (series_name series) (series_colorId series)
           (series_samples series ++ [(ts, counterValue args (series_name series))]).

(** [processCounterEvent]. *)
Definition processCounterEvent (event : Event) (m0 : Model SG) : Completion (Model SG) :=
  let name := ctr_name event in
  let cat := ev_cat event in
  let pid := ev_pid event in
  let m := getOrCreateCounter pid cat name m0 in
  let ctr := theCounter pid cat name m in
  let ctr1 :=
    if Nat.eqb (length (counter_series ctr)) 0
    then mkCounter (counter_category ctr) (counter_name ctr)
                   (initialSeries event (counter_name ctr))
    else ctr in
  if Nat.eqb (length (counter_series ctr1)) 0 then
    let m1 := modelWarning "counter_parse_error"
                ("Expected counter " +:+ jsStr (ev_name event) +:+
                 " to have at least one argument to use as a value.") m in
    (* delete ctr.parent.counters[ctr.name] *)
    Normal (setCounters pid
              (delete (counter_name ctr1) (counters (theProcess pid m1))) m1)
  else
    match ev_args event with
    | None => Throw TypeError
    | Some args =>
        let ts := timestampFromUs (ev_ts event) in
        let ctr2 := mkCounter (counter_category ctr1) (counter_name ctr1)
                      (map (addCounterSample ts args) (counter_series ctr1)) in
        Normal (setCounters pid
                  (<[counterKey cat name := ctr2]> (counters (theProcess pid m))) m)
    end.

(** The body of the loop of [importEvents]. *)
Definition dispatchEvent (rawEvent : RawEvent) (imp : Importer) : Completion Importer :=
  let event := if raw_stripped rawEvent then stripArgs (raw_event rawEvent)
               else raw_event rawEvent in
  if phIn event ["B"; "E"] then processDurationEvent event imp
  else if phIn event ["X"] then
    let? done := processCompleteEvent event imp in
    let '(imp1, event', slice) := done in
    match slice with
    | Some ref =>
        if negb (is_undefined (ev_bind_id event'))
        then Normal (processFlowEvent event' (Some ref) imp1)
        else Normal imp1
    | None => Normal imp1
    end
  else if phIn event ["b"; "e"; "n"; "S"; "F"; "T"; "p"] then
    Normal (processAsyncEvent event imp)
  else if phIn event ["I"; "i"; "R"] then processInstantEvent event imp
  else if phIn event ["P"] then
    let? r := processTraceSampleEvent event (model_ imp) (aux imp) in
    Normal (mkImporter r.1 (allAsyncEvents_ imp) (allFlowEvents_ imp)
                       (allObjectEvents_ imp) r.2)
  else if phIn event ["C"] then
    let? m := processCounterEvent event (model_ imp) in
    Normal (setModel m imp)
  else if phIn event ["M"] then
    let? r := processMetadataEvent event (model_ imp) (aux imp) in
    Normal (mkImporter r.1 (allAsyncEvents_ imp) (allFlowEvents_ imp)
                       (allObjectEvents_ imp) r.2)
  else if phIn event ["N"; "D"; "O"] then
    Normal (processObjectEvent event imp)
  else if phIn event ["s"; "t"; "f"] then
    Normal (processFlowEvent event None imp)
  else if phIn event ["v"; "V"] then
    let? r := processMemoryDumpEvent event (model_ imp) (aux imp) in
    Normal (mkImporter r.1 (allAsyncEvents_ imp) (allFlowEvents_ imp)
                       (allObjectEvents_ imp) r.2)
  else
    Normal (setModel (modelWarning "parse_error"
              ("Unrecognized event phase: " +:+ ev_ph event +:+ " (" +:+
               jsStr (ev_name event) +:+ ")") (model_ imp)) imp).

(** The loop of [importEvents] over [this.events_]. *)
Fixpoint importEvents (events : list RawEvent) (imp : Importer) : Completion Importer :=
  match events with
  | [] => Normal imp
  | e :: rest => let? imp1 := dispatchEvent e imp in importEvents rest imp1
  end.

End Handlers.

(** ** The comparison function of the three deferred sorts *)

(** [function(x, y) { var d = x.event.ts - y.event.ts; if (d != 0) return d;
    return x.sequenceNumber - y.sequenceNumber; }] *)
Definition compareEntries (x y : EventState) : Z :=
  let d := ev_ts (es_event x) - ev_ts (es_event y) in
  if negb (d =? 0)%Z then d
  else Z.of_nat (sequenceNumber x) - Z.of_nat (sequenceNumber y).

(** [x] may stand before [y] in the sorted array. *)
Definition entryLe (x y : EventState) : Prop := compareEntries x y <= 0.

Global Instance entryLe_dec (x y : EventState) : Decision (entryLe x y).
Proof. unfold entryLe. apply _. Defined.

(** [Array.prototype.sort] with [compareEntries]; the engine's algorithm is
    not specified, merge sort stands for it. *)
Definition sortQueue (q : list EventState) : list EventState :=
  merge_sort entryLe q.

End Dispatch.

(** * A slice group after the specification

    Modelled from the spec: model/slice_group.js is not part of the sources.
    "Per-thread the SliceGroup maintains a stack of open slices"; B pushes a
    new open slice, E closes the top slice, X pushes a closed slice; a
    timestamp is refused when it is below "the greatest previously-observed
    timestamp in this group". *)

Module SpecSliceGroup.
Import TraceModel.

Record SpecSG : Type := mkSpecSG {
  ssg_slices : list Slice;
  ssg_open : list nat;
  ssg_greatest : option Q
}.

Definition observe (ts : Q) (g : option Q) : option Q :=
  match g with
  | Some x => if Qle_bool x ts then Some ts else Some x
  | None => Some ts
  end.

Definition spec_isValid (sg : SpecSG) (ts : Q) : bool :=
  match ssg_greatest sg with
  | Some g => Qle_bool g ts
  | None => true
  end.

Definition spec_beginSlice (sg : SpecSG) (cat title : option string) (ts : Q)
    (args : Args) (tts : option Q) (argsStripped : bool) (colorId : option Z)
    : SpecSG * SliceRef :=
  let s := mkSlice cat title colorId ts None tts None args argsStripped
                   JSUndefined None None in
  (mkSpecSG (ssg_slices sg ++ [s]) (length (ssg_slices sg) :: ssg_open sg)
            (observe ts (ssg_greatest sg)),
   length (ssg_slices sg)).

Definition closeSlice (ts : Q) (tts : option Q) (colorId : option Z) (s : Slice) : Slice :=
  mkSlice (slice_category s) (slice_title s)
          (if truthyId colorId then colorId else slice_colorId s)
          (slice_start s) (Some (ts - slice_start s)%Q) (slice_cpuStart s)
          (match tts, slice_cpuStart s with
           | Some e, Some b => Some (e - b)%Q
           | _, _ => None
           end)
          (slice_args s) (slice_argsStripped s) (slice_bindId s)
          (slice_startStackFrame s) (slice_endStackFrame s).

Definition spec_endSlice (sg : SpecSG) (ts : Q) (tts : option Q)
    (colorId : option Z) : SpecSG * SliceRef :=
  match ssg_open sg with
  | [] => (sg, 0%nat)
  | top :: rest =>
      (mkSpecSG (alter (closeSlice ts tts colorId) top (ssg_slices sg)) rest
                (observe ts (ssg_greatest sg)),
       top)
  end.

Definition spec_pushCompleteSlice (sg : SpecSG) (cat title : option string)
    (ts : Q) (duration tts cpuDuration : option Q) (args : Args)
    (argsStripped : bool) (colorId : option Z) (bind_id : JSValue)
    : SpecSG * SliceRef :=
  let s := mkSlice cat title colorId ts duration tts cpuDuration args
                   argsStripped bind_id None None in
  (mkSpecSG (ssg_slices sg ++ [s]) (ssg_open sg) (ssg_greatest sg),
   length (ssg_slices sg)).

Definition defaultSlice : Slice :=
  mkSlice None None None 0%Q None None None [] false JSUndefined None None.

Definition spec_readSlice (sg : SpecSG) (ref : SliceRef) : Slice :=
  default defaultSlice (ssg_slices sg !! ref).

Definition spec_writeSlice (sg : SpecSG) (ref : SliceRef) (s : Slice) : SpecSG :=
  mkSpecSG (<[ref := s]> (ssg_slices sg)) (ssg_open sg) (ssg_greatest sg).

Definition containsTs (ts : Q) (s : Slice) : bool :=
  Qle_bool (slice_start s) ts &&
  match slice_duration s with
  | Some d => Qle_bool ts (slice_start s + d)%Q
  | None => true
  end.

Fixpoint findIndex {A} (p : A -> bool) (l : list A) (i : nat) : option nat :=
  match l with
  | [] => None
  | x :: l' => if p x then Some i else findIndex p l' (S i)
  end.

Definition spec_findSliceAtTs (sg : SpecSG) (ts : Q) : option SliceRef :=
  findIndex (containsTs ts) (ssg_slices sg) 0.

Definition spec_findNextSliceAfter (sg : SpecSG) (ts : Q) (refGuid : Z)
    : option SliceRef :=
  findIndex (fun s => Qle_bool ts (slice_start s)) (ssg_slices sg) 0.

Definition specOps : SliceGroupOps SpecSG := {|
  newSliceGroup := mkSpecSG [] [] None;
  isTimestampValidForBeginOrEnd := spec_isValid;
  openSliceCount := fun sg => length (ssg_open sg);
  beginSlice := spec_beginSlice;
  endSlice := spec_endSlice;
  pushCompleteSlice := spec_pushCompleteSlice;
  readSlice := spec_readSlice;
  writeSlice := spec_writeSlice;
  findSliceAtTs := spec_findSliceAtTs;
  findNextSliceAfter := spec_findNextSliceAfter
|}.

(** A color scheme for the examples: the length of the name. *)
Definition lengthColors : ColorScheme := {|
  getColorIdForReservedName := fun s => Some (Z.of_nat (String.length s));
  getColorIdForGeneralPurposeString := fun s => Some (Z.of_nat (String.length s))
|}.

End SpecSliceGroup.

(** * What the specification says about the dispatcher *)

Module DispatchSpec.
Import TraceModel Dispatch.

(** The order of the specification: by timestamp, ties broken by sequence
    number. *)
Definition tsThenSeq (x y : EventState) : Prop :=
  ev_ts (es_event x) < ev_ts (es_event y) \/
  (ev_ts (es_event x) = ev_ts (es_event y) /\
   (sequenceNumber x <= sequenceNumber y)%nat).



Section Queues.
Context {SG : Type} {Aux : Type}.


Definition sameQueues (imp imp' : Importer (SG := SG) (Aux := Aux)) : Prop :=
  allAsyncEvents_ imp' = allAsyncEvents_ imp /\
  allFlowEvents_ imp' = allFlowEvents_ imp /\
  allObjectEvents_ imp' = allObjectEvents_ imp.

End Queues.

(** The events that the dispatcher hands to [processDurationEvent]: B and E
    events, and I, i and R events of thread scope that are no V8 JIT code
    events. *)
Definition threadScoped (event : Event) : bool :=
  match ev_s event with
  | None => true
  | Some s => String.eqb s "t"
  end.

Definition isDurationEvent (event : Event) : bool :=
  phIn event ["B"; "E"] ||
  (phIn event ["I"; "i"; "R"] && negb (isJitCodeEvent event) && threadScoped event).

Definition backwardWarning : Warning :=
  mkWarning "duration_parse_error" "Timestamps are moving backward.".

End DispatchSpec.

(** * The async slice assembler ([createAsyncSlices_]) *)

Module AsyncAssembler.
Import TraceModel Dispatch.

Definition asyncWarn (message : string) : ImportLog -> ImportLog :=
  warn "async_slice_parse_error" message.

Definition field (o : Args) (k : string) : JSValue :=
  default JSUndefined (assoc_get k o).

Definition NO_END : string :=
  "Slice has no matching END. End time has been adjusted.".
Definition NO_BEGIN : string :=
  "Slice has no matching BEGIN. Start time has been adjusted.".

Section Assembler.
Context {SG : Type} {ops : SliceGroupOps SG} {colors : ColorScheme}.

(** ** Legacy async events (S, T, p, F) *)

(** [assertStepTypeMatches_]. *)
Definition assertStepTypeMatches_ (stepType : string) (event : EventState)
    (log : ImportLog) : bool * ImportLog :=
  if negb (String.eqb stepType (ev_ph (es_event event))) then
    (false,
     asyncWarn ("At " +:+ pretty (ev_ts (es_event event)) +:+ ", a slice named " +:+
                jsStr (ev_name (es_event event)) +:+ " with id=" +:+
                jsStr (ev_id (es_event event)) +:+
                " had both begin and end steps, which is not allowed.") log)
  else (true, log).

(** The variables of the loop over the steps of one slice. *)
Record StepState : Type := mkStepState {
  ss_log : ImportLog;
  ss_subSlices : list AsyncSlice;
  ss_isValid : bool
}.

(** The sub slice of the step [events[j]]. *)
Definition subSliceOf (events : list EventState) (event : Event) (id : string)
    (stepType : string) (j : nat) (ej : EventState) : Completion AsyncSlice :=
  let startIndex := if String.eqb stepType "T" then j else (j - 1)%nat in
  let endIndex := S startIndex in
  let isStep := phIn (es_event ej) ["T"; "p"] in
  let? subName :=
    if negb (ev_argsStripped (es_event ej)) && isStep then
      match ev_args (es_event ej) with
      | None => Throw TypeError
      | Some a =>
          Normal (jsStr (ev_name (es_event ej)) +:+ ":" +:+ jsToString (field a "step"))
      end
    else Normal (jsStr (ev_name (es_event ej))) in
  match events !! 0%nat, events !! startIndex, events !! endIndex with
  | Some e0, Some es, Some ee =>
      Normal
        (mkAsyncSlice (ev_cat (es_event e0)) subName
           (getEventColor event (Some (subName +:+ pretty j)))
           (timestampFromUs (ev_ts (es_event es)))
           (deepCopyArgs (ev_args (es_event ej)))
           (timestampFromUs (ev_ts (es_event ee) - ev_ts (es_event es)))
           None None
           (if ev_argsStripped (es_event es) then Some (inr true) else None)
           false (es_thread es) (es_thread ee) None None id None [])
  | _, _, _ => Throw TypeError
  end.

(** [for (var j = 1; j < events.length - 1; ++j)], over the list of the
    values of [j]. *)
Fixpoint stepLoop (events : list EventState) (event : Event) (id : string)
    (stepType : string) (js : list nat) (st : StepState) : Completion StepState :=
  match js with
  | [] => Normal st
  | j :: js' =>
      match events !! j with
      | None => Throw TypeError
      | Some ej =>
          let '(isValid, log1) :=
            if phIn (es_event ej) ["T"; "p"]
            then assertStepTypeMatches_ stepType ej (ss_log st)
            else (ss_isValid st, ss_log st) in
          if negb isValid then Normal (mkStepState log1 (ss_subSlices st) false)
          else if phIn (es_event ej) ["S"; "F"] then
            (* the message reads [event.event.ts], and [event.event] is
               [undefined] *)
            Throw TypeError
          else
            let? subSlice := subSliceOf events event id stepType j ej in
            stepLoop events event id stepType js'
                     (mkStepState log1 (ss_subSlices st ++ [subSlice]) isValid)
      end
  end.

(** The slice that an F event closes. *)
Definition finishSlice (events : list EventState) (asyncEventState : EventState)
    (name id : string) (m : Model SG) : Completion (Model SG) :=
  let event := es_event asyncEventState in
  match events !! 0%nat, last events, events !! 1%nat with
  | Some e0, Some eLast, Some e1 =>
      let stepType := ev_ph (es_event e1) in
      let? st := stepLoop events event id stepType (seq 1 (length events - 2))
                          (mkStepState (log m) [] true) in
      let slice :=
        mkAsyncSlice (ev_cat (es_event e0)) name
          (getEventColor (es_event e0) None)
          (timestampFromUs (ev_ts (es_event e0)))
          (concatenateObjects [default [] (ev_args (es_event e0));
                               default [] (ev_args (es_event eLast))])
          (timestampFromUs (ev_ts event - ev_ts (es_event e0)))
          (Some true) None None (ev_argsStripped (es_event e0))
          (es_thread e0) (es_thread asyncEventState) None None id None
          (ss_subSlices st) in
      let m1 := setLog (ss_log st) m in
      Normal (if ss_isValid st then pushAsyncSlice (es_thread e0) slice m1 else m1)
  | _, _, _ => Throw TypeError
  end.

(** The body of the loop of [createLegacyAsyncSlices_].

    [asyncEventStatesByNameThenID] and its inner dictionaries are finite maps
    here.  They are object literals in the code, so for a name or an id that
    a literal inherits from [Object.prototype] the code finds the inherited
    member where the finite map has nothing; the embedding is that of the
    names and ids outside [JSObjects.onObjectPrototype]. *)
Definition legacyStep (asyncEventState : EventState)
    (st : gmap string (gmap string (list EventState)) * Model SG)
    : Completion (gmap string (gmap string (list EventState)) * Model SG) :=
  let '(byName, m) := st in
  let event := es_event asyncEventState in
  match ev_name event with
  | None =>
      Normal (byName,
              setLog (asyncWarn "Async events (ph: S, T, p, or F) require a name  parameter."
                                (log m)) m)
  | Some name =>
      match ev_id event with
      | None =>
          Normal (byName,
                  setLog (asyncWarn "Async events (ph: S, T, p, or F) require an id parameter."
                                    (log m)) m)
      | Some id =>
          if String.eqb (ev_ph event) "S" then
            let inner := default ∅ (byName !! name) in
            match inner !! id with
            | Some _ =>
                Normal (<[name := inner]> byName,
                        setLog (asyncWarn ("At " +:+ pretty (ev_ts event) +:+
                                           ", a slice of the same id " +:+ id +:+
                                           " was alrady open.") (log m)) m)
            | None =>
                Normal (<[name := <[id := [asyncEventState]]> inner]> byName, m)
            end
          else
            match byName !! name with
            | None =>
                Normal (byName,
                        setLog (asyncWarn ("At " +:+ pretty (ev_ts event) +:+
                                           ", no slice named " +:+ name +:+
                                           " was open.") (log m)) m)
            | Some inner =>
                match inner !! id with
                | None =>
                    Normal (byName,
                            setLog (asyncWarn ("At " +:+ pretty (ev_ts event) +:+
                                               ", no slice named " +:+ name +:+
                                               " with id=" +:+ id +:+ " was open.")
                                              (log m)) m)
                | Some events0 =>
                    let events := events0 ++ [asyncEventState] in
                    if String.eqb (ev_ph event) "F" then
                      let? m1 := finishSlice events asyncEventState name id m in
                      Normal (<[name := delete id inner]> byName, m1)
                    else
                      Normal (<[name := <[id := events]> inner]> byName, m)
                end
            end
      end
  end.

Fixpoint legacyLoop (legacyEvents : list EventState)
    (st : gmap string (gmap string (list EventState)) * Model SG)
    : Completion (gmap string (gmap string (list EventState)) * Model SG) :=
  match legacyEvents with
  | [] => Normal st
  | e :: rest => let? st1 := legacyStep e st in legacyLoop rest st1
  end.

(** [createLegacyAsyncSlices_]. *)
Definition createLegacyAsyncSlices_ (legacyEvents : list EventState) (m : Model SG)
    : Completion (Model SG) :=
  match legacyEvents with
  | [] => Normal m
  | _ :: _ =>
      let? st := legacyLoop (sortQueue legacyEvents) (∅, m) in
      Normal st.2
  end.

(** ** Nestable async events (b, n, e) *)

(** What the first pass records on the entries of one key: the stack of
    enclosing BEGIN entries (top first), the [end] of a matched BEGIN, the
    entries with [finished === false], and the [parentEntry] of an entry.
    Entries are named by their position. *)
Record MatchState : Type := mkMatchState {
  parentStack : list (nat * EventState);
  ends : gmap nat nat;
  unfinished : gset nat;
  parents : gmap nat nat
}.

Definition sameName (e : EventState) (p : nat * EventState) : bool :=
  bool_decide (ev_name (es_event p.2) = ev_name (es_event e)).

(** The position, counted from the top, of the nearest enclosing BEGIN with
    the name of [e]. *)
Fixpoint findParent (e : EventState) (stack : list (nat * EventState)) (depth : nat)
    : option (nat * nat) :=
  match stack with
  | [] => None
  | p :: stack' =>
      if sameName e p then Some (depth, p.1) else findParent e stack' (S depth)
  end.

Definition matchStep (i : nat) (e : EventState) (ms : MatchState) : MatchState :=
  let ms1 :=
    if String.eqb (ev_ph (es_event e)) "e" then
      match findParent e (parentStack ms) 0 with
      | None =>
          mkMatchState (parentStack ms) (ends ms) ({[ i ]} ∪ unfinished ms) (parents ms)
      | Some (depth, b) =>
          mkMatchState (drop (S depth) (parentStack ms)) (<[b := i]> (ends ms))
                       (unfinished ms) (parents ms)
      end
    else ms in
  let ms2 :=
    match parentStack ms1 with
    | (p, _) :: _ =>
        mkMatchState (parentStack ms1) (ends ms1) (unfinished ms1)
                     (<[i := p]> (parents ms1))
    | [] => ms1
    end in
  if String.eqb (ev_ph (es_event e)) "b" then
    mkMatchState ((i, e) :: parentStack ms2) (ends ms2) (unfinished ms2) (parents ms2)
  else ms2.

Fixpoint matchLoop (entries : list EventState) (i : nat) (ms : MatchState) : MatchState :=
  match entries with
  | [] => ms
  | e :: rest => matchLoop rest (S i) (matchStep i e ms)
  end.

Definition matchEntries (entries : list EventState) : MatchState :=
  matchLoop entries 0 (mkMatchState [] ∅ ∅ ∅).

(** [concatenateArguments]. *)
Definition ownEntries (v : JSValue) : Args :=
  match v with
  | JSObject o => o
  | _ => []
  end.

Definition concatenateArguments (args1 args2 : Args) : Args :=
  if is_undefined (field args1 "params") || is_undefined (field args2 "params")
  then concatenateObjects [args1; args2]
  else
    let args3 :=
      [("params",
        JSObject (concatenateObjects [ownEntries (field args1 "params");
                                      ownEntries (field args2 "params")]))] in
    concatenateObjects [args1; args2; args3].

Definition truthyTts (t : option Z) : bool :=
  match t with
  | Some n => negb (n =? 0)%Z
  | None => false
  end.

(** The slice between [startState] and [endState]; the lookups of its stack
    frames may throw. *)
Definition sliceBetween (key : string) (frames : gmap string StackFrame)
    (entry startState endState : EventState) (sliceArgs : Args)
    (isTopLevel : bool) (sliceError : option string) (log0 : ImportLog)
    : Completion (AsyncSlice * ImportLog) :=
  let useTts := truthyTts (ev_tts (es_event startState)) &&
                ev_use_async_tts (es_event startState) in
  let thread_start :=
    if useTts then timestampFromUs_opt (ev_tts (es_event startState)) else None in
  let thread_duration : option (Q + bool) :=
    if useTts && truthyTts (ev_tts (es_event endState)) then
      match timestampFromUs_opt (ev_tts (es_event endState)), thread_start with
      | Some e, Some b => Some (inl (e - b)%Q)
      | _, _ => None
      end
    else None in
  let? start := getStackFrameForEvent_ frames (es_event startState) false log0 in
  let '(f1, log1) := start in
  let? finish := getStackFrameForEvent_ frames (es_event endState) false log1 in
  let '(f2, log2) := finish in
  Normal
    (mkAsyncSlice (ev_cat (es_event entry)) (jsStr (ev_name (es_event entry)))
       (getEventColor (es_event endState) None)
       (timestampFromUs (ev_ts (es_event startState)))
       sliceArgs
       (timestampFromUs (ev_ts (es_event endState) - ev_ts (es_event startState)))
       (Some isTopLevel) thread_start thread_duration
       (ev_argsStripped (es_event startState))
       (es_thread startState) (es_thread endState) f1 f2 key sliceError [],
     log2).

Definition unmatchedMessage (what : string) (e : Event) : string :=
  "Nestable async " +:+ what +:+ " event at " +:+ pretty (ev_ts e) +:+
  " with name=" +:+ jsStr (ev_name e) +:+ " and id=" +:+ jsStr (ev_id e) +:+
  " was unmatched.".

(** Whether the second pass skips an entry: a matched END. *)
Definition skipped (ms : MatchState) (i : nat) (entry : EventState) : bool :=
  String.eqb (ev_ph (es_event entry)) "e" && negb (bool_decide (i ∈ unfinished ms)).

(** The slice of the entry at position [i], for an entry that is not
    skipped. *)
Definition nestableSlice (key : string) (frames : gmap string StackFrame)
    (entries : list EventState) (ms : MatchState) (i : nat) (entry : EventState)
    (log0 : ImportLog) : Completion (AsyncSlice * ImportLog) :=
  let sliceArgs := default [] (ev_args (es_event entry)) in
  let isTopLevel := bool_decide (parents ms !! i = None) in
  let first := default entry (entries !! 0%nat) in
  let final := default entry (last entries) in
  if String.eqb (ev_ph (es_event entry)) "n" then
    sliceBetween key frames entry entry entry sliceArgs isTopLevel None log0
  else if String.eqb (ev_ph (es_event entry)) "b" then
    match ends ms !! i with
    | None =>
        sliceBetween key frames entry entry final sliceArgs isTopLevel
          (Some NO_END) (asyncWarn (unmatchedMessage "BEGIN" (es_event entry)) log0)
    | Some j =>
        let endState := default entry (entries !! j) in
        let endArgs := default [] (ev_args (es_event endState)) in
        sliceBetween key frames entry entry endState
          (concatenateArguments sliceArgs endArgs) isTopLevel None log0
    end
  else
    sliceBetween key frames entry first entry sliceArgs isTopLevel
      (Some NO_BEGIN) (asyncWarn (unmatchedMessage "END" (es_event entry)) log0).

(** The variables of the second pass: the slice of each entry, the
    [subSlices] of each slice as positions of entries, [topLevelSlices], and
    the log. *)
Record Assembly : Type := mkAssembly {
  sliceOfEntry : gmap nat AsyncSlice;
  subSlicesOf : gmap nat (list nat);
  topLevelSlices : list nat;
  a_log : ImportLog
}.

Definition assembleStep (key : string) (frames : gmap string StackFrame)
    (entries : list EventState) (ms : MatchState) (i : nat) (entry : EventState)
    (a : Assembly) : Completion Assembly :=
  if skipped ms i entry then Normal a
  else
    let? made := nestableSlice key frames entries ms i entry (a_log a) in
    let '(slice, log1) := made in
    let slices := <[i := slice]> (sliceOfEntry a) in
    match parents ms !! i with
    | None => Normal (mkAssembly slices (subSlicesOf a) (topLevelSlices a ++ [i]) log1)
    | Some p =>
        match sliceOfEntry a !! p with
        | Some _ =>
            Normal
              (mkAssembly slices
                 (<[p := default [] (subSlicesOf a !! p) ++ [i]]> (subSlicesOf a))
                 (topLevelSlices a) log1)
        | None => Normal (mkAssembly slices (subSlicesOf a) (topLevelSlices a) log1)
        end
    end.

Fixpoint assembleLoop (key : string) (frames : gmap string StackFrame)
    (entries : list EventState) (ms : MatchState) (i : nat)
    (todo : list EventState) (a : Assembly) : Completion Assembly :=
  match todo with
  | [] => Normal a
  | entry :: rest =>
      let? a1 := assembleStep key frames entries ms i entry a in
      assembleLoop key frames entries ms (S i) rest a1
  end.

Definition assemble (key : string) (frames : gmap string StackFrame)
    (entries : list EventState) (log0 : ImportLog) : Completion Assembly :=
  assembleLoop key frames entries (matchEntries entries) 0 entries
               (mkAssembly ∅ ∅ [] log0).

(** The slice object of an entry with the slice objects of its sub slices;
    [fuel] bounds the depth of the nesting. *)
Fixpoint sliceTree (a : Assembly) (fuel : nat) (i : nat) : option AsyncSlice :=
  match fuel with
  | O => None
  | S fuel' =>
      match sliceOfEntry a !! i with
      | None => None
      | Some s =>
          Some (mkAsyncSlice (as_category s) (as_title s) (as_colorId s)
                  (as_start s) (as_args s) (as_duration s) (as_isTopLevel s)
                  (as_cpuStart s) (as_cpuDuration s) (as_argsStripped s)
                  (as_startThread s) (as_endThread s) (as_startStackFrame s)
                  (as_endStackFrame s) (as_id s) (as_error s)
                  (omap (sliceTree a fuel') (default [] (subSlicesOf a !! i))))
      end
  end.

(** The body of the loop over the keys of [nestableAsyncEventsByKey]. *)
Definition nestableGroup (key : string) (entries : list EventState) (m : Model SG)
    : Completion (Model SG) :=
  let? a := assemble key (stackFrames m) entries (log m) in
  Normal
    (fold_left
       (fun m' i =>
          match sliceTree a (S (length entries)) i with
          | Some s => pushAsyncSlice (as_startThread s) s m'
          | None => m'
          end)
       (topLevelSlices a) (setLog (a_log a) m)).

(** [for (var key in nestableAsyncEventsByKey)]. *)
Fixpoint nestableGroups (groups : list (string * list EventState)) (m : Model SG)
    : Completion (Model SG) :=
  match groups with
  | [] => Normal m
  | kv :: rest => let? m1 := nestableGroup kv.1 kv.2 m in nestableGroups rest m1
  end.

(** The variables of the grouping loop of [createAsyncSlices_]. *)
Record Grouping : Type := mkGrouping {
  legacyEvents : list EventState;
  nestableAsyncEventsByKey : list (string * list EventState);
  g_log : ImportLog
}.

Definition requireWarning (what : string) : string :=
  "Nestable async events (ph: b, e, or n) require " +:+ what +:+ " parameter.".

Definition groupStep (g : Grouping) (asyncEventState : EventState) : Grouping :=
  let event := es_event asyncEventState in
  if phIn event ["S"; "F"; "T"; "p"] then
    mkGrouping (legacyEvents g ++ [asyncEventState]) (nestableAsyncEventsByKey g) (g_log g)
  else
    match ev_cat event, ev_name event, ev_id event with
    | None, _, _ =>
        mkGrouping (legacyEvents g) (nestableAsyncEventsByKey g)
                   (asyncWarn (requireWarning "a cat") (g_log g))
    | Some _, None, _ =>
        mkGrouping (legacyEvents g) (nestableAsyncEventsByKey g)
                   (asyncWarn (requireWarning "a name") (g_log g))
    | Some _, Some _, None =>
        mkGrouping (legacyEvents g) (nestableAsyncEventsByKey g)
                   (asyncWarn (requireWarning "an id") (g_log g))
    | Some cat, Some _, Some id =>
        let key := cat +:+ ":" +:+ id in
        let entries := default [] (assoc_get key (nestableAsyncEventsByKey g)) in
        mkGrouping (legacyEvents g)
                   (assoc_set key (entries ++ [asyncEventState])
                              (nestableAsyncEventsByKey g))
                   (g_log g)
    end.

(** [createAsyncSlices_], on the queue and the model. *)
Definition createAsyncSlices_ (allAsyncEvents : list EventState) (m : Model SG)
    : Completion (list EventState * Model SG) :=
  match allAsyncEvents with
  | [] => Normal (allAsyncEvents, m)
  | _ :: _ =>
      let sorted := sortQueue allAsyncEvents in
      let g := fold_left groupStep sorted (mkGrouping [] [] (log m)) in
      let? m1 := createLegacyAsyncSlices_ (legacyEvents g) (setLog (g_log g) m) in
      let? m2 := nestableGroups (nestableAsyncEventsByKey g) m1 in
      Normal (sorted, m2)
  end.

End Assembler.

(** A warning is in the log. *)
Definition logged (w : Warning) (l : ImportLog) : Prop := w ∈ importWarnings_ l.

(** No entry carries a [stack] without an [sf]: the lookups of the stack
    frames in the second pass return. *)
Definition noBareStack (entries : list EventState) : Prop :=
  Forall (fun e => stackWithoutFrame (es_event e) false = false) entries.



End AsyncAssembler.

(** * The flow event assembler ([createFlowSlices_]) *)

Module FlowAssembler.
Import TraceModel Dispatch.

(** A slice is reached through its thread and its reference in the slice
    group of the thread. *)
Definition SliceHandle : Type := (ThreadRef * SliceRef)%type.

(** A flow event (model/flow_event.js is not part of the sources; the fields
    are those the importer passes to the constructor and assigns).  The start
    is [None] when the importer computes it from a missing [dur]. *)
Record FlowEvent : Type := mkFlowEvent {
  flow_category : option string;
  flow_id : string;
  flow_title : option string;
  flow_colorId : option Z;
  flow_start : option Q;
  flow_args : Args;
  flow_startSlice : SliceHandle;
  flow_endSlice : option SliceHandle;
  flow_duration : option Q;
  flow_startStackFrame : option string;
  flow_endStackFrame : option string
}.

(** The flow events are kept in creation order and named by their position;
    [modelFlowEvents] is [model.flowEvents], [outFlowEvents] and
    [inFlowEvents] are the lists of the slices.

    [flowIdToEvent] and [flowStatus] are finite maps here.  They are object
    literals in the code, so for an id that a literal inherits from
    [Object.prototype] the code finds the inherited member where the finite
    map has nothing; the embedding is that of the ids outside
    [JSObjects.onObjectPrototype]. *)
Record FlowState : Type := mkFlowState {
  fs_log : ImportLog;
  flows : list FlowEvent;
  modelFlowEvents : list nat;
  outFlowEvents : gmap SliceHandle (list nat);
  inFlowEvents : gmap SliceHandle (list nat);
  flowIdToEvent : gmap string nat;
  sliceGuidToEvent : gmap SliceHandle Event;
  flowStatus : gmap string bool
}.

Definition newFlowState (log0 : ImportLog) : FlowState :=
  mkFlowState log0 [] [] ∅ ∅ ∅ ∅ ∅.

Definition setFlowLog (l : ImportLog) (st : FlowState) : FlowState :=
  mkFlowState l (flows st) (modelFlowEvents st) (outFlowEvents st)
              (inFlowEvents st) (flowIdToEvent st) (sliceGuidToEvent st)
              (flowStatus st).

Definition flowWarn (type message : string) (st : FlowState) : FlowState :=
  setFlowLog (warn type message (fs_log st)) st.

(** [flowIdToEvent[id] = flowEvent], where [None] is [undefined]. *)
Definition setFlowId (id : string) (f : option nat) (st : FlowState) : FlowState :=
  mkFlowState (fs_log st) (flows st) (modelFlowEvents st) (outFlowEvents st)
              (inFlowEvents st)
              (match f with
               | Some r => <[id := r]> (flowIdToEvent st)
               | None => delete id (flowIdToEvent st)
               end)
              (sliceGuidToEvent st) (flowStatus st).

Definition setFlowStatus (id : string) (b : bool) (st : FlowState) : FlowState :=
  mkFlowState (fs_log st) (flows st) (modelFlowEvents st) (outFlowEvents st)
              (inFlowEvents st) (flowIdToEvent st) (sliceGuidToEvent st)
              (<[id := b]> (flowStatus st)).

Definition pushModelFlowEvent (r : nat) (st : FlowState) : FlowState :=
  mkFlowState (fs_log st) (flows st) (modelFlowEvents st ++ [r])
              (outFlowEvents st) (inFlowEvents st) (flowIdToEvent st)
              (sliceGuidToEvent st) (flowStatus st).

Section Assembler.
Context {SG : Type} {ops : SliceGroupOps SG} {colors : ColorScheme}.

(** The model as the flow pass reads it. *)
Variable m : Model SG.

Definition groupOf (thread : ThreadRef) : SG := sliceGroup (theThread thread m).

(** [validateFlowEvent]. *)
Definition validateFlowEvent (event : Event) (st : FlowState) : bool * FlowState :=
  match ev_name event with
  | None =>
      (false, flowWarn "flow_slice_parse_error"
                "Flow events (ph: s, t or f) require a name parameter." st)
  | Some _ =>
      if phIn event ["s"; "f"; "t"] then
        match ev_id event with
        | None =>
            (false, flowWarn "flow_slice_parse_error"
                      "Flow events (ph: s, t or f) require an id parameter." st)
        | Some _ => (true, st)
        end
      else if truthy (ev_bind_id event) then
        if is_undefined (ev_flow_in event) && is_undefined (ev_flow_out event) then
          (false, flowWarn "flow_slice_parse_error"
                    "Flow producer or consumer require flow_in or flow_out." st)
        else (true, st)
      else (false, st)
  end.

(** [createFlowEvent]: the new flow event, if any, and the state. *)
Definition createFlowEvent (thread : ThreadRef) (event : Event)
    (opt_slice : option SliceHandle) (st : FlowState)
    : Completion (option nat * FlowState) :=
  let? start :=
    if truthy (ev_bind_id event) then
      match opt_slice with
      | Some s =>
          Normal (Some (s, jsToString (ev_bind_id event),
                        match ev_dur event with
                        | Some d => Some (timestampFromUs (ev_ts event + d))
                        | None => None
                        end))
      | None => Throw TypeError
      end
    else
      let ts := timestampFromUs (ev_ts event) in
      match findSliceAtTs (groupOf thread) ts with
      | None => Normal None
      | Some ref => Normal (Some ((thread, ref), jsStr (ev_id event), Some ts))
      end in
  match start with
  | None => Normal (None, st)
  | Some (startSlice, flowId, flowStartTs) =>
      let? found := getStackFrameForEvent_ (stackFrames m) event false (fs_log st) in
      let '(frame, log1) := found in
      let flowEvent :=
        mkFlowEvent (ev_cat event) flowId (ev_name event) (getEventColor event None)
                    flowStartTs (deepCopyArgs (ev_args event)) startSlice None None
                    frame None in
      let r := length (flows st) in
      Normal (Some r,
              mkFlowState log1 (flows st ++ [flowEvent]) (modelFlowEvents st)
                (<[startSlice := default [] (outFlowEvents st !! startSlice) ++ [r]]>
                   (outFlowEvents st))
                (inFlowEvents st) (flowIdToEvent st) (sliceGuidToEvent st)
                (flowStatus st))
  end.

(** The slice at which a flow ends: the slice given with the event (v2), the
    slice that contains the timestamp, or the next slice after it. *)
Definition endSliceOf (thread : ThreadRef) (event : Event) (refGuid : Z)
    (bindToParent : bool) (opt_slice : option SliceHandle)
    : Completion (option SliceHandle) :=
  if truthy (ev_bind_id event) then
    match opt_slice with
    | Some s => Normal (Some s)
    | None => Throw TypeError
    end
  else
    let ts := timestampFromUs (ev_ts event) in
    Normal (option_map (pair thread)
              (if bindToParent then findSliceAtTs (groupOf thread) ts
               else findNextSliceAfter (groupOf thread) ts refGuid)).

(** [finishFlowEventWith]. *)
Definition finishFlowEventWith (flowEvent : nat) (thread : ThreadRef)
    (event : Event) (refGuid : Z) (bindToParent : bool)
    (opt_slice : option SliceHandle) (st : FlowState)
    : Completion (bool * FlowState) :=
  let? endSlice := endSliceOf thread event refGuid bindToParent opt_slice in
  match endSlice with
  | None => Normal (false, st)
  | Some es =>
      match flows st !! flowEvent with
      | None => Throw TypeError
      | Some f =>
          let? found :=
            getStackFrameForEvent_ (stackFrames m) event false (fs_log st) in
          let '(frame, log1) := found in
          let '(args', log2) :=
            mergeArgsInto_ (flow_args f) (default [] (ev_args event))
                           (jsStr (flow_title f)) log1 in
          let f' :=
            mkFlowEvent (flow_category f) (flow_id f) (flow_title f) (flow_colorId f)
              (flow_start f) args' (flow_startSlice f) (Some es)
              (option_map (fun s => (timestampFromUs (ev_ts event) - s)%Q) (flow_start f))
              (flow_startStackFrame f) frame in
          Normal (true,
                  mkFlowState log2 (<[flowEvent := f']> (flows st))
                    (modelFlowEvents st) (outFlowEvents st)
                    (<[es := default [] (inFlowEvents st !! es) ++ [flowEvent]]>
                       (inFlowEvents st))
                    (flowIdToEvent st) (sliceGuidToEvent st) (flowStatus st))
      end
  end.

(** [processFlowConsumer]. *)
Definition processFlowConsumer (event : Event) (refGuid : Z) (slice : SliceHandle)
    (st : FlowState) : Completion (bool * FlowState) :=
  let bind := jsToString (ev_bind_id event) in
  match flowIdToEvent st !! bind with
  | None =>
      Normal (false, flowWarn "flow_slice_ordering_error"
                       ("Flow consumer " +:+ bind +:+ " does not have " +:+
                        "a flow producer") st)
  | Some r =>
      let? fe :=
        match flows st !! r with
        | None => Throw TypeError
        | Some f =>
            match flow_endSlice f with
            | None => Normal (Some r, st)
            | Some _ =>
                let flowProducer := flow_startSlice f in
                match sliceGuidToEvent st !! flowProducer with
                | None => Throw TypeError
                | Some producerEvent =>
                    createFlowEvent flowProducer.1 producerEvent (Some flowProducer) st
                end
            end
        end in
      match fe with
      | (None, _) => Throw TypeError
      | (Some r', st1) =>
          let? fin := finishFlowEventWith r' slice.1 event refGuid false (Some slice) st1 in
          if fin.1 then Normal (true, pushModelFlowEvent r' fin.2)
          else
            Normal (false, flowWarn "flow_slice_end_error"
                             ("Flow consumer " +:+ bind +:+ " does not end " +:+
                              "at an actual slice, so cannot be created.") fin.2)
      end
  end.

(** [processFlowProducer]; it returns a falsy value on every path, so only
    the state matters. *)
Definition processFlowProducer (event : Event) (slice : SliceHandle)
    (st : FlowState) : Completion FlowState :=
  let bind := jsToString (ev_bind_id event) in
  if bool_decide (is_Some (flowIdToEvent st !! bind)) &&
     default false (flowStatus st !! bind)
  then Normal (flowWarn "flow_slice_start_error"
                 ("Flow producer " +:+ bind +:+ " already seen") st)
  else
    let? created := createFlowEvent slice.1 event (Some slice) st in
    match created with
    | (None, st1) =>
        Normal (flowWarn "flow_slice_start_error"
                  ("Flow producer " +:+ bind +:+ " does not start" +:+ "a flow") st1)
    | (Some r, st1) => Normal (setFlowId bind (Some r) st1)
    end.

(** The part of the loop body for events with a [bind_id] (flow API v2). *)
Definition flowStepV2 (data : EventState) (st : FlowState) : Completion FlowState :=
  let event := es_event data in
  match es_slice data with
  | None => Throw TypeError
  | Some ref =>
      let slice : SliceHandle := (es_thread data, ref) in
      let st0 :=
        mkFlowState (fs_log st) (flows st) (modelFlowEvents st) (outFlowEvents st)
                    (inFlowEvents st) (flowIdToEvent st)
                    (<[slice := event]> (sliceGuidToEvent st)) (flowStatus st) in
      if bool_decide (ev_flowPhase event = Some PRODUCER) then
        processFlowProducer event slice st0
      else
        let? c := processFlowConsumer event (default 0 (es_refGuid data)) slice st0 in
        if c.1 then
          let st1 := setFlowStatus (jsToString (ev_bind_id event)) false c.2 in
          if bool_decide (ev_flowPhase event = Some STEP)
          then processFlowProducer event slice st1
          else Normal st1
        else Normal c.2
  end.

(** Whether an [f] event binds to the enclosing slice; [None] when the event
    is dropped for its binding point. *)
Definition bindPoint (event : Event) : Completion (option bool) :=
  if String.eqb (ev_ph event) "f" then
    match ev_bp event with
    | JSUndefined =>
        match ev_cat event with
        | None => Throw TypeError
        | Some cat =>
            Normal (Some (contains cat "input" || contains cat "ipc.flow"))
        end
    | JSString bp =>
        if String.eqb bp "e" then Normal (Some true) else Normal None
    | _ => Normal None
    end
  else Normal (Some (String.eqb (ev_ph event) "t")).

(** The part of the loop body for s, t and f events (flow API v1). *)
Definition flowStepV1 (data : EventState) (st : FlowState) : Completion FlowState :=
  let event := es_event data in
  let thread := es_thread data in
  let id := jsStr (ev_id event) in
  if String.eqb (ev_ph event) "s" then
    match flowIdToEvent st !! id with
    | Some _ =>
        Normal (flowWarn "flow_slice_start_error"
                  ("event id " +:+ id +:+ " already seen when " +:+
                   "encountering start of flow event.") st)
    | None =>
        let? created := createFlowEvent thread event None st in
        match created with
        | (None, st1) =>
            Normal (flowWarn "flow_slice_start_error"
                      ("event id " +:+ id +:+ " does not start " +:+
                       "at an actual slice, so cannot be created.") st1)
        | (Some r, st1) => Normal (setFlowId id (Some r) st1)
        end
    end
  else if phIn event ["t"; "f"] then
    match flowIdToEvent st !! id with
    | None =>
        Normal (flowWarn "flow_slice_ordering_error"
                  ("Found flow phase " +:+ ev_ph event +:+ " for id: " +:+ id +:+
                   " but no flow start found.") st)
    | Some flowEvent =>
        let? bind := bindPoint event in
        match bind with
        | None =>
            Normal (flowWarn "flow_slice_bind_point_error"
                      "Flow event with invalid binding point (event.bp)." st)
        | Some bindToParent =>
            let? fin := finishFlowEventWith flowEvent thread event
                          (default 0 (es_refGuid data)) bindToParent None st in
            let st1 :=
              if fin.1 then pushModelFlowEvent flowEvent fin.2
              else flowWarn "flow_slice_end_error"
                     ("event id " +:+ id +:+ " does not end " +:+
                      "at an actual slice, so cannot be created.") fin.2 in
            let st2 := setFlowId id None st1 in
            if fin.1 && String.eqb (ev_ph event) "t" then
              let? created := createFlowEvent thread event None st2 in
              Normal (setFlowId id created.1 created.2)
            else Normal st2
        end
    end
  else Normal st.

(** The body of the loop of [createFlowSlices_]. *)
Definition flowStep (data : EventState) (st : FlowState) : Completion FlowState :=
  let '(valid, st1) := validateFlowEvent (es_event data) st in
  if negb valid then Normal st1
  else if truthy (ev_bind_id (es_event data)) then flowStepV2 data st1
  else flowStepV1 data st1.

Fixpoint flowLoop (queue : list EventState) (st : FlowState) : Completion FlowState :=
  match queue with
  | [] => Normal st
  | data :: rest => let? st1 := flowStep data st in flowLoop rest st1
  end.

(** [createFlowSlices_]: the sorted queue and what the pass adds to the
    model. *)
Definition createFlowSlices_ (allFlowEvents : list EventState)
    : Completion (list EventState * FlowState) :=
  match allFlowEvents with
  | [] => Normal (allFlowEvents, newFlowState (log m))
  | _ :: _ =>
      let sorted := sortQueue allFlowEvents in
      let? st := flowLoop sorted (newFlowState (log m)) in
      Normal (sorted, st)
  end.

End Assembler.

(** ** The binding rule of the specification for the end of a flow *)

(** "[f] default binding is next unless (a) [bp === 'e'], or (b) category
    contains [input] or [ipc.flow], in which case bind to parent." *)
Definition spec_bindsToParent (bp : JSValue) (cat : string) : bool :=
  match bp with
  | JSString "e" => true
  | JSUndefined => contains cat "input" || contains cat "ipc.flow"
  | _ => false
  end.

(** The binding point is given but is not ['e']. *)
Definition invalidBp (bp : JSValue) : bool :=
  match bp with
  | JSUndefined => false
  | JSString s => negb (String.eqb s "e")
  | _ => true
  end.

(** An [f] event of flow API v1 that passes validation. *)
Definition isFlowEndV1 (event : Event) : Prop :=
  ev_ph event = "f" /\ is_Some (ev_name event) /\ is_Some (ev_id event) /\
  truthy (ev_bind_id event) = false.

End FlowAssembler.

(** * Memory dumps: the edges between memory allocator dumps
      ([createMemoryDumps_], "Set up edges between memory allocator dumps") *)

Module MemoryDumpEdges.
Import JSObjects.

(** A link between two dumps ([MemoryAllocatorDumpLink]); the dumps are named
    by their GUIDs, under which [allMemoryAllocatorDumpsByGuid] holds them. *)
Record Link : Type := mkLink {
  link_source : string;
  link_target : string;
  link_importance : JSValue
}.

(** A memory allocator dump (model/memory_allocator_dump.js is not part of
    the sources; the fields are those the edge pass reads and assigns). *)
Record Dump : Type := mkDump {
  md_fullName : string;
  md_owns : option Link;
  md_ownedBy : list Link;
  md_retains : list Link;
  md_retainedBy : list Link
}.

(** A dump as the allocator pass creates it. *)
Definition newDump (fullName : string) : Dump := mkDump fullName None [] [] [].

Record RawEdge : Type := mkRawEdge {
  edge_source : option string;
  edge_target : option string;
  edge_type : option string;
  edge_importance : JSValue
}.

Definition setOwns (l : Link) (d : Dump) : Dump :=
  mkDump (md_fullName d) (Some l) (md_ownedBy d) (md_retains d) (md_retainedBy d).

Definition pushOwnedBy (l : Link) (d : Dump) : Dump :=
  mkDump (md_fullName d) (md_owns d) (md_ownedBy d ++ [l]) (md_retains d)
         (md_retainedBy d).

Definition pushRetains (l : Link) (d : Dump) : Dump :=
  mkDump (md_fullName d) (md_owns d) (md_ownedBy d) (md_retains d ++ [l])
         (md_retainedBy d).

Definition pushRetainedBy (l : Link) (d : Dump) : Dump :=
  mkDump (md_fullName d) (md_owns d) (md_ownedBy d) (md_retains d)
         (md_retainedBy d ++ [l]).

Definition dumpWarn (message : string) : ImportLog -> ImportLog :=
  warn "memory_dump_parse_error" message.

Definition fullNameOf (dumps : gmap string Dump) (guid : string) : string :=
  jsStr (md_fullName <$> dumps !! guid).

(** The variables of the edge pass: [allMemoryAllocatorDumpsByGuid], the
    log, and the [owns] that the pass has assigned to what the table inherits
    from [Object.prototype].  The table is an object literal, so a GUID that
    is the name of an inherited member finds that member, which is not
    [undefined]. *)
Record EdgeState : Type := mkEdgeState {
  dumpsByGuid : gmap string Dump;
  inheritedOwns : gmap string Link;
  edgeLog : ImportLog
}.

Definition edgeWarning (message : string) (st : EdgeState) : EdgeState :=
  mkEdgeState (dumpsByGuid st) (inheritedOwns st) (dumpWarn message (edgeLog st)).

(** [sourceDump.owns] of an inherited member: its own, or the one that it
    inherits in turn from [Object.prototype], which the table finds under
    [__proto__]. *)
Definition inheritedOwnsOf (st : EdgeState) (guid : string) : option Link :=
  match inheritedOwns st !! guid with
  | Some l => Some l
  | None => inheritedOwns st !! "__proto__"
  end.

Definition alreadyOwns (sourceFullName sourceGuid : string) (owned : Link)
    (st : EdgeState) : EdgeState :=
  edgeWarning ("Memory allocator dump " +:+ sourceFullName +:+
               " (GUID=" +:+ sourceGuid +:+ ") already owns a memory" +:+
               " allocator dump (" +:+
               fullNameOf (dumpsByGuid st) (link_target owned) +:+ ").") st.

(** The function given to [edges.forEach].  An inherited member has no
    [fullName] and no [ownedBy], [retains] or [retainedBy]: pushing to one
    of these throws a [TypeError]. *)
Definition setUpEdge (rawEdge : RawEdge) (st : EdgeState) : Completion EdgeState :=
  let dumps := dumpsByGuid st in
  let sourceGuid := jsStr (edge_source rawEdge) in
  let targetGuid := jsStr (edge_target rawEdge) in
  let edge := mkLink sourceGuid targetGuid (edge_importance rawEdge) in
  let isOwnership := bool_decide (edge_type rawEdge = Some "ownership") in
  let isRetention := bool_decide (edge_type rawEdge = Some "retention") in
  let invalidType :=
    edgeWarning ("Invalid edge type: " +:+ jsStr (edge_type rawEdge) +:+
                 " (source=" +:+ sourceGuid +:+ ", target=" +:+ targetGuid +:+
                 ", importance=" +:+ jsToString (edge_importance rawEdge) +:+
                 ").") st in
  match jsLookup onObjectPrototype dumps sourceGuid with
  | Missing =>
      Normal (edgeWarning ("Edge is missing source memory allocator dump (GUID=" +:+
                           sourceGuid +:+ ")") st)
  | Own sourceDump =>
      match jsLookup onObjectPrototype dumps targetGuid with
      | Missing =>
          Normal (edgeWarning ("Edge is missing target memory allocator dump (GUID=" +:+
                               targetGuid +:+ ")") st)
      | Own targetDump =>
          if isOwnership then
            match md_owns sourceDump with
            | Some owned =>
                Normal (alreadyOwns (md_fullName sourceDump) sourceGuid owned st)
            | None =>
                Normal (mkEdgeState
                          (alter (pushOwnedBy edge) targetGuid
                                 (alter (setOwns edge) sourceGuid dumps))
                          (inheritedOwns st) (edgeLog st))
            end
          else if isRetention then
            Normal (mkEdgeState
                      (alter (pushRetainedBy edge) targetGuid
                             (alter (pushRetains edge) sourceGuid dumps))
                      (inheritedOwns st) (edgeLog st))
          else Normal invalidType
      | Inherited =>
          if isOwnership then
            match md_owns sourceDump with
            | Some owned =>
                Normal (alreadyOwns (md_fullName sourceDump) sourceGuid owned st)
            | None => Throw TypeError
            end
          else if isRetention then Throw TypeError
          else Normal invalidType
      end
  | Inherited =>
      match jsLookup onObjectPrototype dumps targetGuid with
      | Missing =>
          Normal (edgeWarning ("Edge is missing target memory allocator dump (GUID=" +:+
                               targetGuid +:+ ")") st)
      | Own targetDump =>
          if isOwnership then
            match inheritedOwnsOf st sourceGuid with
            | Some owned => Normal (alreadyOwns "undefined" sourceGuid owned st)
            | None =>
                Normal (mkEdgeState (alter (pushOwnedBy edge) targetGuid dumps)
                                    (<[sourceGuid := edge]> (inheritedOwns st))
                                    (edgeLog st))
            end
          else if isRetention then Throw TypeError
          else Normal invalidType
      | Inherited =>
          if isOwnership then
            match inheritedOwnsOf st sourceGuid with
            | Some owned => Normal (alreadyOwns "undefined" sourceGuid owned st)
            | None => Throw TypeError
            end
          else if isRetention then Throw TypeError
          else Normal invalidType
      end
  end.

(** A [v] event as the edge pass reads it: [args.dumps], if defined, with its
    [allocators_graph], if defined. *)
Definition ProcessDumpEvent : Type := option (option (list RawEdge)).

Definition edgesOf (processEvent : ProcessDumpEvent) : list RawEdge :=
  match processEvent with
  | Some (Some edges) => edges
  | _ => []
  end.

(** [edges.forEach(...)]. *)
Fixpoint forEachEdge (edges : list RawEdge) (st : EdgeState) : Completion EdgeState :=
  match edges with
  | [] => Normal st
  | rawEdge :: rest => let? st1 := setUpEdge rawEdge st in forEachEdge rest st1
  end.

(** [events.process.forEach(...)] of the edge pass. *)
Fixpoint setUpEdges (processEvents : list ProcessDumpEvent) (st : EdgeState)
    : Completion EdgeState :=
  match processEvents with
  | [] => Normal st
  | processEvent :: rest =>
      let? st1 := forEachEdge (edgesOf processEvent) st in setUpEdges rest st1
  end.


(** ** The ownership graph is consistent

    Every link in an [ownedBy] list sits in the list of its target and is the
    [owns] link of its source, and no [ownedBy] list holds two links of one
    source.  So over the whole graph a dump is the source of at most one
    ownership link. *)
Definition ownershipConsistent (dumps : gmap string Dump) : Prop :=
  (forall t dt l, dumps !! t = Some dt -> l ∈ md_ownedBy dt ->
     link_target l = t /\
     exists ds, dumps !! link_source l = Some ds /\ md_owns ds = Some l) /\
  (forall t dt, dumps !! t = Some dt -> NoDup (link_source <$> md_ownedBy dt)).

(** Two dumps, [a] and [b], without links, and edges between them. *)
Definition twoDumps : gmap string Dump :=
  <["a" := newDump "malloc"]> (<["b" := newDump "shared"]> ∅).

Definition ownership (source target : string) : RawEdge :=
  mkRawEdge (Some source) (Some target) (Some "ownership") (JSNumber 0).

Definition retention (source target : string) : RawEdge :=
  mkRawEdge (Some source) (Some target) (Some "retention") (JSNumber 0).

End MemoryDumpEdges.

(** * Concrete traces

    The examples run the importer with the slice group of [SpecSliceGroup],
    no private fields, handlers for P, M, v and V events that do nothing, and
    counters filed under [category.name]. *)

Module Examples.
Import TraceModel Dispatch SpecSliceGroup.

Definition dottedKey (cat : option string) (name : string) : string :=
  jsStr cat +:+ "." +:+ name.

Definition skip (event : Event) (m : Model SpecSG) (a : unit)
    : Completion (Model SpecSG * unit) := Normal (m, a).

Definition skipJit (event : Event) (a : unit) : Completion unit := Normal a.

Definition noGuid (m : Model SpecSG) : Z := 0.

Definition exImporter : Type := Importer (SG := SpecSG) (Aux := unit).

Definition exDispatch : RawEvent -> exImporter -> Completion exImporter :=
  dispatchEvent (ops := specOps) (colors := lengthColors)
                dottedKey skip skip skip skipJit noGuid.

Definition exImport : list RawEvent -> exImporter -> Completion exImporter :=
  importEvents (ops := specOps) (colors := lengthColors)
               dottedKey skip skip skip skipJit noGuid.

Definition imp0 : exImporter :=
  newImporter (emptyModel (SG := SpecSG)) tt.

Definition orElse {A} (c : Completion A) (d : A) : A :=
  match c with
  | Normal a => a
  | Throw _ => d
  end.

(** A B event named [a] at 10 microseconds on thread 1 of process 1, and the
    importer after it. *)
Definition beginA : RawEvent :=
  mkRaw (named (Some "cat") (Some "a") None (bareEvent "B" 1 1 10)) false.

Definition afterBeginA : exImporter := orElse (exImport [beginA] imp0) imp0.

Definition endAt5 : RawEvent := mkRaw (bareEvent "E" 1 1 5) false.

(** A global instant event at 5 microseconds that names the same thread. *)
Definition globalInstantAt5 : RawEvent :=
  mkRaw (withScope (Some "g")
           (named (Some "cat") (Some "mark") None (bareEvent "I" 1 1 5))) false.

(** X events with flow flags. *)
Definition completeWithFlags (flow_in flow_out : JSValue) : Event :=
  withFlow (Some 100) (JSNumber 7) flow_in flow_out
           (named (Some "cat") (Some "work") None (bareEvent "X" 1 1 0)).


(** Two counters of one name in two categories, each introduced by an event
    without arguments. *)
Definition emptyCounterEvent (cat : string) : Event :=
  withArgs (Some []) (named (Some cat) (Some "n") None (bareEvent "C" 1 1 0)).

(** The legacy async scenario: S at 0, T at 5 with step [a], F at 10, all
    named [q] with id 7 on thread 1 of process 1. *)
Definition legacyEvent (ph : string) (ts : Z) (args : option Args) : Event :=
  withArgs args (named (Some "c") (Some "q") (Some "7") (bareEvent ph 1 1 ts)).

Definition legacyScenario : list RawEvent :=
  [mkRaw (legacyEvent "S" 0 None) false;
   mkRaw (legacyEvent "T" 5 (Some [("step", JSString "a")])) false;
   mkRaw (legacyEvent "F" 10 None) false].

(** The async queue that the dispatcher builds from the scenario. *)
Definition legacyQueue : list EventState :=
  [mkEventState 0 (legacyEvent "S" 0 None) (1, 1) None None;
   mkEventState 1 (legacyEvent "T" 5 (Some [("step", JSString "a")])) (1, 1) None None;
   mkEventState 2 (legacyEvent "F" 10 None) (1, 1) None None].

(** The slice of the scenario as the importer builds it: the sub slice of a
    step of type T runs from the step to the event after it. *)
Definition legacySubSlice {colors : ColorScheme} : AsyncSlice :=
  mkAsyncSlice (Some "c") "q:a"
    (getEventColor (legacyEvent "F" 10 None) (Some "q:a1"))
    (timestampFromUs 5) [("step", JSString "a")] (timestampFromUs (10 - 5))
    None None None false (1, 1) (1, 1) None None "7" None [].

Definition legacySlice {colors : ColorScheme} : AsyncSlice :=
  mkAsyncSlice (Some "c") "q" (getEventColor (legacyEvent "S" 0 None) None)
    (timestampFromUs 0) [] (timestampFromUs (10 - 0))
    (Some true) None None false (1, 1) (1, 1) None None "7" None
    [legacySubSlice].




(** Flow API v1: a model with one complete slice from 0 to 100 on thread 1 of
    process 1, a flow opened on it under id 1, and [f] events at 50. *)
Definition flowModel : Model SpecSG :=
  model_ (orElse (exImport [mkRaw (completeWithFlags JSUndefined JSUndefined) false]
                           imp0) imp0).

Definition flowStart : EventState :=
  mkEventState 0 (named (Some "x") (Some "flow") (Some "1") (bareEvent "s" 1 1 10))
               (1, 1) (Some 0) None.

Definition flowEnd (cat : option string) (bp : JSValue) : EventState :=
  mkEventState 1 (withBp bp (named cat (Some "flow") (Some "1") (bareEvent "f" 1 1 50)))
               (1, 1) (Some 0) None.

(** The state of the flow pass after [flowStart]. *)
Definition flowOpen : FlowAssembler.FlowState :=
  orElse (FlowAssembler.flowStep (ops := specOps) (colors := lengthColors)
            flowModel flowStart (FlowAssembler.newFlowState emptyLog))
         (FlowAssembler.newFlowState emptyLog).

Definition openFlowEvent : FlowAssembler.FlowEvent :=
  FlowAssembler.mkFlowEvent (Some "x") "1" (Some "flow") (Some 4)
    (Some (timestampFromUs 10)) [] ((1, 1), 0%nat) None None None None.

(** A counter with one series [x]: its first event with [x = 5], the model
    after it, and a second event without [x]. *)
Definition counterEvent (ts : Z) (args : Args) : Event :=
  withArgs (Some args) (named (Some "mem") (Some "heap") None (bareEvent "C" 1 1 ts)).

Definition afterFirstCounterEvent : Model SpecSG :=
  orElse (processCounterEvent (colors := lengthColors) dottedKey
            (counterEvent 0 [("x", JSNumber 5)]) emptyModel)
         emptyModel.

Definition heapCounter : Counter :=
  mkCounter (Some "mem") "heap"
    [mkSeries "x" (Some 6) [(timestampFromUs 0, Given (JSNumber 5))]].

End Examples.

(** * The tree of memory allocator dumps ([inferMemoryAllocatorDumpTree_]) *)

Module AllocatorDumpTree.
Import JSObjects.

(** A memory allocator dump of one index (model/memory_allocator_dump.js is
    not part of the sources; the fields are those the importer passes to the
    constructor and assigns).  The dumps of one index are named by their full
    names, so [parent] and [children] hold full names. *)
Record Dump : Type := mkDump {
  dump_fullName : string;
  dump_guid : option string;
  dump_parent : option string;
  dump_children : list string
}.

Global Instance Dump_eq_dec : EqDecision Dump.
Proof. solve_decision. Defined.

(** [memoryAllocatorDumpsByFullName] and [rootAllocatorDumps]. *)
Record TreeState : Type := mkTree {
  byFullName : gmap string Dump;
  rootAllocatorDumps : list string
}.

(** [s.lastIndexOf(c)]; [None] is [-1]. *)
Fixpoint lastIndexOf (c : ascii) (s : string) : option nat :=
  match s with
  | EmptyString => None
  | String a s' =>
      match lastIndexOf c s' with
      | Some i => Some (S i)
      | None => if Ascii.eqb a c then Some 0%nat else None
      end
  end.

(** [fullName.substring(0, fullName.lastIndexOf('/'))], if there is a
    slash. *)
Definition parentFullName (fullName : string) : option string :=
  match lastIndexOf "/" fullName with
  | Some lastSlashIndex => Some (substring 0 lastSlashIndex fullName)
  | None => None
  end.

(** The names that the loop of one dump visits after the dump itself. *)
Fixpoint ancestorsFrom (fuel : nat) (fullName : string) : list string :=
  match fuel with
  | O => []
  | S fuel' =>
      match parentFullName fullName with
      | None => []
      | Some parentName => parentName :: ancestorsFrom fuel' parentName
      end
  end.

Definition ancestors (fullName : string) : list string :=
  ancestorsFrom (String.length fullName) fullName.

(** [allocatorDump.parent = parentAllocatorDump]. *)
Definition setParent (child parentName : string) (idx : gmap string Dump)
    : gmap string Dump :=
  alter (fun d => mkDump (dump_fullName d) (dump_guid d) (Some parentName)
                         (dump_children d)) child idx.

(** [parentAllocatorDump.children.push(allocatorDump)]. *)
Definition pushChild (parentName child : string) (idx : gmap string Dump)
    : gmap string Dump :=
  alter (fun d => mkDump (dump_fullName d) (dump_guid d) (dump_parent d)
                         (dump_children d ++ [child])) parentName idx.

Definition link (child parentName : string) (st : TreeState) : TreeState :=
  mkTree (pushChild parentName child (setParent child parentName (byFullName st)))
         (rootAllocatorDumps st).

(** The dump under the name [k] after [link child parentName]. *)
Definition linkedDump (child parentName k : string) (d : Dump) : Dump :=
  mkDump (dump_fullName d) (dump_guid d)
         (if decide (k = child) then Some parentName else dump_parent d)
         (if decide (k = parentName) then dump_children d ++ [child]
          else dump_children d).

(** [new tr.model.MemoryAllocatorDump(container, parentFullName)]. *)
Definition implicitDump (fullName : string) : Dump := mkDump fullName None None [].

(** The order of [Array.prototype.sort] without a comparison function: by
    code units. *)
Definition nameLe (a b : string) : Prop := String.leb a b = true.

Global Instance nameLe_dec (a b : string) : Decision (nameLe a b).
Proof. unfold nameLe. apply _. Defined.

Section Tree.
Variable inherited : string -> bool.

(** The [while (true)] loop for the dump named [fullName]; [None] when
    [fuel] iterations do not reach a [break]. *)
Fixpoint climb (fuel : nat) (fullName : string) (st : TreeState)
    : option (Completion TreeState) :=
  match fuel with
  | O => None
  | S fuel' =>
      match parentFullName fullName with
      | None =>
          Some (Normal (mkTree (byFullName st) (rootAllocatorDumps st ++ [fullName])))
      | Some parentName =>
          match jsLookup inherited (byFullName st) parentName with
          | Own _ => Some (Normal (link fullName parentName st))
          | Inherited =>
              (* an inherited value has no [children] array *)
              Some (Throw TypeError)
          | Missing =>
              climb fuel' parentName
                (link fullName parentName
                   (mkTree (<[parentName := implicitDump parentName]> (byFullName st))
                           (rootAllocatorDumps st)))
          end
      end
  end.

Fixpoint forEachName (fullNames : list string) (st : TreeState)
    : option (Completion TreeState) :=
  match fullNames with
  | [] => Some (Normal st)
  | fullName :: rest =>
      match climb (S (String.length fullName)) fullName st with
      | Some (Normal st') => forEachName rest st'
      | r => r
      end
  end.

(** [Object.keys(dict).sort()]: the keys in the order of their code units. *)
Definition sortedNames (idx : gmap string Dump) : list string :=
  merge_sort nameLe (map fst (map_to_list idx)).

(** [inferMemoryAllocatorDumpTree_]: the index with the implicit ancestors
    and the links, and the roots. *)
Definition inferMemoryAllocatorDumpTree_ (idx : gmap string Dump)
    : option (Completion TreeState) :=
  forEachName (sortedNames idx) (mkTree idx []).

End Tree.

(** ** What the tree of an index is *)

(** The dumps as [createMemoryDumps_] hands them over: each under its own
    name, without links. *)
Definition freshIndex (idx : gmap string Dump) : Prop :=
  map_Forall (fun k d => dump_fullName d = k /\ dump_parent d = None /\
                         dump_children d = []) idx.

(** No name that the loops look up is inherited by the index. *)
Definition noInheritedAncestor (inherited : string -> bool)
    (idx : gmap string Dump) : Prop :=
  map_Forall (fun k _ => Forall (fun a => inherited a = false) (ancestors k)) idx.

(** Every dump has the parent that its name gives, and is listed where it
    belongs. *)
Definition treeLinked (st : TreeState) : Prop :=
  forall k d, byFullName st !! k = Some d ->
    dump_fullName d = k /\
    dump_parent d = parentFullName k /\
    match parentFullName k with
    | Some p => exists pd, byFullName st !! p = Some pd /\ k ∈ dump_children pd
    | None => k ∈ rootAllocatorDumps st
    end.

(** The children lists hold nothing else, and nothing twice. *)
Definition childrenExact (st : TreeState) : Prop :=
  forall p pd, byFullName st !! p = Some pd ->
    NoDup (dump_children pd) /\
    forall c, c ∈ dump_children pd ->
      parentFullName c = Some p /\ is_Some (byFullName st !! c).

Definition rootsExact (st : TreeState) : Prop :=
  NoDup (rootAllocatorDumps st) /\
  forall r, r ∈ rootAllocatorDumps st ->
    parentFullName r = None /\ is_Some (byFullName st !! r).

(** The invariant of the loops: [pending] are the names whose loop has not
    run yet. *)
Definition treeInvariant (pending : gset string) (st : TreeState) : Prop :=
  (forall k d, byFullName st !! k = Some d -> dump_fullName d = k) /\
  (forall k d, byFullName st !! k = Some d -> k ∉ pending ->
     dump_parent d = parentFullName k /\
     match parentFullName k with
     | Some p => exists pd, byFullName st !! p = Some pd /\ k ∈ dump_children pd
     | None => k ∈ rootAllocatorDumps st
     end) /\
  (forall k d, byFullName st !! k = Some d -> k ∈ pending -> dump_parent d = None) /\
  (forall p pd, byFullName st !! p = Some pd ->
     NoDup (dump_children pd) /\
     forall c, c ∈ dump_children pd ->
       (c ∉ pending) /\ parentFullName c = Some p /\ is_Some (byFullName st !! c)) /\
  NoDup (rootAllocatorDumps st) /\
  (forall r, r ∈ rootAllocatorDumps st ->
     (r ∉ pending) /\ parentFullName r = None /\ is_Some (byFullName st !! r)) /\
  (forall k, k ∈ pending -> is_Some (byFullName st !! k)).

(** What a loop adds to an index: implicit dumps, which are ancestors of
    [below]; what was there keeps its name and its GUID. *)
Definition extends (below : list string) (idx idx' : gmap string Dump) : Prop :=
  (forall k d, idx !! k = Some d ->
     exists d', idx' !! k = Some d' /\ dump_guid d' = dump_guid d) /\
  (forall k d', idx' !! k = Some d' -> idx !! k = None ->
     dump_guid d' = None /\ exists e, e ∈ below /\ k ∈ ancestors e).

(** Three dumps of a process, one of them below a name that has no dump of
    its own. *)
Definition exampleIndex : gmap string Dump :=
  <["v8" := mkDump "v8" (Some "1") None []]>
  (<["v8/heaps/new" := mkDump "v8/heaps/new" (Some "2") None []]>
   (<["malloc" := mkDump "malloc" (Some "3") None []]> ∅)).

End AllocatorDumpTree.

(** * Memory dump events ([processMemoryDumpEvent]) and the level of detail
      of a global memory dump ([createMemoryDumps_]) *)

Module MemoryDumpEvents.
Import Dispatch JSObjects.

(** [{global: (event | undefined), process: [events]}]. *)
Record DumpEvents : Type := mkDumpEvents {
  de_global : option Event;
  de_process : list Event
}.

(** [allMemoryDumpEvents_], keyed by dump id, and the log of the model.  The
    table is an object literal: under the name of a member of
    [Object.prototype] it finds that member, and [inheritedGlobal] are the
    names of the members to which the handler has given a [global]. *)
Record DumpState : Type := mkDumpState {
  allMemoryDumpEvents_ : gmap string DumpEvents;
  inheritedGlobal : gset string;
  ds_log : ImportLog
}.

(** [getOrCreateMemoryDumpEvents_]: the table and the entry of [dumpId];
    [None] is a member that the table inherits. *)
Definition getOrCreateMemoryDumpEvents_ (dumpId : string)
    (all : gmap string DumpEvents) : gmap string DumpEvents * option DumpEvents :=
  match jsLookup onObjectPrototype all dumpId with
  | Own events => (all, Some events)
  | Inherited => (all, None)
  | Missing => (<[dumpId := mkDumpEvents None []]> all, Some (mkDumpEvents None []))
  end.

Definition multipleGlobal (st : DumpState) : DumpState :=
  mkDumpState (allMemoryDumpEvents_ st) (inheritedGlobal st)
    (warn "memory_dump_parse_error"
          "Multiple V phase events with the same dump ID." (ds_log st)).

Definition invalidPhase (event : Event) : JSError :=
  Error ("Invalid memory dump event phase " +:+ doubleQuote +:+
         ev_ph event +:+ doubleQuote +:+ ".").

(** [processMemoryDumpEvent].  An inherited member has no [process] array,
    so pushing to it throws a [TypeError]; its [global] is its own, or that
    of [Object.prototype], which the table finds under [__proto__]. *)
Definition processMemoryDumpEvent (event : Event) (st : DumpState)
    : Completion DumpState :=
  match ev_id event with
  | None =>
      Normal (mkDumpState (allMemoryDumpEvents_ st) (inheritedGlobal st)
                (warn "memory_dump_parse_error"
                      (ev_ph event +:+ " phase event without a dump ID.") (ds_log st)))
  | Some id =>
      match getOrCreateMemoryDumpEvents_ id (allMemoryDumpEvents_ st) with
      | (all, Some events) =>
          if String.eqb (ev_ph event) "v" then
            Normal (mkDumpState
                      (<[id := mkDumpEvents (de_global events)
                                            (de_process events ++ [event])]> all)
                      (inheritedGlobal st) (ds_log st))
          else if String.eqb (ev_ph event) "V" then
            match de_global events with
            | Some _ =>
                Normal (multipleGlobal (mkDumpState all (inheritedGlobal st) (ds_log st)))
            | None =>
                Normal (mkDumpState
                          (<[id := mkDumpEvents (Some event) (de_process events)]> all)
                          (inheritedGlobal st) (ds_log st))
            end
          else Throw (invalidPhase event)
      | (all, None) =>
          if String.eqb (ev_ph event) "v" then Throw TypeError
          else if String.eqb (ev_ph event) "V" then
            if bool_decide (id ∈ inheritedGlobal st) ||
               bool_decide ("__proto__" ∈ inheritedGlobal st)
            then Normal (multipleGlobal st)
            else Normal (mkDumpState all ({[ id ]} ∪ inheritedGlobal st) (ds_log st))
          else Throw (invalidPhase event)
      end
  end.

(** The handler on the [v] and [V] events of a trace, in the order of the
    trace. *)
Fixpoint processMemoryDumpEvents (events : list Event) (st : DumpState)
    : Completion DumpState :=
  match events with
  | [] => Normal st
  | event :: rest =>
      let? st1 := processMemoryDumpEvent event st in
      processMemoryDumpEvents rest st1
  end.

(** The events of one dump id, by phase. *)
Definition isDumpEvent (ph id : string) (event : Event) : bool :=
  String.eqb (ev_ph event) ph && bool_decide (ev_id event = Some id).

Definition hasDumpId (id : string) (event : Event) : bool :=
  bool_decide (ev_id event = Some id).

(** What the events add to the entry [prev] of a dump id. *)
Definition groupedUnder (id : string) (prev : option DumpEvents)
    (events : list Event) : option DumpEvents :=
  if existsb (hasDumpId id) events || bool_decide (is_Some prev) then
    let before := default (mkDumpEvents None []) prev in
    Some (mkDumpEvents
            (match de_global before with
             | Some g => Some g
             | None => head (filter (fun e => isDumpEvent "V" id e = true) events)
             end)
            (de_process before ++ filter (fun e => isDumpEvent "v" id e = true) events))
  else None.

(** The dump id of the event, if it has one, is not the name of a member
    that the table inherits. *)
Definition plainDumpId (event : Event) : Prop :=
  match ev_id event with
  | Some id => onObjectPrototype id = false
  | None => True
  end.

(** What the dispatcher hands to the handler: [v] and [V] events. *)
Definition isMemoryDumpPhase (event : Event) : Prop :=
  ev_ph event = "v" \/ ev_ph event = "V".

Global Instance isMemoryDumpPhase_dec (event : Event) : Decision (isMemoryDumpPhase event).
Proof. unfold isMemoryDumpPhase. apply _. Defined.

(** ** The level of detail *)

Definition LEVELS_OF_DETAIL : list JSValue :=
  [JSUndefined; JSString "light"; JSString "detailed"].

(** [LEVELS_OF_DETAIL.indexOf(v)], by strict equality; [None] is [-1]. *)
Definition levelIndex (processLevelOfDetail : JSValue) : option nat :=
  match processLevelOfDetail with
  | JSUndefined => Some 0%nat
  | JSString s =>
      if String.eqb s "light" then Some 1%nat
      else if String.eqb s "detailed" then Some 2%nat
      else None
  | _ => None
  end.

(** The variables of the part of the loop over the process events that
    determines the level of detail: [globalLevelOfDetailIndex], the
    [levelOfDetail] of each process memory dump so far ([None] where it was
    not assigned), and the log. *)
Record LevelState : Type := mkLevelState {
  globalLevelOfDetailIndex : option nat;
  processLevels : list (option JSValue);
  lv_log : ImportLog
}.

(** "Determine the level of detail of the dump", for the process event of
    [pid] in the dump [id]. *)
Definition levelStep (id : string) (st : LevelState)
    (processEvent : Z * JSValue) : LevelState :=
  let '(pid, processLevelOfDetail) := processEvent in
  match levelIndex processLevelOfDetail with
  | None =>
      mkLevelState (globalLevelOfDetailIndex st) (processLevels st ++ [None])
        (warn "memory_dump_parse_error"
              ("unknown level of detail '" +:+ jsToString processLevelOfDetail +:+
               "' of process memory dump for pid=" +:+ pretty pid +:+
               " and dump id=" +:+ id +:+ ".") (lv_log st))
  | Some processLevelOfDetailIndex =>
      match globalLevelOfDetailIndex st with
      | None =>
          mkLevelState (Some processLevelOfDetailIndex)
                       (processLevels st ++ [Some processLevelOfDetail]) (lv_log st)
      | Some globalIndex =>
          if negb (Nat.eqb globalIndex processLevelOfDetailIndex) then
            mkLevelState (Some (Nat.max globalIndex processLevelOfDetailIndex))
              (processLevels st ++ [Some processLevelOfDetail])
              (warn "memory_dump_parse_error"
                    ("diffent levels of detail of process memory dumps " +:+
                     "for dump id=" +:+ id +:+ ".") (lv_log st))
          else
            mkLevelState (Some globalIndex)
                         (processLevels st ++ [Some processLevelOfDetail]) (lv_log st)
      end
  end.

(** [globalMemoryDump.levelOfDetail =
     LEVELS_OF_DETAIL[globalLevelOfDetailIndex]]. *)
Definition globalLevelOfDetail (st : LevelState) : JSValue :=
  match globalLevelOfDetailIndex st with
  | Some i => default JSUndefined (LEVELS_OF_DETAIL !! i)
  | None => JSUndefined
  end.

Definition levelsOfDetail (id : string) (processEvents : list (Z * JSValue))
    (log0 : ImportLog) : LevelState :=
  fold_left (levelStep id) processEvents (mkLevelState None [] log0).

(** The indices of the levels that are known. *)
Definition knownLevels (processEvents : list (Z * JSValue)) : list nat :=
  omap (fun pe => levelIndex pe.2) processEvents.

Definition differentLevels (id : string) : Warning :=
  mkWarning "memory_dump_parse_error"
    ("diffent levels of detail of process memory dumps " +:+ "for dump id=" +:+ id +:+ ".").

(** Some known level differs from the level [g] so far, or, when there is
    none so far, two known levels differ. *)
Definition levelsDiffer (g : option nat) (known : list nat) : Prop :=
  match g with
  | Some g => exists k, k ∈ known /\ k <> g
  | None => exists a b, a ∈ known /\ b ∈ known /\ a <> b
  end.

End MemoryDumpEvents.

(** * The stack frame table ([Model.addStackFrame], [importStackFrames_]) *)

Module StackFrameTable.

(** A stack frame of the model (model/stack_frame.js is not part of the
    sources; the fields are those the importer passes to the constructor and
    assigns).  A frame is named by its id, under which [model.stackFrames]
    holds it, so [parentFrame] holds an id. *)
Record Frame : Type := mkFrame {
  sf_id : string;
  sf_title : option string;
  sf_colorId : option Z;
  sf_parentFrame : option string
}.

(** An entry of the [stackFrames] table of a trace. *)
Record RawStackFrame : Type := mkRawFrame {
  rsf_name : option string;
  rsf_category : option string;
  rsf_parent : option string
}.

(** [model.stackFrames] and the log of the model.  The table is an object
    literal; every id under which the importer files a frame carries the
    prefix ['g'] or ['p<pid>:'], under which [Object.prototype] has no name,
    so the table is a finite map. *)
Record FrameState : Type := mkFrameState {
  st_frames : gmap string Frame;
  st_log : ImportLog
}.

(** [Model.addStackFrame]. *)
Definition addStackFrame (stackFrame : Frame) (frames : gmap string Frame)
    : Completion (gmap string Frame) :=
  match frames !! sf_id stackFrame with
  | Some _ => Throw (Error "Stack frame already exists")
  | None => Normal (<[sf_id stackFrame := stackFrame]> frames)
  end.

(** [stackFrame.parentFrame = parentStackFrame]. *)
Definition setParentFrame (fullId : string) (parent : option string)
    (frames : gmap string Frame) : gmap string Frame :=
  alter (fun f => mkFrame (sf_id f) (sf_title f) (sf_colorId f) parent) fullId frames.

Section ImportFrames.
(** [tr.ui.b.getColorIdForGeneralPurposeString] on a text that may be
    [undefined], and what [stackFrame.name] reads in a message. *)
Variable colorIdFor : option string -> option Z.
Variable nameOf : Frame -> string.

(** The frame of a raw frame before the second pass. *)
Definition frameOf (idPrefix id : string) (rawStackFrame : RawStackFrame) : Frame :=
  let textForColor :=
    if truthyStr (rsf_category rawStackFrame) then rsf_category rawStackFrame
    else rsf_name rawStackFrame in
  mkFrame (idPrefix +:+ id) (rsf_name rawStackFrame) (colorIdFor textForColor) None.

(** The first loop over [rawStackFrames]. *)
Fixpoint addFrames (rawStackFrames : list (string * RawStackFrame))
    (idPrefix : string) (frames : gmap string Frame)
    : Completion (gmap string Frame) :=
  match rawStackFrames with
  | [] => Normal frames
  | (id, rawStackFrame) :: rest =>
      let? frames1 := addStackFrame (frameOf idPrefix id rawStackFrame) frames in
      addFrames rest idPrefix frames1
  end.

Definition missingParent (parentFullId : string) (stackFrame : Frame)
    (fullId : string) : Warning :=
  mkWarning "metadata_parse_error"
    ("Missing parent frame with ID " +:+ parentFullId +:+
     " for stack frame '" +:+ nameOf stackFrame +:+ "' (ID " +:+ fullId +:+ ").").

(** The second loop over [rawStackFrames]. *)
Fixpoint linkFrames (rawStackFrames : list (string * RawStackFrame))
    (idPrefix : string) (rootStackFrame : option string) (st : FrameState)
    : Completion FrameState :=
  match rawStackFrames with
  | [] => Normal st
  | (id, rawStackFrame) :: rest =>
      let fullId := idPrefix +:+ id in
      match st_frames st !! fullId with
      | None => Throw (Error "Internal error")
      | Some stackFrame =>
          let '(parentStackFrame, log1) :=
            match rsf_parent rawStackFrame with
            | None => (rootStackFrame, st_log st)
            | Some parentId =>
                let parentFullId := idPrefix +:+ parentId in
                match st_frames st !! parentFullId with
                | Some _ => (Some parentFullId, st_log st)
                | None =>
                    (rootStackFrame,
                     importWarning (missingParent parentFullId stackFrame fullId)
                                   (st_log st))
                end
            end in
          linkFrames rest idPrefix rootStackFrame
            (mkFrameState (setParentFrame fullId parentStackFrame (st_frames st)) log1)
      end
  end.

(** [importStackFrames_]. *)
Definition importStackFrames_ (rawStackFrames : list (string * RawStackFrame))
    (idPrefix : string) (addRootFrame : bool) (st : FrameState)
    : Completion FrameState :=
  let? frames0 :=
    if addRootFrame then addStackFrame (mkFrame idPrefix None None None) (st_frames st)
    else Normal (st_frames st) in
  let rootStackFrame := if addRootFrame then Some idPrefix else None in
  let? frames1 := addFrames rawStackFrames idPrefix frames0 in
  linkFrames rawStackFrames idPrefix rootStackFrame (mkFrameState frames1 (st_log st)).

(** ** What the table is after an import *)

(** The ids that the import adds. *)
Definition newIds (rawStackFrames : list (string * RawStackFrame))
    (idPrefix : string) (addRootFrame : bool) : list string :=
  (if addRootFrame then [idPrefix] else []) ++
  map (fun kv => idPrefix +:+ kv.1) rawStackFrames.

(** The import finds every id free. *)
Definition idsFree (rawStackFrames : list (string * RawStackFrame))
    (idPrefix : string) (addRootFrame : bool) (frames : gmap string Frame) : Prop :=
  NoDup (newIds rawStackFrames idPrefix addRootFrame) /\
  Forall (fun k => frames !! k = None) (newIds rawStackFrames idPrefix addRootFrame).

Global Instance idsFree_dec rawStackFrames idPrefix addRootFrame frames :
  Decision (idsFree rawStackFrames idPrefix addRootFrame frames).
Proof. unfold idsFree. apply _. Defined.

(** The parent that the second pass gives the frame of a raw frame, and the
    warning of a raw frame whose parent is missing. *)
Definition parentOf (frames : gmap string Frame) (idPrefix : string)
    (rootStackFrame : option string) (rawStackFrame : RawStackFrame)
    : option string :=
  match rsf_parent rawStackFrame with
  | None => rootStackFrame
  | Some parentId =>
      if bool_decide (is_Some (frames !! (idPrefix +:+ parentId)))
      then Some (idPrefix +:+ parentId) else rootStackFrame
  end.

Definition missingParentOf (frames : gmap string Frame) (idPrefix : string)
    (kv : string * RawStackFrame) : option Warning :=
  match rsf_parent kv.2 with
  | None => None
  | Some parentId =>
      if bool_decide (is_Some (frames !! (idPrefix +:+ parentId))) then None
      else Some (missingParent (idPrefix +:+ parentId) (frameOf idPrefix kv.1 kv.2)
                               (idPrefix +:+ kv.1))
  end.

End ImportFrames.

(** A table of three frames: [main] calls [run], and the parent of [gc] is
    not in the table. *)
Definition exampleFrames : list (string * RawStackFrame) :=
  [("1", mkRawFrame (Some "main") None None);
   ("2", mkRawFrame (Some "run") (Some "v8") (Some "1"));
   ("3", mkRawFrame (Some "gc") None (Some "9"))].

Definition noColor (text : option string) : option Z := None.

Definition titleOf (f : Frame) : string := jsStr (sf_title f).

End StackFrameTable.

(** * Metadata events ([processMetadataEvent]) *)

Module Metadata.
Import StackFrameTable AsyncAssembler.

(** What metadata events record about a process and about a thread.

    Modelled from the spec: model/process.js and model/thread.js are not part
    of the sources; processes and threads are "created lazily on first
    reference", and "thread name and sort index are metadata-derived". *)
Record ProcessInfo : Type := mkProcessInfo {
  pi_name : JSValue;
  pi_labels : list string;
  pi_sortIndex : JSValue
}.

Record ThreadInfo : Type := mkThreadInfo {
  ti_name : JSValue;
  ti_sortIndex : JSValue
}.

(** The processes and threads of the model, the importer's
    [softwareMeasuredCpuCount_], and the stack frames and the log of the
    model. *)
Record MetaState : Type := mkMeta {
  processInfo : gmap Z ProcessInfo;
  threadInfo : gmap (Z * Z) ThreadInfo;
  softwareMeasuredCpuCount_ : JSValue;
  frameState : FrameState
}.

Definition newProcessInfo : ProcessInfo := mkProcessInfo JSUndefined [] JSUndefined.
Definition newThreadInfo : ThreadInfo := mkThreadInfo JSUndefined JSUndefined.

Definition getOrCreateProcessInfo (pid : Z) (st : MetaState) : MetaState :=
  match processInfo st !! pid with
  | Some _ => st
  | None => mkMeta (<[pid := newProcessInfo]> (processInfo st)) (threadInfo st)
                   (softwareMeasuredCpuCount_ st) (frameState st)
  end.

Definition getOrCreateThreadInfo (pid tid : Z) (st : MetaState) : MetaState :=
  let st1 := getOrCreateProcessInfo pid st in
  match threadInfo st1 !! (pid, tid) with
  | Some _ => st1
  | None => mkMeta (processInfo st1) (<[(pid, tid) := newThreadInfo]> (threadInfo st1))
                   (softwareMeasuredCpuCount_ st1) (frameState st1)
  end.

Definition theProcessInfo (pid : Z) (st : MetaState) : ProcessInfo :=
  default newProcessInfo (processInfo st !! pid).

Definition theThreadInfo (pid tid : Z) (st : MetaState) : ThreadInfo :=
  default newThreadInfo (threadInfo st !! (pid, tid)).

Definition setProcessInfo (pid : Z) (p : ProcessInfo) (st : MetaState) : MetaState :=
  mkMeta (<[pid := p]> (processInfo st)) (threadInfo st)
         (softwareMeasuredCpuCount_ st) (frameState st).

Definition setThreadInfo (pid tid : Z) (t : ThreadInfo) (st : MetaState) : MetaState :=
  mkMeta (processInfo st) (<[(pid, tid) := t]> (threadInfo st))
         (softwareMeasuredCpuCount_ st) (frameState st).

Definition metaWarn (message : string) (st : MetaState) : MetaState :=
  mkMeta (processInfo st) (threadInfo st) (softwareMeasuredCpuCount_ st)
         (mkFrameState (st_frames (frameState st))
                       (warn "metadata_parse_error" message (st_log (frameState st)))).

(** [s.split(',')]. *)
Fixpoint splitComma (s : string) : list string :=
  match s with
  | EmptyString => [""]
  | String c s' =>
      if Ascii.eqb c "," then "" :: splitComma s'
      else match splitComma s' with
           | piece :: pieces => String c piece :: pieces
           | [] => [String c EmptyString]
           end
  end.

Definition isNamed (event : Event) (name : string) : bool :=
  bool_decide (ev_name event = Some name).

Section Handler.
(** The color of a frame and what [stackFrame.name] reads (see
    [importStackFrames_]); [Process.addLabelIfNeeded] on the labels of a
    process; [Math.max]; and the entries of a raw [stackFrames] table in the
    order of [for .. in]. *)
Variable colorIdFor : option string -> option Z.
Variable nameOf : Frame -> string.
Variable addLabelIfNeeded : list string -> string -> list string.
Variable mathMax : JSValue -> JSValue -> JSValue.
Variable entriesOf : JSValue -> list (string * RawStackFrame).

(** [processMetadataEvent]. *)
Definition processMetadataEvent (event : Event) (st : MetaState)
    : Completion MetaState :=
  let pid := ev_pid event in
  let tid := ev_tid event in
  if ev_argsStripped event then Normal st
  else if isNamed event "process_name" then
    let st1 := getOrCreateProcessInfo pid st in
    let p := theProcessInfo pid st1 in
    match ev_args event with
    | None => Throw TypeError
    | Some args =>
        Normal (setProcessInfo pid
                  (mkProcessInfo (field args "name") (pi_labels p) (pi_sortIndex p)) st1)
    end
  else if isNamed event "process_labels" then
    let st1 := getOrCreateProcessInfo pid st in
    let p := theProcessInfo pid st1 in
    match ev_args event with
    | None => Throw TypeError
    | Some args =>
        match field args "labels" with
        | JSString labels =>
            Normal (setProcessInfo pid
                      (mkProcessInfo (pi_name p)
                         (fold_left addLabelIfNeeded (splitComma labels) (pi_labels p))
                         (pi_sortIndex p)) st1)
        | _ => Throw TypeError
        end
    end
  else if isNamed event "process_sort_index" then
    let st1 := getOrCreateProcessInfo pid st in
    let p := theProcessInfo pid st1 in
    match ev_args event with
    | None => Throw TypeError
    | Some args =>
        Normal (setProcessInfo pid
                  (mkProcessInfo (pi_name p) (pi_labels p) (field args "sort_index")) st1)
    end
  else if isNamed event "thread_name" then
    let st1 := getOrCreateThreadInfo pid tid st in
    let t := theThreadInfo pid tid st1 in
    match ev_args event with
    | None => Throw TypeError
    | Some args =>
        Normal (setThreadInfo pid tid (mkThreadInfo (field args "name") (ti_sortIndex t)) st1)
    end
  else if isNamed event "thread_sort_index" then
    let st1 := getOrCreateThreadInfo pid tid st in
    let t := theThreadInfo pid tid st1 in
    match ev_args event with
    | None => Throw TypeError
    | Some args =>
        Normal (setThreadInfo pid tid (mkThreadInfo (ti_name t) (field args "sort_index")) st1)
    end
  else if isNamed event "num_cpus" then
    match ev_args event with
    | None => Throw TypeError
    | Some args =>
        let n := field args "number" in
        let n' := if is_undefined (softwareMeasuredCpuCount_ st) then n
                  else mathMax n (softwareMeasuredCpuCount_ st) in
        Normal (mkMeta (processInfo st) (threadInfo st) n' (frameState st))
    end
  else if isNamed event "stackFrames" then
    match ev_args event with
    | None => Throw TypeError
    | Some args =>
        let stackFrames := field args "stackFrames" in
        if is_undefined stackFrames then
          Normal (metaWarn ("No stack frames found in a '" +:+ jsStr (ev_name event) +:+
                            "' metadata event") st)
        else
          let? frames :=
            importStackFrames_ colorIdFor nameOf (entriesOf stackFrames)
                               ("p" +:+ pretty pid +:+ ":") true (frameState st) in
          Normal (mkMeta (processInfo st) (threadInfo st)
                         (softwareMeasuredCpuCount_ st) frames)
    end
  else
    Normal (metaWarn ("Unrecognized metadata name: " +:+ jsStr (ev_name event)) st).

(** The handler on the [M] events of a trace, in the order of the trace. *)
Fixpoint processMetadataEvents (events : list Event) (st : MetaState)
    : Completion MetaState :=
  match events with
  | [] => Normal st
  | event :: rest =>
      let? st1 := processMetadataEvent event st in
      processMetadataEvents rest st1
  end.

End Handler.

(** The names of metadata events that the handler knows. *)
Definition metadataNames : list string :=
  ["process_name"; "process_labels"; "process_sort_index"; "thread_name";
   "thread_sort_index"; "num_cpus"; "stackFrames"].

(** A [num_cpus] event that reports [n]. *)
Definition numCpus (pid n : Z) : Event :=
  withArgs (Some [("number", JSNumber n)])
           (named None (Some "num_cpus") None (bareEvent "M" pid 0 0)).

(** A [stackFrames] event of the process [pid]. *)
Definition stackFramesEvent (pid : Z) (table : JSValue) : Event :=
  withArgs (Some [("stackFrames", table)])
           (named None (Some "stackFrames") None (bareEvent "M" pid 0 0)).

Definition emptyMeta : MetaState :=
  mkMeta ∅ ∅ JSUndefined (mkFrameState ∅ emptyLog).

(** [Math.max] on integers; elsewhere the example does not use it. *)
Definition maxOfIntegers (a b : JSValue) : JSValue :=
  match a, b with
  | JSNumber x, JSNumber y => JSNumber (Z.max x y)
  | _, _ => JSUndefined
  end.

Definition keepLabel (labels : list string) (label : string) : list string :=
  if bool_decide (label ∈ labels) then labels else labels ++ [label].

End Metadata.

(** * The event data of an importer ([TraceEventImporter], [extractSubtraces]) *)

Module EventData.

(** [s[s.length - 1]]; [None] is [undefined]. *)
Definition lastChar (s : string) : option ascii := char0 (String.rev s).

(** [s.replace(/\s*,\s*$/, '')]: without the last comma, with the white space
    around it, when nothing but white space follows that comma. *)
Definition stripTrailingComma (s : string) : string :=
  match trimStart (String.rev s) with
  | String c r =>
      if Ascii.eqb c "," then String.rev (trimStart r) else s
  | EmptyString => s
  end.

(** The text that the constructor hands to [JSON.parse]. *)
Definition repairArray (eventData : string) : string :=
  let eventData := trim eventData in
  if bool_decide (char0 eventData = Some "["%char) then
    let eventData := stripTrailingComma eventData in
    if negb (bool_decide (lastChar eventData = Some "]"%char))
    then eventData +:+ "]" else eventData
  else eventData.

(** The fields of the importer that the constructor sets from the event
    data, and the fields of the model that it assigns. *)
Record ImporterData : Type := mkImporterData {
  events_ : JSValue;
  eventsWereFromString_ : bool;
  traceAnnotations_ : JSValue;
  systemTraceEvents_ : JSValue;
  battorData_ : JSValue;
  sampleEvents_ : JSValue;
  stackFrameEvents_ : JSValue
}.

Section Constructor.
(** The units of tr.b.u.TimeDisplayModes (base/units is not part of the
    sources), [JSON.parse], and the names that an object literal inherits. *)
Context {Unit : Type} `{EqDecision Unit}.
Variable timeDisplayModes : string -> option Unit.
Variable jsonParse : string -> Completion JSValue.
Variable inherited : string -> bool.

Record ModelData : Type := mkModelData {
  intrinsicTimeUnit_ : option Unit;
  metadata : list (string * JSValue)
}.

(** [set intrinsicTimeUnit] of the model. *)
Definition setIntrinsicTimeUnit (value : Unit) (m : ModelData) : Completion ModelData :=
  match intrinsicTimeUnit_ m with
  | Some u =>
      if bool_decide (u = value) then Normal m
      else Throw (Error "Intrinsic time unit already set")
  | None => Normal (mkModelData (Some value) (metadata m))
  end.

Definition knownFieldNames : list string :=
  ["battorLogAsString"; "samples"; "stackFrames"; "systemTraceEvents";
   "traceAnnotations"; "traceEvents"].

(** [fieldName in knownFieldNames]. *)
Definition isKnownField (fieldName : string) : bool :=
  bool_decide (fieldName ∈ knownFieldNames) || inherited fieldName.

(** [for (var fieldName in container)], over the fields in the order of the
    enumeration. *)
Fixpoint pushMetadata (fields : list (string * JSValue))
    (metadata0 : list (string * JSValue)) : list (string * JSValue) :=
  match fields with
  | [] => metadata0
  | (fieldName, value) :: rest =>
      if isKnownField fieldName then pushMetadata rest metadata0
      else pushMetadata rest (metadata0 ++ [(fieldName, value)])
  end.

(** The fields that [for .. in] enumerates: those of an object; the
    importer's containers are no arrays and no strings. *)
Definition enumerate (v : JSValue) : list (string * JSValue) :=
  match v with
  | JSObject fields => fields
  | _ => []
  end.

(** The constructor, from [this.events_ = ...] on. *)
Definition unwrapContainer (events : JSValue) (fromString : bool) (m : ModelData)
    : Completion (ImporterData * ModelData) :=
  let? traceAnnotations := getProp events "traceAnnotations" in
  let? traceEvents := getProp events "traceEvents" in
  if truthy traceEvents then
    let container := events in
    let? systemTraceEvents := getProp container "systemTraceEvents" in
    let? battorLogAsString := getProp container "battorLogAsString" in
    let? samples := getProp container "samples" in
    let? stackFrames := getProp container "stackFrames" in
    let? displayTimeUnit := getProp container "displayTimeUnit" in
    let? m1 :=
      if truthy displayTimeUnit then
        let unitName := jsToString displayTimeUnit in
        match timeDisplayModes unitName with
        | None => Throw (Error ("Unit " +:+ unitName +:+ " is not supported."))
        | Some unit => setIntrinsicTimeUnit unit m
        end
      else Normal m in
    Normal (mkImporterData traceEvents fromString traceAnnotations systemTraceEvents
                           battorLogAsString samples stackFrames,
            mkModelData (intrinsicTimeUnit_ m1)
                        (pushMetadata (enumerate container) (metadata m1)))
  else
    Normal (mkImporterData events fromString traceAnnotations JSUndefined JSUndefined
                           JSUndefined JSUndefined, m).

(** [new TraceEventImporter(model, eventData)]. *)
Definition newTraceEventImporter (eventData : JSValue) (m : ModelData)
    : Completion (ImporterData * ModelData) :=
  match eventData with
  | JSString s =>
      let? events := jsonParse (repairArray s) in
      unwrapContainer events true m
  | _ => unwrapContainer eventData false m
  end.

End Constructor.

(** [extractSubtraces]: the sub traces and the importer afterwards. *)
Definition extractSubtraces (imp : ImporterData) : list JSValue * ImporterData :=
  let systemEventsTmp := systemTraceEvents_ imp in
  let battorDataTmp := battorData_ imp in
  ((if truthy systemEventsTmp then [systemEventsTmp] else []) ++
   (if truthy battorDataTmp then [battorDataTmp] else []),
   mkImporterData (events_ imp) (eventsWereFromString_ imp) (traceAnnotations_ imp)
                  JSUndefined JSUndefined (sampleEvents_ imp) (stackFrameEvents_ imp)).

(** A string without white space at its start, and one without white space
    at its end. *)
Definition startsClean (s : string) : Prop :=
  match char0 s with Some c => is_whitespace c = false | None => True end.

Definition endsClean (s : string) : Prop := startsClean (String.rev s).

(** A container has a truthy [traceEvents]. *)
Definition isContainer (fields : list (string * JSValue)) : Prop :=
  exists traceEvents, assoc_get "traceEvents" fields = Some traceEvents /\
                      truthy traceEvents = true.

(** The two units of the example. *)
Inductive ExampleUnit : Type := ms | ns.

Global Instance ExampleUnit_eq_dec : EqDecision ExampleUnit.
Proof. solve_decision. Defined.

Definition exampleModes (unitName : string) : option ExampleUnit :=
  if String.eqb unitName "ms" then Some ms
  else if String.eqb unitName "ns" then Some ns
  else None.

End EventData.

(** * Process memory dumps (model/process_memory_dump.js) *)

Module ProcessMemoryDumps.

(** The six statistics of a region; a statistic that the trace does not give
    is [undefined].  Byte counts are integers. *)
Inductive StatName : Type :=
| PrivateCleanResident
| PrivateDirtyResident
| SharedCleanResident
| SharedDirtyResident
| ProportionalResident
| Swapped.

Record VMRegionByteStats : Type := mkByteStats {
  privateCleanResident : option Z;
  privateDirtyResident : option Z;
  sharedCleanResident : option Z;
  sharedDirtyResident : option Z;
  proportionalResident : option Z;
  swapped : option Z
}.

Record VMRegion : Type := mkVMRegion {
  startAddress : option Z;
  sizeInBytes : option Z;
  protectionFlags : option Z;
  mappedFile : option string;
  byteStats : VMRegionByteStats
}.

(** [byteStats[statName]]. *)
Definition statOf (stats : VMRegionByteStats) (statName : StatName) : option Z :=
  match statName with
  | PrivateCleanResident => privateCleanResident stats
  | PrivateDirtyResident => privateDirtyResident stats
  | SharedCleanResident => sharedCleanResident stats
  | SharedDirtyResident => sharedDirtyResident stats
  | ProportionalResident => proportionalResident stats
  | Swapped => swapped stats
  end.

(** The fields of a process memory dump that the functions of this file
    read and assign. *)
Record ProcessMemoryDump : Type := mkProcessDump {
  vmRegions_ : option (list VMRegion);
  mostRecentVmRegions : option (list VMRegion)
}.

(** [get hasOwnVmRegions]. *)
Definition hasOwnVmRegions (dump : ProcessMemoryDump) : bool :=
  bool_decide (is_Some (vmRegions_ dump)).

(** The sum of the loop of [getMostRecentTotalVmRegionStat]. *)
Definition totalOf (regions : list VMRegion) (statName : StatName) : Z :=
  fold_left (fun total vmRegion =>
               match statOf (byteStats vmRegion) statName with
               | None => total
               | Some statValue => total + statValue
               end)
            regions 0.

(** The values of a statistic in the regions that have it. *)
Definition statValues (regions : list VMRegion) (statName : StatName) : list Z :=
  omap (fun vmRegion => statOf (byteStats vmRegion) statName) regions.

(** [getMostRecentTotalVmRegionStat]; [None] is [undefined]. *)
Definition getMostRecentTotalVmRegionStat (dump : ProcessMemoryDump)
    (statName : StatName) : option Z :=
  match mostRecentVmRegions dump with
  | None => None
  | Some regions => Some (totalOf regions statName)
  end.

(** The loop of [hookUpMostRecentVmRegionsLinks], with its variable
    [mostRecentVmRegions]. *)
Fixpoint hookUpFrom (mostRecent : option (list VMRegion))
    (processDumps : list ProcessMemoryDump) : list ProcessMemoryDump :=
  match processDumps with
  | [] => []
  | processDump :: rest =>
      let mostRecent' :=
        match vmRegions_ processDump with
        | Some regions => Some regions
        | None => mostRecent
        end in
      mkProcessDump (vmRegions_ processDump) mostRecent' :: hookUpFrom mostRecent' rest
  end.

(** [ProcessMemoryDump.hookUpMostRecentVmRegionsLinks]. *)
Definition hookUpMostRecentVmRegionsLinks (processDumps : list ProcessMemoryDump)
    : list ProcessMemoryDump :=
  hookUpFrom None processDumps.

(** The regions of the last dump of a list that has regions of its own. *)
Definition lastOwnRegions (processDumps : list ProcessMemoryDump)
    : option (list VMRegion) :=
  last (omap vmRegions_ processDumps).

Definition PROTECTION_FLAG_READ : Z := 4.
Definition PROTECTION_FLAG_WRITE : Z := 2.
Definition PROTECTION_FLAG_EXECUTE : Z := 1.

(** [flags & flag ? letter : '-']. *)
Definition flagLetter (flags flag : Z) (letter : string) : string :=
  if negb (Z.land flags flag =? 0)%Z then letter else "-".

(** [get protectionFlagsToString]. *)
Definition protectionFlagsToString (region : VMRegion) : option string :=
  match protectionFlags region with
  | None => None
  | Some flags =>
      Some (flagLetter flags PROTECTION_FLAG_READ "r" +:+
            flagLetter flags PROTECTION_FLAG_WRITE "w" +:+
            flagLetter flags PROTECTION_FLAG_EXECUTE "x")
  end.

(** [VMRegionByteStats.fromDict] and [VMRegion.fromDict], on dictionaries
    that hold integers and, for the mapped file, a string. *)
Definition integerOf (v : JSValue) : option Z :=
  match v with
  | JSNumber n => Some n
  | _ => None
  end.

Definition stringOf (v : JSValue) : option string :=
  match v with
  | JSString s => Some s
  | _ => None
  end.

Definition byteStatsFromDict (dict : Args) : VMRegionByteStats :=
  mkByteStats (assoc_get "privateCleanResident" dict ≫= integerOf)
              (assoc_get "privateDirtyResident" dict ≫= integerOf)
              (assoc_get "sharedCleanResident" dict ≫= integerOf)
              (assoc_get "sharedDirtyResident" dict ≫= integerOf)
              (assoc_get "proportionalResident" dict ≫= integerOf)
              (assoc_get "swapped" dict ≫= integerOf).

(** A region with the given flags and nothing else. *)
Definition regionWithFlags (flags : Z) : VMRegion :=
  mkVMRegion None None (Some flags) None (mkByteStats None None None None None None).

End ProcessMemoryDumps.

(** * RAIL type names (extras/rail/rail_interaction_record.js) *)

Module Rail.

Definition ALL_RAIL_TYPE_NAMES : list string :=
  ["rail_response"; "rail_animate"; "rail_idle"; "rail_load"].

(** [array.indexOf(x)]; [None] is [-1]. *)
Fixpoint indexOf (x : string) (l : list string) : option nat :=
  match l with
  | [] => None
  | y :: l' => if String.eqb y x then Some 0%nat else option_map S (indexOf x l')
  end.

Section Names.
(** [String.prototype.toUpperCase] and [String.prototype.localeCompare] are
    those of the engine and of its locale. *)
Variable toUpperCase : string -> string.
Variable localeCompare : string -> string -> Z.

(** [userFriendlyRailTypeName]. *)
Definition userFriendlyRailTypeName (railTypeName : string) : string :=
  if (String.length railTypeName <? 6)%nat ||
     negb (bool_decide (String.index 0 "rail_" railTypeName = Some 0%nat))
  then railTypeName
  else
    match String.get 5 railTypeName with
    | Some c =>
        toUpperCase (String c EmptyString) +:+
        substring 6 (String.length railTypeName - 6) railTypeName
    | None => railTypeName
    end.

Definition RAIL_ORDER : list string :=
  flat_map (fun railTypeName =>
              [toUpperCase railTypeName;
               toUpperCase (userFriendlyRailTypeName railTypeName)])
           ALL_RAIL_TYPE_NAMES.

(** [railCompare]. *)
Definition railCompare (name1 name2 : string) : Z :=
  match indexOf (toUpperCase name1) RAIL_ORDER,
        indexOf (toUpperCase name2) RAIL_ORDER with
  | None, None => localeCompare name1 name2
  | None, Some _ => 1
  | Some _, None => -1
  | Some i1, Some i2 => Z.of_nat i1 - Z.of_nat i2
  end.

(** A name of the RAIL order. *)
Definition isRailName (name : string) : bool :=
  bool_decide (is_Some (indexOf (toUpperCase name) RAIL_ORDER)).

End Names.

(** Upper case for the letters of ASCII, and the order of the code units:
    an engine and a locale for examples. *)
Definition asciiUpper (c : ascii) : ascii :=
  let n := nat_of_ascii c in
  if (97 <=? n)%nat && (n <=? 122)%nat then ascii_of_nat (n - 32) else c.

Fixpoint asciiToUpperCase (s : string) : string :=
  match s with
  | EmptyString => EmptyString
  | String c s' => String (asciiUpper c) (asciiToUpperCase s')
  end.

Definition codeUnitCompare (a b : string) : Z :=
  match String.compare a b with
  | Lt => -1
  | Eq => 0
  | Gt => 1
  end.

End Rail.

(** * What the dispatcher defers *)

Module DispatchQueues.
Import TraceModel Dispatch.

(** The event that the loop of [importEvents] dispatches: without its
    arguments when they are ['__stripped__']. *)
Definition dispatched (rawEvent : RawEvent) : Event :=
  if raw_stripped rawEvent then stripArgs (raw_event rawEvent)
  else raw_event rawEvent.

Definition isAsyncPhase (event : Event) : bool :=
  phIn event ["b"; "e"; "n"; "S"; "F"; "T"; "p"].

Definition isObjectPhase (event : Event) : bool :=
  phIn event ["N"; "D"; "O"].

(** The event that an event puts on the flow queue. *)
Definition flowQueued (event : Event) : option Event :=
  if phIn event ["X"] then
    if isOverhead event || is_undefined (ev_bind_id event) then None
    else Some (assignFlowPhase event)
  else if phIn event ["s"; "t"; "f"] then Some event
  else None.

(** The entries of the async queue and of the object queue for a list of
    events: numbered from [n]. *)
Fixpoint entriesFrom (n : nat) (events : list Event) : list EventState :=
  match events with
  | [] => []
  | event :: rest =>
      mkEventState n event (threadOf event) None None :: entriesFrom (S n) rest
  end.

End DispatchQueues.

(** * What the first pass over the entries of one key establishes *)

Module AsyncMatching.
Import TraceModel Dispatch AsyncAssembler.

(** The entry at position [e] is an END that comes after the BEGIN at
    position [b] and has its name. *)
Definition matched (entries : list EventState) (b e : nat) : Prop :=
  exists bEntry eEntry,
    entries !! b = Some bEntry /\ entries !! e = Some eEntry /\
    (b < e)%nat /\
    ev_ph (es_event bEntry) = "b" /\ ev_ph (es_event eEntry) = "e" /\
    ev_name (es_event bEntry) = ev_name (es_event eEntry).

(** The state of the first pass before the entry at position [i]. *)
Definition matcherInvariant (entries : list EventState) (i : nat) (ms : MatchState)
    : Prop :=
  (forall p x, (p, x) ∈ parentStack ms ->
     entries !! p = Some x /\ ev_ph (es_event x) = "b" /\ (p < i)%nat) /\
  (forall b e, ends ms !! b = Some e ->
     matched entries b e /\ (e < i)%nat /\ e ∉ unfinished ms) /\
  (forall k, k ∈ unfinished ms -> (k < i)%nat).

(** What the first pass knows about the parents before the entry at
    position [i]: the stack holds the BEGIN entries that are open, each once
    and none of them matched, and the parent of an entry is a BEGIN before it
    whose END, if it has one, comes after the entry. *)
Definition nestingInvariant (entries : list EventState) (i : nat) (ms : MatchState)
    : Prop :=
  NoDup (parentStack ms).*1 /\
  (forall p x, (p, x) ∈ parentStack ms ->
     entries !! p = Some x /\ ev_ph (es_event x) = "b" /\ (p < i)%nat /\
     ends ms !! p = None) /\
  (forall b j, ends ms !! b = Some j -> (b < i)%nat) /\
  (forall k p, parents ms !! k = Some p ->
     (k < i)%nat /\ (p < k)%nat /\
     (exists x, entries !! p = Some x /\ ev_ph (es_event x) = "b") /\
     (forall j, ends ms !! p = Some j -> (k < j)%nat)).

(** What the second pass has made before the entry at position [i]: a slice
    for every entry that it does not skip, and the top level slices are the
    entries without a parent. *)
Definition assemblyInvariant (entries : list EventState) (ms : MatchState)
    (i : nat) (a : Assembly) : Prop :=
  (forall j entry, (j < i)%nat -> entries !! j = Some entry ->
     skipped ms j entry = false -> is_Some (sliceOfEntry a !! j)) /\
  (forall j, j ∈ topLevelSlices a -> (j < i)%nat /\ parents ms !! j = None).

(** What the second pass has filed before the entry at position [i]: the
    slices are slices of entries before [i], the sub slices of a slice are
    slices of later entries, and every slice is among the sub slices of the
    slice of its parent or, without a parent, among the top level slices. *)
Definition filingInvariant (ms : MatchState) (i : nat) (a : Assembly) : Prop :=
  (forall j, is_Some (sliceOfEntry a !! j) -> (j < i)%nat) /\
  (forall p x, x ∈ default [] (subSlicesOf a !! p) ->
     (p < x)%nat /\ is_Some (sliceOfEntry a !! x)) /\
  (forall j, is_Some (sliceOfEntry a !! j) ->
     match parents ms !! j with
     | Some p =>
         j ∈ default [] (subSlicesOf a !! p) /\ is_Some (sliceOfEntry a !! p)
     | None => j ∈ topLevelSlices a
     end).

(** What a step of the second pass makes of the slice of the entry at
    position [i]: the variables of the pass after the step. *)
Definition filed (ms : MatchState) (i : nat) (slice : AsyncSlice)
    (log1 : ImportLog) (a : Assembly) : Assembly :=
  match parents ms !! i with
  | None =>
      mkAssembly (<[i := slice]> (sliceOfEntry a)) (subSlicesOf a)
                 (topLevelSlices a ++ [i]) log1
  | Some p =>
      match sliceOfEntry a !! p with
      | Some _ =>
          mkAssembly (<[i := slice]> (sliceOfEntry a))
            (<[p := default [] (subSlicesOf a !! p) ++ [i]]> (subSlicesOf a))
            (topLevelSlices a) log1
      | None =>
          mkAssembly (<[i := slice]> (sliceOfEntry a)) (subSlicesOf a)
                     (topLevelSlices a) log1
      end
  end.



(** A BEGIN named [x] at 0 with its END at 5, under the key [c:7]. *)
Definition matchedBegin : EventState :=
  mkEventState 0
    (withArgs (Some [("a", JSNumber 1)])
       (named (Some "c") (Some "x") (Some "7") (bareEvent "b" 1 1 0)))
    (1, 1) None None.

Definition matchedEnd : EventState :=
  mkEventState 1
    (withArgs (Some [("z", JSNumber 2)])
       (named (Some "c") (Some "x") (Some "7") (bareEvent "e" 1 1 5)))
    (1, 1) None None.


(** An instant event between the two. *)
Definition nestedInstant : EventState :=
  mkEventState 2
    (named (Some "c") (Some "tick") (Some "7") (bareEvent "n" 1 1 3))
    (1, 1) None None.

End AsyncMatching.

(** * What the flow pass keeps *)

Module FlowInvariant.
Import TraceModel Dispatch FlowAssembler JSObjects.

(** The flow event [r] is bound at both ends: it starts at a slice that
    lists it among its outgoing flows and ends at a slice that lists it
    among its incoming flows. *)
Definition boundAtBothEnds (st : FlowState) (r : nat) : Prop :=
  exists f es,
    flows st !! r = Some f /\
    r ∈ default [] (outFlowEvents st !! flow_startSlice f) /\
    flow_endSlice f = Some es /\
    r ∈ default [] (inFlowEvents st !! es).

(** The flow event [r] ends at a slice that lists it. *)
Definition ended (st : FlowState) (r : nat) : Prop :=
  exists f es,
    flows st !! r = Some f /\ flow_endSlice f = Some es /\
    r ∈ default [] (inFlowEvents st !! es).

(** The key under which the pass looks an event up in [flowIdToEvent] and
    [flowStatus], the [bind_id] of an event of flow API v2 and the [id] of
    any other: it is not the name of a member that these object literals
    inherit. *)
Definition flowKey (event : Event) : string :=
  if truthy (ev_bind_id event) then jsToString (ev_bind_id event)
  else jsStr (ev_id event).

Definition plainFlowKey (data : EventState) : Prop :=
  onObjectPrototype (flowKey (es_event data)) = false.

(** Every flow event is listed by its start slice, and every flow event of
    the model has its end. *)
Definition flowInvariant (st : FlowState) : Prop :=
  (forall r f, flows st !! r = Some f ->
     r ∈ default [] (outFlowEvents st !! flow_startSlice f)) /\
  (forall r, r ∈ modelFlowEvents st -> ended st r).

End FlowInvariant.

(** * [Model.importWarning] with the import options and the console *)

Module ModelConsole.

(** The log of the model, [importOptions_] ([undefined] until the setter
    [importOptions] runs) and the lines that [console.warn] has written. *)
Record ModelState : Type := mkModelState {
  ms_log : ImportLog;
  importOptions_ : JSValue;
  console : list string
}.

(** [this.reportedImportWarnings_[data.type] = true].  The table is an object
    literal: an assignment of [true] to its ['__proto__'] is ignored. *)
Definition report (type : string) (reported : gset string) : gset string :=
  if String.eqb type "__proto__" then reported else {[ type ]} ∪ reported.

(** [importWarning]: the state afterwards and how the call completes. *)
Definition importWarning (data : Warning) (st : ModelState)
    : ModelState * Completion unit :=
  let warnings := importWarnings_ (ms_log st) ++ [data] in
  let reported := reportedImportWarnings_ (ms_log st) in
  let st1 := mkModelState (mkLog warnings reported) (importOptions_ st) (console st) in
  if bool_decide (wtype data ∈ reported) then (st1, Normal tt)
  else
    match getProp (importOptions_ st) "showImportWarnings" with
    | Throw e => (st1, Throw e)
    | Normal show =>
        (mkModelState (mkLog warnings (report (wtype data) reported))
                      (importOptions_ st)
                      (if truthy show then console st ++ [wmessage data]
                       else console st),
         Normal tt)
    end.

(** A sequence of warnings, up to the first call that throws. *)
Fixpoint importWarnings (ws : list Warning) (st : ModelState)
    : ModelState * Completion unit :=
  match ws with
  | [] => (st, Normal tt)
  | data :: rest =>
      match importWarning data st with
      | (st1, Normal _) => importWarnings rest st1
      | (st1, Throw e) => (st1, Throw e)
      end
  end.

(** The first warning of each type, in the order of the warnings. *)
Fixpoint firstOfEachType (ws : list Warning) : list Warning :=
  match ws with
  | [] => []
  | w :: rest =>
      w :: filter (fun w' => wtype w' <> wtype w) (firstOfEachType rest)
  end.

(** Import options that ask for the warnings, and a fresh model that has
    them. *)
Definition showWarnings : JSValue := JSObject [("showImportWarnings", JSBool true)].

Definition freshModel : ModelState := mkModelState emptyLog showWarnings [].

End ModelConsole.

(** * Sample data ([importSampleData]) *)

Module SampleData.
Import ModelThreads.

(** An entry of the [samples] of a trace: the fields that
    [getStackFrameForEvent_] reads are those of an event; [cpu] and [weight]
    come on top. *)
Record SampleEvent : Type := mkSampleEvent {
  se_event : Event;
  se_cpu : option Z;
  se_weight : JSValue
}.

(** A sample of the model (model/sample.js is not part of the sources; the
    fields are the arguments of the constructor).  A CPU is named by its
    number, a stack frame by its id. *)
Record Sample : Type := mkSample {
  sample_cpu : option Z;
  sample_thread : Thread;
  sample_title : option string;
  sample_start : Q;
  sample_leafStackFrame : option string;
  sample_weight : JSValue
}.

(** The key under which [threadsByTid] is read for a sample event. *)
Definition tidKey (event : SampleEvent) : string := pretty (ev_tid (se_event event)).

(** [m.getAllThreads().forEach(function(t) { threadsByTid[t.tid] = t; })]. *)
Fixpoint indexThreads (threads : list (option Thread)) (threadsByTid : gmap string Thread)
    : Completion (gmap string Thread) :=
  match threads with
  | [] => Normal threadsByTid
  | None :: _ => Throw TypeError
  | Some t :: rest => indexThreads rest (<[thread_tid t := t]> threadsByTid)
  end.

(** The variables of the second loop: the samples pushed to [m.samples], the
    log of the model, and [cpu], which is declared in the body of the loop
    and so keeps its value from one iteration to the next. *)
Record SampleState : Type := mkSampleState {
  sd_samples : list Sample;
  sd_log : ImportLog;
  sd_cpu : option Z
}.

(** The message reads [events.tid], and [events] is the array. *)
Definition threadNotFound : Warning :=
  mkWarning "sample_import_error" ("Thread " +:+ "undefined" +:+ "not found").

Definition sampleStep (stackFrames : gmap string StackFrame)
    (threadsByTid : gmap string Thread) (st : SampleState) (event : SampleEvent)
    : Completion SampleState :=
  match threadsByTid !! tidKey event with
  | None =>
      Normal (mkSampleState (sd_samples st) (importWarning threadNotFound (sd_log st))
                            (sd_cpu st))
  | Some thread =>
      let cpu := match se_cpu event with
                 | Some c => Some c
                 | None => sd_cpu st
                 end in
      let? found :=
        getStackFrameForEvent_ stackFrames (se_event event) false (sd_log st) in
      let '(stackFrame, log1) := found in
      Normal
        (mkSampleState
           (sd_samples st ++
            [mkSample cpu thread (ev_name (se_event event))
                      (timestampFromUs (ev_ts (se_event event))) stackFrame
                      (se_weight event)])
           log1 cpu)
  end.

(** The second [for] loop of [importSampleData]. *)
Fixpoint sampleLoop (stackFrames : gmap string StackFrame)
    (threadsByTid : gmap string Thread) (events : list SampleEvent)
    (st : SampleState) : Completion SampleState :=
  match events with
  | [] => Normal st
  | event :: rest =>
      let? st1 := sampleStep stackFrames threadsByTid st event in
      sampleLoop stackFrames threadsByTid rest st1
  end.

Section Importer.
(** [m.getOrCreateProcess(tid).getOrCreateThread(tid)] (model/process.js is
    not part of the sources). *)
Variable getOrCreateThreadOf : string -> Model -> Model.

(** The model after "If this is the only importer, then fake-create the
    threads." *)
Definition withFakeThreads (events : list SampleEvent) (eventsLength : nat)
    (m : Model) : Model :=
  if Nat.eqb eventsLength 0
  then fold_left (fun m' event => getOrCreateThreadOf (tidKey event) m') events m
  else m.

(** [importSampleData]: [sampleEvents] is the array [this.sampleEvents_], or
    [None] when that is falsy; [eventsLength] is [this.events_.length].  The
    result is the model, the samples pushed and the log. *)
Definition importSampleData (sampleEvents : option (list SampleEvent))
    (eventsLength : nat) (stackFrames : gmap string StackFrame)
    (m : Model) (log : ImportLog) : Completion (Model * list Sample * ImportLog) :=
  match sampleEvents with
  | None => Normal (m, [], log)
  | Some events =>
      let m1 := withFakeThreads events eventsLength m in
      let? threads := getAllThreads m1 in
      let? threadsByTid := indexThreads threads ∅ in
      let? st := sampleLoop stackFrames threadsByTid events
                            (mkSampleState [] log None) in
      Normal (m1, sd_samples st, sd_log st)
  end.

End Importer.

(** ** What the samples are *)

(** The threads of the processes in the order of [getAllThreads]. *)
Definition processThreads (m : Model) : list Thread :=
  flat_map (fun kv => map snd (process_threads kv.2)) (processes m).

(** The thread that [threadsByTid] holds for a key: the last one of that
    [tid]. *)
Definition threadOfTid (m : Model) (key : string) : option Thread :=
  last (filter (fun t => thread_tid t = key) (processThreads m)).

(** The sample events that find a thread. *)
Definition withThread (m : Model) (events : list SampleEvent) : list SampleEvent :=
  filter (fun event => is_Some (threadOfTid m (tidKey event))) events.

(** The stack frame of the sample of an event, when the lookup returns. *)
Definition leafFrameOf (stackFrames : gmap string StackFrame) (event : SampleEvent)
    : option string :=
  match getStackFrameForEvent_ stackFrames (se_event event) false emptyLog with
  | Normal (frame, _) => frame
  | Throw _ => None
  end.

(** No sample event carries a [stack] without an [sf]. *)
Definition noBareStack (events : list SampleEvent) : Prop :=
  Forall (fun event => stackWithoutFrame (se_event event) false = false) events.

(** The CPU of the sample of the last of [events]: the most recent one
    given. *)
Definition cpuOf (events : list SampleEvent) : option Z := last (omap se_cpu events).

(** Three samples for the threads of [userlandModel]: one names no thread,
    and the last one names no CPU. *)
Definition exampleSamples : list SampleEvent :=
  [mkSampleEvent (named None (Some "a") None (bareEvent "P" 1 7 10)) (Some 2) (JSNumber 1);
   mkSampleEvent (named None (Some "b") None (bareEvent "P" 1 99 20)) (Some 3) (JSNumber 1);
   mkSampleEvent (named None (Some "c") None (bareEvent "P" 2 3 30)) None (JSNumber 1)].

End SampleData.

(** * Flow API v2: producers and consumers *)

Module FlowV2.
Import TraceModel Dispatch SpecSliceGroup Examples FlowAssembler.

(** An event of flow API v2 that passes validation: it has a name, its phase
    is none of [s], [t] and [f], its [bind_id] is truthy, and it has a
    [flow_in] or a [flow_out]. *)
Definition isFlowV2 (event : Event) : Prop :=
  is_Some (ev_name event) /\ phIn event ["s"; "f"; "t"] = false /\
  truthy (ev_bind_id event) = true /\
  (is_undefined (ev_flow_in event) && is_undefined (ev_flow_out event)) = false.

(** No flow is marked open. *)
Definition noneOpen (st : FlowState) : Prop :=
  forall id b, flowStatus st !! id = Some b -> b = false.

(** When the flow starts: at the end of the producing slice. *)
Definition producedAt (event : Event) : option Q :=
  match ev_dur event with
  | Some d => Some (timestampFromUs (ev_ts event + d))
  | None => None
  end.

(** Two complete events with the bind id 7: one that only flows out, and
    one that only flows in. *)
Definition producerEvent : EventState :=
  mkEventState 0
    (setFlowPhase PRODUCER
       (withFlow (Some 10) (JSNumber 7) JSUndefined (JSBool true)
          (named (Some "cat") (Some "send") None (bareEvent "X" 1 1 0))))
    (1, 1) (Some 0) (Some 0%nat).

Definition consumerEvent : EventState :=
  mkEventState 1
    (setFlowPhase CONSUMER
       (withFlow (Some 10) (JSNumber 7) (JSBool true) JSUndefined
          (named (Some "cat") (Some "receive") None (bareEvent "X" 1 2 50))))
    (1, 2) (Some 0) (Some 0%nat).

(** The state of the flow pass after [producerEvent], and the flow that the
    producer started. *)
Definition afterProducer : FlowState :=
  orElse (flowStep (ops := specOps) (colors := lengthColors) flowModel producerEvent
                   (newFlowState emptyLog))
         (newFlowState emptyLog).

Definition producedFlow : FlowEvent :=
  mkFlowEvent (Some "cat") "7" (Some "send")
    (getEventColor (colors := lengthColors) (es_event producerEvent) None)
    (Some (timestampFromUs (0 + 10))) [] ((1, 1), 0%nat) None None None None.

End FlowV2.

(** * Heap dumps ([parseHeapDump_]) *)

Module HeapDumps.
Import StackFrameTable.

(** An entry of the [entries] of a raw heap dump. *)
Record RawHeapEntry : Type := mkRawHeapEntry {
  rhe_size : JSValue;
  rhe_bt : JSValue
}.

(** What [heapDump.addEntry(leafStackFrame, size)] is called with
    (model/heap_dump.js is not part of the sources): the id of the leaf
    frame, if any, and the size, where [None] is [NaN]. *)
Record HeapEntry : Type := mkHeapEntry {
  he_leafStackFrame : option string;
  he_size : option Z
}.

(** ['' + size]. *)
Definition numberText (n : option Z) : string :=
  match n with
  | Some z => pretty z
  | None => "NaN"
  end.

Section Parse.
(** [parseInt(v, 16)] is that of the engine. *)
Variable parseInt16 : JSValue -> option Z.

Definition missingEntries (allocatorName : string) (pid : Z) : Warning :=
  mkWarning "memory_dump_parse_error"
    ("Missing heap entries in a " +:+ allocatorName +:+ " heap dump for pid=" +:+
     pretty pid +:+ ".").

Definition missingLeaf (leafStackFrameId : string) (i : nat) (size : option Z)
    (allocatorName : string) (pid : Z) : Warning :=
  mkWarning "memory_dump_parse_error"
    ("Missing leaf stack frame (ID " +:+ leafStackFrameId +:+ ") of heap entry " +:+
     pretty i +:+ " (size " +:+ numberText size +:+ ") in a " +:+ allocatorName +:+
     " heap dump for pid=" +:+ pretty pid +:+ ".").

(** The loop over [entries], from the index [i] on. *)
Fixpoint heapLoop (stackFrames : gmap string Frame) (allocatorName : string)
    (pid : Z) (i : nat) (entries : list RawHeapEntry)
    (st : list HeapEntry * ImportLog) : list HeapEntry * ImportLog :=
  match entries with
  | [] => st
  | entry :: rest =>
      let size := parseInt16 (rhe_size entry) in
      let leafStackFrameIndex := rhe_bt entry in
      let st1 :=
        if is_undefined leafStackFrameIndex then
          (st.1 ++ [mkHeapEntry None size], st.2)
        else
          let leafStackFrameId :=
            "p" +:+ pretty pid +:+ ":" +:+ jsToString leafStackFrameIndex in
          match stackFrames !! leafStackFrameId with
          | None =>
              (st.1,
               importWarning (missingLeaf leafStackFrameId i size allocatorName pid) st.2)
          | Some _ => (st.1 ++ [mkHeapEntry (Some leafStackFrameId) size], st.2)
          end in
      heapLoop stackFrames allocatorName pid (S i) rest st1
  end.

(** [parseHeapDump_]: the entries added to the heap dump, or [None] for
    [undefined], and the log. *)
Definition parseHeapDump_ (stackFrames : gmap string Frame) (pid : Z)
    (allocatorName : string) (entries : option (list RawHeapEntry))
    (log : ImportLog) : option (list HeapEntry) * ImportLog :=
  match entries with
  | None => (None, importWarning (missingEntries allocatorName pid) log)
  | Some entries =>
      let st := heapLoop stackFrames allocatorName pid 0 entries ([], log) in
      (Some st.1, st.2)
  end.

(** ** What the heap dump holds *)

(** The id of the leaf frame that a raw entry names. *)
Definition leafIdOf (pid : Z) (entry : RawHeapEntry) : option string :=
  if is_undefined (rhe_bt entry) then None
  else Some ("p" +:+ pretty pid +:+ ":" +:+ jsToString (rhe_bt entry)).

(** The raw entry names no frame, or a frame of the table. *)
Definition resolves (stackFrames : gmap string Frame) (pid : Z)
    (entry : RawHeapEntry) : Prop :=
  match leafIdOf pid entry with
  | None => True
  | Some id => is_Some (stackFrames !! id)
  end.

Global Instance resolves_dec stackFrames pid entry :
  Decision (resolves stackFrames pid entry).
Proof. unfold resolves. destruct (leafIdOf pid entry); apply _. Defined.

Definition entryOf (pid : Z) (entry : RawHeapEntry) : HeapEntry :=
  mkHeapEntry (leafIdOf pid entry) (parseInt16 (rhe_size entry)).

(** The warning of the raw entry at position [i], if it has one. *)
Definition warningOf (stackFrames : gmap string Frame) (allocatorName : string)
    (pid : Z) (i : nat) (entry : RawHeapEntry) : option Warning :=
  match leafIdOf pid entry with
  | None => None
  | Some id =>
      if bool_decide (is_Some (stackFrames !! id)) then None
      else Some (missingLeaf id i (parseInt16 (rhe_size entry)) allocatorName pid)
  end.

End Parse.

(** Hexadecimal sizes of at most one digit, for the example. *)
Definition oneHexDigit (v : JSValue) : option Z :=
  match v with
  | JSString "a" => Some 10
  | JSString "1" => Some 1
  | _ => None
  end.

(** Three raw entries: one without a frame, one with a frame of the table
    of the example, and one with a frame that is missing. *)
Definition exampleHeap : list RawHeapEntry :=
  [mkRawHeapEntry (JSString "a") JSUndefined;
   mkRawHeapEntry (JSString "1") (JSString "2");
   mkRawHeapEntry (JSString "1") (JSString "9")].

Definition exampleTable : gmap string Frame :=
  {[ "p7:2" := mkFrame "p7:2" (Some "run") None None ]}.

End HeapDumps.

(** * Facts about object literals used as dictionaries *)

Module JSObjectsFacts.
Import JSObjects.

(** A name that is no inherited name is looked up in the dictionary alone. *)
Lemma jsLookup_plain {V} (dict : gmap string V) (k : string) :
  onObjectPrototype k = false ->
  jsLookup onObjectPrototype dict k =
  match dict !! k with
  | Some v => Own v
  | None => Missing
  end.
Proof. intros Hk. unfold jsLookup. rewrite Hk. reflexivity. Qed.

End JSObjectsFacts.

(** * Facts about the acceptance predicate *)

Module CanImportFacts.
Import CanImport.

Lemma truthy_string_length (s : string) :
  truthy (JSNumber (Z.of_nat (String.length s))) = negb (String.eqb s "").
Proof. destruct s; reflexivity. Qed.

Lemma truthy_list_length (l : list JSValue) :
  truthy (JSNumber (Z.of_nat (length l))) = negb (Nat.eqb (length l) 0).
Proof. destruct l; reflexivity. Qed.

Lemma getProp_object (o : list (string * JSValue)) (k : string) :
  getProp (JSObject o) k = Normal (field o k).
Proof. unfold getProp, field. destruct (assoc_get k o); reflexivity. Qed.

Lemma firstHasPh_cases (elems : list JSValue) :
  firstHasPh elems =
  if firstNullish elems then Throw TypeError else Normal (firstTruthyPh elems).
Proof.
  destruct elems as [|e0 rest]; [reflexivity|].
  destruct e0; try reflexivity.
  cbn [firstHasPh firstNullish nullish firstTruthyPh truthyPh].
  rewrite getProp_object. reflexivity.
Qed.

Lemma samples_length_cases (sm : JSValue) :
  cbind (getProp sm "length") (fun len => Normal (truthy len)) =
  if nullish sm then Throw TypeError else Normal (truthyLength sm).
Proof.
  destruct sm; try reflexivity.
  - cbn. apply f_equal, truthy_string_length.
  - cbn. apply f_equal, truthy_list_length.
  - rewrite getProp_object. reflexivity.
Qed.

(** The complete behaviour of [canImport]: it throws exactly on the inputs of
    [derefsNullish] and returns [accepts] on all others. *)
Lemma canImport_cases (v : JSValue) :
  canImport v =
  if derefsNullish v then Throw TypeError else Normal (accepts v).
Proof.
  destruct v as [| |b|n|s|elems|o]; try reflexivity.
  - cbn [canImport derefsNullish accepts].
    rewrite firstHasPh_cases.
    destruct (firstNullish elems); [reflexivity|].
    cbn. destruct (firstTruthyPh elems); reflexivity.
  - cbn [canImport derefsNullish accepts cbind].
    rewrite !getProp_object. cbn [cbind].
    destruct (field o "traceEvents") as [| |b|n|s|tes|o'] eqn:Hte;
      cbn [truthy]; try reflexivity; try (destruct b; reflexivity);
      try (destruct (negb _); reflexivity).
    rewrite firstHasPh_cases.
    destruct (firstNullish tes); [reflexivity|]. cbn [cbind orb].
    destruct (firstTruthyPh tes); [reflexivity|]. cbn [cbind orb negb andb].
    pose proof (samples_length_cases (field o "samples")) as Hlen.
    destruct (nullish (field o "samples")).
    + destruct (getProp (field o "samples") "length"); [discriminate|].
      cbn [cbind] in *. injection Hlen as ->. reflexivity.
    + destruct (getProp (field o "samples") "length") as [len|]; [|discriminate].
      cbn [cbind] in *. injection Hlen as ->.
      destruct (truthyLength (field o "samples")); [|reflexivity].
      destruct (is_undefined (field o "stackFrames")); reflexivity.
Qed.

(** C2, as the code has it: on every input on which it reads no property of
    [undefined] or [null], [canImport] returns [true] exactly when the input
    is a string that starts, once trimmed, with a brace or a bracket, or a
    non-empty array whose first element has a truthy [ph], or an object whose
    [traceEvents] is an array that either is such an array or comes with a
    [samples] of truthy [length] and a [stackFrames] that is not [undefined];
    it returns [false] on all other such inputs, and returns on no input
    outside them. *)
Theorem canImport_accepts (v : JSValue) (b : bool) :
  canImport v = Normal b <-> accepts v = b /\ derefsNullish v = false.
Proof.
  rewrite canImport_cases.
  destruct (derefsNullish v); split.
  - discriminate.
  - intros [_ H]. discriminate H.
  - intros H. injection H as ->. split; reflexivity.
  - intros [-> _]. reflexivity.
Qed.

(** C2 as stated fails: an object with [samples] and [stackFrames] but no
    [traceEvents] satisfies the specification's predicate and is rejected. *)
Lemma canImport_rejects_samples_without_traceEvents :
  spec_canImport samplesOnly = true /\ canImport samplesOnly = Normal false.
Proof. split; reflexivity. Qed.

(** Further inputs of the stated claim on which the code differs: it throws on
    [null], and on a [traceEvents] array without events when [samples] is
    missing. *)
Lemma canImport_null_throws : canImport JSNull = Throw TypeError.
Proof. reflexivity. Qed.

Lemma canImport_empty_traceEvents_throws :
  canImport (JSObject [("traceEvents", JSArray [])]) = Throw TypeError.
Proof. reflexivity. Qed.

(** The no-break space is trimmed like any other white space. *)
Lemma canImport_trims_no_break_space :
  canImport (JSString (String (ascii_of_nat 160) "{")) = Normal true.
Proof. reflexivity. Qed.

Lemma canImport_falsy_ph :
  spec_canImport (JSArray [JSObject [("ph", JSString "")]]) = true /\
  canImport (JSArray [JSObject [("ph", JSString "")]]) = Normal false.
Proof. split; reflexivity. Qed.

End CanImportFacts.

(** * Facts about [Model.getAllThreads] *)

Module ModelThreadsFacts.
Import ModelThreads.

Lemma assoc_get_binding {V} (o : list (string * V)) (k : string) (v : V) :
  wfObj o -> (k, v) ∈ o -> assoc_get k o = Some v.
Proof.
  unfold wfObj, keys.
  induction o as [|[k' v'] o IH]; intros Hnd Hin.
  - inversion Hin.
  - cbn in Hnd. apply NoDup_cons in Hnd as [Hk Hnd]. cbn.
    apply elem_of_cons in Hin as [Heq|Hin].
    + injection Heq as -> ->. rewrite String.eqb_refl. reflexivity.
    + destruct (String.eqb_spec k k') as [->|_]; [|auto].
      exfalso. apply Hk. apply list_elem_of_fmap. exists (k', v). auto.
Qed.

(** Pushing the threads of the current process, key by key. *)
Lemma forIn_pushThreadOf (p : Process) (l : list (string * Thread))
    (acc : list (option Thread)) :
  (forall k v, (k, v) ∈ l -> assoc_get k (process_threads p) = Some v) ->
  forIn (keys l) pushThreadOf (mkLocals acc (Some p)) =
  Normal (mkLocals (acc ++ map (fun kv => Some (snd kv)) l) (Some p)).
Proof.
  revert acc. induction l as [|[k v] l IH]; intros acc Hl; cbn.
  - rewrite app_nil_r. reflexivity.
  - rewrite (Hl k v) by apply list_elem_of_here.
    rewrite IH.
    + rewrite <- app_assoc. reflexivity.
    + intros k' v' Hin. apply Hl. apply list_elem_of_further, Hin.
Qed.

Lemma forIn_eachProcess (m : Model) (l : list (string * Process))
    (st : Locals) :
  (forall k p, (k, p) ∈ l ->
     assoc_get k (processes m) = Some p /\ wfObj (process_threads p)) ->
  exists q,
    forIn (keys l) (eachProcess m) st =
    Normal (mkLocals (l_threads st ++ flat_map (fun kv => threadsOf (snd kv)) l) q).
Proof.
  revert st. induction l as [|[k p] l IH]; intros st Hl; cbn.
  - exists (l_process st). rewrite app_nil_r. destruct st; reflexivity.
  - destruct (Hl k p) as [Hget Hwf]; [apply list_elem_of_here|].
    unfold eachProcess at 1. cbn. rewrite Hget.
    rewrite forIn_pushThreadOf.
    + cbn [cbind l_threads snd]. fold (threadsOf p).
      destruct (IH (mkLocals (l_threads st ++ threadsOf p) (Some p))) as [q Hq].
      * intros k' p' Hin. apply Hl. apply list_elem_of_further, Hin.
      * exists q. fold (keys l). rewrite Hq.
        cbn [l_threads]. rewrite <- app_assoc. reflexivity.
    + intros k' v' Hin. apply assoc_get_binding; assumption.
Qed.

(** The first loop throws at its first key: [process] is still [undefined]. *)
Lemma forIn_kernel_threads (ks : list string) :
  forIn ks pushThreadOf (mkLocals [] None) =
  match ks with
  | [] => Normal (mkLocals [] None)
  | _ :: _ => Throw TypeError
  end.
Proof. destruct ks; reflexivity. Qed.

(** C10: with at least one kernel thread [getAllThreads] throws a
    [TypeError]; with none it returns exactly the threads of all the
    processes of the model. *)
Theorem getAllThreads_kernel_threads (m : Model) :
  wfObj (processes m) ->
  (forall k p, (k, p) ∈ processes m -> wfObj (process_threads p)) ->
  getAllThreads m =
  match kernel_threads (kernel m) with
  | [] => Normal (allProcessThreads m)
  | _ :: _ => Throw TypeError
  end.
Proof.
  intros Hwf Hthreads. unfold getAllThreads.
  rewrite forIn_kernel_threads.
  destruct (kernel_threads (kernel m)) as [|kt kts]; [|reflexivity].
  cbn [keys map cbind].
  destruct (forIn_eachProcess m (processes m) (mkLocals [] None)) as [q Hq].
  - intros k p Hin. split; [apply assoc_get_binding; assumption|].
    apply (Hthreads k p Hin).
  - rewrite Hq. reflexivity.
Qed.

Lemma wfObj_decide {V} (o : list (string * V)) :
  bool_decide (NoDup (keys o)) = true -> wfObj o.
Proof. intros H. apply bool_decide_eq_true in H. exact H. Qed.

Lemma getAllThreads_userland_witness :
  getAllThreads userlandModel = Normal (allProcessThreads userlandModel).
Proof.
  apply (getAllThreads_kernel_threads userlandModel).
  - apply wfObj_decide. vm_compute. reflexivity.
  - intros k p Hin. apply wfObj_decide.
    unfold userlandModel, processes in Hin.
    repeat (apply elem_of_cons in Hin as [Heq|Hin];
            [injection Heq as -> ->; vm_compute; reflexivity|]).
    inversion Hin.
Defined.

Example getAllThreads_userland :
  getAllThreads userlandModel =
  Normal [Some (mkThread "1" (Some "CrBrowserMain")); Some (mkThread "7" None);
          Some (mkThread "3" (Some "CrRendererMain"))].
Proof. reflexivity. Qed.

Example getAllThreads_kernel : getAllThreads kernelModel = Throw TypeError.
Proof. reflexivity. Qed.

End ModelThreadsFacts.

(** * Facts about the dispatcher *)

Module DispatchFacts.
Import TraceModel Dispatch DispatchSpec Examples.

(** ** The order of the deferred sorts *)


Lemma entryLe_tsThenSeq (x y : EventState) : entryLe x y <-> tsThenSeq x y.
Proof.
  unfold entryLe, tsThenSeq, compareEntries.
  destruct (Z.eqb_spec (ev_ts (es_event x) - ev_ts (es_event y)) 0); cbn; lia.
Qed.

Global Instance entryLe_total : Total entryLe.
Proof.
  intros x y. rewrite !entryLe_tsThenSeq. unfold tsThenSeq. lia.
Qed.

Global Instance entryLe_trans : Transitive entryLe.
Proof.
  intros x y z. rewrite !entryLe_tsThenSeq. unfold tsThenSeq. lia.
Qed.









Section HandlerFacts.
Context {SG : Type} {ops : SliceGroupOps SG} {colors : ColorScheme} {Aux : Type}.
Variable counterKey : option string -> string -> string.
Variable processTraceSampleEvent : Event -> Model SG -> Aux -> Completion (Model SG * Aux).
Variable processMetadataEvent : Event -> Model SG -> Aux -> Completion (Model SG * Aux).
Variable processMemoryDumpEvent : Event -> Model SG -> Aux -> Completion (Model SG * Aux).
Variable processJitCodeEvent : Event -> Aux -> Completion Aux.
Variable getLastGuid : Model SG -> Z.

Local Abbreviation Imp := (Importer (SG := SG) (Aux := Aux)).
Local Abbreviation dispatch :=
  (dispatchEvent counterKey processTraceSampleEvent processMetadataEvent
                 processMemoryDumpEvent processJitCodeEvent getLastGuid).
Local Abbreviation import :=
  (importEvents counterKey processTraceSampleEvent processMetadataEvent
                processMemoryDumpEvent processJitCodeEvent getLastGuid).



Lemma processDurationEvent_queues event (imp imp' : Imp) :
  processDurationEvent event imp = Normal imp' -> sameQueues imp imp'.
Proof.
  unfold processDurationEvent, sameQueues, cbind.
  repeat case_match; intros; simplify_eq; cbn; auto.
Qed.

Lemma processInstantEvent_queues event (imp imp' : Imp) :
  processInstantEvent processJitCodeEvent event imp = Normal imp' ->
  sameQueues imp imp'.
Proof.
  unfold processInstantEvent, cbind.
  repeat case_match; intros; simplify_eq;
    try (eapply processDurationEvent_queues; eassumption);
    unfold sameQueues; cbn; auto.
Qed.

Lemma processCompleteEvent_queues event (imp imp' : Imp) event' slice :
  processCompleteEvent event imp = Normal (imp', event', slice) -> sameQueues imp imp'.
Proof.
  unfold processCompleteEvent, sameQueues, cbind.
  repeat case_match; intros; simplify_eq; cbn; auto.
Qed.




End HandlerFacts.

End DispatchFacts.

(** * Facts about the handlers of B, E, X, I, i, R and C events *)

Module HandlerFacts.
Import TraceModel Dispatch DispatchSpec Examples.

Section ModelFacts.
Context {SG : Type} {ops : SliceGroupOps SG}.

Lemma theProcess_setProcess (pid : Z) (p : Process SG) (m : Model SG) :
  theProcess pid (setProcess pid p m) = p.
Proof.
  unfold theProcess, setProcess, setProcesses. cbn.
  rewrite lookup_insert_eq. reflexivity.
Qed.

Lemma theProcess_setProcess_ne (pid pid' : Z) (p : Process SG) (m : Model SG) :
  pid <> pid' -> theProcess pid' (setProcess pid p m) = theProcess pid' m.
Proof.
  intros Hne. unfold theProcess, setProcess, setProcesses. cbn.
  rewrite lookup_insert_ne by assumption. reflexivity.
Qed.

Lemma theProcess_getOrCreateProcess (pid pid' : Z) (m : Model SG) :
  theProcess pid' (getOrCreateProcess pid m) = theProcess pid' m.
Proof.
  unfold getOrCreateProcess.
  destruct (processes m !! pid) eqn:Hp; [reflexivity|].
  unfold theProcess, setProcesses. cbn.
  destruct (decide (pid = pid')) as [->|Hne].
  - rewrite lookup_insert_eq, Hp. reflexivity.
  - rewrite lookup_insert_ne by assumption. reflexivity.
Qed.

Lemma theThread_setThread (r : ThreadRef) (t : Thread SG) (m : Model SG) :
  theThread r (setThread r t m) = t.
Proof.
  unfold theThread, setThread. rewrite theProcess_setProcess. cbn.
  rewrite lookup_insert_eq. reflexivity.
Qed.

Lemma theThread_setThread_ne (r r' : ThreadRef) (t : Thread SG) (m : Model SG) :
  r <> r' -> theThread r' (setThread r t m) = theThread r' m.
Proof.
  intros Hne. unfold theThread, setThread.
  destruct (decide (r.1 = r'.1)) as [Hp|Hp].
  - rewrite <- Hp, theProcess_setProcess. cbn.
    rewrite lookup_insert_ne; [reflexivity|].
    intros Ht. apply Hne. destruct r, r'; cbn in *; congruence.
  - rewrite theProcess_setProcess_ne by assumption. reflexivity.
Qed.

(** Creating a thread on first reference changes no thread's contents. *)
Lemma theThread_getOrCreateThread (r r' : ThreadRef) (m : Model SG) :
  theThread r' (getOrCreateThread r m) = theThread r' m.
Proof.
  unfold getOrCreateThread.
  destruct (threads (theProcess r.1 (getOrCreateProcess r.1 m)) !! r.2) eqn:Ht.
  - unfold theThread. rewrite theProcess_getOrCreateProcess. reflexivity.
  - unfold theThread.
    destruct (decide (r.1 = r'.1)) as [Hp|Hp].
    + rewrite <- Hp, theProcess_setProcess. cbn.
      rewrite theProcess_getOrCreateProcess in *.
      destruct (decide (r.2 = r'.2)) as [Hq|Hq].
      * rewrite <- Hq, lookup_insert_eq, Ht. reflexivity.
      * rewrite lookup_insert_ne by assumption. reflexivity.
    + rewrite theProcess_setProcess_ne by assumption.
      rewrite theProcess_getOrCreateProcess. reflexivity.
Qed.

Lemma theThread_modelWarning (r : ThreadRef) (type msg : string) (m : Model SG) :
  theThread r (modelWarning type msg m) = theThread r m.
Proof. reflexivity. Qed.

Lemma log_getOrCreateThread (r : ThreadRef) (m : Model SG) :
  log (getOrCreateThread r m) = log m.
Proof.
  unfold getOrCreateThread, getOrCreateProcess.
  repeat case_match; reflexivity.
Qed.

Lemma instantEvents_getOrCreateThread (r : ThreadRef) (m : Model SG) :
  instantEvents (getOrCreateThread r m) = instantEvents m.
Proof.
  unfold getOrCreateThread, getOrCreateProcess.
  repeat case_match; reflexivity.
Qed.

End ModelFacts.

Section HandlerFacts.
Context {SG : Type} {ops : SliceGroupOps SG} {colors : ColorScheme} {Aux : Type}.
Variable counterKey : option string -> string -> string.
Variable processTraceSampleEvent : Event -> Model SG -> Aux -> Completion (Model SG * Aux).
Variable processMetadataEvent : Event -> Model SG -> Aux -> Completion (Model SG * Aux).
Variable processMemoryDumpEvent : Event -> Model SG -> Aux -> Completion (Model SG * Aux).
Variable processJitCodeEvent : Event -> Aux -> Completion Aux.
Variable getLastGuid : Model SG -> Z.

Local Abbreviation Imp := (Importer (SG := SG) (Aux := Aux)).
Local Abbreviation dispatch :=
  (dispatchEvent counterKey processTraceSampleEvent processMetadataEvent
                 processMemoryDumpEvent processJitCodeEvent getLastGuid).


Lemma processDurationEvent_backward (event : Event) (imp : Imp) :
  isTimestampValidForBeginOrEnd
    (sliceGroup (theThread (threadOf event) (model_ imp)))
    (timestampFromUs (ev_ts event)) = false ->
  processDurationEvent event imp =
  Normal (setModel (modelWarning "duration_parse_error"
                      "Timestamps are moving backward."
                      (getOrCreateThread (threadOf event) (model_ imp))) imp).
Proof.
  intros Hinvalid. unfold processDurationEvent.
  rewrite theThread_getOrCreateThread, Hinvalid. reflexivity.
Qed.

Lemma dispatch_duration_event (rawEvent : RawEvent) (imp : Imp) :
  let event := if raw_stripped rawEvent then stripArgs (raw_event rawEvent)
               else raw_event rawEvent in
  isDurationEvent event = true ->
  dispatch rawEvent imp = processDurationEvent event imp.
Proof.
  intros event. unfold isDurationEvent, dispatchEvent. fold event.
  destruct (phIn event ["B"; "E"]) eqn:HBE; [reflexivity|].
  cbn [orb]. intros Hi.
  apply andb_prop in Hi as [Hi Hscope]. apply andb_prop in Hi as [Hph Hjit].
  assert (phIn event ["X"] = false) as ->.
  { unfold phIn in *. cbn in *. destruct (String.eqb_spec (ev_ph event) "X") as [e|]; [|reflexivity].
    rewrite e in Hph. discriminate. }
  assert (phIn event ["b"; "e"; "n"; "S"; "F"; "T"; "p"] = false) as ->.
  { unfold phIn in *. cbn in *.
    repeat match goal with
           | |- context [String.eqb (ev_ph event) ?p] =>
               destruct (String.eqb_spec (ev_ph event) p) as [e|];
               [rewrite e in Hph; discriminate|]
           end. reflexivity. }
  rewrite Hph. unfold processInstantEvent.
  apply negb_true_iff in Hjit. rewrite Hjit.
  unfold threadScoped in Hscope.
  destruct (ev_s event) as [s|]; [|reflexivity].
  rewrite Hscope. reflexivity.
Qed.

(** C9, as the code has it: a B or E event, or a thread scoped I, i or R
    event that is no V8 JIT code event, whose timestamp the slice group of
    its thread refuses, adds the warning 'Timestamps are moving backward.'
    and nothing else: no slice group and no queue changes. *)
Theorem backward_timestamp_dropped (rawEvent : RawEvent) (imp : Imp) :
  let event := if raw_stripped rawEvent then stripArgs (raw_event rawEvent)
               else raw_event rawEvent in
  isDurationEvent event = true ->
  isTimestampValidForBeginOrEnd
    (sliceGroup (theThread (threadOf event) (model_ imp)))
    (timestampFromUs (ev_ts event)) = false ->
  exists imp',
    dispatch rawEvent imp = Normal imp' /\
    importWarnings_ (log (model_ imp')) =
      (importWarnings_ (log (model_ imp)) ++ [backwardWarning])%list /\
    (forall r, sliceGroup (theThread r (model_ imp')) =
               sliceGroup (theThread r (model_ imp))) /\
    instantEvents (model_ imp') = instantEvents (model_ imp) /\
    allAsyncEvents_ imp' = allAsyncEvents_ imp /\
    allFlowEvents_ imp' = allFlowEvents_ imp /\
    allObjectEvents_ imp' = allObjectEvents_ imp.
Proof.
  intros event Hph Hinvalid.
  eexists. split.
  - rewrite dispatch_duration_event by exact Hph.
    apply processDurationEvent_backward, Hinvalid.
  - cbn. rewrite log_getOrCreateThread, instantEvents_getOrCreateThread.
    repeat split; try reflexivity.
    intros r. rewrite theThread_modelWarning, theThread_getOrCreateThread.
    reflexivity.
Qed.

Lemma getStackFrameForEvent__returns (frames : gmap string StackFrame)
    (event : Event) (b : bool) (l : ImportLog) :
  stackWithoutFrame event b = false ->
  exists f l', getStackFrameForEvent_ frames event b l = Normal (f, l').
Proof.
  unfold stackWithoutFrame, getStackFrameForEvent_.
  destruct b; repeat case_match; intros; simplify_eq; eauto.
Qed.

Lemma getStackFrameForEvent__throws (frames : gmap string StackFrame)
    (event : Event) (b : bool) (l : ImportLog) :
  stackWithoutFrame event b = true ->
  getStackFrameForEvent_ frames event b l = Throw TypeError.
Proof.
  unfold stackWithoutFrame, getStackFrameForEvent_.
  destruct b; repeat case_match; intros; simplify_eq; eauto.
Qed.



(** ** Counters *)

Lemma counters_setCounters (pid : Z) (cs : gmap string Counter) (m : Model SG) :
  counters (theProcess pid (setCounters pid cs m)) = cs.
Proof. unfold setCounters. rewrite theProcess_setProcess. reflexivity. Qed.

Lemma log_getOrCreateCounter pid cat name (m : Model SG) :
  log (getOrCreateCounter counterKey pid cat name m) = log m.
Proof.
  unfold getOrCreateCounter, getOrCreateProcess.
  repeat case_match; reflexivity.
Qed.

Lemma counters_getOrCreateCounter pid cat name (m : Model SG) :
  counters (theProcess pid (getOrCreateCounter counterKey pid cat name m)) =
  match counters (theProcess pid m) !! counterKey cat name with
  | Some _ => counters (theProcess pid m)
  | None => <[counterKey cat name := mkCounter cat name []]> (counters (theProcess pid m))
  end.
Proof.
  unfold getOrCreateCounter.
  rewrite !theProcess_getOrCreateProcess.
  destruct (counters (theProcess pid m) !! counterKey cat name) eqn:Hc.
  - rewrite theProcess_getOrCreateProcess. reflexivity.
  - rewrite theProcess_setProcess. reflexivity.
Qed.

(** The first event of a counter, without arguments: one warning, and the
    key [ctr.name] is deleted from the counters of the process, in which the
    counter was filed under [counterKey cat name]. *)
Lemma processCounterEvent_no_arguments (event : Event) (m : Model SG) :
  default [] (ev_args event) = [] ->
  counters (theProcess (ev_pid event) m) !! counterKey (ev_cat event) (ctr_name event) = None ->
  exists m',
    processCounterEvent counterKey event m = Normal m' /\
    importWarnings_ (log m') =
      (importWarnings_ (log m) ++
       [mkWarning "counter_parse_error"
          ("Expected counter " +:+ jsStr (ev_name event) +:+
           " to have at least one argument to use as a value.")])%list /\
    counters (theProcess (ev_pid event) m') =
      delete (ctr_name event)
        (<[counterKey (ev_cat event) (ctr_name event) :=
             mkCounter (ev_cat event) (ctr_name event) []]>
           (counters (theProcess (ev_pid event) m))).
Proof.
  intros Hargs Hfresh. unfold processCounterEvent.
  assert (theCounter counterKey (ev_pid event) (ev_cat event) (ctr_name event)
            (getOrCreateCounter counterKey (ev_pid event) (ev_cat event)
               (ctr_name event) m) =
          mkCounter (ev_cat event) (ctr_name event) []) as Hctr.
  { unfold theCounter. rewrite counters_getOrCreateCounter, Hfresh.
    rewrite lookup_insert_eq. reflexivity. }
  rewrite Hctr. cbn [counter_series length Nat.eqb counter_category counter_name].
  unfold initialSeries. rewrite Hargs. cbn [map length Nat.eqb].
  eexists. split; [reflexivity|]. split.
  - cbn. rewrite log_getOrCreateCounter. reflexivity.
  - rewrite counters_setCounters. unfold modelWarning, setLog, theProcess. cbn.
    fold (theProcess (ev_pid event)
            (getOrCreateCounter counterKey (ev_pid event) (ev_cat event)
               (ctr_name event) m)).
    rewrite counters_getOrCreateCounter, Hfresh. reflexivity.
Qed.

(** A later event of a counter that has series: every series gets one
    sample at the timestamp of the event. *)
Lemma processCounterEvent_samples (event : Event) (args : Args) (ctr : Counter)
    (m : Model SG) :
  ev_args event = Some args ->
  counters (theProcess (ev_pid event) m) !! counterKey (ev_cat event) (ctr_name event)
    = Some ctr ->
  counter_series ctr <> [] ->
  exists m',
    processCounterEvent counterKey event m = Normal m' /\
    importWarnings_ (log m') = importWarnings_ (log m) /\
    counters (theProcess (ev_pid event) m') !! counterKey (ev_cat event) (ctr_name event)
      = Some (mkCounter (counter_category ctr) (counter_name ctr)
                (map (addCounterSample (timestampFromUs (ev_ts event)) args)
                     (counter_series ctr))).
Proof.
  intros Hargs Hctr Hseries. unfold processCounterEvent.
  assert (getOrCreateCounter counterKey (ev_pid event) (ev_cat event)
            (ctr_name event) m = getOrCreateProcess (ev_pid event) m) as Hm.
  { unfold getOrCreateCounter. rewrite theProcess_getOrCreateProcess, Hctr.
    reflexivity. }
  rewrite Hm. unfold theCounter.
  rewrite theProcess_getOrCreateProcess, Hctr.
  change (default _ (Some ctr)) with ctr.
  destruct (counter_series ctr) as [|s0 ss] eqn:Hs; [contradiction|].
  cbn [length Nat.eqb]. rewrite Hs. cbn [length Nat.eqb].
  rewrite Hargs.
  eexists. split; [reflexivity|]. split.
  - cbn. unfold getOrCreateProcess. case_match; reflexivity.
  - rewrite counters_setCounters, lookup_insert_eq. reflexivity.
Qed.

Lemma addCounterSample_sample (ts : Q) (args : Args) (series : CounterSeries) :
  series_samples (addCounterSample ts args series) =
  (series_samples series ++
   [(ts, match assoc_get (series_name series) args with
         | Some v => if truthy v then Given v else Given (JSNumber 0)
         | None =>
             if JSObjects.onObjectPrototype (series_name series)
             then Member (series_name series) else Given (JSNumber 0)
         end)])%list.
Proof. reflexivity. Qed.


(** The part of C8 about samples: a C event with arguments on a counter that
    has series appends exactly one sample to each series, at the timestamp of
    the event, and adds no warning.  The value of the sample is what the
    arguments give for the name of the series when that is truthy; it is 0
    when the arguments give a falsy value, and when they give none and the
    name of the series is not one that object literals inherit; for an
    inherited name that the arguments do not have it is the inherited member
    of [Object.prototype]. *)
Theorem counter_event_appends_samples (event : Event) (args : Args)
    (ctr : Counter) (m : Model SG) :
  ev_args event = Some args ->
  counters (theProcess (ev_pid event) m) !! counterKey (ev_cat event) (ctr_name event)
    = Some ctr ->
  counter_series ctr <> [] ->
  exists m' ctr',
    processCounterEvent counterKey event m = Normal m' /\
    importWarnings_ (log m') = importWarnings_ (log m) /\
    counters (theProcess (ev_pid event) m') !! counterKey (ev_cat event) (ctr_name event)
      = Some ctr' /\
    length (counter_series ctr') = length (counter_series ctr) /\
    forall i s, counter_series ctr !! i = Some s ->
      exists s',
        counter_series ctr' !! i = Some s' /\
        series_name s' = series_name s /\
        series_samples s' =
          series_samples s ++
          [(timestampFromUs (ev_ts event),
            match assoc_get (series_name s) args with
            | Some v => if truthy v then Given v else Given (JSNumber 0)
            | None =>
                if JSObjects.onObjectPrototype (series_name s)
                then Member (series_name s) else Given (JSNumber 0)
            end)].
Proof.
  intros Hargs Hctr Hseries.
  destruct (processCounterEvent_samples event args ctr m Hargs Hctr Hseries)
    as (m' & Hm' & Hlog & Hc).
  eexists m', _. split; [exact Hm'|]. split; [exact Hlog|]. split; [exact Hc|].
  cbn [counter_series]. split; [apply length_map|].
  intros i s Hi. eexists. split.
  - change (map ?f ?l) with (f <$> l). rewrite list_lookup_fmap, Hi. reflexivity.
  - split; reflexivity.
Qed.

(** C8, the part that fails: when the key under which a process files a
    counter tells the two categories apart, the two events without arguments
    emit their warnings, but at least one of the two counters is still among
    the counters of the process afterwards. *)
Theorem zero_argument_counter_not_dropped :
  counterKey (Some "a") "n" <> counterKey (Some "b") "n" ->
  exists m1 m2 : Model SG,
    processCounterEvent counterKey (emptyCounterEvent "a") emptyModel = Normal m1 /\
    processCounterEvent counterKey (emptyCounterEvent "b") m1 = Normal m2 /\
    length (importWarnings_ (log m2)) = 2%nat /\
    (counters (theProcess 1 m2) !! counterKey (Some "a") "n" =
       Some (mkCounter (Some "a") "n" []) \/
     counters (theProcess 1 m2) !! counterKey (Some "b") "n" =
       Some (mkCounter (Some "b") "n" [])).
Proof.
  intros Hkeys.
  destruct (processCounterEvent_no_arguments (emptyCounterEvent "a") emptyModel)
    as (m1 & H1 & Hw1 & Hc1); [reflexivity|reflexivity|].
  change (ctr_name (emptyCounterEvent "a")) with "n" in Hc1.
  change (ev_cat (emptyCounterEvent "a")) with (Some "a") in Hc1.
  change (ev_pid (emptyCounterEvent "a")) with 1 in Hc1.
  change (counters (theProcess 1 emptyModel)) with (∅ : gmap string Counter) in Hc1.
  destruct (processCounterEvent_no_arguments (emptyCounterEvent "b") m1)
    as (m2 & H2 & Hw2 & Hc2); [reflexivity| |].
  { change (ev_pid (emptyCounterEvent "b")) with 1.
    change (ev_cat (emptyCounterEvent "b")) with (Some "b").
    change (ctr_name (emptyCounterEvent "b")) with "n".
    rewrite Hc1. apply lookup_delete_None. right.
    rewrite lookup_insert_ne by assumption. apply lookup_empty. }
  change (ctr_name (emptyCounterEvent "b")) with "n" in Hc2.
  change (ev_cat (emptyCounterEvent "b")) with (Some "b") in Hc2.
  change (ev_pid (emptyCounterEvent "b")) with 1 in Hc2.
  exists m1, m2. split; [exact H1|]. split; [exact H2|]. split.
  - rewrite Hw2, Hw1. reflexivity.
  - rewrite Hc2, Hc1.
    destruct (decide (counterKey (Some "b") "n" = "n")) as [Hb|Hb].
    + left. rewrite lookup_delete_ne by congruence.
      rewrite lookup_insert_ne by congruence.
      rewrite lookup_delete_ne by congruence.
      apply lookup_insert_eq.
    + right. rewrite lookup_delete_ne by congruence.
      apply lookup_insert_eq.
Qed.

End HandlerFacts.

End HandlerFacts.

(** * The handlers on concrete traces *)

Module ExampleFacts.
Import TraceModel Dispatch DispatchSpec SpecSliceGroup Examples DispatchFacts HandlerFacts.

Local Existing Instance specOps.
Local Existing Instance lengthColors.

Lemma afterBeginA_greatest :
  ssg_greatest (sliceGroup (theThread (1, 1) (model_ afterBeginA))) =
  Some (timestampFromUs 10).
Proof. vm_compute. reflexivity. Qed.

(** An E event at 5 microseconds after a B event at 10 is refused. *)
Lemma backward_timestamp_dropped_witness :
  exists imp',
    exDispatch endAt5 afterBeginA = Normal imp' /\
    importWarnings_ (log (model_ imp')) =
      (importWarnings_ (log (model_ afterBeginA)) ++ [backwardWarning])%list /\
    (forall r, sliceGroup (theThread r (model_ imp')) =
               sliceGroup (theThread r (model_ afterBeginA))) /\
    instantEvents (model_ imp') = instantEvents (model_ afterBeginA) /\
    allAsyncEvents_ imp' = allAsyncEvents_ afterBeginA /\
    allFlowEvents_ imp' = allFlowEvents_ afterBeginA /\
    allObjectEvents_ imp' = allObjectEvents_ afterBeginA.
Proof.
  apply (backward_timestamp_dropped (ops := specOps) (colors := lengthColors)
           dottedKey skip skip skip skipJit noGuid endAt5 afterBeginA).
  - reflexivity.
  - vm_compute. reflexivity.
Defined.

(** C9 as stated fails: a global instant event whose timestamp the slice
    group of the thread it names would refuse is recorded without a warning. *)
Lemma global_instant_not_dropped :
  isTimestampValidForBeginOrEnd
    (sliceGroup (theThread (1, 1) (model_ afterBeginA)))
    (timestampFromUs 5) = false /\
  phIn (raw_event globalInstantAt5) ["I"] = true /\
  match exDispatch globalInstantAt5 afterBeginA with
  | Normal imp' =>
      importWarnings_ (log (model_ imp')) = [] /\
      instantEvents (model_ imp') =
        [mkInstantEvent (Some "cat") (Some "mark") (Some 4) (timestampFromUs 5) []]
  | Throw _ => False
  end.
Proof. vm_compute. repeat split; reflexivity. Qed.

(** A complete event on a fresh importer: the slice is on the thread's slice
    group with the start and the duration of the event, and no slice is
    open. *)
Lemma complete_event_pushes_closed_slice :
  match processCompleteEvent (ops := specOps) (colors := lengthColors)
          (completeWithFlags (JSBool true) (JSBool true)) imp0 with
  | Normal (imp, event, slice) =>
      let sg := sliceGroup (theThread (1, 1) (model_ imp)) in
      slice = Some 0%nat /\
      ev_flowPhase event = Some STEP /\
      ssg_open sg = [] /\
      slice_start <$> ssg_slices sg = [timestampFromUs 0] /\
      slice_duration <$> ssg_slices sg = [Some (timestampFromUs 100)]
  | Throw _ => False
  end.
Proof. vm_compute. repeat split; reflexivity. Qed.



(** Counters filed under [category.name]: both zero-argument counters stay. *)
Lemma zero_argument_counter_not_dropped_witness :
  exists m1 m2 : Model SpecSG,
    processCounterEvent dottedKey (emptyCounterEvent "a") emptyModel = Normal m1 /\
    processCounterEvent dottedKey (emptyCounterEvent "b") m1 = Normal m2 /\
    length (importWarnings_ (log m2)) = 2%nat /\
    (counters (theProcess 1 m2) !! dottedKey (Some "a") "n" =
       Some (mkCounter (Some "a") "n" []) \/
     counters (theProcess 1 m2) !! dottedKey (Some "b") "n" =
       Some (mkCounter (Some "b") "n" [])).
Proof.
  apply (zero_argument_counter_not_dropped (SG := SpecSG)
           (colors := lengthColors) dottedKey).
  vm_compute. discriminate.
Defined.

Lemma zero_argument_counter_stays_dotted :
  match processCounterEvent dottedKey (emptyCounterEvent "a")
          (emptyModel (SG := SpecSG)) with
  | Normal m =>
      wtype <$> importWarnings_ (log m) = ["counter_parse_error"] /\
      counters (theProcess 1 m) !! "a.n" = Some (mkCounter (Some "a") "n" [])
  | Throw _ => False
  end.
Proof. vm_compute. split; reflexivity. Qed.

(** A second event of the counter [heap] that does not name its series. *)
Lemma counter_event_appends_samples_witness :
  exists (m' : Model SpecSG) ctr',
    processCounterEvent dottedKey (counterEvent 7 []) afterFirstCounterEvent = Normal m' /\
    importWarnings_ (log m') = importWarnings_ (log afterFirstCounterEvent) /\
    counters (theProcess 1 m') !! "mem.heap" = Some ctr' /\
    length (counter_series ctr') = length (counter_series heapCounter) /\
    forall i s, counter_series heapCounter !! i = Some s ->
      exists s',
        counter_series ctr' !! i = Some s' /\
        series_name s' = series_name s /\
        series_samples s' =
          series_samples s ++
          [(timestampFromUs 7,
            match assoc_get (series_name s) [] with
            | Some v => if truthy v then Given v else Given (JSNumber 0)
            | None =>
                if JSObjects.onObjectPrototype (series_name s)
                then Member (series_name s) else Given (JSNumber 0)
            end)].
Proof.
  apply (counter_event_appends_samples (SG := SpecSG) (colors := lengthColors)
           dottedKey (counterEvent 7 []) [] heapCounter afterFirstCounterEvent).
  - reflexivity.
  - vm_compute. reflexivity.
  - discriminate.
Defined.

End ExampleFacts.

(** * Facts about the async slice assembler *)

Module AsyncFacts.
Import TraceModel Dispatch DispatchSpec SpecSliceGroup Examples AsyncAssembler
  AsyncMatching HandlerFacts.

Lemma timestampFromUs_span (a b : Z) :
  (timestampFromUs a + timestampFromUs (b - a) == timestampFromUs b)%Q.
Proof.
  unfold timestampFromUs.
  replace (b - a) with (b + - a) by lia.
  rewrite inject_Z_plus, inject_Z_opp. field.
Qed.

Section LegacyFacts.
Context {SG : Type} {ops : SliceGroupOps SG} {colors : ColorScheme}.

Lemma asyncSliceGroup_pushAsyncSlice (r : ThreadRef) (s : AsyncSlice) (m : Model SG) :
  asyncSliceGroup (theThread r (pushAsyncSlice r s m)) =
  asyncSliceGroup (theThread r m) ++ [s].
Proof. unfold pushAsyncSlice. rewrite theThread_setThread. reflexivity. Qed.

Lemma theThread_pushAsyncSlice_ne (r r' : ThreadRef) (s : AsyncSlice) (m : Model SG) :
  r <> r' -> theThread r' (pushAsyncSlice r s m) = theThread r' m.
Proof. intros Hne. unfold pushAsyncSlice. apply theThread_setThread_ne, Hne. Qed.

Lemma legacyQueue_created (m : Model SG) :
  createAsyncSlices_ legacyQueue m =
  Normal (legacyQueue,
          pushAsyncSlice (1, 1) legacySlice (setLog (log m) (setLog (log m) m))).
Proof. vm_compute. reflexivity. Qed.

(** C1, as the code has it: the sequence S at 0, T at 5 with step [a], F at
    10 (name [q], id 7) adds no warning and exactly one async slice, of
    duration 10 microseconds, to the async slice group of the start thread;
    that slice has exactly one sub slice, named 'q:a', which starts at the
    T event, at 5, and ends at the event after it, at 10. *)
Theorem legacy_scenario_slice (m : Model SG) :
  exists m',
    createAsyncSlices_ legacyQueue m = Normal (legacyQueue, m') /\
    log m' = log m /\
    asyncSliceGroup (theThread (1, 1) m') =
      asyncSliceGroup (theThread (1, 1) m) ++ [legacySlice] /\
    (forall r, (1, 1) <> r -> theThread r m' = theThread r m) /\
    as_start legacySlice = timestampFromUs 0 /\
    as_duration legacySlice = timestampFromUs 10 /\
    as_startThread legacySlice = (1, 1) /\
    as_subSlices legacySlice = [legacySubSlice] /\
    as_title legacySubSlice = "q:a" /\
    as_start legacySubSlice = timestampFromUs 5 /\
    (as_end legacySubSlice == timestampFromUs 10)%Q.
Proof.
  eexists. split; [apply legacyQueue_created|].
  split; [reflexivity|].
  split; [rewrite asyncSliceGroup_pushAsyncSlice; reflexivity|].
  split; [intros r Hr; rewrite theThread_pushAsyncSlice_ne by exact Hr; reflexivity|].
  repeat split; try apply timestampFromUs_span.
Qed.

End LegacyFacts.

(** The scenario through the dispatcher. *)
Lemma legacyScenario_queue :
  allAsyncEvents_ (orElse (exImport legacyScenario imp0) imp0) = legacyQueue.
Proof. vm_compute. reflexivity. Qed.

(** C1 as stated fails: the one sub slice of the scenario starts at 5, not at
    0, and ends at 10, not at 5. *)
Lemma legacy_subslice_not_from_start :
  match createAsyncSlices_ (ops := specOps) (colors := lengthColors) legacyQueue
          (model_ (orElse (exImport legacyScenario imp0) imp0)) with
  | Normal (_, m) =>
      match asyncSliceGroup (theThread (ops := specOps) (1, 1) m) with
      | [slice] =>
          match as_subSlices slice with
          | [sub] =>
              as_title sub = "q:a" /\
              Qeq_bool (as_start sub) (timestampFromUs 5) = true /\
              Qeq_bool (as_start sub) (timestampFromUs 0) = false /\
              Qeq_bool (as_end sub) (timestampFromUs 10) = true /\
              Qeq_bool (as_end sub) (timestampFromUs 5) = false
          | _ => False
          end
      | _ => False
      end
  | Throw _ => False
  end.
Proof. vm_compute. repeat split; reflexivity. Qed.

(** ** Nestable async events *)



Lemma logged_mono_importWarning (w w' : Warning) (l : ImportLog) :
  logged w l -> logged w (importWarning w' l).
Proof. unfold logged, importWarning. cbn. intros Hw. apply elem_of_app. left. exact Hw. Qed.

Lemma getStackFrame_logged frames event b (w : Warning) (l : ImportLog) f l' :
  getStackFrameForEvent_ frames event b l = Normal (f, l') ->
  logged w l -> logged w l'.
Proof.
  unfold getStackFrameForEvent_.
  repeat case_match; intros; simplify_eq; try assumption;
    apply logged_mono_importWarning; assumption.
Qed.

Section NestableFacts.
Context {colors : ColorScheme}.
Variable key : string.
Variable frames : gmap string StackFrame.
Variable entries : list EventState.

Local Abbreviation ms := (matchEntries entries).

(** The slice that [sliceBetween] returns. *)
Lemma sliceBetween_Normal entry startState endState sliceArgs isTopLevel sliceError
    l s l' :
  sliceBetween key frames entry startState endState sliceArgs isTopLevel sliceError l
    = Normal (s, l') ->
  as_start s = timestampFromUs (ev_ts (es_event startState)) /\
  (as_end s == timestampFromUs (ev_ts (es_event endState)))%Q /\
  as_error s = sliceError /\
  as_startThread s = es_thread startState /\
  as_endThread s = es_thread endState /\
  as_id s = key /\
  as_args s = sliceArgs /\
  as_isTopLevel s = Some isTopLevel /\
  as_subSlices s = [] /\
  (forall w, logged w l -> logged w l').
Proof.
  unfold sliceBetween, cbind.
  destruct (getStackFrameForEvent_ frames (es_event startState) false l)
    as [[f1 l1]|] eqn:E1; [|discriminate].
  destruct (getStackFrameForEvent_ frames (es_event endState) false l1)
    as [[f2 l2]|] eqn:E2; [|discriminate].
  intros [= <- <-]. cbn. repeat split; try reflexivity.
  - unfold as_end. cbn. apply timestampFromUs_span.
  - intros w Hw. eapply getStackFrame_logged; [exact E2|].
    eapply getStackFrame_logged; [exact E1|]. exact Hw.
Qed.

(** [sliceBetween] returns when neither lookup calls the missing method. *)
Lemma sliceBetween_returns entry startState endState sliceArgs isTopLevel sliceError l :
  stackWithoutFrame (es_event startState) false = false ->
  stackWithoutFrame (es_event endState) false = false ->
  exists r,
    sliceBetween key frames entry startState endState sliceArgs isTopLevel sliceError l
      = Normal r.
Proof.
  intros H1 H2. unfold sliceBetween.
  destruct (getStackFrameForEvent__returns frames (es_event startState) false l H1)
    as (f1 & l1 & ->).
  cbn [cbind].
  destruct (getStackFrameForEvent__returns frames (es_event endState) false l1 H2)
    as (f2 & l2 & ->).
  cbn [cbind]. eauto.
Qed.

Lemma nestableSlice_returns i entry l :
  noBareStack entries -> entry ∈ entries ->
  exists r, nestableSlice key frames entries ms i entry l = Normal r.
Proof.
  intros Hall Hin.
  assert (forall e, e ∈ entries -> stackWithoutFrame (es_event e) false = false) as H.
  { apply Forall_forall. exact Hall. }
  assert (forall j, default entry (entries !! j) ∈ entries) as Hlook.
  { intros j. destruct (entries !! j) as [x|] eqn:E; [|exact Hin].
    apply list_elem_of_lookup_2 in E. exact E. }
  assert (default entry (last entries) ∈ entries) as Hlast.
  { destruct (last entries) as [x|] eqn:E; [|exact Hin].
    rewrite last_lookup in E. apply list_elem_of_lookup_2 in E. exact E. }
  unfold nestableSlice. repeat case_match; apply sliceBetween_returns; auto.
Qed.

Lemma nestableSlice_logged i entry (w : Warning) l s l' :
  nestableSlice key frames entries ms i entry l = Normal (s, l') ->
  logged w l -> logged w l'.
Proof.
  unfold nestableSlice. intros Hn Hw.
  repeat case_match; apply sliceBetween_Normal in Hn;
    apply Hn; try exact Hw; apply logged_mono_importWarning, Hw.
Qed.

Lemma nestableSlice_isTopLevel i entry l s l' :
  nestableSlice key frames entries ms i entry l = Normal (s, l') ->
  as_isTopLevel s = Some (bool_decide (parents ms !! i = None)) /\
  as_subSlices s = [].
Proof.
  unfold nestableSlice. intros Hn.
  repeat case_match; apply sliceBetween_Normal in Hn; split; apply Hn.
Qed.



(** One step of the second pass, when it returns. *)
Lemma assembleStep_Normal i entry a a' :
  assembleStep key frames entries ms i entry a = Normal a' ->
  (skipped ms i entry = true /\ a' = a) \/
  (skipped ms i entry = false /\
   exists s l1,
     nestableSlice key frames entries ms i entry (a_log a) = Normal (s, l1) /\
     a' = filed ms i s l1 a).
Proof.
  unfold assembleStep, filed, cbind.
  destruct (skipped ms i entry); [intros [= <-]; left; auto|].
  destruct (nestableSlice key frames entries ms i entry (a_log a)) as [[s l1]|];
    [|discriminate].
  intros Ha. right. split; [reflexivity|]. exists s, l1. split; [reflexivity|].
  repeat case_match; simplify_eq; reflexivity.
Qed.

Lemma assembleStep_returns i entry a :
  noBareStack entries -> entry ∈ entries ->
  exists a', assembleStep key frames entries ms i entry a = Normal a'.
Proof.
  intros Hall Hin. unfold assembleStep.
  destruct (skipped ms i entry); [eauto|].
  destruct (nestableSlice_returns i entry (a_log a) Hall Hin) as ([s l1] & ->).
  cbn [cbind]. repeat case_match; eauto.
Qed.

Lemma filed_slice i s l1 a :
  sliceOfEntry (filed ms i s l1 a) = <[i := s]> (sliceOfEntry a) /\
  a_log (filed ms i s l1 a) = l1.
Proof. unfold filed. repeat case_match; split; reflexivity. Qed.

Lemma assembleStep_logged i entry a a' (w : Warning) :
  assembleStep key frames entries ms i entry a = Normal a' ->
  logged w (a_log a) -> logged w (a_log a').
Proof.
  intros Ha Hw.
  apply assembleStep_Normal in Ha as [[_ ->]|(_ & s & l1 & Hn & ->)]; [exact Hw|].
  rewrite (proj2 (filed_slice i s l1 a)).
  eapply nestableSlice_logged; eassumption.
Qed.

Lemma assembleStep_other i entry a a' (j : nat) :
  assembleStep key frames entries ms i entry a = Normal a' ->
  j <> i ->
  sliceOfEntry a' !! j = sliceOfEntry a !! j.
Proof.
  intros Ha Hne.
  apply assembleStep_Normal in Ha as [[_ ->]|(_ & s & l1 & Hn & ->)]; [reflexivity|].
  rewrite (proj1 (filed_slice i s l1 a)). apply lookup_insert_ne. congruence.
Qed.

Lemma assembleStep_slice i entry a a' :
  assembleStep key frames entries ms i entry a = Normal a' ->
  skipped ms i entry = false ->
  exists s,
    nestableSlice key frames entries ms i entry (a_log a) = Normal (s, a_log a') /\
    sliceOfEntry a' !! i = Some s.
Proof.
  intros Ha Hskip.
  apply assembleStep_Normal in Ha as [[Hs _]|(_ & s & l1 & Hn & ->)]; [congruence|].
  exists s. rewrite (proj2 (filed_slice i s l1 a)), (proj1 (filed_slice i s l1 a)).
  split; [exact Hn|apply lookup_insert_eq].
Qed.

(** The second pass returns when no lookup calls the missing method. *)
Lemma assembleLoop_returns (todo : list EventState) i a :
  noBareStack entries -> todo ⊆ entries ->
  exists a', assembleLoop key frames entries ms i todo a = Normal a'.
Proof.
  intros Hall. revert i a.
  induction todo as [|e todo IH]; intros i a Hsub; cbn [assembleLoop]; [eauto|].
  destruct (assembleStep_returns i e a Hall) as (a1 & ->); [apply Hsub; left|].
  cbn [cbind]. apply IH. intros x Hx. apply Hsub. right. exact Hx.
Qed.

(** The rest of the second pass keeps what the earlier steps made. *)
Lemma assembleLoop_logged (todo : list EventState) i a a' (w : Warning) :
  assembleLoop key frames entries ms i todo a = Normal a' ->
  logged w (a_log a) -> logged w (a_log a').
Proof.
  revert i a. induction todo as [|e todo IH]; intros i a; cbn [assembleLoop].
  - intros [= <-] Hw. exact Hw.
  - destruct (assembleStep key frames entries ms i e a) as [a1|] eqn:E1;
      [|discriminate].
    cbn [cbind]. intros Ha Hw. eapply IH; [exact Ha|].
    eapply assembleStep_logged; eassumption.
Qed.

Lemma assembleLoop_earlier (todo : list EventState) i a a' (j : nat) :
  assembleLoop key frames entries ms i todo a = Normal a' ->
  (j < i)%nat ->
  sliceOfEntry a' !! j = sliceOfEntry a !! j.
Proof.
  revert i a. induction todo as [|e todo IH]; intros i a; cbn [assembleLoop].
  - intros [= <-] _. reflexivity.
  - destruct (assembleStep key frames entries ms i e a) as [a1|] eqn:E1;
      [|discriminate].
    cbn [cbind]. intros Ha Hlt. rewrite (IH _ _ Ha) by lia.
    eapply assembleStep_other; [exact E1|lia].
Qed.

(** Every entry that is not skipped has its slice after the second pass, and
    the warnings of its step are in the log. *)
Lemma assembleLoop_slice (todo : list EventState) i a a' (j : nat) entry :
  assembleLoop key frames entries ms i todo a = Normal a' ->
  todo !! j = Some entry ->
  skipped ms (i + j) entry = false ->
  exists l s l',
    nestableSlice key frames entries ms (i + j) entry l = Normal (s, l') /\
    sliceOfEntry a' !! (i + j)%nat = Some s /\
    forall w, logged w l' -> logged w (a_log a').
Proof.
  revert i a j. induction todo as [|e todo IH]; intros i a j Ha Hj Hskip.
  - rewrite lookup_nil in Hj. discriminate.
  - cbn [assembleLoop] in Ha.
    destruct (assembleStep key frames entries ms i e a) as [a1|] eqn:E1;
      [|discriminate].
    cbn [cbind] in Ha.
    destruct j as [|j]; cbn in Hj.
    + injection Hj as ->. rewrite Nat.add_0_r in *.
      destruct (assembleStep_slice i entry a a1 E1 Hskip) as (s & Hn & Hs).
      exists (a_log a), s, (a_log a1). split; [exact Hn|]. split.
      * rewrite (assembleLoop_earlier _ _ _ _ i Ha) by lia. exact Hs.
      * intros w Hw. eapply assembleLoop_logged; eassumption.
    + replace (i + S j)%nat with (S i + j)%nat in * by lia.
      eapply IH; eassumption.
Qed.

End NestableFacts.

End AsyncFacts.

(** * Facts about the flow event assembler *)

Module FlowFacts.
Import TraceModel Dispatch SpecSliceGroup Examples AsyncAssembler FlowAssembler.
Import HandlerFacts.

Section V1Facts.
Context {SG : Type} {ops : SliceGroupOps SG} {colors : ColorScheme}.
Variable m : Model SG.

Lemma validate_flow_end (event : Event) (st : FlowState) :
  isFlowEndV1 event -> validateFlowEvent event st = (true, st).
Proof.
  intros (Hph & [name Hname] & [id Hid] & _). unfold validateFlowEvent.
  rewrite Hname, Hid. unfold phIn. rewrite Hph. reflexivity.
Qed.

(** The loop body on an [f] event of flow API v1 whose flow is open. *)
Lemma flowStep_flow_end (data : EventState) (st : FlowState) (flowEvent : nat) :
  isFlowEndV1 (es_event data) ->
  flowIdToEvent st !! jsStr (ev_id (es_event data)) = Some flowEvent ->
  flowStep m data st =
  let event := es_event data in
  let id := jsStr (ev_id event) in
  let? bind := bindPoint event in
  match bind with
  | None =>
      Normal (flowWarn "flow_slice_bind_point_error"
                "Flow event with invalid binding point (event.bp)." st)
  | Some bindToParent =>
      let? fin := finishFlowEventWith m flowEvent (es_thread data) event
                    (default 0 (es_refGuid data)) bindToParent None st in
      Normal (setFlowId id None
                (if fin.1 then pushModelFlowEvent flowEvent fin.2
                 else flowWarn "flow_slice_end_error"
                        ("event id " +:+ id +:+ " does not end " +:+
                         "at an actual slice, so cannot be created.") fin.2))
  end.
Proof.
  intros Hv Hopen. unfold flowStep.
  rewrite (validate_flow_end _ _ Hv). cbn [negb].
  destruct Hv as (Hph & _ & _ & Hbind). rewrite Hbind.
  unfold flowStepV1. rewrite Hopen. unfold phIn. rewrite Hph.
  change (String.eqb "f" "s") with false. cbn [existsb orb].
  change (String.eqb "f" "t") with false. change (String.eqb "f" "f") with true.
  cbn [orb].
  destruct (bindPoint (es_event data)) as [[b|]|]; cbn [cbind]; try reflexivity.
  destruct (finishFlowEventWith m flowEvent (es_thread data) (es_event data)
              (default 0 (es_refGuid data)) b None st) as [[ok st1]|];
    cbn [cbind fst snd]; [|reflexivity].
  rewrite andb_false_r. reflexivity.
Qed.

Lemma bindPoint_flow_end (event : Event) (cat : string) :
  ev_ph event = "f" -> ev_cat event = Some cat ->
  bindPoint event =
  Normal (if invalidBp (ev_bp event) then None
          else Some (spec_bindsToParent (ev_bp event) cat)).
Proof.
  intros Hph Hcat. unfold bindPoint. rewrite Hph, Hcat.
  change (String.eqb "f" "f") with true. cbn iota.
  destruct (ev_bp event) as [| | | |s| |]; try reflexivity.
  cbn [invalidBp spec_bindsToParent].
  destruct (String.eqb_spec s "e") as [->|Hne]; [reflexivity|].
  reflexivity.
Qed.

Lemma bindPoint_no_category (event : Event) :
  ev_ph event = "f" -> ev_cat event = None -> ev_bp event = JSUndefined ->
  bindPoint event = Throw TypeError.
Proof.
  intros Hph Hcat Hbp. unfold bindPoint. rewrite Hph, Hcat, Hbp. reflexivity.
Qed.

(** An [f] event without binding point and without category. *)
Lemma flowStep_flow_end_no_category (data : EventState) (st : FlowState)
    (flowEvent : nat) :
  isFlowEndV1 (es_event data) ->
  flowIdToEvent st !! jsStr (ev_id (es_event data)) = Some flowEvent ->
  ev_cat (es_event data) = None ->
  ev_bp (es_event data) = JSUndefined ->
  flowStep m data st = Throw TypeError.
Proof.
  intros Hv Hopen Hcat Hbp.
  rewrite (flowStep_flow_end data st flowEvent Hv Hopen). cbn zeta.
  rewrite bindPoint_no_category; [reflexivity|apply Hv|assumption..].
Qed.

(** How a v1 flow end finds its slice. *)
Lemma finishFlowEventWith_v1 (flowEvent : nat) (f : FlowEvent) (thread : ThreadRef)
    (event : Event) (refGuid : Z) (bindToParent : bool) (st : FlowState) :
  truthy (ev_bind_id event) = false ->
  flows st !! flowEvent = Some f ->
  let ts := timestampFromUs (ev_ts event) in
  match (if bindToParent then findSliceAtTs (groupOf m thread) ts
         else findNextSliceAfter (groupOf m thread) ts refGuid) with
  | None =>
      finishFlowEventWith m flowEvent thread event refGuid bindToParent None st =
      Normal (false, st)
  | Some ref =>
      if stackWithoutFrame event false then
        finishFlowEventWith m flowEvent thread event refGuid bindToParent None st =
        Throw TypeError
      else
        exists st',
          finishFlowEventWith m flowEvent thread event refGuid bindToParent None st =
            Normal (true, st') /\
          (exists f', flows st' !! flowEvent = Some f' /\
                      flow_endSlice f' = Some (thread, ref)) /\
          flowEvent ∈ default [] (inFlowEvents st' !! (thread, ref)) /\
          modelFlowEvents st' = modelFlowEvents st /\
          flowIdToEvent st' = flowIdToEvent st
  end.
Proof.
  intros Hv1 Hf ts. unfold finishFlowEventWith, endSliceOf. rewrite Hv1. fold ts.
  destruct (if bindToParent then findSliceAtTs (groupOf m thread) ts
            else findNextSliceAfter (groupOf m thread) ts refGuid) as [ref|];
    cbn [option_map cbind]; [|reflexivity].
  rewrite Hf.
  destruct (stackWithoutFrame event false) eqn:Hstack.
  { rewrite getStackFrameForEvent__throws by exact Hstack. reflexivity. }
  destruct (getStackFrameForEvent__returns (stackFrames m) event false
              (fs_log st) Hstack) as (frame & log1 & ->).
  cbn [cbind].
  destruct (mergeArgsInto_ (flow_args f) (default [] (ev_args event))
              (jsStr (flow_title f)) log1) as [args' log2].
  eexists. split; [reflexivity|]. cbn. repeat split.
  - eexists. split.
    + apply list_lookup_insert_eq. apply lookup_lt_Some in Hf. exact Hf.
    + reflexivity.
  - rewrite lookup_insert_eq. cbn. apply elem_of_app. right. left.
Qed.

End V1Facts.

(** The binding rule of the code, for [f] events that carry a category: an
    [f] event of flow API v1 whose flow is open binds the end of the flow to
    the next slice after its timestamp, unless its [bp] is ['e'], or its [bp]
    is [undefined] and its category contains 'input' or 'ipc.flow', in which
    case it binds to the slice that contains the timestamp; an [f] event with
    any other [bp] adds a [flow_slice_bind_point_error] warning and changes
    nothing else, so the flow stays open.  When there is a slice to bind to
    and the event carries a [stack] without an [sf], the pass throws a
    [TypeError] instead. *)
Theorem flow_end_binding {SG : Type} {ops : SliceGroupOps SG}
    {colors : ColorScheme} (m : Model SG) (data : EventState) (st : FlowState)
    (flowEvent : nat) (f : FlowEvent) (cat : string) :
  isFlowEndV1 (es_event data) ->
  ev_cat (es_event data) = Some cat ->
  flowIdToEvent st !! jsStr (ev_id (es_event data)) = Some flowEvent ->
  flows st !! flowEvent = Some f ->
  let event := es_event data in
  let thread := es_thread data in
  let ts := timestampFromUs (ev_ts event) in
  if invalidBp (ev_bp event) then
    flowStep m data st =
    Normal (flowWarn "flow_slice_bind_point_error"
              "Flow event with invalid binding point (event.bp)." st)
  else
    match (if spec_bindsToParent (ev_bp event) cat
           then findSliceAtTs (groupOf m thread) ts
           else findNextSliceAfter (groupOf m thread) ts
                  (default 0 (es_refGuid data))) with
    | Some ref =>
        if stackWithoutFrame event false then flowStep m data st = Throw TypeError
        else
          exists st',
            flowStep m data st = Normal st' /\
            (exists f', flows st' !! flowEvent = Some f' /\
                        flow_endSlice f' = Some (thread, ref)) /\
            flowEvent ∈ default [] (inFlowEvents st' !! (thread, ref)) /\
            modelFlowEvents st' = modelFlowEvents st ++ [flowEvent] /\
            flowIdToEvent st' !! jsStr (ev_id event) = None
    | None =>
        exists st',
          flowStep m data st = Normal st' /\
          flows st' = flows st /\
          modelFlowEvents st' = modelFlowEvents st /\
          (exists w, wtype w = "flow_slice_end_error" /\
                     importWarnings_ (fs_log st') = importWarnings_ (fs_log st) ++ [w]) /\
          flowIdToEvent st' !! jsStr (ev_id event) = None
    end.
Proof.
  intros Hv Hcat Hopen Hf event thread ts. subst event thread ts.
  rewrite (flowStep_flow_end m data st flowEvent Hv Hopen). cbn zeta.
  rewrite (bindPoint_flow_end (es_event data) cat) by (try apply Hv; assumption).
  destruct (invalidBp (ev_bp (es_event data))); cbn [cbind]; [reflexivity|].
  pose proof (finishFlowEventWith_v1 m flowEvent f (es_thread data) (es_event data)
                (default 0 (es_refGuid data))
                (spec_bindsToParent (ev_bp (es_event data)) cat) st
                (proj2 (proj2 (proj2 Hv))) Hf) as Hfin.
  cbn zeta in Hfin.
  destruct (if spec_bindsToParent (ev_bp (es_event data)) cat
            then findSliceAtTs (groupOf m (es_thread data))
                   (timestampFromUs (ev_ts (es_event data)))
            else findNextSliceAfter (groupOf m (es_thread data))
                   (timestampFromUs (ev_ts (es_event data)))
                   (default 0 (es_refGuid data))) as [ref|].
  - destruct (stackWithoutFrame (es_event data) false).
    { rewrite Hfin. reflexivity. }
    destruct Hfin as (st' & -> & Hend & Hin & Hmodel & Hids).
    cbn [cbind fst snd]. eexists. split; [reflexivity|].
    cbn. repeat split; try assumption.
    + rewrite Hmodel. reflexivity.
    + apply lookup_delete_eq.
  - rewrite Hfin. cbn [cbind fst snd].
    eexists. split; [reflexivity|]. cbn. repeat split.
    + eexists (mkWarning _ _). split; [reflexivity|]. reflexivity.
    + apply lookup_delete_eq.
Qed.

(** The state of the examples: the flow of [flowStart] is open. *)
Lemma flowStart_opens :
  exists st,
    flowStep (ops := specOps) (colors := lengthColors) flowModel flowStart
             (newFlowState emptyLog) = Normal st /\
    flowIdToEvent st !! "1" = Some 0%nat /\
    is_Some (flows st !! 0%nat).
Proof. eexists. split; [vm_compute; reflexivity|]. split; [reflexivity|]. eexists. reflexivity. Qed.

Lemma flowOpen_flow : flows flowOpen !! 0%nat = Some openFlowEvent.
Proof. vm_compute. reflexivity. Qed.

(** An [f] event at 50 with category 'input' binds to the slice from 0 to
    100 that contains it. *)
Lemma flow_end_binding_witness :
  exists st',
    flowStep (ops := specOps) (colors := lengthColors) flowModel
             (flowEnd (Some "input") JSUndefined) flowOpen = Normal st' /\
    (exists f', flows st' !! 0%nat = Some f' /\
                flow_endSlice f' = Some ((1, 1), 0%nat)) /\
    0%nat ∈ default [] (inFlowEvents st' !! ((1, 1), 0%nat)) /\
    modelFlowEvents st' = modelFlowEvents flowOpen ++ [0%nat] /\
    flowIdToEvent st' !! "1" = None.
Proof.
  apply (flow_end_binding (ops := specOps) (colors := lengthColors) flowModel
           (flowEnd (Some "input") JSUndefined) flowOpen 0 openFlowEvent "input").
  - repeat split; eexists; reflexivity.
  - reflexivity.
  - vm_compute. reflexivity.
  - vm_compute. reflexivity.
Defined.

(** C6, where the code fails: an [f] event without [bp] and without
    category whose flow is open makes the pass throw a [TypeError] instead of
    binding the flow to the next slice. *)
Theorem flow_end_without_category_throws :
  is_Some (flowIdToEvent flowOpen !! "1") /\
  ev_cat (es_event (flowEnd None JSUndefined)) = None /\
  ev_bp (es_event (flowEnd None JSUndefined)) = JSUndefined /\
  flowStep (ops := specOps) (colors := lengthColors) flowModel
           (flowEnd None JSUndefined) flowOpen = Throw TypeError /\
  createFlowSlices_ (ops := specOps) (colors := lengthColors) flowModel
    [flowStart; flowEnd None JSUndefined] = Throw TypeError.
Proof.
  split; [eexists; vm_compute; reflexivity|].
  split; [reflexivity|]. split; [reflexivity|].
  split; vm_compute; reflexivity.
Qed.

(** With a category the same event is bound or reported. *)
Lemma flow_end_with_category_returns :
  match createFlowSlices_ (ops := specOps) (colors := lengthColors) flowModel
          [flowStart; flowEnd (Some "x") JSUndefined] with
  | Normal (_, st) =>
      wtype <$> importWarnings_ (fs_log st) = ["flow_slice_end_error"]
  | Throw _ => False
  end.
Proof. vm_compute. reflexivity. Qed.

End FlowFacts.

(** * Facts about the edges between memory allocator dumps *)

Module MemoryDumpFacts.
Import JSObjects JSObjectsFacts MemoryDumpEdges.












(** In a consistent graph the ownership links of one source, wherever they
    are recorded, are one link recorded at one dump. *)
Lemma one_ownership_link (dumps : gmap string Dump) (t1 t2 : string)
    (d1 d2 : Dump) (l1 l2 : Link) :
  ownershipConsistent dumps ->
  dumps !! t1 = Some d1 -> l1 ∈ md_ownedBy d1 ->
  dumps !! t2 = Some d2 -> l2 ∈ md_ownedBy d2 ->
  link_source l1 = link_source l2 ->
  l1 = l2 /\ t1 = t2.
Proof.
  intros [I1 _] H1 Hl1 H2 Hl2 Hsrc.
  destruct (I1 _ _ _ H1 Hl1) as (Ht1 & ds1 & Hds1 & Ho1).
  destruct (I1 _ _ _ H2 Hl2) as (Ht2 & ds2 & Hds2 & Ho2).
  rewrite Hsrc, Hds2 in Hds1. injection Hds1 as <-.
  assert (l1 = l2) by congruence. subst. auto.
Qed.




(** The same edges, evaluated: [a] owns [b] once, the second ownership edge
    of [a] is reported, and the retention edge is recorded. *)
Lemma two_ownership_edges :
  match setUpEdges
          [Some (Some [ownership "a" "b"; ownership "a" "a"; retention "a" "b";
                       retention "a" "b"; ownership "a" "zz"])]
          (mkEdgeState twoDumps ∅ emptyLog) with
  | Normal st =>
      md_owns <$> dumpsByGuid st !! "a" = Some (Some (mkLink "a" "b" (JSNumber 0))) /\
      md_ownedBy <$> dumpsByGuid st !! "b" = Some [mkLink "a" "b" (JSNumber 0)] /\
      md_ownedBy <$> dumpsByGuid st !! "a" = Some [] /\
      length <$> (md_retains <$> dumpsByGuid st !! "a") = Some 2%nat /\
      wtype <$> importWarnings_ (edgeLog st) =
        ["memory_dump_parse_error"; "memory_dump_parse_error"]
  | Throw _ => False
  end.
Proof. vm_compute. repeat split; reflexivity. Qed.


End MemoryDumpFacts.

(** * Facts about the tree of memory allocator dumps *)

Set Warnings "-clear-no-such-hyp".

Module AllocatorDumpTreeFacts.
Import JSObjects AllocatorDumpTree.

Lemma lastIndexOf_lt c s i : lastIndexOf c s = Some i -> (i < String.length s)%nat.
Proof.
  revert i. induction s as [|a s IH]; intros i; cbn; [discriminate|].
  destruct (lastIndexOf c s) as [j|].
  - intros [= <-]. specialize (IH j eq_refl). lia.
  - destruct (Ascii.eqb a c); [|discriminate]. intros [= <-]. lia.
Qed.

Lemma length_substring_0 s i :
  (i <= String.length s)%nat -> String.length (substring 0 i s) = i.
Proof.
  revert i. induction s as [|a s IH]; intros [|i]; cbn; intros Hi; try lia.
  rewrite IH; lia.
Qed.

Lemma parentFullName_length n p :
  parentFullName n = Some p -> (String.length p < String.length n)%nat.
Proof.
  unfold parentFullName. destruct (lastIndexOf "/" n) as [i|] eqn:E; [|discriminate].
  intros [= <-]. apply lastIndexOf_lt in E. rewrite length_substring_0; lia.
Qed.

Lemma parentFullName_ne n p : parentFullName n = Some p -> n <> p.
Proof. intros H ->. apply parentFullName_length in H. lia. Qed.

Lemma ancestorsFrom_enough fuel : forall fuel' n,
  (String.length n <= fuel)%nat -> (String.length n <= fuel')%nat ->
  ancestorsFrom fuel n = ancestorsFrom fuel' n.
Proof.
  induction fuel as [|fuel IH]; intros fuel' n Hn Hn'.
  - destruct fuel' as [|fuel']; [reflexivity|]. cbn.
    destruct (parentFullName n) as [p|] eqn:Ep; [|reflexivity].
    apply parentFullName_length in Ep. lia.
  - cbn. destruct (parentFullName n) as [p|] eqn:Ep.
    + pose proof (parentFullName_length _ _ Ep) as Hp.
      destruct fuel' as [|fuel']; [lia|]. cbn. rewrite Ep.
      rewrite (IH fuel' p) by lia. reflexivity.
    + destruct fuel' as [|fuel']; [reflexivity|]. cbn. rewrite Ep. reflexivity.
Qed.

Lemma ancestorsFrom_fuel fuel n :
  (String.length n <= fuel)%nat -> ancestorsFrom fuel n = ancestors n.
Proof. intros H. apply ancestorsFrom_enough; [exact H|lia]. Qed.

Lemma ancestors_parent n p :
  parentFullName n = Some p -> ancestors n = p :: ancestors p.
Proof.
  intros Ep. pose proof (parentFullName_length _ _ Ep) as Hp.
  unfold ancestors at 1. destruct (String.length n) as [|m] eqn:Em; [lia|].
  cbn. rewrite Ep. rewrite ancestorsFrom_fuel by lia. reflexivity.
Qed.

(** ** The effect of a link on the index *)

Lemma lookup_link child parentName st k :
  byFullName (link child parentName st) !! k =
  linkedDump child parentName k <$> byFullName st !! k.
Proof.
  unfold link, pushChild, setParent, linkedDump. cbn.
  destruct (decide (k = parentName)) as [->|Hp].
  - rewrite lookup_alter_eq.
    destruct (decide (parentName = child)) as [->|Hc].
    + rewrite lookup_alter_eq. destruct (byFullName st !! child); reflexivity.
    + rewrite lookup_alter_ne by congruence.
      destruct (byFullName st !! parentName) as [[]|]; reflexivity.
  - rewrite lookup_alter_ne by congruence.
    destruct (decide (k = child)) as [->|Hc].
    + rewrite lookup_alter_eq. destruct (byFullName st !! child); reflexivity.
    + rewrite lookup_alter_ne by congruence.
      destruct (byFullName st !! k) as [[]|]; reflexivity.
Qed.

Lemma lookup_link_Some child parentName st k d' :
  byFullName (link child parentName st) !! k = Some d' ->
  exists d, byFullName st !! k = Some d /\ d' = linkedDump child parentName k d.
Proof.
  rewrite lookup_link. destruct (byFullName st !! k) as [d|]; [|discriminate].
  intros [= <-]. eauto.
Qed.

Lemma lookup_link_is_Some child parentName st k :
  is_Some (byFullName (link child parentName st) !! k) <->
  is_Some (byFullName st !! k).
Proof. rewrite lookup_link. apply fmap_is_Some. Qed.

(** ** The invariant *)

Lemma treeInvariant_root pending st n :
  treeInvariant pending st -> n ∈ pending -> parentFullName n = None ->
  treeInvariant (pending ∖ {[n]})
    (mkTree (byFullName st) (rootAllocatorDumps st ++ [n])).
Proof.
  intros (Ha & Hb & Hc & Hd & He & Hf & Hg) Hn Hp.
  unfold treeInvariant. cbn [byFullName rootAllocatorDumps].
  split; [exact Ha|]. split; [|split; [|split; [|split; [|split]]]].
  - intros k d Hk Hnot. destruct (decide (k = n)) as [->|Hkn].
    + rewrite Hp. split; [apply (Hc _ _ Hk Hn)|]. apply elem_of_app. right. left.
    + assert (k ∉ pending) as Hk' by set_solver.
      destruct (Hb k d Hk Hk') as [H1 H2]. split; [exact H1|].
      destruct (parentFullName k); [exact H2|]. apply elem_of_app. left. exact H2.
  - intros k d Hk Hin. apply (Hc k d Hk). set_solver.
  - intros p pd Hpd. destruct (Hd p pd Hpd) as [H1 H2]. split; [exact H1|].
    intros c Hcin. destruct (H2 c Hcin) as (H3 & H4 & H5). split; [set_solver|]. auto.
  - apply NoDup_app. split; [exact He|]. split; [|apply NoDup_singleton].
    intros r Hr Hr'. apply list_elem_of_singleton in Hr'. subst r.
    destruct (Hf n Hr) as [H1 _]. contradiction.
  - intros r Hr. apply elem_of_app in Hr. destruct Hr as [Hr|Hr].
    + destruct (Hf r Hr) as (H1 & H2 & H3). split; [set_solver|]. auto.
    + apply list_elem_of_singleton in Hr. subst r. split; [set_solver|].
      split; [exact Hp|]. apply Hg, Hn.
  - intros k Hk. apply Hg. set_solver.
Qed.

Lemma treeInvariant_link pending st n p pd :
  treeInvariant pending st -> n ∈ pending -> parentFullName n = Some p ->
  byFullName st !! p = Some pd ->
  treeInvariant (pending ∖ {[n]}) (link n p st).
Proof.
  intros (Ha & Hb & Hc & Hd & He & Hf & Hg) Hn Hp Hpd.
  pose proof (parentFullName_ne _ _ Hp) as Hne.
  split; [|split; [|split; [|split; [|split; [|split]]]]].
  - intros k d' Hk. apply lookup_link_Some in Hk. destruct Hk as (d & Hk & ->).
    cbn. apply (Ha _ _ Hk).
  - intros k d' Hk Hnot. apply lookup_link_Some in Hk. destruct Hk as (d & Hk & ->).
    cbn [linkedDump dump_parent]. destruct (decide (k = n)) as [->|Hkn].
    + rewrite Hp. split; [reflexivity|].
      exists (linkedDump n p p pd). split.
      * rewrite lookup_link, Hpd. reflexivity.
      * cbn. rewrite decide_True by reflexivity. apply elem_of_app. right. left.
    + assert (k ∉ pending) as Hk' by set_solver.
      destruct (Hb k d Hk Hk') as [H1 H2]. split; [exact H1|].
      destruct (parentFullName k) as [q|]; [|exact H2].
      destruct H2 as (qd & Hq & Hin). exists (linkedDump n p q qd). split.
      * rewrite lookup_link, Hq. reflexivity.
      * cbn. destruct (decide (q = p)); [apply elem_of_app; left|]; exact Hin.
  - intros k d' Hk Hin. apply lookup_link_Some in Hk. destruct Hk as (d & Hk & ->).
    cbn. rewrite decide_False by set_solver. apply (Hc k d Hk). set_solver.
  - intros q qd' Hq. apply lookup_link_Some in Hq. destruct Hq as (qd & Hq & ->).
    cbn [linkedDump dump_children]. destruct (Hd q qd Hq) as [H1 H2].
    destruct (decide (q = p)) as [->|Hqp].
    + split.
      * apply NoDup_app. split; [exact H1|]. split; [|apply NoDup_singleton].
        intros c Hc1 Hc2. apply list_elem_of_singleton in Hc2. subst c.
        destruct (H2 n Hc1) as [H3 _]. contradiction.
      * intros c Hcin. apply elem_of_app in Hcin. destruct Hcin as [Hcin|Hcin].
        -- destruct (H2 c Hcin) as (H3 & H4 & H5). split; [set_solver|].
           split; [exact H4|]. apply lookup_link_is_Some, H5.
        -- apply list_elem_of_singleton in Hcin. subst c. split; [set_solver|].
           split; [exact Hp|]. apply lookup_link_is_Some, Hg, Hn.
    + split; [exact H1|]. intros c Hcin.
      destruct (H2 c Hcin) as (H3 & H4 & H5). split; [set_solver|].
      split; [exact H4|]. apply lookup_link_is_Some, H5.
  - exact He.
  - intros r Hr. destruct (Hf r Hr) as (H1 & H2 & H3). split; [set_solver|].
    split; [exact H2|]. apply lookup_link_is_Some, H3.
  - intros k Hk. apply lookup_link_is_Some, Hg. set_solver.
Qed.

Lemma treeInvariant_implicit pending st p :
  treeInvariant pending st -> byFullName st !! p = None ->
  treeInvariant (pending ∪ {[p]})
    (mkTree (<[p := implicitDump p]> (byFullName st)) (rootAllocatorDumps st)).
Proof.
  intros (Ha & Hb & Hc & Hd & He & Hf & Hg) Hp.
  assert (forall k, is_Some (byFullName st !! k) -> k <> p) as Hfresh.
  { intros k [d Hk] ->. congruence. }
  unfold treeInvariant. cbn [byFullName rootAllocatorDumps].
  split; [|split; [|split; [|split; [|split; [|split]]]]].
  - intros k d Hk. destruct (decide (k = p)) as [->|Hkp].
    + rewrite lookup_insert_eq in Hk. injection Hk as <-. reflexivity.
    + rewrite lookup_insert_ne in Hk by congruence. apply (Ha _ _ Hk).
  - intros k d Hk Hnot. assert (k <> p) as Hkp by set_solver.
    rewrite lookup_insert_ne in Hk by congruence.
    assert (k ∉ pending) as Hk' by set_solver.
    destruct (Hb k d Hk Hk') as [H1 H2]. split; [exact H1|].
    destruct (parentFullName k) as [q|]; [|exact H2].
    destruct H2 as (qd & Hq & Hin). exists qd. split; [|exact Hin].
    rewrite lookup_insert_ne; [exact Hq|]. intros <-. congruence.
  - intros k d Hk Hin. destruct (decide (k = p)) as [->|Hkp].
    + rewrite lookup_insert_eq in Hk. injection Hk as <-. reflexivity.
    + rewrite lookup_insert_ne in Hk by congruence. apply (Hc k d Hk). set_solver.
  - intros q qd Hq. destruct (decide (q = p)) as [->|Hqp].
    + rewrite lookup_insert_eq in Hq. injection Hq as <-. cbn.
      split; [apply NoDup_nil_2|]. intros c Hcin. inversion Hcin.
    + rewrite lookup_insert_ne in Hq by congruence.
      destruct (Hd q qd Hq) as [H1 H2]. split; [exact H1|]. intros c Hcin.
      destruct (H2 c Hcin) as (H3 & H4 & H5). pose proof (Hfresh c H5).
      split; [set_solver|]. split; [exact H4|].
      rewrite lookup_insert_ne by congruence. exact H5.
  - exact He.
  - intros r Hr. destruct (Hf r Hr) as (H1 & H2 & H3). pose proof (Hfresh r H3).
    split; [set_solver|]. split; [exact H2|].
    rewrite lookup_insert_ne by congruence. exact H3.
  - intros k Hk. destruct (decide (k = p)) as [->|Hkp].
    + rewrite lookup_insert_eq. eauto.
    + rewrite lookup_insert_ne by congruence. apply Hg. set_solver.
Qed.

(** ** What the loops add *)

Lemma extends_refl below idx : extends below idx idx.
Proof. split; [eauto|]. intros k d' H1 H2. congruence. Qed.

Lemma extends_link below n p st :
  extends below (byFullName st) (byFullName (link n p st)).
Proof.
  split.
  - intros k d Hk. exists (linkedDump n p k d). rewrite lookup_link, Hk. eauto.
  - intros k d' Hk Hnone. rewrite lookup_link, Hnone in Hk. discriminate.
Qed.

Lemma extends_trans b1 b2 b3 i1 i2 i3 :
  extends b1 i1 i2 -> extends b2 i2 i3 ->
  (forall e, e ∈ b1 -> e ∈ b3) ->
  (forall e k, e ∈ b2 -> k ∈ ancestors e ->
     e ∈ b3 \/ exists e', e' ∈ b3 /\ k ∈ ancestors e') ->
  extends b3 i1 i3.
Proof.
  intros [A1 A2] [B1 B2] H13 H23. split.
  - intros k d Hk. destruct (A1 k d Hk) as (d1 & H1 & G1).
    destruct (B1 k d1 H1) as (d2 & H2 & G2). exists d2. split; [exact H2|congruence].
  - intros k d' Hk Hnone. destruct (i2 !! k) as [d2|] eqn:E2.
    + destruct (A2 k d2 E2 Hnone) as (G & e & He & Hin).
      destruct (B1 k d2 E2) as (d3 & H3 & G3).
      assert (d3 = d') as -> by congruence. split; [congruence|]. eauto.
    + destruct (B2 k d' Hk E2) as (G & e & He & Hin). split; [exact G|].
      destruct (H23 e k He Hin) as [H|H]; eauto.
Qed.

Section TreeFacts.
Variable inherited : string -> bool.

Lemma climb_invariant fuel : forall n st pending,
  treeInvariant pending st -> n ∈ pending ->
  (String.length n < fuel)%nat ->
  Forall (fun a => inherited a = false) (ancestors n) ->
  exists st',
    climb inherited fuel n st = Some (Normal st') /\
    treeInvariant (pending ∖ {[n]}) st' /\
    extends [n] (byFullName st) (byFullName st').
Proof.
  induction fuel as [|fuel IH]; intros n st pending Hinv Hn Hlen Hanc; [lia|].
  cbn [climb]. destruct (parentFullName n) as [p|] eqn:Ep.
  - rewrite (ancestors_parent _ _ Ep) in Hanc. inversion Hanc as [|? ? Hp Hrest]; subst.
    unfold jsLookup. destruct (byFullName st !! p) as [pd|] eqn:Epd.
    + eexists. split; [reflexivity|]. split.
      * eapply treeInvariant_link; eauto.
      * apply extends_link.
    + rewrite Hp.
      pose proof (parentFullName_length _ _ Ep) as Hlp.
      pose proof (parentFullName_ne _ _ Ep) as Hne.
      set (st1 := mkTree (<[p := implicitDump p]> (byFullName st)) (rootAllocatorDumps st)).
      assert (treeInvariant (pending ∪ {[p]}) st1) as Hinv1
        by (apply treeInvariant_implicit; assumption).
      assert (treeInvariant ((pending ∪ {[p]}) ∖ {[n]}) (link n p st1)) as Hinv2.
      { eapply treeInvariant_link; [exact Hinv1|set_solver|exact Ep|].
        unfold st1. cbn. apply lookup_insert_eq. }
      destruct (IH p (link n p st1) _ Hinv2) as (st' & Hst' & Hinv' & Hext);
        [set_solver|lia|exact Hrest|].
      exists st'. split; [exact Hst'|]. split.
      * assert (p ∉ pending) as Hpp.
        { intros Hin. destruct Hinv as (_ & _ & _ & _ & _ & _ & Hg).
          destruct (Hg p Hin) as [? ?]. congruence. }
        replace (pending ∖ {[n]}) with ((pending ∪ {[p]}) ∖ {[n]} ∖ {[p]}); [exact Hinv'|].
        apply set_eq. intros x. set_solver.
      * assert (extends [n] (byFullName st) (byFullName (link n p st1))) as Hext1.
        { split.
          - intros k d Hk. exists (linkedDump n p k d). rewrite lookup_link. unfold st1. cbn.
            assert (k <> p) by (intros ->; congruence).
            rewrite lookup_insert_ne by congruence. rewrite Hk. eauto.
          - intros k d' Hk Hnone. apply lookup_link_Some in Hk.
            destruct Hk as (d & Hk & ->). unfold st1 in Hk. cbn in Hk.
            destruct (decide (k = p)) as [->|Hkp].
            + rewrite lookup_insert_eq in Hk. injection Hk as <-. split; [reflexivity|].
              exists n. split; [left|]. rewrite (ancestors_parent _ _ Ep). left.
            + rewrite lookup_insert_ne in Hk by congruence. congruence. }
        eapply extends_trans; [exact Hext1|exact Hext|auto|].
        intros e k He Hk. apply list_elem_of_singleton in He. subst e. right.
        exists n. split; [left|]. rewrite (ancestors_parent _ _ Ep). right. exact Hk.
  - eexists. split; [reflexivity|]. split.
    + apply treeInvariant_root; assumption.
    + apply extends_refl.
Qed.

Lemma forEachName_invariant names : forall st pending,
  treeInvariant pending st -> NoDup names ->
  (forall n, n ∈ names -> n ∈ pending) ->
  (forall n, n ∈ names -> Forall (fun a => inherited a = false) (ancestors n)) ->
  exists st',
    forEachName inherited names st = Some (Normal st') /\
    treeInvariant (pending ∖ list_to_set names) st' /\
    extends names (byFullName st) (byFullName st').
Proof.
  induction names as [|n names IH]; intros st pending Hinv Hnd Hin Hanc.
  - exists st. split; [reflexivity|]. split; [|apply extends_refl].
    replace (pending ∖ list_to_set []) with pending; [exact Hinv|].
    apply set_eq. intros x. set_solver.
  - inversion Hnd as [|? ? Hnotin Hnd']; subst. cbn [forEachName].
    destruct (climb_invariant (S (String.length n)) n st pending Hinv)
      as (st1 & Hst1 & Hinv1 & Hext1); [apply Hin; left|lia|apply Hanc; left|].
    rewrite Hst1.
    destruct (IH st1 (pending ∖ {[n]}) Hinv1 Hnd') as (st' & Hst' & Hinv' & Hext').
    { intros m Hm. assert (m <> n) by (intros ->; contradiction).
      pose proof (Hin m (list_elem_of_further _ _ _ Hm)). set_solver. }
    { intros m Hm. apply Hanc. right. exact Hm. }
    exists st'. split; [exact Hst'|]. split.
    + replace (pending ∖ list_to_set (n :: names))
        with (pending ∖ {[n]} ∖ list_to_set names); [exact Hinv'|].
      apply set_eq. intros x. set_solver.
    + eapply extends_trans; [exact Hext1|exact Hext'| |].
      * intros e He. apply list_elem_of_singleton in He. subst e. left.
      * intros e k He Hk. left. right. exact He.
Qed.

Lemma elem_of_sortedNames idx k : k ∈ sortedNames idx <-> is_Some (idx !! k).
Proof.
  unfold sortedNames. rewrite merge_sort_Permutation.
  rewrite list_elem_of_fmap. split.
  - intros ([k' d] & -> & Hin). apply elem_of_map_to_list in Hin. cbn. eauto.
  - intros [d Hd]. exists (k, d). split; [reflexivity|].
    apply elem_of_map_to_list. exact Hd.
Qed.

Lemma NoDup_sortedNames idx : NoDup (sortedNames idx).
Proof.
  unfold sortedNames. rewrite merge_sort_Permutation. apply NoDup_fst_map_to_list.
Qed.

Lemma treeInvariant_fresh idx :
  freshIndex idx -> treeInvariant (dom idx) (mkTree idx []).
Proof.
  intros Hfresh. unfold treeInvariant. cbn [byFullName rootAllocatorDumps].
  split; [|split; [|split; [|split; [|split; [|split]]]]].
  - intros k d Hk. apply (Hfresh k d Hk).
  - intros k d Hk Hnot. exfalso. apply Hnot, elem_of_dom. eauto.
  - intros k d Hk _. apply (Hfresh k d Hk).
  - intros p pd Hp. destruct (Hfresh p pd Hp) as (_ & _ & ->).
    split; [apply NoDup_nil_2|]. intros c Hc. inversion Hc.
  - apply NoDup_nil_2.
  - intros r Hr. inversion Hr.
  - intros k Hk. apply elem_of_dom. exact Hk.
Qed.

Lemma inferred_tree idx :
  freshIndex idx -> noInheritedAncestor inherited idx ->
  exists st,
    inferMemoryAllocatorDumpTree_ inherited idx = Some (Normal st) /\
    treeInvariant ∅ st /\
    extends (sortedNames idx) idx (byFullName st).
Proof.
  intros Hfresh Hanc. unfold inferMemoryAllocatorDumpTree_.
  destruct (forEachName_invariant (sortedNames idx) (mkTree idx []) (dom idx))
    as (st & Hst & Hinv & Hext).
  - apply treeInvariant_fresh, Hfresh.
  - apply NoDup_sortedNames.
  - intros n Hn. apply elem_of_dom, elem_of_sortedNames, Hn.
  - intros n Hn. apply elem_of_sortedNames in Hn. destruct Hn as [d Hd].
    apply (Hanc n d Hd).
  - exists st. split; [exact Hst|]. split; [|exact Hext].
    replace (∅ : gset string) with (dom idx ∖ list_to_set (sortedNames idx)); [exact Hinv|].
    apply set_eq. intros x. rewrite elem_of_difference, elem_of_list_to_set.
    rewrite elem_of_sortedNames, elem_of_dom. set_solver.
Qed.

(** The links of the tree: when no name on the way up is inherited, the
    function returns, every dump of the index has for parent the dump named by
    what stands before the last slash of its name, is listed once among the
    children of that dump and of no other, and the dumps without a slash are
    the roots, each once. *)
Theorem inferred_tree_links (idx : gmap string Dump) :
  freshIndex idx -> noInheritedAncestor inherited idx ->
  exists st,
    inferMemoryAllocatorDumpTree_ inherited idx = Some (Normal st) /\
    treeLinked st /\ childrenExact st /\ rootsExact st.
Proof.
  intros Hfresh Hanc.
  destruct (inferred_tree idx Hfresh Hanc) as (st & Hst & Hinv & _).
  destruct Hinv as (Ha & Hb & Hc & Hd & He & Hf & Hg).
  exists st. split; [exact Hst|]. split; [|split].
  - intros k d Hk. split; [apply (Ha _ _ Hk)|]. apply (Hb k d Hk). set_solver.
  - intros p pd Hp. destruct (Hd p pd Hp) as [H1 H2]. split; [exact H1|].
    intros c Hc'. destruct (H2 c Hc') as (_ & H3 & H4). auto.
  - split; [exact He|]. intros r Hr. destruct (Hf r Hr) as (_ & H1 & H2). auto.
Qed.

(** The dumps of the tree: every dump that was in the index is still there
    with its GUID, every other dump of the result has no GUID and is named by
    a prefix, up to a slash, of the name of a dump that was there, and with a
    dump the result has its parent. *)
Theorem inferred_tree_dumps (idx : gmap string Dump) :
  freshIndex idx -> noInheritedAncestor inherited idx ->
  exists st,
    inferMemoryAllocatorDumpTree_ inherited idx = Some (Normal st) /\
    (forall k d, idx !! k = Some d ->
       exists d', byFullName st !! k = Some d' /\ dump_guid d' = dump_guid d) /\
    (forall k d', byFullName st !! k = Some d' -> idx !! k = None ->
       dump_guid d' = None /\ exists e, is_Some (idx !! e) /\ k ∈ ancestors e) /\
    (forall k p, is_Some (byFullName st !! k) -> parentFullName k = Some p ->
       is_Some (byFullName st !! p)).
Proof.
  intros Hfresh Hanc.
  destruct (inferred_tree idx Hfresh Hanc) as (st & Hst & Hinv & [E1 E2]).
  exists st. split; [exact Hst|]. split; [exact E1|]. split.
  - intros k d' Hk Hnone. destruct (E2 k d' Hk Hnone) as (G & e & He & Hin).
    split; [exact G|]. exists e. split; [|exact Hin]. apply elem_of_sortedNames, He.
  - intros k p [d Hk] Hp. destruct Hinv as (_ & Hb & _).
    destruct (Hb k d Hk) as [_ H2]; [set_solver|]. rewrite Hp in H2.
    destruct H2 as (pd & Hpd & _). eauto.
Qed.

(** A dump right below a name that the index inherits and does not hold
    makes the function throw. *)
Lemma inherited_parent_throws n p d :
  parentFullName n = Some p -> inherited p = true ->
  inferMemoryAllocatorDumpTree_ inherited {[ n := d ]} = Some (Throw TypeError).
Proof.
  intros Hp Hi. unfold inferMemoryAllocatorDumpTree_, sortedNames.
  rewrite map_to_list_singleton. cbn. rewrite Hp. unfold jsLookup. cbn.
  rewrite lookup_singleton_ne by (intros ->; apply parentFullName_ne in Hp; congruence).
  rewrite Hi. reflexivity.
Qed.

End TreeFacts.

Lemma exampleIndex_fresh : freshIndex exampleIndex.
Proof. apply (bool_decide_unpack _). vm_compute. exact I. Qed.

Lemma exampleIndex_no_inherited : noInheritedAncestor onObjectPrototype exampleIndex.
Proof. apply (bool_decide_unpack _). vm_compute. exact I. Qed.

Lemma inferred_tree_links_witness :
  exists st,
    inferMemoryAllocatorDumpTree_ onObjectPrototype exampleIndex = Some (Normal st) /\
    treeLinked st /\ childrenExact st /\ rootsExact st.
Proof.
  apply (inferred_tree_links onObjectPrototype exampleIndex).
  - apply exampleIndex_fresh.
  - apply exampleIndex_no_inherited.
Defined.

Lemma inferred_tree_dumps_witness :
  exists st,
    inferMemoryAllocatorDumpTree_ onObjectPrototype exampleIndex = Some (Normal st) /\
    (forall k d, exampleIndex !! k = Some d ->
       exists d', byFullName st !! k = Some d' /\ dump_guid d' = dump_guid d) /\
    (forall k d', byFullName st !! k = Some d' -> exampleIndex !! k = None ->
       dump_guid d' = None /\ exists e, is_Some (exampleIndex !! e) /\ k ∈ ancestors e) /\
    (forall k p, is_Some (byFullName st !! k) -> parentFullName k = Some p ->
       is_Some (byFullName st !! p)).
Proof.
  apply (inferred_tree_dumps onObjectPrototype exampleIndex).
  - apply exampleIndex_fresh.
  - apply exampleIndex_no_inherited.
Defined.

(** The tree of the example: [v8/heaps] is added between [v8] and
    [v8/heaps/new]. *)
Lemma exampleIndex_tree :
  inferMemoryAllocatorDumpTree_ onObjectPrototype exampleIndex =
  Some (Normal (mkTree
    (<["v8" := mkDump "v8" (Some "1") None ["v8/heaps"]]>
     (<["v8/heaps" := mkDump "v8/heaps" None (Some "v8") ["v8/heaps/new"]]>
      (<["v8/heaps/new" := mkDump "v8/heaps/new" (Some "2") (Some "v8/heaps") []]>
       (<["malloc" := mkDump "malloc" (Some "3") None []]> ∅))))
    ["malloc"; "v8"])).
Proof. vm_compute. reflexivity. Qed.

End AllocatorDumpTreeFacts.

(** * Facts about memory dump events and the level of detail *)

Module MemoryDumpEventsFacts.
Import Dispatch JSObjects JSObjectsFacts MemoryDumpEvents.

Lemma processMemoryDumpEvent_lookup (event : Event) (st : DumpState) :
  isMemoryDumpPhase event ->
  plainDumpId event ->
  exists st',
    processMemoryDumpEvent event st = Normal st' /\
    forall id,
      allMemoryDumpEvents_ st' !! id =
      groupedUnder id (allMemoryDumpEvents_ st !! id) [event].
Proof.
  intros Hph Hplain. unfold processMemoryDumpEvent, plainDumpId in *.
  destruct (ev_id event) as [i|] eqn:Ei.
  - unfold getOrCreateMemoryDumpEvents_, multipleGlobal.
    rewrite (jsLookup_plain _ _ Hplain).
    assert (forall id, id <> i ->
              groupedUnder id (allMemoryDumpEvents_ st !! id) [event]
              = allMemoryDumpEvents_ st !! id) as Hother.
    { intros id Hne. unfold groupedUnder, hasDumpId, isDumpEvent. cbn.
      rewrite Ei. rewrite !bool_decide_eq_false_2 by congruence.
      rewrite !andb_false_r. cbn.
      destruct (allMemoryDumpEvents_ st !! id) as [[g p]|]; cbn; [|reflexivity].
      rewrite app_nil_r. destruct g; reflexivity. }
    destruct Hph as [Hph|Hph]; rewrite Hph; cbn [String.eqb Ascii.eqb Bool.eqb].
    + destruct (allMemoryDumpEvents_ st !! i) as [[g p]|] eqn:Es; cbn;
        (eexists; split; [reflexivity|]); intros id; cbn;
        (destruct (decide (id = i)) as [->|Hne];
         [rewrite lookup_insert_eq|
          rewrite ?lookup_insert_ne by congruence; rewrite Hother by exact Hne;
          reflexivity]).
      * rewrite Es. unfold groupedUnder, hasDumpId, isDumpEvent. cbn.
        rewrite Ei, Hph. rewrite !bool_decide_eq_true_2 by reflexivity. cbn.
        destruct g; reflexivity.
      * rewrite Es. unfold groupedUnder, hasDumpId, isDumpEvent. cbn.
        rewrite Ei, Hph. rewrite !bool_decide_eq_true_2 by reflexivity. cbn.
        reflexivity.
    + destruct (allMemoryDumpEvents_ st !! i) as [[g p]|] eqn:Es; cbn.
      * destruct g as [g|]; cbn; (eexists; split; [reflexivity|]); intros id; cbn;
          (destruct (decide (id = i)) as [->|Hne];
           [|rewrite ?lookup_insert_ne by congruence; rewrite Hother by exact Hne;
             reflexivity]).
        -- rewrite Es. unfold groupedUnder, hasDumpId, isDumpEvent. cbn.
           rewrite Ei, Hph. rewrite !bool_decide_eq_true_2 by reflexivity. cbn.
           rewrite app_nil_r. reflexivity.
        -- rewrite lookup_insert_eq, Es.
           unfold groupedUnder, hasDumpId, isDumpEvent. cbn.
           rewrite Ei, Hph. rewrite !bool_decide_eq_true_2 by reflexivity. cbn.
           rewrite app_nil_r. reflexivity.
      * eexists; split; [reflexivity|]. intros id; cbn.
        destruct (decide (id = i)) as [->|Hne].
        -- rewrite lookup_insert_eq, Es.
           unfold groupedUnder, hasDumpId, isDumpEvent. cbn.
           rewrite Ei, Hph. rewrite !bool_decide_eq_true_2 by reflexivity. cbn.
           reflexivity.
        -- rewrite !lookup_insert_ne by congruence. rewrite Hother by exact Hne.
           reflexivity.
  - eexists. split; [reflexivity|]. intros id. cbn.
    unfold groupedUnder, hasDumpId, isDumpEvent. cbn. rewrite Ei.
    rewrite !bool_decide_eq_false_2 by congruence. rewrite !andb_false_r. cbn.
    destruct (allMemoryDumpEvents_ st !! id) as [[g p]|]; cbn; [|reflexivity].
    rewrite app_nil_r. destruct g; reflexivity.
Qed.

Lemma groupedUnder_cons id prev event events :
  groupedUnder id (groupedUnder id prev [event]) events
  = groupedUnder id prev (event :: events).
Proof.
  assert (hasDumpId id event = false ->
          isDumpEvent "V" id event = false /\ isDumpEvent "v" id event = false) as Hno.
  { unfold isDumpEvent, hasDumpId. intros ->. rewrite !andb_false_r. auto. }
  assert (bool_decide (is_Some (@None DumpEvents)) = false) as Hn.
  { apply bool_decide_eq_false_2. intros [? ?]. discriminate. }
  assert (forall d : DumpEvents, bool_decide (is_Some (Some d)) = true) as Hs.
  { intros d. apply bool_decide_eq_true_2. eauto. }
  unfold groupedUnder. rewrite !filter_cons. rewrite !filter_nil.
  cbn [existsb]. rewrite !orb_false_r.
  destruct prev as [[g p]|].
  - rewrite !Hs, !orb_true_r. unfold default. cbn [from_option Datatypes.id de_global de_process].
    rewrite ?Hs, ?orb_true_r. cbn [from_option Datatypes.id de_global de_process].
    destruct g as [g|].
    + f_equal. f_equal. rewrite <- app_assoc. f_equal.
      destruct (decide (isDumpEvent "v" id event = true)); reflexivity.
    + destruct (decide (isDumpEvent "V" id event = true));
        destruct (decide (isDumpEvent "v" id event = true));
        cbn [head]; rewrite ?app_nil_r, <- ?app_assoc; reflexivity.
  - rewrite Hn, !orb_false_r. destruct (hasDumpId id event) eqn:Hid.
    + unfold default. cbn [orb from_option Datatypes.id de_global de_process].
      rewrite ?Hs, ?orb_true_r. cbn [from_option Datatypes.id de_global de_process app].
      destruct (decide (isDumpEvent "V" id event = true));
        destruct (decide (isDumpEvent "v" id event = true));
        cbn [head app]; reflexivity.
    + destruct (Hno eq_refl) as [HV Hv]. rewrite Hn, orb_false_r.
      rewrite !decide_False by congruence. cbn [orb]. reflexivity.
Qed.

Lemma groupedUnder_nil id prev : groupedUnder id prev [] = prev.
Proof.
  unfold groupedUnder. cbn [existsb orb]. rewrite filter_nil.
  destruct prev as [[g p]|].
  - rewrite bool_decide_eq_true_2 by eauto. cbn. rewrite app_nil_r.
    destruct g; reflexivity.
  - rewrite bool_decide_eq_false_2; [reflexivity|]. intros [? ?]. discriminate.
Qed.

Lemma processMemoryDumpEvents_lookup (events : list Event) : forall st,
  Forall isMemoryDumpPhase events ->
  Forall plainDumpId events ->
  exists st',
    processMemoryDumpEvents events st = Normal st' /\
    forall id,
      allMemoryDumpEvents_ st' !! id =
      groupedUnder id (allMemoryDumpEvents_ st !! id) events.
Proof.
  induction events as [|event events IH]; intros st Hall Hplain.
  - exists st. split; [reflexivity|]. intros id. rewrite groupedUnder_nil. reflexivity.
  - inversion Hall as [|? ? Hph Hrest]; subst.
    inversion Hplain as [|? ? Hid Hids]; subst.
    destruct (processMemoryDumpEvent_lookup event st Hph Hid) as (st1 & Hst1 & H1).
    destruct (IH st1 Hrest Hids) as (st' & Hst' & H').
    exists st'. split.
    + cbn. rewrite Hst1. exact Hst'.
    + intros id. rewrite H', H1. apply groupedUnder_cons.
Qed.

(** The grouping of memory dump events: for the [v] and [V] events of a
    trace, none of which has for dump id the name of a member that object
    literals inherit from [Object.prototype], the handler returns, and then
    the entry of a dump id holds the [v] events of that id in the order of
    the trace and, as the global event, the first [V] event of that id; an
    id that no event carries has no entry. *)
Theorem memory_dump_events_grouped (events : list Event) (log0 : ImportLog) :
  Forall isMemoryDumpPhase events ->
  Forall plainDumpId events ->
  exists st,
    processMemoryDumpEvents events (mkDumpState ∅ ∅ log0) = Normal st /\
    forall id,
      allMemoryDumpEvents_ st !! id =
      if existsb (hasDumpId id) events then
        Some (mkDumpEvents
                (head (filter (fun e => isDumpEvent "V" id e = true) events))
                (filter (fun e => isDumpEvent "v" id e = true) events))
      else None.
Proof.
  intros Hall Hplain.
  destruct (processMemoryDumpEvents_lookup events (mkDumpState ∅ ∅ log0) Hall Hplain)
    as (st & Hst & H).
  exists st. split; [exact Hst|]. intros id. rewrite H. cbn.
  rewrite lookup_empty. unfold groupedUnder.
  rewrite (bool_decide_eq_false_2 (is_Some None)) by (intros [? ?]; discriminate).
  rewrite orb_false_r. destruct (existsb (hasDumpId id) events); reflexivity.
Qed.

Lemma memory_dump_events_grouped_witness :
  exists st,
    processMemoryDumpEvents
      [named None None (Some "d1") (bareEvent "v" 1 1 10);
       named None None (Some "d1") (bareEvent "V" 0 0 12);
       named None None (Some "d1") (bareEvent "v" 2 1 11);
       named None None (Some "d1") (bareEvent "V" 0 0 13)]
      (mkDumpState ∅ ∅ emptyLog) = Normal st /\
    forall id,
      allMemoryDumpEvents_ st !! id =
      if existsb (hasDumpId id)
           [named None None (Some "d1") (bareEvent "v" 1 1 10);
            named None None (Some "d1") (bareEvent "V" 0 0 12);
            named None None (Some "d1") (bareEvent "v" 2 1 11);
            named None None (Some "d1") (bareEvent "V" 0 0 13)] then
        Some (mkDumpEvents
                (head (filter (fun e => isDumpEvent "V" id e = true)
                   [named None None (Some "d1") (bareEvent "v" 1 1 10);
                    named None None (Some "d1") (bareEvent "V" 0 0 12);
                    named None None (Some "d1") (bareEvent "v" 2 1 11);
                    named None None (Some "d1") (bareEvent "V" 0 0 13)]))
                (filter (fun e => isDumpEvent "v" id e = true)
                   [named None None (Some "d1") (bareEvent "v" 1 1 10);
                    named None None (Some "d1") (bareEvent "V" 0 0 12);
                    named None None (Some "d1") (bareEvent "v" 2 1 11);
                    named None None (Some "d1") (bareEvent "V" 0 0 13)]))
      else None.
Proof.
  apply (memory_dump_events_grouped _ emptyLog).
  - apply (bool_decide_unpack _). vm_compute. exact I.
  - repeat constructor.
Defined.

(** A [v] event whose dump id is [toString] finds the member of that name
    that the table inherits, which has no [process] array. *)
Lemma inherited_dump_id_throws :
  processMemoryDumpEvents [named None None (Some "toString") (bareEvent "v" 1 1 10)]
                          (mkDumpState ∅ ∅ emptyLog) = Throw TypeError.
Proof. reflexivity. Qed.

(** ** The level of detail *)

Lemma levelIndex_bound v i : levelIndex v = Some i -> (i <= 2)%nat.
Proof.
  destruct v as [| | |n|s| |]; cbn; try discriminate.
  - intros [= <-]. lia.
  - destruct (String.eqb s "light"); [intros [= <-]; lia|].
    destruct (String.eqb s "detailed"); [intros [= <-]; lia|discriminate].
Qed.

Lemma foldr_max_init g l : (g <= foldr Nat.max g l)%nat.
Proof. induction l as [|k ks IH]; cbn; lia. Qed.

Lemma foldr_max_max g i l :
  foldr Nat.max (Nat.max g i) l = Nat.max i (foldr Nat.max g l).
Proof. induction l as [|k ks IH]; cbn; lia. Qed.

Lemma levelsOfDetail_fold id (processEvents : list (Z * JSValue)) : forall st,
  globalLevelOfDetailIndex (fold_left (levelStep id) processEvents st) =
  match globalLevelOfDetailIndex st, knownLevels processEvents with
  | None, [] => None
  | None, i :: rest => Some (foldr Nat.max i rest)
  | Some g, known => Some (foldr Nat.max g known)
  end.
Proof.
  induction processEvents as [|[pid v] rest IH]; intros st.
  - cbn. destruct (globalLevelOfDetailIndex st); reflexivity.
  - cbn [fold_left]. rewrite IH.
    assert (knownLevels ((pid, v) :: rest) =
            match levelIndex v with
            | Some i => i :: knownLevels rest
            | None => knownLevels rest
            end) as -> by reflexivity.
    unfold levelStep. destruct (levelIndex v) as [i|].
    + destruct (globalLevelOfDetailIndex st) as [g|];
        cbn [globalLevelOfDetailIndex]; [|reflexivity].
      destruct (Nat.eqb g i) eqn:E; cbn [negb globalLevelOfDetailIndex foldr]; f_equal.
      * apply Nat.eqb_eq in E. subst i. pose proof (foldr_max_init g (knownLevels rest)). lia.
      * apply foldr_max_max.
    + cbn [globalLevelOfDetailIndex]. destruct (globalLevelOfDetailIndex st); reflexivity.
Qed.

Lemma differentLevels_fold id (processEvents : list (Z * JSValue)) : forall st,
  differentLevels id ∈ importWarnings_ (lv_log (fold_left (levelStep id) processEvents st))
  <->
  differentLevels id ∈ importWarnings_ (lv_log st) \/
  levelsDiffer (globalLevelOfDetailIndex st) (knownLevels processEvents).
Proof.
  induction processEvents as [|[pid v] rest IH]; intros st.
  - cbn. split; [auto|]. intros [H|H]; [exact H|].
    destruct (globalLevelOfDetailIndex st); cbn in H.
    + destruct H as (k & Hk & _). inversion Hk.
    + destruct H as (a & b & Ha & _). inversion Ha.
  - cbn [fold_left]. rewrite IH.
    assert (knownLevels ((pid, v) :: rest) =
            match levelIndex v with
            | Some i => i :: knownLevels rest
            | None => knownLevels rest
            end) as -> by reflexivity.
    unfold levelStep. destruct (levelIndex v) as [i|].
    + destruct (globalLevelOfDetailIndex st) as [g|];
        cbn [globalLevelOfDetailIndex lv_log].
      * destruct (Nat.eqb g i) eqn:E; cbn [negb globalLevelOfDetailIndex lv_log].
        -- apply Nat.eqb_eq in E. subst i. cbn [levelsDiffer]. split.
           ++ intros [H|(k & Hk & Hne)]; [auto|]. right. exists k. split; [right|]; auto.
           ++ intros [H|(k & Hk & Hne)]; [auto|]. right. exists k. split; [|exact Hne].
              apply elem_of_cons in Hk. destruct Hk as [->|Hk]; [congruence|exact Hk].
        -- apply Nat.eqb_neq in E. split.
           ++ intros _. right. exists i. split; [left|congruence].
           ++ intros _. left. cbn. apply elem_of_app. right. left.
      * cbn [levelsDiffer]. split.
        -- intros [H|(k & Hk & Hne)]; [auto|]. right. exists k, i.
           split; [right; exact Hk|]. split; [left|exact Hne].
        -- intros [H|(a & b & Ha & Hb & Hne)]; [auto|]. right.
           apply elem_of_cons in Ha. apply elem_of_cons in Hb.
           destruct Ha as [->|Ha]; destruct Hb as [->|Hb].
           ++ congruence.
           ++ exists b. split; [exact Hb|congruence].
           ++ exists a. split; [exact Ha|congruence].
           ++ destruct (decide (a = i)) as [->|Hai].
              ** exists b. split; [exact Hb|congruence].
              ** exists a. split; [exact Ha|exact Hai].
    + cbn [globalLevelOfDetailIndex lv_log]. unfold warn, importWarning.
      cbn [importWarnings_]. rewrite elem_of_app, list_elem_of_singleton.
      split.
      * intros [[H|H]|H]; [auto| |auto]. unfold differentLevels in H. cbn in H.
        discriminate H.
      * intros [H|H]; auto.
Qed.

(** The level of detail of a global memory dump is the highest of the known
    levels of its process memory dumps, where no level stands below 'light'
    and 'light' below 'detailed', and it is [undefined] when no process memory
    dump has a known level; the pass adds the warning about different levels
    exactly when two known levels differ. *)
Theorem global_level_of_detail_is_highest (id : string)
    (processEvents : list (Z * JSValue)) (log0 : ImportLog) :
  match knownLevels processEvents with
  | [] =>
      globalLevelOfDetailIndex (levelsOfDetail id processEvents log0) = None /\
      globalLevelOfDetail (levelsOfDetail id processEvents log0) = JSUndefined
  | i :: rest =>
      exists g,
        globalLevelOfDetailIndex (levelsOfDetail id processEvents log0) = Some g /\
        g ∈ i :: rest /\
        (forall k, k ∈ i :: rest -> (k <= g)%nat) /\
        globalLevelOfDetail (levelsOfDetail id processEvents log0)
        = default JSUndefined (LEVELS_OF_DETAIL !! g)
  end /\
  (differentLevels id ∈ importWarnings_ (lv_log (levelsOfDetail id processEvents log0))
   <->
   differentLevels id ∈ importWarnings_ log0 \/
   exists a b, a ∈ knownLevels processEvents /\ b ∈ knownLevels processEvents /\ a <> b).
Proof.
  split; [|apply (differentLevels_fold id processEvents (mkLevelState None [] log0))].
  unfold levelsOfDetail, globalLevelOfDetail.
  rewrite levelsOfDetail_fold. cbn [globalLevelOfDetailIndex].
  destruct (knownLevels processEvents) as [|i rest]; [split; reflexivity|].
  exists (foldr Nat.max i rest). split; [reflexivity|]. split; [|split; [|reflexivity]].
  - induction rest as [|k ks IH]; cbn; [left|].
    destruct (Nat.max_spec k (foldr Nat.max i ks)) as [[_ ->]|[_ ->]].
    + apply elem_of_cons in IH. destruct IH as [IH|IH].
      * rewrite IH. left.
      * right. right. exact IH.
    + right. left.
  - intros k Hk. induction rest as [|k' ks IH]; cbn.
    + apply list_elem_of_singleton in Hk. subst. lia.
    + apply elem_of_cons in Hk. destruct Hk as [->|Hk].
      * assert (i ∈ i :: ks) as Hi by left. specialize (IH Hi). lia.
      * apply elem_of_cons in Hk. destruct Hk as [->|Hk]; [lia|].
        assert (k ∈ i :: ks) as Hi by (right; exact Hk). specialize (IH Hi). lia.
Qed.

(** Three process memory dumps: a light one, one without a level and a
    detailed one. *)
Lemma level_of_detail_example :
  globalLevelOfDetail
    (levelsOfDetail "d1" [(1, JSString "light"); (2, JSUndefined); (3, JSString "detailed")]
                    emptyLog)
  = JSString "detailed" /\
  length (importWarnings_
    (lv_log (levelsOfDetail "d1"
       [(1, JSString "light"); (2, JSUndefined); (3, JSString "detailed")] emptyLog)))
  = 2%nat.
Proof. split; reflexivity. Qed.

End MemoryDumpEventsFacts.

(** * Facts about the stack frame table *)

Module StackFrameTableFacts.
Import StackFrameTable.

Lemma append_inj_l (p a b : string) : p +:+ a = p +:+ b -> a = b.
Proof. induction p as [|c p IH]; cbn; [auto|]. intros [= H]. auto. Qed.

Lemma lookup_setParentFrame_eq fullId parent frames :
  setParentFrame fullId parent frames !! fullId =
  (fun f => mkFrame (sf_id f) (sf_title f) (sf_colorId f) parent) <$> frames !! fullId.
Proof. unfold setParentFrame. apply lookup_alter_eq. Qed.

Lemma lookup_setParentFrame_ne fullId parent frames k :
  k <> fullId -> setParentFrame fullId parent frames !! k = frames !! k.
Proof. intros Hne. unfold setParentFrame. apply lookup_alter_ne. congruence. Qed.

Lemma setParentFrame_is_Some fullId parent frames k :
  is_Some (setParentFrame fullId parent frames !! k) <-> is_Some (frames !! k).
Proof.
  destruct (decide (k = fullId)) as [->|Hne].
  - rewrite lookup_setParentFrame_eq. apply fmap_is_Some.
  - rewrite lookup_setParentFrame_ne by exact Hne. reflexivity.
Qed.

Section ImportFacts.
Variable colorIdFor : option string -> option Z.
Variable nameOf : Frame -> string.

Local Abbreviation frameOf := (frameOf colorIdFor).
Local Abbreviation addFrames := (addFrames colorIdFor).
Local Abbreviation linkFrames := (linkFrames nameOf).
Local Abbreviation importStackFrames_ := (importStackFrames_ colorIdFor nameOf).

(** ** The first pass *)

Lemma addFrames_taken raw idPrefix : forall frames,
  (exists kv, kv ∈ raw /\ is_Some (frames !! (idPrefix +:+ kv.1))) ->
  addFrames raw idPrefix frames = Throw (Error "Stack frame already exists").
Proof.
  induction raw as [|[id r] rest IH]; intros frames (kv & Hin & Hsome).
  - inversion Hin.
  - cbn [StackFrameTable.addFrames]. unfold addStackFrame. cbn [sf_id StackFrameTable.frameOf].
    destruct (frames !! (idPrefix +:+ id)) as [f|] eqn:E; [reflexivity|].
    cbn [cbind]. apply IH. apply elem_of_cons in Hin. destruct Hin as [->|Hin].
    + cbn in Hsome. rewrite E in Hsome. destruct Hsome. discriminate.
    + exists kv. split; [exact Hin|].
      destruct (decide (idPrefix +:+ kv.1 = idPrefix +:+ id)) as [->|Hne].
      * rewrite lookup_insert_eq. eauto.
      * rewrite lookup_insert_ne by congruence. exact Hsome.
Qed.

Lemma addFrames_repeated raw idPrefix : forall frames,
  ~ NoDup (map (fun kv : string * RawStackFrame => idPrefix +:+ kv.1) raw) ->
  addFrames raw idPrefix frames = Throw (Error "Stack frame already exists").
Proof.
  induction raw as [|[id r] rest IH]; intros frames Hdup.
  - exfalso. apply Hdup. constructor.
  - cbn [StackFrameTable.addFrames]. unfold addStackFrame. cbn [sf_id StackFrameTable.frameOf].
    destruct (frames !! (idPrefix +:+ id)) as [f|] eqn:E; [reflexivity|].
    cbn [cbind].
    destruct (decide (idPrefix +:+ id ∈
                      map (fun kv : string * RawStackFrame => idPrefix +:+ kv.1) rest))
      as [Hin|Hnotin].
    + apply list_elem_of_fmap in Hin. destruct Hin as (kv & Heq & Hin).
      apply addFrames_taken. exists kv. split; [exact Hin|].
      rewrite <- Heq. rewrite lookup_insert_eq. eauto.
    + apply IH. intros Hnd. apply Hdup. cbn. constructor; assumption.
Qed.

Lemma addFrames_free raw idPrefix : forall frames,
  NoDup (map (fun kv : string * RawStackFrame => idPrefix +:+ kv.1) raw) ->
  Forall (fun k => frames !! k = None)
         (map (fun kv : string * RawStackFrame => idPrefix +:+ kv.1) raw) ->
  exists frames',
    addFrames raw idPrefix frames = Normal frames' /\
    (forall kv, kv ∈ raw ->
       frames' !! (idPrefix +:+ kv.1) = Some (frameOf idPrefix kv.1 kv.2)) /\
    (forall k, k ∉ map (fun kv : string * RawStackFrame => idPrefix +:+ kv.1) raw ->
       frames' !! k = frames !! k).
Proof.
  induction raw as [|[id r] rest IH]; intros frames Hnd Hfree.
  - exists frames. split; [reflexivity|]. split; [|auto]. intros kv Hin. inversion Hin.
  - cbn in Hnd, Hfree. inversion Hnd as [|? ? Hnotin Hnd']; subst.
    inversion Hfree as [|? ? Hid Hfree']; subst.
    cbn [StackFrameTable.addFrames]. unfold addStackFrame. cbn [sf_id StackFrameTable.frameOf].
    rewrite Hid. cbn [cbind].
    destruct (IH (<[idPrefix +:+ id := frameOf idPrefix id r]> frames) Hnd')
      as (frames' & Hadd & Hnew & Hold).
    { apply Forall_forall. intros k Hk. rewrite lookup_insert_ne.
      - rewrite Forall_forall in Hfree'. apply Hfree', Hk.
      - intros <-. contradiction. }
    exists frames'. split; [exact Hadd|]. split.
    + intros kv Hin. apply elem_of_cons in Hin. destruct Hin as [->|Hin].
      * cbn. rewrite Hold by exact Hnotin. apply lookup_insert_eq.
      * apply Hnew, Hin.
    + intros k Hk. cbn in Hk. rewrite not_elem_of_cons in Hk. destruct Hk as [Hk1 Hk2].
      rewrite Hold by exact Hk2. apply lookup_insert_ne. congruence.
Qed.

(** ** The second pass *)

Lemma linkFrames_linked raw idPrefix root : forall st,
  NoDup (map (fun kv : string * RawStackFrame => idPrefix +:+ kv.1) raw) ->
  (forall kv, kv ∈ raw ->
     st_frames st !! (idPrefix +:+ kv.1) = Some (frameOf idPrefix kv.1 kv.2)) ->
  exists st',
    linkFrames raw idPrefix root st = Normal st' /\
    (forall kv, kv ∈ raw ->
       st_frames st' !! (idPrefix +:+ kv.1) =
       Some (mkFrame (idPrefix +:+ kv.1) (sf_title (frameOf idPrefix kv.1 kv.2))
                     (sf_colorId (frameOf idPrefix kv.1 kv.2))
                     (parentOf (st_frames st) idPrefix root kv.2))) /\
    (forall k, k ∉ map (fun kv : string * RawStackFrame => idPrefix +:+ kv.1) raw ->
       st_frames st' !! k = st_frames st !! k) /\
    (forall k, is_Some (st_frames st' !! k) <-> is_Some (st_frames st !! k)) /\
    importWarnings_ (st_log st') =
    importWarnings_ (st_log st) ++
    omap (missingParentOf colorIdFor nameOf (st_frames st) idPrefix) raw.
Proof.
  induction raw as [|[id r] rest IH]; intros st Hnd Hall.
  - exists st. split; [reflexivity|]. split; [intros kv Hin; inversion Hin|].
    split; [auto|]. split; [tauto|]. cbn. rewrite app_nil_r. reflexivity.
  - cbn in Hnd. inversion Hnd as [|? ? Hnotin Hnd']; subst.
    cbn [StackFrameTable.linkFrames].
    pose proof (Hall (id, r) (list_elem_of_here _ _)) as Hhead. cbn [fst snd] in Hhead.
    rewrite Hhead.
    set (parent := parentOf (st_frames st) idPrefix root r).
    set (log1 := match missingParentOf colorIdFor nameOf (st_frames st) idPrefix (id, r) with
                 | Some w => importWarning w (st_log st)
                 | None => st_log st
                 end).
    assert (match rsf_parent r with
            | None => (root, st_log st)
            | Some parentId =>
                match st_frames st !! (idPrefix +:+ parentId) with
                | Some _ => (Some (idPrefix +:+ parentId), st_log st)
                | None =>
                    (root,
                     importWarning
                       (missingParent nameOf (idPrefix +:+ parentId)
                                      (frameOf idPrefix id r) (idPrefix +:+ id))
                       (st_log st))
                end
            end = (parent, log1)) as ->.
    { unfold parent, log1, parentOf, missingParentOf. cbn [fst snd].
      destruct (rsf_parent r) as [parentId|]; [|reflexivity].
      destruct (st_frames st !! (idPrefix +:+ parentId)) as [pf|] eqn:Ep.
      - rewrite !bool_decide_eq_true_2 by eauto. reflexivity.
      - rewrite !bool_decide_eq_false_2 by (intros [? ?]; discriminate). reflexivity. }
    set (st1 := mkFrameState (setParentFrame (idPrefix +:+ id) parent (st_frames st)) log1).
    destruct (IH st1 Hnd') as (st' & Hlink & Hnew & Hold & Hkeys & Hlog).
    { intros kv Hin. unfold st1. cbn [st_frames]. rewrite lookup_setParentFrame_ne.
      - apply Hall. right. exact Hin.
      - intros Heq. apply Hnotin. rewrite <- Heq.
        apply list_elem_of_fmap. exists kv. split; [reflexivity|exact Hin]. }
    assert (forall k, is_Some (st_frames st1 !! k) <-> is_Some (st_frames st !! k)) as Hk1.
    { intros k. unfold st1. cbn [st_frames]. apply setParentFrame_is_Some. }
    assert (forall r', parentOf (st_frames st1) idPrefix root r'
                       = parentOf (st_frames st) idPrefix root r') as Hpar.
    { intros r'. unfold parentOf. destruct (rsf_parent r') as [p|]; [|reflexivity].
      rewrite (bool_decide_ext _ _ (Hk1 _)). reflexivity. }
    assert (forall kv, missingParentOf colorIdFor nameOf (st_frames st1) idPrefix kv
                       = missingParentOf colorIdFor nameOf (st_frames st) idPrefix kv) as Hmiss.
    { intros kv. unfold missingParentOf. destruct (rsf_parent kv.2) as [p|]; [|reflexivity].
      rewrite (bool_decide_ext _ _ (Hk1 _)). reflexivity. }
    exists st'. split; [exact Hlink|]. split; [|split; [|split]].
    + intros kv Hin. apply elem_of_cons in Hin. destruct Hin as [->|Hin].
      * cbn [fst snd]. rewrite Hold by exact Hnotin. unfold st1. cbn [st_frames].
        rewrite lookup_setParentFrame_eq, Hhead. reflexivity.
      * rewrite Hnew by exact Hin. rewrite Hpar. reflexivity.
    + intros k Hk. cbn in Hk. rewrite not_elem_of_cons in Hk. destruct Hk as [Hk1' Hk2].
      rewrite Hold by exact Hk2. unfold st1. cbn [st_frames].
      apply lookup_setParentFrame_ne. congruence.
    + intros k. rewrite Hkeys. apply Hk1.
    + rewrite Hlog. unfold st1 at 1. cbn [st_log]. cbn [omap list_omap].
      rewrite (list_omap_ext _ (missingParentOf colorIdFor nameOf (st_frames st) idPrefix)
                 rest rest); [|apply Forall2_same_length_lookup_2; [reflexivity|];
                               intros i x y Hx Hy; rewrite Hx in Hy; injection Hy as <-;
                               apply Hmiss].
      unfold log1.
      destruct (missingParentOf colorIdFor nameOf (st_frames st) idPrefix (id, r)) as [w|].
      * cbn [importWarning importWarnings_]. rewrite <- app_assoc. reflexivity.
      * reflexivity.
Qed.

(** ** The import *)

(** The import into a table in which all its ids are free. *)
Lemma importStackFrames_free (raw : list (string * RawStackFrame))
    (idPrefix : string) (addRootFrame : bool) (st : FrameState) :
  idsFree raw idPrefix addRootFrame (st_frames st) ->
  exists st',
    importStackFrames_ raw idPrefix addRootFrame st = Normal st' /\
    (addRootFrame = true ->
     st_frames st' !! idPrefix = Some (mkFrame idPrefix None None None)) /\
    (forall kv, kv ∈ raw ->
       st_frames st' !! (idPrefix +:+ kv.1) =
       Some (mkFrame (idPrefix +:+ kv.1) (rsf_name kv.2)
                     (sf_colorId (frameOf idPrefix kv.1 kv.2))
                     (parentOf (st_frames st') idPrefix
                               (if addRootFrame then Some idPrefix else None) kv.2))) /\
    (forall k, k ∉ newIds raw idPrefix addRootFrame ->
       st_frames st' !! k = st_frames st !! k) /\
    importWarnings_ (st_log st') =
    importWarnings_ (st_log st) ++
    omap (missingParentOf colorIdFor nameOf (st_frames st') idPrefix) raw.
Proof.
  intros [Hnd Hfree]. unfold StackFrameTable.importStackFrames_.
  set (ids := map (fun kv : string * RawStackFrame => idPrefix +:+ kv.1) raw).
  set (root := if addRootFrame then Some idPrefix else None).
  set (frames0 := if addRootFrame
                  then <[idPrefix := mkFrame idPrefix None None None]> (st_frames st)
                  else st_frames st).
  assert ((if addRootFrame
           then addStackFrame (mkFrame idPrefix None None None) (st_frames st)
           else Normal (st_frames st)) = Normal frames0) as ->.
  { unfold frames0. destruct addRootFrame; [|reflexivity].
    unfold addStackFrame. cbn [sf_id]. unfold newIds in Hfree. cbn in Hfree.
    inversion Hfree as [|? ? H0 _]; subst. rewrite H0. reflexivity. }
  cbn [cbind].
  assert (NoDup ids /\ Forall (fun k => frames0 !! k = None) ids /\
          (addRootFrame = true -> idPrefix ∉ ids)) as (Hnd' & Hfree' & Hroot).
  { unfold newIds in Hnd, Hfree. fold ids in Hnd, Hfree. unfold frames0.
    destruct addRootFrame; cbn in Hnd, Hfree.
    - inversion Hnd as [|? ? Hnotin Hnd']; subst.
      inversion Hfree as [|? ? H0 Hfree']; subst.
      split; [exact Hnd'|]. split; [|auto].
      apply Forall_forall. intros k Hk. rewrite lookup_insert_ne.
      + rewrite Forall_forall in Hfree'. apply Hfree', Hk.
      + intros <-. contradiction.
    - split; [exact Hnd|]. split; [exact Hfree|]. discriminate. }
  destruct (addFrames_free raw idPrefix frames0 Hnd' Hfree')
    as (frames1 & Hadd & Hnew & Hold).
  rewrite Hadd. cbn [cbind].
  destruct (linkFrames_linked raw idPrefix root (mkFrameState frames1 (st_log st)) Hnd' Hnew)
    as (st' & Hlink & Hlinked & Hkept & Hkeys & Hlog).
  cbn [st_frames st_log] in *.
  assert (forall r', parentOf (st_frames st') idPrefix root r'
                     = parentOf frames1 idPrefix root r') as Hpar.
  { intros r'. unfold parentOf. destruct (rsf_parent r') as [p|]; [|reflexivity].
    rewrite (bool_decide_ext _ _ (Hkeys _)). reflexivity. }
  assert (forall kv, missingParentOf colorIdFor nameOf (st_frames st') idPrefix kv
                     = missingParentOf colorIdFor nameOf frames1 idPrefix kv) as Hmiss.
  { intros kv. unfold missingParentOf. destruct (rsf_parent kv.2) as [p|]; [|reflexivity].
    rewrite (bool_decide_ext _ _ (Hkeys _)). reflexivity. }
  exists st'. split; [exact Hlink|]. split; [|split; [|split]].
  - intros ->. rewrite Hkept by auto. rewrite Hold by auto. unfold frames0.
    apply lookup_insert_eq.
  - intros kv Hin. rewrite Hlinked by exact Hin. rewrite Hpar. reflexivity.
  - intros k Hk. unfold newIds in Hk. fold ids in Hk. rewrite not_elem_of_app in Hk.
    destruct Hk as [Hk1 Hk2]. rewrite Hkept by exact Hk2. rewrite Hold by exact Hk2.
    unfold frames0. destruct addRootFrame; [|reflexivity].
    apply lookup_insert_ne. intros <-. apply Hk1. left.
  - rewrite Hlog. f_equal. apply list_omap_ext.
    apply Forall2_same_length_lookup_2; [reflexivity|].
    intros i x y Hx Hy. rewrite Hx in Hy. injection Hy as <-. symmetry. apply Hmiss.
Qed.

(** The import into a table that holds one of its ids. *)
Lemma importStackFrames_taken (raw : list (string * RawStackFrame))
    (idPrefix : string) (addRootFrame : bool) (st : FrameState) :
  ~ idsFree raw idPrefix addRootFrame (st_frames st) ->
  importStackFrames_ raw idPrefix addRootFrame st
  = Throw (Error "Stack frame already exists").
Proof.
  intros Hnot. unfold StackFrameTable.importStackFrames_.
  set (ids := map (fun kv : string * RawStackFrame => idPrefix +:+ kv.1) raw).
  destruct addRootFrame.
  - unfold addStackFrame. cbn [sf_id].
    destruct (st_frames st !! idPrefix) as [f|] eqn:E0; [reflexivity|]. cbn [cbind].
    destruct (decide (NoDup ids)) as [Hnd|Hnd];
      [|rewrite addFrames_repeated by exact Hnd; reflexivity].
    destruct (decide (idPrefix ∈ ids)) as [Hin|Hnotin].
    { rewrite addFrames_taken; [reflexivity|].
      apply list_elem_of_fmap in Hin. destruct Hin as (kv & Heq & Hin).
      exists kv. split; [exact Hin|]. rewrite <- Heq, lookup_insert_eq. eauto. }
    destruct (decide (Forall (fun k => st_frames st !! k = None) ids)) as [Hfree|Hfree].
    { exfalso. apply Hnot. unfold idsFree, newIds. fold ids. cbn. split.
      - constructor; assumption.
      - constructor; assumption. }
    apply not_Forall_Exists in Hfree; [|intros k; apply _].
    apply Exists_exists in Hfree. destruct Hfree as (k & Hk & Hsome).
    apply list_elem_of_fmap in Hk. destruct Hk as (kv & -> & Hin).
    rewrite addFrames_taken; [reflexivity|]. exists kv. split; [exact Hin|].
    destruct (decide (idPrefix +:+ kv.1 = idPrefix)) as [Heq|Hne].
    + rewrite Heq, lookup_insert_eq. eauto.
    + rewrite lookup_insert_ne by congruence.
      cbn in Hsome. destruct (st_frames st !! (idPrefix +:+ kv.1)); [eauto|contradiction].
  - cbn [cbind].
    destruct (decide (NoDup ids)) as [Hnd|Hnd];
      [|rewrite addFrames_repeated by exact Hnd; reflexivity].
    destruct (decide (Forall (fun k => st_frames st !! k = None) ids)) as [Hfree|Hfree].
    { exfalso. apply Hnot. unfold idsFree, newIds. fold ids. cbn. split; assumption. }
    apply not_Forall_Exists in Hfree; [|intros k; apply _].
    apply Exists_exists in Hfree. destruct Hfree as (k & Hk & Hsome).
    apply list_elem_of_fmap in Hk. destruct Hk as (kv & -> & Hin).
    rewrite addFrames_taken; [reflexivity|]. exists kv. split; [exact Hin|].
    cbn in Hsome. destruct (st_frames st !! (idPrefix +:+ kv.1)); [eauto|contradiction].
Qed.

(** What an import has added it cannot add again. *)
Lemma stack_frames_again (raw : list (string * RawStackFrame))
    (idPrefix : string) (addRootFrame : bool) (st st' : FrameState) :
  importStackFrames_ raw idPrefix addRootFrame st = Normal st' ->
  addRootFrame = true \/ raw <> [] ->
  importStackFrames_ raw idPrefix addRootFrame st'
  = Throw (Error "Stack frame already exists").
Proof.
  intros Hst Hsome.
  destruct (decide (idsFree raw idPrefix addRootFrame (st_frames st))) as [Hfree|Hnot];
    [|rewrite importStackFrames_taken in Hst by exact Hnot; discriminate].
  destruct (importStackFrames_free raw idPrefix addRootFrame st Hfree)
    as (st'' & Hst'' & Hroot & Hnew & _).
  assert (st'' = st') as -> by congruence.
  apply importStackFrames_taken. intros [_ Hfree'].
  unfold newIds in Hfree'. destruct addRootFrame.
  - cbn in Hfree'. inversion Hfree' as [|? ? H0 _]; subst.
    rewrite Hroot in H0 by reflexivity. discriminate.
  - destruct Hsome as [Hsome|Hsome]; [discriminate|].
    destruct raw as [|kv rest]; [congruence|]. cbn in Hfree'.
    inversion Hfree' as [|? ? H0 _]; subst.
    rewrite (Hnew kv) in H0 by left. discriminate.
Qed.

(** An import into a table in which all its ids are free: the function
    returns; the table then holds the root frame, when one is asked for, and,
    for every raw frame, a frame under the prefixed id with the name of the
    raw frame as title, whose parent is the frame of the prefixed parent id
    when the table holds one, and the root (or nothing, without a root)
    otherwise; every other frame of the table is as before; and the log
    grows by one warning for each raw frame whose parent is missing, in the
    order of the raw frames. *)
Theorem stack_frames_imported (raw : list (string * RawStackFrame))
    (idPrefix : string) (addRootFrame : bool) (st : FrameState) :
  idsFree raw idPrefix addRootFrame (st_frames st) ->
  exists st',
    importStackFrames_ raw idPrefix addRootFrame st = Normal st' /\
    (addRootFrame = true ->
     st_frames st' !! idPrefix = Some (mkFrame idPrefix None None None)) /\
    (forall kv, kv ∈ raw ->
       st_frames st' !! (idPrefix +:+ kv.1) =
       Some (mkFrame (idPrefix +:+ kv.1) (rsf_name kv.2)
                     (sf_colorId (frameOf idPrefix kv.1 kv.2))
                     (parentOf (st_frames st') idPrefix
                               (if addRootFrame then Some idPrefix else None) kv.2))) /\
    (forall k, k ∉ newIds raw idPrefix addRootFrame ->
       st_frames st' !! k = st_frames st !! k) /\
    importWarnings_ (st_log st') =
    importWarnings_ (st_log st) ++
    omap (missingParentOf colorIdFor nameOf (st_frames st') idPrefix) raw.
Proof. apply importStackFrames_free. Qed.

(** An import that finds one of its ids taken, or that has an id twice,
    throws. *)
Theorem stack_frames_taken_throws (raw : list (string * RawStackFrame))
    (idPrefix : string) (addRootFrame : bool) (st : FrameState) :
  ~ idsFree raw idPrefix addRootFrame (st_frames st) ->
  importStackFrames_ raw idPrefix addRootFrame st
  = Throw (Error "Stack frame already exists").
Proof. apply importStackFrames_taken. Qed.

End ImportFacts.

Lemma exampleFrames_free : idsFree exampleFrames "p7:" true ∅.
Proof. apply (bool_decide_unpack _). vm_compute. exact I. Qed.

Lemma stack_frames_imported_witness :
  exists st',
    importStackFrames_ noColor titleOf exampleFrames "p7:" true (mkFrameState ∅ emptyLog)
    = Normal st' /\
    (true = true ->
     st_frames st' !! "p7:" = Some (mkFrame "p7:" None None None)) /\
    (forall kv, kv ∈ exampleFrames ->
       st_frames st' !! ("p7:" +:+ kv.1) =
       Some (mkFrame ("p7:" +:+ kv.1) (rsf_name kv.2)
                     (sf_colorId (frameOf noColor "p7:" kv.1 kv.2))
                     (parentOf (st_frames st') "p7:" (Some "p7:") kv.2))) /\
    (forall k, k ∉ newIds exampleFrames "p7:" true ->
       st_frames st' !! k = (∅ : gmap string Frame) !! k) /\
    importWarnings_ (st_log st') =
    importWarnings_ emptyLog ++
    omap (missingParentOf noColor titleOf (st_frames st') "p7:") exampleFrames.
Proof.
  apply (stack_frames_imported noColor titleOf exampleFrames "p7:" true
           (mkFrameState ∅ emptyLog)).
  apply exampleFrames_free.
Defined.

Lemma stack_frames_taken_throws_witness :
  importStackFrames_ noColor titleOf exampleFrames "p7:" true
    (mkFrameState {[ "p7:2" := mkFrame "p7:2" None None None ]} emptyLog)
  = Throw (Error "Stack frame already exists").
Proof.
  apply (stack_frames_taken_throws noColor titleOf exampleFrames "p7:" true
           (mkFrameState {[ "p7:2" := mkFrame "p7:2" None None None ]} emptyLog)).
  apply (bool_decide_unpack _). vm_compute. exact I.
Defined.

(** The table of the example: [gc] hangs below the root, with a warning. *)
Lemma exampleFrames_imported :
  importStackFrames_ noColor titleOf exampleFrames "p7:" true (mkFrameState ∅ emptyLog)
  = Normal (mkFrameState
      (<["p7:" := mkFrame "p7:" None None None]>
       (<["p7:1" := mkFrame "p7:1" (Some "main") None (Some "p7:")]>
        (<["p7:2" := mkFrame "p7:2" (Some "run") None (Some "p7:1")]>
         (<["p7:3" := mkFrame "p7:3" (Some "gc") None (Some "p7:")]> ∅))))
      (importWarning
         (mkWarning "metadata_parse_error"
            "Missing parent frame with ID p7:9 for stack frame 'gc' (ID p7:3).")
         emptyLog)).
Proof. vm_compute. reflexivity. Qed.

End StackFrameTableFacts.

(** * Facts about metadata events *)

Module MetadataFacts.
Import StackFrameTable AsyncAssembler Metadata StackFrameTableFacts.

Section MetadataHandlerFacts.
Variable colorIdFor : option string -> option Z.
Variable nameOf : Frame -> string.
Variable addLabelIfNeeded : list string -> string -> list string.
Variable mathMax : JSValue -> JSValue -> JSValue.
Variable entriesOf : JSValue -> list (string * RawStackFrame).

Local Abbreviation processMetadataEvent :=
  (processMetadataEvent colorIdFor nameOf addLabelIfNeeded mathMax entriesOf).
Local Abbreviation processMetadataEvents :=
  (processMetadataEvents colorIdFor nameOf addLabelIfNeeded mathMax entriesOf).

(** A metadata event with a name that the handler knows, and without [args],
    makes the handler throw a [TypeError], unless its arguments were
    stripped; with any other name it adds a warning and changes nothing
    else. *)
Theorem metadata_event_without_args (event : Event) (st : MetaState) :
  ev_args event = None -> ev_argsStripped event = false ->
  (forall name, name ∈ metadataNames -> ev_name event = Some name ->
     processMetadataEvent event st = Throw TypeError) /\
  ((forall name, name ∈ metadataNames -> ev_name event <> Some name) ->
   processMetadataEvent event st =
   Normal (metaWarn ("Unrecognized metadata name: " +:+ jsStr (ev_name event)) st)).
Proof.
  intros Hargs Hstripped. unfold Metadata.processMetadataEvent, isNamed.
  rewrite Hargs, Hstripped. split.
  - intros name Hin Hname. rewrite Hname. unfold metadataNames in Hin.
    repeat (apply elem_of_cons in Hin; destruct Hin as [->|Hin];
            [vm_compute; reflexivity|]).
    inversion Hin.
  - intros Hnone.
    rewrite !bool_decide_eq_false_2; [reflexivity|..];
      apply Hnone; unfold metadataNames; set_solver.
Qed.

(** ** The number of CPUs *)

Lemma numCpus_step (report : Z * Z) (st : MetaState) :
  processMetadataEvent (numCpus report.1 report.2) st =
  Normal (mkMeta (processInfo st) (threadInfo st)
            (if is_undefined (softwareMeasuredCpuCount_ st) then JSNumber report.2
             else mathMax (JSNumber report.2) (softwareMeasuredCpuCount_ st))
            (frameState st)).
Proof.
  unfold Metadata.processMetadataEvent, isNamed, numCpus.
  cbn [withArgs named bareEvent ev_argsStripped ev_pid ev_tid ev_args ev_name].
  rewrite !bool_decide_eq_false_2 by discriminate.
  rewrite bool_decide_eq_true_2 by reflexivity. reflexivity.
Qed.

Lemma numCpus_fold (reports : list (Z * Z)) : forall st c,
  (forall a b, mathMax (JSNumber a) (JSNumber b) = JSNumber (Z.max a b)) ->
  softwareMeasuredCpuCount_ st = JSNumber c ->
  exists st',
    processMetadataEvents (map (fun r => numCpus r.1 r.2) reports) st = Normal st' /\
    processInfo st' = processInfo st /\ threadInfo st' = threadInfo st /\
    frameState st' = frameState st /\
    softwareMeasuredCpuCount_ st' = JSNumber (foldr Z.max c (map snd reports)).
Proof.
  induction reports as [|r rest IH]; intros st c Hmax Hc.
  - exists st. repeat split; try reflexivity. exact Hc.
  - cbn [map Metadata.processMetadataEvents]. rewrite numCpus_step. cbn [cbind].
    rewrite Hc. cbn [is_undefined]. rewrite Hmax.
    destruct (IH (mkMeta (processInfo st) (threadInfo st) (JSNumber (Z.max r.2 c))
                         (frameState st)) (Z.max r.2 c) Hmax eq_refl)
      as (st' & Hst' & Hp & Ht & Hf & Hc').
    exists st'. split; [exact Hst'|]. split; [exact Hp|]. split; [exact Ht|].
    split; [exact Hf|]. rewrite Hc'. f_equal. cbn [foldr snd].
    clear. induction (map snd rest) as [|k ks IHk]; cbn; lia.
Qed.

(** The number of CPUs that the importer keeps is the greatest number that
    a [num_cpus] event has reported, whichever process reported it. *)
Theorem num_cpus_is_greatest (report : Z * Z) (reports : list (Z * Z))
    (st : MetaState) :
  (forall a b, mathMax (JSNumber a) (JSNumber b) = JSNumber (Z.max a b)) ->
  softwareMeasuredCpuCount_ st = JSUndefined ->
  exists st' n,
    processMetadataEvents (map (fun r => numCpus r.1 r.2) (report :: reports)) st
    = Normal st' /\
    softwareMeasuredCpuCount_ st' = JSNumber n /\
    n ∈ map snd (report :: reports) /\
    (forall k, k ∈ map snd (report :: reports) -> k <= n) /\
    processInfo st' = processInfo st /\ threadInfo st' = threadInfo st /\
    frameState st' = frameState st.
Proof.
  intros Hmax Hc. cbn [map Metadata.processMetadataEvents].
  rewrite numCpus_step. cbn [cbind]. rewrite Hc. cbn [is_undefined].
  destruct (numCpus_fold reports
              (mkMeta (processInfo st) (threadInfo st) (JSNumber report.2) (frameState st))
              report.2 Hmax eq_refl) as (st' & Hst' & Hp & Ht & Hf & Hc').
  exists st', (foldr Z.max report.2 (map snd reports)).
  split; [exact Hst'|]. split; [exact Hc'|]. split; [|split; [|auto]].
  - clear. induction (map snd reports) as [|k ks IH]; cbn; [left|].
    destruct (Z.max_spec k (foldr Z.max report.2 ks)) as [[_ ->]|[_ ->]].
    + apply elem_of_cons in IH. destruct IH as [IH|IH].
      * rewrite IH. left.
      * right. right. exact IH.
    + right. left.
  - clear. intros k Hk. induction (map snd reports) as [|k' ks IH]; cbn.
    + apply list_elem_of_singleton in Hk. subst. lia.
    + apply elem_of_cons in Hk. destruct Hk as [->|Hk].
      * assert (report.2 ∈ report.2 :: ks) as Hi by left. specialize (IH Hi). lia.
      * apply elem_of_cons in Hk. destruct Hk as [->|Hk]; [lia|].
        assert (k ∈ report.2 :: ks) as Hi by (right; exact Hk). specialize (IH Hi). lia.
Qed.

(** ** The stack frames of a process *)

(** A second [stackFrames] event of a process makes the handler throw: the
    root frame of the process is in the table since the first. *)
Theorem second_stack_frames_event_throws (pid : Z) (table1 table2 : JSValue)
    (st st' : MetaState) :
  table1 <> JSUndefined -> table2 <> JSUndefined ->
  processMetadataEvent (stackFramesEvent pid table1) st = Normal st' ->
  processMetadataEvent (stackFramesEvent pid table2) st'
  = Throw (Error "Stack frame already exists").
Proof.
  intros H1 H2. unfold Metadata.processMetadataEvent, isNamed, stackFramesEvent.
  cbn [withArgs named bareEvent ev_argsStripped ev_pid ev_tid ev_args ev_name].
  rewrite !bool_decide_eq_false_2 by discriminate.
  rewrite bool_decide_eq_true_2 by reflexivity.
  change (field [("stackFrames", table1)] "stackFrames") with table1.
  change (field [("stackFrames", table2)] "stackFrames") with table2.
  cbn zeta.
  assert (is_undefined table1 = false) as -> by (destruct table1; first [reflexivity|congruence]).
  assert (is_undefined table2 = false) as -> by (destruct table2; first [reflexivity|congruence]).
  set (prefix := "p" +:+ pretty pid +:+ ":").
  destruct (decide (idsFree (entriesOf table1) prefix true (st_frames (frameState st))))
    as [Hfree|Hnot].
  - destruct (importStackFrames_free colorIdFor nameOf (entriesOf table1) prefix true
                (frameState st) Hfree) as (fs & Hfs & Hroot & _).
    rewrite Hfs. cbn [cbind]. intros [= <-]. cbn [frameState].
    rewrite importStackFrames_taken; [reflexivity|].
    intros [_ Hfree2]. unfold newIds in Hfree2. cbn in Hfree2.
    inversion Hfree2 as [|? ? H0 _]; subst. rewrite Hroot in H0 by reflexivity.
    discriminate.
  - rewrite importStackFrames_taken by exact Hnot. discriminate.
Qed.

End MetadataHandlerFacts.

Lemma metadata_event_without_args_witness :
  (forall name, name ∈ metadataNames ->
     ev_name (named None (Some "thread_name") None (bareEvent "M" 1 2 0)) = Some name ->
     Metadata.processMetadataEvent noColor titleOf keepLabel maxOfIntegers (fun _ => [])
       (named None (Some "thread_name") None (bareEvent "M" 1 2 0)) emptyMeta
     = Throw TypeError) /\
  ((forall name, name ∈ metadataNames ->
      ev_name (named None (Some "thread_name") None (bareEvent "M" 1 2 0)) <> Some name) ->
   Metadata.processMetadataEvent noColor titleOf keepLabel maxOfIntegers (fun _ => [])
     (named None (Some "thread_name") None (bareEvent "M" 1 2 0)) emptyMeta =
   Normal (metaWarn ("Unrecognized metadata name: " +:+
                     jsStr (ev_name (named None (Some "thread_name") None
                                           (bareEvent "M" 1 2 0)))) emptyMeta)).
Proof.
  apply (metadata_event_without_args noColor titleOf keepLabel maxOfIntegers (fun _ => [])
           (named None (Some "thread_name") None (bareEvent "M" 1 2 0)) emptyMeta);
    reflexivity.
Defined.

Lemma num_cpus_is_greatest_witness :
  exists st' n,
    Metadata.processMetadataEvents noColor titleOf keepLabel maxOfIntegers (fun _ => [])
      (map (fun r => numCpus r.1 r.2) [(1, 1); (2, 8); (3, 4)]) emptyMeta = Normal st' /\
    softwareMeasuredCpuCount_ st' = JSNumber n /\
    n ∈ map snd [(1, 1); (2, 8); (3, 4)] /\
    (forall k, k ∈ map snd [(1, 1); (2, 8); (3, 4)] -> k <= n) /\
    processInfo st' = processInfo emptyMeta /\ threadInfo st' = threadInfo emptyMeta /\
    frameState st' = frameState emptyMeta.
Proof.
  apply (num_cpus_is_greatest noColor titleOf keepLabel maxOfIntegers (fun _ => [])
           (1, 1) [(2, 8); (3, 4)] emptyMeta); reflexivity.
Defined.

Lemma second_stack_frames_event_throws_witness :
  Metadata.processMetadataEvent noColor titleOf keepLabel maxOfIntegers (fun _ => exampleFrames)
    (stackFramesEvent 7 (JSObject []))
    (mkMeta ∅ ∅ JSUndefined
       (mkFrameState
          (<["p7:" := mkFrame "p7:" None None None]>
           (<["p7:1" := mkFrame "p7:1" (Some "main") None (Some "p7:")]>
            (<["p7:2" := mkFrame "p7:2" (Some "run") None (Some "p7:1")]>
             (<["p7:3" := mkFrame "p7:3" (Some "gc") None (Some "p7:")]> ∅))))
          (importWarning
             (mkWarning "metadata_parse_error"
                "Missing parent frame with ID p7:9 for stack frame 'gc' (ID p7:3).")
             emptyLog)))
  = Throw (Error "Stack frame already exists").
Proof.
  apply (second_stack_frames_event_throws noColor titleOf keepLabel maxOfIntegers
           (fun _ => exampleFrames) 7 (JSObject []) (JSObject []) emptyMeta).
  - discriminate.
  - discriminate.
  - vm_compute. reflexivity.
Defined.

End MetadataFacts.

(** * Facts about the event data of an importer *)

Module EventDataFacts.
Import JSObjects EventData.

(** ** Strings from their ends *)

Lemma append_cons (c : ascii) (a b : string) : String c a +:+ b = String c (a +:+ b).
Proof. reflexivity. Qed.

Lemma append_nil_l (s : string) : "" +:+ s = s.
Proof. reflexivity. Qed.

Lemma append_nil_r (s : string) : s +:+ "" = s.
Proof.
  induction s as [|c s IH]; [reflexivity|]. rewrite append_cons, IH. reflexivity.
Qed.

Lemma append_assoc (a b c : string) : (a +:+ b) +:+ c = a +:+ (b +:+ c).
Proof.
  induction a as [|x a IH]; [reflexivity|]. rewrite !append_cons, IH. reflexivity.
Qed.

Lemma rev_app_append (s t : string) : String.rev_app s t = String.rev s +:+ t.
Proof.
  unfold String.rev. revert t. induction s as [|c s IH]; intros t; [reflexivity|].
  cbn [String.rev_app]. rewrite (IH (String c t)), (IH (String c "")), append_assoc.
  reflexivity.
Qed.

Lemma rev_cons (c : ascii) (s : string) :
  String.rev (String c s) = String.rev s +:+ String c "".
Proof. unfold String.rev at 1. cbn [String.rev_app]. apply rev_app_append. Qed.

Lemma rev_append (a b : string) : String.rev (a +:+ b) = String.rev b +:+ String.rev a.
Proof.
  induction a as [|c a IH].
  - rewrite append_nil_l, append_nil_r. reflexivity.
  - rewrite append_cons, !rev_cons, IH, append_assoc. reflexivity.
Qed.

Lemma rev_involutive (s : string) : String.rev (String.rev s) = s.
Proof.
  induction s as [|c s IH]; [reflexivity|]. rewrite rev_cons, rev_append, IH. reflexivity.
Qed.

Lemma char0_append (a b : string) :
  char0 (a +:+ b) = match char0 a with Some c => Some c | None => char0 b end.
Proof. destruct a; reflexivity. Qed.

Lemma lastChar_snoc (s : string) (c : ascii) : lastChar (s +:+ String c "") = Some c.
Proof. unfold lastChar. rewrite rev_append. reflexivity. Qed.

(** ** Trimming *)

Lemma trimStart_clean (s : string) : startsClean s -> trimStart s = s.
Proof.
  destruct s as [|c s]; [reflexivity|]. unfold startsClean. cbn [char0 trimStart].
  intros ->. reflexivity.
Qed.

Lemma trimStart_startsClean (s : string) : startsClean (trimStart s).
Proof.
  induction s as [|c s IH]; [exact I|]. cbn [trimStart].
  destruct (is_whitespace c) eqn:E; [exact IH|]. unfold startsClean. cbn [char0]. exact E.
Qed.

Lemma trimStart_append (a t : string) :
  startsClean t -> t <> "" -> trimStart (a +:+ t) = trimStart a +:+ t.
Proof.
  intros Ht Hne. induction a as [|c a IH].
  - apply trimStart_clean, Ht.
  - rewrite append_cons. cbn [trimStart].
    destruct (is_whitespace c); [exact IH|reflexivity].
Qed.

Lemma trimEnd_clean (s : string) : endsClean s -> trimEnd s = s.
Proof. intros H. unfold trimEnd. rewrite trimStart_clean by exact H. apply rev_involutive. Qed.

Lemma trimEnd_endsClean (s : string) : endsClean (trimEnd s).
Proof. unfold endsClean, trimEnd. rewrite rev_involutive. apply trimStart_startsClean. Qed.

Lemma trimEnd_char0 (s : string) (c : ascii) :
  char0 s = Some c -> is_whitespace c = false -> char0 (trimEnd s) = Some c.
Proof.
  destruct s as [|x s]; cbn [char0]; [discriminate|]. intros [= ->] Hc.
  unfold trimEnd. rewrite rev_cons, trimStart_append.
  - rewrite rev_append. reflexivity.
  - unfold startsClean. cbn [char0]. exact Hc.
  - discriminate.
Qed.

Lemma trimEnd_startsClean (s : string) : startsClean s -> startsClean (trimEnd s).
Proof.
  intros H. destruct (char0 s) as [c|] eqn:E.
  - unfold startsClean in *. rewrite E in H. rewrite (trimEnd_char0 s c E H). exact H.
  - destruct s; [exact I|discriminate].
Qed.

Lemma trim_clean (s : string) : startsClean s -> endsClean s -> trim s = s.
Proof. intros H1 H2. unfold trim. rewrite trimStart_clean by exact H1. apply trimEnd_clean, H2. Qed.

Lemma trim_startsClean (s : string) : startsClean (trim s).
Proof. apply trimEnd_startsClean, trimStart_startsClean. Qed.

Lemma trim_endsClean (s : string) : endsClean (trim s).
Proof. apply trimEnd_endsClean. Qed.

Lemma trim_trim (s : string) : trim (trim s) = trim s.
Proof. apply trim_clean; [apply trim_startsClean|apply trim_endsClean]. Qed.

(** ** The trailing comma *)

Lemma stripTrailingComma_closed (s : string) :
  lastChar s = Some "]"%char -> stripTrailingComma s = s.
Proof.
  unfold lastChar, stripTrailingComma. destruct (String.rev s) as [|c r]; [discriminate|].
  cbn [char0]. intros [= ->]. reflexivity.
Qed.

Lemma stripTrailingComma_char0 (s : string) :
  char0 s = Some "["%char -> char0 (stripTrailingComma s) = Some "["%char.
Proof.
  destruct s as [|x s]; cbn [char0]; [discriminate|]. intros [= ->].
  assert (startsClean "[") as Hclean by reflexivity.
  unfold stripTrailingComma. rewrite rev_cons.
  rewrite trimStart_append by (auto; discriminate).
  destruct (trimStart (String.rev s)) as [|c r] eqn:E; [reflexivity|].
  rewrite append_cons. destruct (Ascii.eqb c ","); [|reflexivity].
  rewrite trimStart_append by (auto; discriminate).
  rewrite rev_append. reflexivity.
Qed.

(** ** The repair *)

Lemma repairArray_array (s : string) :
  char0 (trim s) = Some "["%char ->
  char0 (repairArray s) = Some "["%char /\ lastChar (repairArray s) = Some "]"%char.
Proof.
  intros H. unfold repairArray. cbn zeta. rewrite bool_decide_eq_true_2 by exact H.
  pose proof (stripTrailingComma_char0 _ H) as H0.
  destruct (bool_decide (lastChar (stripTrailingComma (trim s)) = Some "]"%char)) eqn:E; cbn.
  - apply bool_decide_eq_true_1 in E. auto.
  - split; [rewrite char0_append, H0; reflexivity|apply lastChar_snoc].
Qed.

Lemma repairArray_closed (s : string) :
  char0 (trim s) = Some "["%char -> lastChar (trim s) = Some "]"%char ->
  repairArray s = trim s.
Proof.
  intros H1 H2. unfold repairArray. cbn zeta. rewrite bool_decide_eq_true_2 by exact H1.
  rewrite stripTrailingComma_closed by exact H2.
  rewrite bool_decide_eq_true_2 by exact H2. reflexivity.
Qed.

(** The repair of the text of a trace: a text that, trimmed, begins with a
    bracket is handed to [JSON.parse] with a bracket at its end, and
    unchanged but for the trimming when it has one already; any other text is
    only trimmed; and a repaired text needs no repair. *)
Theorem event_data_repaired (s : string) :
  (char0 (trim s) = Some "["%char ->
   char0 (repairArray s) = Some "["%char /\ lastChar (repairArray s) = Some "]"%char) /\
  (char0 (trim s) = Some "["%char -> lastChar (trim s) = Some "]"%char ->
   repairArray s = trim s) /\
  (char0 (trim s) <> Some "["%char -> repairArray s = trim s) /\
  repairArray (repairArray s) = repairArray s.
Proof.
  split; [apply repairArray_array|]. split; [apply repairArray_closed|].
  assert (char0 (trim s) <> Some "["%char -> repairArray s = trim s) as Hother.
  { intros H. unfold repairArray. cbn zeta. rewrite bool_decide_eq_false_2 by exact H.
    reflexivity. }
  split; [exact Hother|].
  destruct (decide (char0 (trim s) = Some "["%char)) as [H|H].
  - destruct (repairArray_array s H) as [H0 H1].
    assert (trim (repairArray s) = repairArray s) as Ht.
    { apply trim_clean.
      - unfold startsClean. rewrite H0. reflexivity.
      - unfold endsClean, startsClean. unfold lastChar in H1. rewrite H1. reflexivity. }
    apply eq_trans with (trim (repairArray s)); [|exact Ht].
    apply repairArray_closed; rewrite Ht; assumption.
  - rewrite (Hother H). unfold repairArray. cbn zeta. rewrite trim_trim.
    rewrite bool_decide_eq_false_2 by exact H. reflexivity.
Qed.

(** A trace that was cut off after a comma. *)
Lemma repairArray_example :
  repairArray ("  [{" +:+ Dispatch.doubleQuote +:+ "ph" +:+ Dispatch.doubleQuote +:+ ":1} ,  ")
  = "[{" +:+ Dispatch.doubleQuote +:+ "ph" +:+ Dispatch.doubleQuote +:+ ":1}]".
Proof. vm_compute. reflexivity. Qed.

(** ** The container *)

Section ConstructorFacts.
Context {Unit : Type} `{EqDecision Unit}.
Variable timeDisplayModes : string -> option Unit.
Variable jsonParse : string -> Completion JSValue.
Variable inherited : string -> bool.

Lemma assoc_get_elem_of {V} (k : string) (v : V) (o : list (string * V)) :
  assoc_get k o = Some v -> (k, v) ∈ o.
Proof.
  induction o as [|[k' v'] rest IH]; cbn [assoc_get]; [discriminate|].
  destruct (String.eqb k k') eqn:E.
  - apply String.eqb_eq in E. subst k'. intros [= ->]. left.
  - intros H1. right. apply IH, H1.
Qed.

Lemma pushMetadata_filter (fields metadata0 : list (string * JSValue)) :
  pushMetadata inherited fields metadata0 =
  metadata0 ++ filter (fun kv => isKnownField inherited kv.1 = false) fields.
Proof.
  revert metadata0. induction fields as [|[k v] rest IH]; intros metadata0.
  - cbn. rewrite app_nil_r. reflexivity.
  - cbn [pushMetadata]. rewrite filter_cons. cbn [fst].
    destruct (isKnownField inherited k) eqn:E.
    + rewrite decide_False by discriminate. apply IH.
    + rewrite decide_True by reflexivity. rewrite IH, <- app_assoc. reflexivity.
Qed.

(** The metadata of a container: when the constructor returns for an object
    with a truthy [traceEvents], the events of the importer are that
    [traceEvents], and the metadata of the model grow by the fields of the
    object, in their order, whose names are not among the six known names and
    not inherited by an object literal; so a [displayTimeUnit] is among
    them. *)
Theorem container_metadata (fields : list (string * JSValue)) (fromString : bool)
    (m m' : ModelData (Unit := Unit)) (imp : ImporterData) :
  isContainer fields ->
  unwrapContainer timeDisplayModes inherited (JSObject fields) fromString m
  = Normal (imp, m') ->
  Some (events_ imp) = assoc_get "traceEvents" fields /\
  metadata m' =
  metadata m ++ filter (fun kv => isKnownField inherited kv.1 = false) fields /\
  (forall unit, inherited "displayTimeUnit" = false ->
     assoc_get "displayTimeUnit" fields = Some unit ->
     ("displayTimeUnit", unit) ∈ metadata m').
Proof.
  intros (traceEvents & Hte & Htruthy). unfold unwrapContainer.
  unfold getProp. rewrite Hte. cbn [cbind]. rewrite Htruthy.
  assert (forall k, exists v, match assoc_get k fields with
                              | Some x => Normal x
                              | None => Normal JSUndefined
                              end = Normal v) as Hget
    by (intros k; destruct (assoc_get k fields); eauto).
  destruct (Hget "traceAnnotations") as [v1 ->].
  destruct (Hget "systemTraceEvents") as [v2 ->].
  destruct (Hget "battorLogAsString") as [v3 ->].
  destruct (Hget "samples") as [v4 ->].
  destruct (Hget "stackFrames") as [v5 ->].
  destruct (Hget "displayTimeUnit") as [v6 ->]. cbn [cbind].
  intros Hresult.
  assert (exists m1, Normal (imp, m') =
            Normal (mkImporterData traceEvents fromString v1 v2 v3 v4 v5,
                    mkModelData (intrinsicTimeUnit_ m1)
                      (pushMetadata inherited (enumerate (JSObject fields)) (metadata m1)))
            /\ metadata m1 = metadata m) as (m1 & Heq & Hm1).
  { rewrite <- Hresult. destruct (truthy v6).
    - destruct (timeDisplayModes (jsToString v6)) as [u|]; [|discriminate].
      unfold setIntrinsicTimeUnit in *. destruct (intrinsicTimeUnit_ m) as [u0|].
      + destruct (bool_decide (u0 = u)); [|discriminate]. exists m. auto.
      + eexists. split; [reflexivity|]. reflexivity.
    - exists m. auto. }
  injection Heq as -> ->. cbn [events_ metadata enumerate].
  split; [reflexivity|]. rewrite pushMetadata_filter, Hm1. split; [reflexivity|].
  intros unit Hinh Hunit. apply elem_of_app. right. apply list_elem_of_filter. split.
  - unfold isKnownField. cbn [fst]. rewrite Hinh.
    rewrite bool_decide_eq_false_2; [reflexivity|]. unfold knownFieldNames. set_solver.
  - apply assoc_get_elem_of, Hunit.
Qed.

(** The sub traces of a container: when the constructor returns for an
    object with a truthy [traceEvents], [extractSubtraces] hands out the
    [systemTraceEvents] and then the [battorLogAsString] of the object, each
    when it is truthy, leaves the events of the importer as they are, and
    hands out nothing when it is called again. *)
Theorem container_sub_traces (fields : list (string * JSValue)) (fromString : bool)
    (m m' : ModelData (Unit := Unit)) (imp : ImporterData) :
  isContainer fields ->
  unwrapContainer timeDisplayModes inherited (JSObject fields) fromString m
  = Normal (imp, m') ->
  (extractSubtraces imp).1 =
    filter (fun v => truthy v = true)
           [default JSUndefined (assoc_get "systemTraceEvents" fields);
            default JSUndefined (assoc_get "battorLogAsString" fields)] /\
  events_ (extractSubtraces imp).2 = events_ imp /\
  (extractSubtraces (extractSubtraces imp).2).1 = [].
Proof.
  intros (traceEvents & Hte & Htruthy). unfold unwrapContainer.
  unfold getProp. rewrite Hte. cbn [cbind]. rewrite Htruthy.
  assert (forall k, match assoc_get k fields with
                    | Some x => Normal x
                    | None => Normal JSUndefined
                    end = Normal (default JSUndefined (assoc_get k fields))) as Hget
    by (intros k; destruct (assoc_get k fields); reflexivity).
  rewrite !Hget. cbn [cbind]. intros Hresult.
  assert (systemTraceEvents_ imp = default JSUndefined (assoc_get "systemTraceEvents" fields)
          /\ battorData_ imp = default JSUndefined (assoc_get "battorLogAsString" fields))
    as [Hs Hb].
  { destruct (truthy (default JSUndefined (assoc_get "displayTimeUnit" fields))).
    - destruct (timeDisplayModes _) as [u|]; [|discriminate].
      destruct (setIntrinsicTimeUnit u m); [|discriminate].
      cbn [cbind] in Hresult. injection Hresult as <- _. auto.
    - cbn [cbind] in Hresult. injection Hresult as <- _. auto. }
  unfold extractSubtraces. cbn [fst snd events_ systemTraceEvents_ battorData_].
  rewrite Hs, Hb. split; [|split; reflexivity].
  rewrite !filter_cons, filter_nil.
  destruct (truthy (default JSUndefined (assoc_get "systemTraceEvents" fields)));
    destruct (truthy (default JSUndefined (assoc_get "battorLogAsString" fields)));
    reflexivity.
Qed.

End ConstructorFacts.

(** A container that names its unit. *)
Lemma container_metadata_witness :
  Some (events_ (mkImporterData (JSArray []) false JSUndefined JSUndefined JSUndefined
                                JSUndefined JSUndefined))
  = assoc_get "traceEvents"
      [("traceEvents", JSArray []); ("displayTimeUnit", JSString "ns");
       ("toString", JSNumber 1); ("comment", JSString "run 7")] /\
  metadata (mkModelData (Some ns)
              [("displayTimeUnit", JSString "ns"); ("comment", JSString "run 7")]) =
  metadata (mkModelData (@None ExampleUnit) []) ++
  filter (fun kv => isKnownField onObjectPrototype kv.1 = false)
    [("traceEvents", JSArray []); ("displayTimeUnit", JSString "ns");
     ("toString", JSNumber 1); ("comment", JSString "run 7")] /\
  (forall unit, onObjectPrototype "displayTimeUnit" = false ->
     assoc_get "displayTimeUnit"
       [("traceEvents", JSArray []); ("displayTimeUnit", JSString "ns");
        ("toString", JSNumber 1); ("comment", JSString "run 7")] = Some unit ->
     ("displayTimeUnit", unit) ∈
     metadata (mkModelData (Some ns)
                 [("displayTimeUnit", JSString "ns"); ("comment", JSString "run 7")])).
Proof.
  apply (container_metadata exampleModes onObjectPrototype
           [("traceEvents", JSArray []); ("displayTimeUnit", JSString "ns");
            ("toString", JSNumber 1); ("comment", JSString "run 7")]
           false (mkModelData None []) _ _).
  - exists (JSArray []). split; reflexivity.
  - vm_compute. reflexivity.
Defined.

(** A container with a system trace and no power trace. *)
Lemma container_sub_traces_witness :
  (extractSubtraces
     (mkImporterData (JSArray []) false JSUndefined (JSString "ftrace") JSUndefined
                     JSUndefined JSUndefined)).1 =
    filter (fun v => truthy v = true)
           [default JSUndefined
              (assoc_get "systemTraceEvents"
                 [("traceEvents", JSArray []); ("systemTraceEvents", JSString "ftrace")]);
            default JSUndefined
              (assoc_get "battorLogAsString"
                 [("traceEvents", JSArray []); ("systemTraceEvents", JSString "ftrace")])] /\
  events_ (extractSubtraces
             (mkImporterData (JSArray []) false JSUndefined (JSString "ftrace")
                             JSUndefined JSUndefined JSUndefined)).2 =
    events_ (mkImporterData (JSArray []) false JSUndefined (JSString "ftrace")
                            JSUndefined JSUndefined JSUndefined) /\
  (extractSubtraces
     (extractSubtraces
        (mkImporterData (JSArray []) false JSUndefined (JSString "ftrace") JSUndefined
                        JSUndefined JSUndefined)).2).1 = [].
Proof.
  apply (container_sub_traces exampleModes onObjectPrototype
           [("traceEvents", JSArray []); ("systemTraceEvents", JSString "ftrace")]
           false (mkModelData None []) (mkModelData None [])).
  - eexists. split; reflexivity.
  - vm_compute. reflexivity.
Defined.

(** The sub traces are handed out once. *)
Lemma extractSubtraces_once (imp : ImporterData) :
  (extractSubtraces (extractSubtraces imp).2).1 = [].
Proof. reflexivity. Qed.

End EventDataFacts.

(** * Facts about process memory dumps *)

Module ProcessMemoryDumpsFacts.
Import ProcessMemoryDumps.

(** ** The most recent regions *)

Lemma hookUpFrom_length mostRecent dumps :
  length (hookUpFrom mostRecent dumps) = length dumps.
Proof.
  revert mostRecent. induction dumps as [|d rest IH]; intros mostRecent; cbn; [reflexivity|].
  rewrite IH. reflexivity.
Qed.

Lemma last_cons_or {A} (a : A) (l : list A) :
  last (a :: l) = match last l with Some y => Some y | None => Some a end.
Proof.
  revert a. induction l as [|b l IH]; intros a; [reflexivity|].
  change (last (a :: b :: l)) with (last (b :: l)).
  rewrite (IH b). destruct (last l); reflexivity.
Qed.

Lemma hookUpFrom_lookup dumps : forall mostRecent i d,
  dumps !! i = Some d ->
  hookUpFrom mostRecent dumps !! i =
  Some (mkProcessDump (vmRegions_ d)
          (match lastOwnRegions (take (S i) dumps) with
           | Some regions => Some regions
           | None => mostRecent
           end)).
Proof.
  induction dumps as [|d0 rest IH]; intros mostRecent i d Hi; [discriminate|].
  destruct i as [|i].
  - cbn in Hi. injection Hi as ->. cbn. unfold lastOwnRegions. cbn.
    rewrite take_0. cbn. destruct (vmRegions_ d); reflexivity.
  - cbn in Hi. cbn [hookUpFrom]. cbn [lookup list_lookup]. rewrite (IH _ i d Hi).
    f_equal. f_equal. unfold lastOwnRegions.
    change (take (S (S i)) (d0 :: rest)) with (d0 :: take (S i) rest).
    cbn [omap list_omap].
    destruct (vmRegions_ d0) as [r0|]; [|reflexivity].
    rewrite last_cons_or. destruct (last (omap vmRegions_ (take (S i) rest))); reflexivity.
Qed.

(** The most recent regions: after the hook up every dump keeps its own
    regions and has, as most recent regions, the regions of the last dump up
    to and including itself that has regions of its own, and none when there
    is no such dump. *)
Theorem most_recent_vm_regions (processDumps : list ProcessMemoryDump) :
  length (hookUpMostRecentVmRegionsLinks processDumps) = length processDumps /\
  forall i d, processDumps !! i = Some d ->
    hookUpMostRecentVmRegionsLinks processDumps !! i =
    Some (mkProcessDump (vmRegions_ d) (lastOwnRegions (take (S i) processDumps))).
Proof.
  split; [apply hookUpFrom_length|]. intros i d Hi.
  unfold hookUpMostRecentVmRegionsLinks. rewrite (hookUpFrom_lookup _ None i d Hi).
  destruct (lastOwnRegions (take (S i) processDumps)); reflexivity.
Qed.

(** ** The total of a statistic *)

Lemma totalOf_fold regions statName : forall total,
  fold_left (fun total vmRegion =>
               match statOf (byteStats vmRegion) statName with
               | None => total
               | Some statValue => total + statValue
               end) regions total
  = total + totalOf regions statName.
Proof.
  unfold totalOf. induction regions as [|r rest IH]; intros total; cbn; [lia|].
  rewrite IH. rewrite (IH (match statOf (byteStats r) statName with
                           | Some statValue => 0 + statValue | None => 0 end)).
  destruct (statOf (byteStats r) statName); lia.
Qed.

(** The total of a statistic is [undefined] without most recent regions and
    otherwise the sum of the values of the regions that have the statistic:
    regions without it count for nothing, and the total of two lists of
    regions one after the other is the sum of their totals. *)
Theorem total_vm_region_stat (regions1 regions2 : list VMRegion)
    (statName : StatName) (own : option (list VMRegion)) :
  getMostRecentTotalVmRegionStat (mkProcessDump own None) statName = None /\
  getMostRecentTotalVmRegionStat (mkProcessDump own (Some regions1)) statName
  = Some (foldr Z.add 0 (statValues regions1 statName)) /\
  getMostRecentTotalVmRegionStat (mkProcessDump own (Some (regions1 ++ regions2))) statName
  = Some (totalOf regions1 statName + totalOf regions2 statName).
Proof.
  unfold getMostRecentTotalVmRegionStat. cbn [mostRecentVmRegions].
  split; [reflexivity|]. split.
  - f_equal. induction regions1 as [|r rest IH]; [reflexivity|].
    unfold totalOf. cbn [fold_left]. rewrite totalOf_fold, IH.
    unfold statValues. cbn [omap list_omap].
    destruct (statOf (byteStats r) statName); cbn [foldr]; lia.
  - f_equal. unfold totalOf at 1. rewrite fold_left_app.
    fold (totalOf regions1 statName). apply totalOf_fold.
Qed.

(** ** The protection flags *)

Lemma flag_bit (flags : Z) (i : Z) :
  0 <= i -> negb (Z.land flags (2 ^ i) =? 0)%Z = Z.testbit flags i.
Proof.
  intros Hi. destruct (Z.testbit flags i) eqn:E.
  - apply negb_true_iff, Z.eqb_neq. intros H.
    assert (Z.testbit (Z.land flags (2 ^ i)) i = false) as H' by (rewrite H; apply Z.bits_0).
    rewrite Z.land_spec, E, Z.pow2_bits_true in H' by lia. discriminate.
  - apply negb_false_iff, Z.eqb_eq. apply Z.bits_inj'. intros n Hn.
    rewrite Z.land_spec, Z.bits_0. destruct (Z.eq_dec n i) as [->|Hne].
    + rewrite E. reflexivity.
    + rewrite Z.pow2_bits_false by lia. apply andb_false_r.
Qed.

Lemma flagLetter_inj (f1 f2 : Z) (i : Z) (letter : string) :
  0 <= i -> letter <> "-" ->
  (flagLetter f1 (2 ^ i) letter = flagLetter f2 (2 ^ i) letter <->
   Z.testbit f1 i = Z.testbit f2 i).
Proof.
  intros Hi Hl. unfold flagLetter. rewrite !flag_bit by exact Hi.
  destruct (Z.testbit f1 i), (Z.testbit f2 i); split; congruence.
Qed.

Lemma low_bits (f1 f2 : Z) :
  Z.land f1 7 = Z.land f2 7 <->
  Z.testbit f1 2 = Z.testbit f2 2 /\ Z.testbit f1 1 = Z.testbit f2 1 /\
  Z.testbit f1 0 = Z.testbit f2 0.
Proof.
  assert (forall f n, 0 <= n -> Z.testbit (Z.land f 7) n =
            if (n <? 3)%Z then Z.testbit f n else false) as Hbit.
  { intros f n Hn. rewrite Z.land_spec. destruct (n <? 3)%Z eqn:E.
    - apply Z.ltb_lt in E. assert (n = 0 \/ n = 1 \/ n = 2) as Hcase by lia.
      destruct Hcase as [-> | [-> | ->]]; cbn; apply andb_true_r.
    - apply Z.ltb_ge in E. change 7 with (Z.ones 3).
      rewrite Z.ones_spec_high by lia. apply andb_false_r. }
  split.
  - intros H.
    pose proof (Hbit f1 2 ltac:(lia)) as A2. pose proof (Hbit f2 2 ltac:(lia)) as B2.
    pose proof (Hbit f1 1 ltac:(lia)) as A1. pose proof (Hbit f2 1 ltac:(lia)) as B1.
    pose proof (Hbit f1 0 ltac:(lia)) as A0. pose proof (Hbit f2 0 ltac:(lia)) as B0.
    change (2 <? 3)%Z with true in *. change (1 <? 3)%Z with true in *.
    change (0 <? 3)%Z with true in *. rewrite H in A2, A1, A0.
    repeat split; congruence.
  - intros (H2 & H1 & H0). apply Z.bits_inj'. intros n Hn. rewrite !Hbit by exact Hn.
    destruct (n <? 3)%Z eqn:E; [|reflexivity]. apply Z.ltb_lt in E.
    assert (n = 0 \/ n = 1 \/ n = 2) as Hcase by lia.
    destruct Hcase as [-> | [-> | ->]]; assumption.
Qed.

(** The text of the protection flags has three characters, [r], [w] and [x]
    or a dash in their places, and two words of flags give the same text
    exactly when they agree in their three lowest bits. *)
Theorem protection_flags_text (flags1 flags2 : Z) :
  (exists r w x,
     protectionFlagsToString (regionWithFlags flags1)
     = Some (r +:+ w +:+ x) /\
     r = (if Z.testbit flags1 2 then "r" else "-") /\
     w = (if Z.testbit flags1 1 then "w" else "-") /\
     x = (if Z.testbit flags1 0 then "x" else "-")) /\
  (protectionFlagsToString (regionWithFlags flags1)
   = protectionFlagsToString (regionWithFlags flags2)
   <-> Z.land flags1 7 = Z.land flags2 7).
Proof.
  assert (forall f, negb (Z.land f 4 =? 0)%Z = Z.testbit f 2) as H4
    by (intros f; apply (flag_bit f 2); lia).
  assert (forall f, negb (Z.land f 2 =? 0)%Z = Z.testbit f 1) as H2
    by (intros f; apply (flag_bit f 1); lia).
  assert (forall f, negb (Z.land f 1 =? 0)%Z = Z.testbit f 0) as H1
    by (intros f; apply (flag_bit f 0); lia).
  unfold protectionFlagsToString, regionWithFlags. cbn [protectionFlags].
  unfold PROTECTION_FLAG_READ, PROTECTION_FLAG_WRITE, PROTECTION_FLAG_EXECUTE, flagLetter.
  rewrite !H4, !H2, !H1. split.
  - eexists _, _, _. split; [reflexivity|]. repeat split.
  - rewrite low_bits.
    destruct (Z.testbit flags1 2), (Z.testbit flags1 1), (Z.testbit flags1 0),
      (Z.testbit flags2 2), (Z.testbit flags2 1), (Z.testbit flags2 0);
      split; intros H; first [discriminate H | repeat split; congruence
                             | destruct H as (? & ? & ?); congruence].
Qed.

End ProcessMemoryDumpsFacts.

(** * Facts about RAIL type names *)

Module RailFacts.
Import Rail.

(** [indexOf] finds the first place of a string in a list. *)
Lemma indexOf_Some (x : string) (l : list string) : forall i : nat,
  indexOf x l = Some i ->
  l !! i = Some x /\ forall j : nat, (j < i)%nat -> l !! j <> Some x.
Proof.
  induction l as [|y l IH]; intros i Hi; cbn [indexOf] in Hi; [discriminate|].
  destruct (String.eqb y x) eqn:E.
  - injection Hi as <-. apply String.eqb_eq in E. subst y.
    split; [reflexivity|]. intros j Hj. lia.
  - apply String.eqb_neq in E.
    destruct (indexOf x l) as [k|]; [|discriminate].
    injection Hi as <-. destruct (IH k eq_refl) as [Hk Hfirst].
    split; [exact Hk|]. intros [|j] Hj; cbn.
    + congruence.
    + apply Hfirst. lia.
Qed.

Section NamesFacts.
Variable toUpperCase : string -> string.
Variable localeCompare : string -> string -> Z.

Local Abbreviation RAIL_ORDER := (RAIL_ORDER toUpperCase).
Local Abbreviation railCompare := (railCompare toUpperCase localeCompare).
Local Abbreviation isRailName := (isRailName toUpperCase).

(** The place of a name in the RAIL order: the first place that holds the
    name in upper case. *)
Lemma isRailName_place (name : string) :
  isRailName name = true ->
  exists i : nat,
    indexOf (toUpperCase name) RAIL_ORDER = Some i /\
    RAIL_ORDER !! i = Some (toUpperCase name) /\
    forall j : nat, (j < i)%nat -> RAIL_ORDER !! j <> Some (toUpperCase name).
Proof.
  unfold Rail.isRailName. intros H. apply bool_decide_eq_true_1 in H as [i Hi].
  exists i. split; [exact Hi|]. apply indexOf_Some, Hi.
Qed.

(** [railCompare] is fit for sorting: it puts every name of the RAIL order
    before every other name, it orders two names of the RAIL order by their
    places in it, that is by the difference of the first places that hold
    them in upper case, whatever the case of their letters, and with a locale
    whose comparison is antisymmetric and transitive it is so itself. *)
Theorem rail_compare_orders (name1 name2 name3 : string) :
  (isRailName name1 = true -> isRailName name2 = false ->
   railCompare name1 name2 < 0 /\ railCompare name2 name1 > 0) /\
  (isRailName name1 = true -> isRailName name2 = true ->
   (exists i1 i2 : nat,
      RAIL_ORDER !! i1 = Some (toUpperCase name1) /\
      (forall j : nat, (j < i1)%nat -> RAIL_ORDER !! j <> Some (toUpperCase name1)) /\
      RAIL_ORDER !! i2 = Some (toUpperCase name2) /\
      (forall j : nat, (j < i2)%nat -> RAIL_ORDER !! j <> Some (toUpperCase name2)) /\
      railCompare name1 name2 = Z.of_nat i1 - Z.of_nat i2) /\
   railCompare name1 name2 = - railCompare name2 name1 /\
   (railCompare name1 name2 <= 0 -> railCompare name2 name3 <= 0 ->
    railCompare name1 name3 <= 0)) /\
  (toUpperCase name1 = toUpperCase name2 -> isRailName name1 = true ->
   railCompare name1 name2 = 0) /\
  ((forall a b, localeCompare a b = - localeCompare b a) ->
   railCompare name1 name2 = - railCompare name2 name1) /\
  ((forall a b c, localeCompare a b <= 0 -> localeCompare b c <= 0 ->
                  localeCompare a c <= 0) ->
   railCompare name1 name2 <= 0 -> railCompare name2 name3 <= 0 ->
   railCompare name1 name3 <= 0).
Proof.
  assert (isRailName name1 = true -> isRailName name2 = true ->
          exists i1 i2 : nat,
            RAIL_ORDER !! i1 = Some (toUpperCase name1) /\
            (forall j : nat, (j < i1)%nat ->
                             RAIL_ORDER !! j <> Some (toUpperCase name1)) /\
            RAIL_ORDER !! i2 = Some (toUpperCase name2) /\
            (forall j : nat, (j < i2)%nat ->
                             RAIL_ORDER !! j <> Some (toUpperCase name2)) /\
            railCompare name1 name2 = Z.of_nat i1 - Z.of_nat i2) as Hplaces.
  { intros H1 H2.
    destruct (isRailName_place name1 H1) as (i1 & E1 & Hat1 & Hfirst1).
    destruct (isRailName_place name2 H2) as (i2 & E2 & Hat2 & Hfirst2).
    exists i1, i2. repeat split; try assumption.
    unfold Rail.railCompare. rewrite E1, E2. reflexivity. }
  split; [|split; [intros H1 H2; split; [apply Hplaces; assumption|revert H1 H2]|]];
    clear Hplaces;
  unfold Rail.railCompare, Rail.isRailName;
  destruct (indexOf (toUpperCase name1) RAIL_ORDER) as [i1|] eqn:E1;
  destruct (indexOf (toUpperCase name2) RAIL_ORDER) as [i2|] eqn:E2;
  destruct (indexOf (toUpperCase name3) RAIL_ORDER) as [i3|] eqn:E3;
  rewrite ?(bool_decide_eq_true_2 (is_Some (Some _))) by eauto;
  rewrite ?(bool_decide_eq_false_2 (is_Some None)) by (intros [? ?]; discriminate);
  repeat split; intros; try discriminate; try lia; eauto;
  try (match goal with
       | H : toUpperCase _ = toUpperCase _ |- _ => rewrite H in *
       end; try congruence;
       match goal with
       | H1 : indexOf ?x ?l = Some _, H2 : indexOf ?x ?l = Some _ |- _ =>
           rewrite H1 in H2; injection H2 as ->; lia
       end).
Qed.

End NamesFacts.

(** The four type names read 'Response', 'Animate', 'Idle' and 'Load', and
    any name that does not begin with 'rail_' reads as it is. *)
Lemma userFriendlyRailTypeName_examples :
  map (userFriendlyRailTypeName asciiToUpperCase) ALL_RAIL_TYPE_NAMES
  = ["Response"; "Animate"; "Idle"; "Load"] /\
  userFriendlyRailTypeName asciiToUpperCase "trail_x" = "trail_x" /\
  userFriendlyRailTypeName asciiToUpperCase "rail_" = "rail_".
Proof. repeat split; vm_compute; reflexivity. Qed.

(** The order R, A, I, L, in either spelling and either case. *)
Lemma railCompare_examples :
  railCompare asciiToUpperCase codeUnitCompare "rail_response" "Animate" < 0 /\
  railCompare asciiToUpperCase codeUnitCompare "LOAD" "rail_idle" > 0 /\
  railCompare asciiToUpperCase codeUnitCompare "idle" "zebra" < 0 /\
  railCompare asciiToUpperCase codeUnitCompare "apple" "zebra" < 0.
Proof. repeat split; vm_compute; reflexivity. Qed.

End RailFacts.

(** * Facts about what the dispatcher defers *)

Module DispatchQueuesFacts.
Import TraceModel Dispatch DispatchSpec SpecSliceGroup Examples DispatchQueues DispatchFacts.

Lemma phIn_elem (event : Event) (phases : list string) :
  phIn event phases = true -> ev_ph event ∈ phases.
Proof.
  unfold phIn. intros H. apply existsb_exists in H. destruct H as (p & Hin & Heq).
  apply String.eqb_eq in Heq. subst p. apply list_elem_of_In, Hin.
Qed.

(** With the phase of the event known, every phase test is settled. *)
Ltac settle_phases Hph :=
  repeat match goal with
  | |- context [phIn ?e ?l] =>
      let H := fresh in
      first [ assert (H : phIn e l = false) by (unfold phIn; rewrite Hph; reflexivity)
            | assert (H : phIn e l = true) by (unfold phIn; rewrite Hph; reflexivity) ];
      rewrite H; clear H
  end.

Section QueueFacts.
Context {SG : Type} {ops : SliceGroupOps SG} {colors : ColorScheme} {Aux : Type}.
Variable counterKey : option string -> string -> string.
Variable processTraceSampleEvent : Event -> Model SG -> Aux -> Completion (Model SG * Aux).
Variable processMetadataEvent : Event -> Model SG -> Aux -> Completion (Model SG * Aux).
Variable processMemoryDumpEvent : Event -> Model SG -> Aux -> Completion (Model SG * Aux).
Variable processJitCodeEvent : Event -> Aux -> Completion Aux.
Variable getLastGuid : Model SG -> Z.

Local Abbreviation Imp := (Importer (SG := SG) (Aux := Aux)).
Local Abbreviation dispatch :=
  (dispatchEvent counterKey processTraceSampleEvent processMetadataEvent
                 processMemoryDumpEvent processJitCodeEvent getLastGuid).
Local Abbreviation import :=
  (importEvents counterKey processTraceSampleEvent processMetadataEvent
                processMemoryDumpEvent processJitCodeEvent getLastGuid).

Lemma dispatch_queues (rawEvent : RawEvent) (imp imp' : Imp) :
  dispatch rawEvent imp = Normal imp' ->
  allAsyncEvents_ imp' =
    allAsyncEvents_ imp ++
    entriesFrom (length (allAsyncEvents_ imp))
                (filter (fun e => isAsyncPhase e = true) [dispatched rawEvent]) /\
  allObjectEvents_ imp' =
    allObjectEvents_ imp ++
    entriesFrom (length (allObjectEvents_ imp))
                (filter (fun e => isObjectPhase e = true) [dispatched rawEvent]) /\
  map es_event (allFlowEvents_ imp') =
    map es_event (allFlowEvents_ imp) ++ omap flowQueued [dispatched rawEvent].
Proof.
  unfold dispatchEvent. fold (dispatched rawEvent).
  set (event := dispatched rawEvent).
  rewrite !filter_cons, !filter_nil. cbn [omap list_omap].
  unfold isAsyncPhase, isObjectPhase, flowQueued.
  destruct (phIn event ["B"; "E"]) eqn:HBE.
  { intros Hd. apply processDurationEvent_queues in Hd as (Ha & Hf & Ho).
    apply phIn_elem in HBE.
    assert (ev_ph event = "B" \/ ev_ph event = "E") as [Hph|Hph] by set_solver;
      settle_phases Hph; cbn; rewrite Ha, Ho, Hf, !app_nil_r; auto. }
  destruct (phIn event ["X"]) eqn:HX.
  { apply phIn_elem in HX. assert (ev_ph event = "X") as Hph by set_solver.
    settle_phases Hph. cbn [decide]. rewrite !decide_False by discriminate.
    cbn [entriesFrom]. rewrite !app_nil_r.
    destruct (processCompleteEvent event imp) as [[[imp1 event'] slice]|] eqn:Hc;
      cbn [cbind]; [|discriminate].
    pose proof (processCompleteEvent_queues _ _ _ _ _ Hc) as (Ha & Hf & Ho).
    unfold processCompleteEvent in Hc. destruct (isOverhead event) eqn:Hov.
    - injection Hc as <- <- <-. intros [= <-]. cbn. rewrite app_nil_r. auto.
    - cbn [orb].
      assert (ev_bind_id (assignFlowPhase event) = ev_bind_id event) as Hbind
        by (unfold assignFlowPhase, setFlowPhase; repeat case_match; reflexivity).
      destruct (pushCompleteSlice _ _ _ _ _ _ _ _ _ _ _) as [sg1 ref] in Hc.
      destruct (getStackFrameForEvent_ _ _ false _) as [[f1 log1]|] in Hc;
        cbn [cbind] in Hc; [|discriminate].
      destruct (getStackFrameForEvent_ _ _ true _) as [[f2 log2]|] in Hc;
        cbn [cbind] in Hc; [|discriminate].
      injection Hc as <- <- <-. rewrite Hbind.
      destruct (is_undefined (ev_bind_id event)); cbn [negb];
        intros [= <-]; cbn; rewrite ?app_nil_r, ?map_app; auto. }
  destruct (phIn event ["b"; "e"; "n"; "S"; "F"; "T"; "p"]) eqn:HA.
  { pose proof HA as HA'. apply phIn_elem in HA'.
    assert (ev_ph event = "b" \/ ev_ph event = "e" \/ ev_ph event = "n" \/
            ev_ph event = "S" \/ ev_ph event = "F" \/ ev_ph event = "T" \/
            ev_ph event = "p") as Hph by set_solver.
    destruct Hph as [H|[H|[H|[H|[H|[H|H]]]]]]; settle_phases H;
      rewrite decide_True by reflexivity; rewrite decide_False by discriminate;
      intros [= <-]; cbn; rewrite !app_nil_r; auto. }
  rewrite (decide_False (P := false = true)) by discriminate.
  destruct (phIn event ["I"; "i"; "R"]) eqn:HI.
  { intros Hd. apply processInstantEvent_queues in Hd as (Ha & Hf & Ho).
    apply phIn_elem in HI.
    assert (ev_ph event = "I" \/ ev_ph event = "i" \/ ev_ph event = "R") as Hph
      by set_solver.
    destruct Hph as [H|[H|H]]; settle_phases H;
      rewrite decide_False by discriminate;
      cbn; rewrite Ha, Ho, Hf, !app_nil_r; auto. }
  destruct (phIn event ["P"]) eqn:HP.
  { apply phIn_elem in HP. assert (ev_ph event = "P") as Hph by set_solver.
    settle_phases Hph. rewrite decide_False by discriminate.
    destruct (processTraceSampleEvent event (model_ imp) (aux imp)); cbn; [|discriminate].
    intros [= <-]. cbn. rewrite !app_nil_r. auto. }
  destruct (phIn event ["C"]) eqn:HC.
  { apply phIn_elem in HC. assert (ev_ph event = "C") as Hph by set_solver.
    settle_phases Hph. rewrite decide_False by discriminate.
    destruct (processCounterEvent counterKey event (model_ imp)); cbn; [|discriminate].
    intros [= <-]. cbn. rewrite !app_nil_r. auto. }
  destruct (phIn event ["M"]) eqn:HM.
  { apply phIn_elem in HM. assert (ev_ph event = "M") as Hph by set_solver.
    settle_phases Hph. rewrite decide_False by discriminate.
    destruct (processMetadataEvent event (model_ imp) (aux imp)); cbn; [|discriminate].
    intros [= <-]. cbn. rewrite !app_nil_r. auto. }
  destruct (phIn event ["N"; "D"; "O"]) eqn:HO.
  { pose proof HO as HO'. apply phIn_elem in HO'.
    assert (ev_ph event = "N" \/ ev_ph event = "D" \/ ev_ph event = "O") as Hph
      by set_solver.
    destruct Hph as [H|[H|H]]; settle_phases H;
      rewrite decide_True by reflexivity;
      intros [= <-]; cbn; rewrite !app_nil_r; auto. }
  rewrite (decide_False (P := false = true)) by discriminate.
  destruct (phIn event ["s"; "t"; "f"]) eqn:HF.
  { intros [= <-]. cbn. rewrite !app_nil_r, map_app. auto. }
  destruct (phIn event ["v"; "V"]) eqn:HV.
  { destruct (processMemoryDumpEvent event (model_ imp) (aux imp)); cbn; [|discriminate].
    intros [= <-]. cbn. rewrite !app_nil_r. auto. }
  intros [= <-]. cbn. rewrite !app_nil_r. auto.
Qed.

Lemma import_queues (events : list RawEvent) : forall (imp imp' : Imp),
  import events imp = Normal imp' ->
  allAsyncEvents_ imp' =
    allAsyncEvents_ imp ++
    entriesFrom (length (allAsyncEvents_ imp))
                (filter (fun e => isAsyncPhase e = true) (map dispatched events)) /\
  allObjectEvents_ imp' =
    allObjectEvents_ imp ++
    entriesFrom (length (allObjectEvents_ imp))
                (filter (fun e => isObjectPhase e = true) (map dispatched events)) /\
  map es_event (allFlowEvents_ imp') =
    map es_event (allFlowEvents_ imp) ++ omap flowQueued (map dispatched events).
Proof.
  induction events as [|e events IH]; intros imp imp'; cbn [importEvents].
  - intros [= <-]. cbn. rewrite !app_nil_r. auto.
  - destruct (dispatch e imp) as [imp1|] eqn:Hd; cbn [cbind]; [|discriminate].
    intros Hi. destruct (dispatch_queues _ _ _ Hd) as (Ha1 & Ho1 & Hf1).
    destruct (IH _ _ Hi) as (Ha & Ho & Hf).
    cbn [map]. rewrite filter_cons. cbn [omap list_omap].
    rewrite !filter_cons, !filter_nil in Ha1, Ho1. cbn [omap list_omap] in Hf1.
    split; [|split].
    + rewrite Ha, Ha1. destruct (decide (isAsyncPhase (dispatched e) = true)).
      * cbn. rewrite <- app_assoc, length_app. cbn. repeat f_equal. lia.
      * cbn. rewrite !app_nil_r. reflexivity.
    + rewrite Ho, Ho1. rewrite filter_cons.
      destruct (decide (isObjectPhase (dispatched e) = true)).
      * cbn. rewrite <- app_assoc, length_app. cbn. repeat f_equal. lia.
      * cbn. rewrite !app_nil_r. reflexivity.
    + rewrite Hf, Hf1. destruct (flowQueued (dispatched e)); cbn.
      * rewrite <- app_assoc. reflexivity.
      * rewrite app_nil_r. reflexivity.
Qed.

(** What the dispatch defers: when the loop of [importEvents] returns, the
    async queue holds the b, e, n, S, F, T and p events of the trace and the
    object queue its N, D and O events, each in the order of the trace, with
    its thread and numbered from 0; and the flow queue holds, in the order of
    the trace, the s, t and f events and, with their flow phase, the X events
    that have a [bind_id] and are no overhead. *)
Theorem deferred_queues_hold_the_events (events : list RawEvent)
    (m : Model SG) (a : Aux) (imp : Imp) :
  import events (newImporter m a) = Normal imp ->
  allAsyncEvents_ imp =
    entriesFrom 0 (filter (fun e => isAsyncPhase e = true) (map dispatched events)) /\
  allObjectEvents_ imp =
    entriesFrom 0 (filter (fun e => isObjectPhase e = true) (map dispatched events)) /\
  map es_event (allFlowEvents_ imp) = omap flowQueued (map dispatched events).
Proof.
  intros Hi. destruct (import_queues events _ _ Hi) as (Ha & Ho & Hf).
  cbn in Ha, Ho, Hf. auto.
Qed.

End QueueFacts.

(** The scenario S, T, F: all three events are on the async queue. *)
Lemma deferred_queues_hold_the_events_witness :
  allAsyncEvents_ (orElse (exImport legacyScenario imp0) imp0) =
    entriesFrom 0 (filter (fun e => isAsyncPhase e = true)
                          (map dispatched legacyScenario)) /\
  allObjectEvents_ (orElse (exImport legacyScenario imp0) imp0) =
    entriesFrom 0 (filter (fun e => isObjectPhase e = true)
                          (map dispatched legacyScenario)) /\
  map es_event (allFlowEvents_ (orElse (exImport legacyScenario imp0) imp0)) =
    omap flowQueued (map dispatched legacyScenario).
Proof.
  apply (deferred_queues_hold_the_events (ops := specOps) (colors := lengthColors)
           dottedKey skip skip skip skipJit noGuid legacyScenario
           (emptyModel (SG := SpecSG)) tt).
  vm_compute. reflexivity.
Defined.

End DispatchQueuesFacts.

(** * Facts about the matching of nestable async events *)

Module AsyncMatchingFacts.
Import TraceModel Dispatch AsyncAssembler AsyncMatching AsyncFacts.

Lemma findParent_Some (e : EventState) (stack : list (nat * EventState)) :
  forall d depth b,
    findParent e stack d = Some (depth, b) ->
    (d <= depth)%nat /\
    exists x, stack !! (depth - d)%nat = Some (b, x) /\
              ev_name (es_event x) = ev_name (es_event e).
Proof.
  induction stack as [|p stack IH]; intros d depth b; cbn [findParent].
  - discriminate.
  - destruct (sameName e p) eqn:Hs.
    + intros [= <- <-]. split; [lia|]. exists p.2.
      rewrite Nat.sub_diag. cbn. split; [destruct p; reflexivity|].
      unfold sameName in Hs. apply bool_decide_eq_true in Hs. exact Hs.
    + intros Hf. destruct (IH _ _ _ Hf) as (Hle & x & Hx & Hn).
      split; [lia|]. exists x. split; [|exact Hn].
      replace (depth - d)%nat with (S (depth - S d)) by lia. exact Hx.
Qed.

Lemma matchStep_invariant (entries : list EventState) (i : nat) (e : EventState)
    (ms : MatchState) :
  entries !! i = Some e ->
  matcherInvariant entries i ms ->
  matcherInvariant entries (S i) (matchStep i e ms).
Proof.
  intros Hi (Hstack & Hends & Hunf).
  assert (matcherInvariant entries (S i)
            (if String.eqb (ev_ph (es_event e)) "e" then
               match findParent e (parentStack ms) 0 with
               | None =>
                   mkMatchState (parentStack ms) (ends ms) ({[ i ]} ∪ unfinished ms)
                                (parents ms)
               | Some (depth, b) =>
                   mkMatchState (drop (S depth) (parentStack ms)) (<[b := i]> (ends ms))
                                (unfinished ms) (parents ms)
               end
             else ms)) as H1.
  { destruct (String.eqb (ev_ph (es_event e)) "e") eqn:Hph.
    - apply String.eqb_eq in Hph.
      destruct (findParent e (parentStack ms) 0) as [[depth b]|] eqn:Hf.
      + apply findParent_Some in Hf as (_ & x & Hx & Hn).
        rewrite Nat.sub_0_r in Hx. apply list_elem_of_lookup_2 in Hx.
        destruct (Hstack _ _ Hx) as (Hbx & Hbph & Hlt).
        split; [|split]; cbn.
        * intros p y Hp. apply (subseteq_drop (S depth)) in Hp.
          destruct (Hstack _ _ Hp) as (A & B & C). auto with lia.
        * intros b' e' Hl. destruct (decide (b' = b)) as [->|Hne].
          -- rewrite lookup_insert_eq in Hl. injection Hl as <-.
             split; [|split; [lia|]].
             ++ exists x, e. auto 10.
             ++ intros Hin. apply Hunf in Hin. lia.
          -- rewrite lookup_insert_ne in Hl by congruence.
             destruct (Hends _ _ Hl) as (A & B & C). auto with lia.
        * intros k Hk. apply Hunf in Hk. lia.
      + split; [|split]; cbn.
        * intros p y Hp. destruct (Hstack _ _ Hp) as (A & B & C). auto with lia.
        * intros b' e' Hl. destruct (Hends _ _ Hl) as (A & B & C).
          split; [exact A|split; [lia|]]. set_solver by lia.
        * intros k Hk. apply elem_of_union in Hk as [Hk|Hk].
          -- apply elem_of_singleton in Hk. lia.
          -- apply Hunf in Hk. lia.
    - split; [|split].
      + intros p y Hp. destruct (Hstack _ _ Hp) as (A & B & C). auto with lia.
      + intros b' e' Hl. destruct (Hends _ _ Hl) as (A & B & C). auto with lia.
      + intros k Hk. apply Hunf in Hk. lia. }
  unfold matchStep.
  set (ms1 := if String.eqb (ev_ph (es_event e)) "e" then _ else ms) in *.
  clearbody ms1. destruct H1 as (Hstack1 & Hends1 & Hunf1).
  assert (matcherInvariant entries (S i)
            match parentStack ms1 with
            | (p, _) :: _ =>
                mkMatchState (parentStack ms1) (ends ms1) (unfinished ms1)
                             (<[i := p]> (parents ms1))
            | [] => ms1
            end) as H2.
  { destruct (parentStack ms1) as [|[p y] rest] eqn:Hps.
    - split; [|split]; [rewrite Hps|..]; assumption.
    - split; [|split]; cbn; assumption. }
  set (ms2 := match parentStack ms1 with [] => ms1 | _ => _ end) in *.
  clearbody ms2. destruct H2 as (Hstack2 & Hends2 & Hunf2).
  destruct (String.eqb (ev_ph (es_event e)) "b") eqn:Hb.
  - apply String.eqb_eq in Hb. split; [|split]; cbn; [|assumption..].
    intros p y Hp. apply elem_of_cons in Hp as [[= -> ->]|Hp]; [auto with lia|].
    apply Hstack2, Hp.
  - split; [|split]; assumption.
Qed.

Lemma matchLoop_invariant (entries : list EventState) :
  forall (rest : list EventState) (i : nat) (ms : MatchState),
    (forall k x, rest !! k = Some x -> entries !! (i + k)%nat = Some x) ->
    matcherInvariant entries i ms ->
    matcherInvariant entries (i + length rest) (matchLoop rest i ms).
Proof.
  induction rest as [|e rest IH]; intros i ms Hrest Hinv; cbn [matchLoop length].
  - rewrite Nat.add_0_r. exact Hinv.
  - replace (i + S (length rest))%nat with (S i + length rest)%nat by lia.
    apply IH.
    + intros k x Hk. replace (S i + k)%nat with (i + S k)%nat by lia.
      apply Hrest. exact Hk.
    + apply matchStep_invariant; [|exact Hinv].
      specialize (Hrest 0%nat e eq_refl). rewrite Nat.add_0_r in Hrest. exact Hrest.
Qed.

Lemma matchEntries_invariant (entries : list EventState) :
  matcherInvariant entries (length entries) (matchEntries entries).
Proof.
  apply (matchLoop_invariant entries entries 0).
  - intros k x Hk. exact Hk.
  - split; [|split]; cbn.
    + intros p x Hp. apply elem_of_nil in Hp. contradiction.
    + intros b e Hl. rewrite lookup_empty in Hl. discriminate.
    + intros k Hk. apply elem_of_empty in Hk. contradiction.
Qed.

Section PairFacts.
Context {colors : ColorScheme}.
Variable key : string.
Variable frames : gmap string StackFrame.
Variable entries : list EventState.

Local Abbreviation ms := (matchEntries entries).

Lemma assembleLoop_skipped (todo : list EventState) : forall i a a' (j : nat),
  assembleLoop key frames entries ms i todo a = Normal a' ->
  (forall k entry, todo !! k = Some entry -> (i + k)%nat = j ->
                   skipped ms j entry = true) ->
  sliceOfEntry a !! j = None ->
  sliceOfEntry a' !! j = None.
Proof.
  induction todo as [|e todo IH]; intros i a a' j Ha Hskip Hnone;
    cbn [assembleLoop] in Ha.
  - injection Ha as <-. exact Hnone.
  - destruct (assembleStep key frames entries ms i e a) as [a1|] eqn:E1;
      [|discriminate].
    cbn [cbind] in Ha. eapply IH; [exact Ha| |].
    + intros k entry Hk Hj. apply (Hskip (S k) entry Hk). lia.
    + destruct (decide (j = i)) as [->|Hne].
      * apply assembleStep_Normal in E1 as [[_ ->]|(Hs & _)]; [exact Hnone|].
        rewrite (Hskip 0%nat e eq_refl) in Hs by lia. discriminate.
      * rewrite (assembleStep_other _ _ _ _ _ _ _ j E1) by exact Hne. exact Hnone.
Qed.

End PairFacts.

(** A matched pair of nestable events.  In a group of which no entry carries
    a [stack] without an [sf] the second pass returns; and whenever the first
    pass over the entries records the entry at position [e] as the end of
    the entry at position [b], the two are a [b] event and a later [e] event
    of the same name; the BEGIN gets one slice, from its own timestamp to the
    timestamp of the END, without an error and with the arguments of both,
    and the END gets no slice of its own. *)
Theorem matched_nestable_pair {colors : ColorScheme} (key : string)
    (frames : gmap string StackFrame) (entries : list EventState)
    (log0 : ImportLog) (b e : nat) :
  noBareStack entries ->
  ends (matchEntries entries) !! b = Some e ->
  exists a bEntry eEntry s,
    assemble key frames entries log0 = Normal a /\
    entries !! b = Some bEntry /\ entries !! e = Some eEntry /\
    (b < e)%nat /\
    ev_ph (es_event bEntry) = "b" /\ ev_ph (es_event eEntry) = "e" /\
    ev_name (es_event bEntry) = ev_name (es_event eEntry) /\
    sliceOfEntry a !! b = Some s /\
    as_start s = timestampFromUs (ev_ts (es_event bEntry)) /\
    (as_end s == timestampFromUs (ev_ts (es_event eEntry)))%Q /\
    as_error s = None /\
    as_args s = concatenateArguments (default [] (ev_args (es_event bEntry)))
                                     (default [] (ev_args (es_event eEntry))) /\
    sliceOfEntry a !! e = None.
Proof.
  intros Hall Hend.
  destruct (matchEntries_invariant entries) as (_ & Hends & _).
  destruct (Hends _ _ Hend) as ((bEntry & eEntry & Hb & He & Hlt & Hbph & Heph & Hn)
                                & _ & Hunf).
  destruct (assembleLoop_returns key frames entries entries 0
              (mkAssembly ∅ ∅ [] log0) Hall) as (a & Ha); [set_solver|].
  destruct (assembleLoop_slice key frames entries entries 0
              (mkAssembly ∅ ∅ [] log0) a b bEntry Ha Hb) as (l & s & l' & Hns & Hs & _).
  { unfold skipped. rewrite Hbph. reflexivity. }
  change (0 + b)%nat with b in Hs, Hns.
  assert (nestableSlice key frames entries (matchEntries entries) b bEntry l =
          sliceBetween key frames bEntry bEntry eEntry
            (concatenateArguments (default [] (ev_args (es_event bEntry)))
                                  (default [] (ev_args (es_event eEntry))))
            (bool_decide (parents (matchEntries entries) !! b = None)) None l) as Hslice.
  { unfold nestableSlice. rewrite Hbph, Hend, He.
    change (String.eqb "b" "n") with false. change (String.eqb "b" "b") with true.
    reflexivity. }
  rewrite Hslice in Hns. apply sliceBetween_Normal in Hns.
  destruct Hns as (H1 & H2 & H3 & _ & _ & _ & H4 & _).
  exists a, bEntry, eEntry, s.
  split; [exact Ha|].
  split; [exact Hb|]. split; [exact He|]. split; [exact Hlt|].
  split; [exact Hbph|]. split; [exact Heph|]. split; [exact Hn|].
  split; [exact Hs|].
  split; [exact H1|]. split; [exact H2|]. split; [exact H3|]. split; [exact H4|].
  eapply assembleLoop_skipped; [exact Ha| |apply lookup_empty].
  intros k entry Hk Hj. cbn [Nat.add] in Hj. subst k.
  rewrite He in Hk. injection Hk as <-.
  unfold skipped. rewrite Heph.
  rewrite bool_decide_eq_false_2 by exact Hunf. reflexivity.
Qed.

(** A BEGIN and an END of one name under one key. *)
Lemma matched_nestable_pair_witness :
  exists a bEntry eEntry s,
    assemble (colors := SpecSliceGroup.lengthColors) "c:7" ∅
             [matchedBegin; matchedEnd] emptyLog = Normal a /\
    [matchedBegin; matchedEnd] !! 0%nat = Some bEntry /\
    [matchedBegin; matchedEnd] !! 1%nat = Some eEntry /\
    (0 < 1)%nat /\
    ev_ph (es_event bEntry) = "b" /\ ev_ph (es_event eEntry) = "e" /\
    ev_name (es_event bEntry) = ev_name (es_event eEntry) /\
    sliceOfEntry a !! 0%nat = Some s /\
    as_start s = timestampFromUs (ev_ts (es_event bEntry)) /\
    (as_end s == timestampFromUs (ev_ts (es_event eEntry)))%Q /\
    as_error s = None /\
    as_args s = concatenateArguments (default [] (ev_args (es_event bEntry)))
                                     (default [] (ev_args (es_event eEntry))) /\
    sliceOfEntry a !! 1%nat = None.
Proof.
  apply (matched_nestable_pair (colors := SpecSliceGroup.lengthColors) "c:7" ∅
           [matchedBegin; matchedEnd] emptyLog 0 1).
  - repeat constructor.
  - vm_compute. reflexivity.
Defined.

End AsyncMatchingFacts.

(** * Facts about what the flow pass keeps *)

Module FlowInvariantFacts.
Import TraceModel Dispatch SpecSliceGroup Examples FlowAssembler FlowInvariant.

Section InvariantFacts.
Context {SG : Type} {ops : SliceGroupOps SG} {colors : ColorScheme}.
Variable m : Model SG.

(** The invariant reads four fields only. *)
Lemma flowInvariant_same (st st' : FlowState) :
  flows st' = flows st ->
  modelFlowEvents st' = modelFlowEvents st ->
  outFlowEvents st' = outFlowEvents st ->
  inFlowEvents st' = inFlowEvents st ->
  flowInvariant st -> flowInvariant st'.
Proof.
  intros Hf Hm Ho Hi (Hout & Hmodel). split.
  - intros r f. rewrite Hf, Ho. apply Hout.
  - intros r. rewrite Hm. intros Hr. destruct (Hmodel r Hr) as (f & es & A & B & C).
    exists f, es. rewrite Hf, Hi. auto.
Qed.

Lemma flowInvariant_flowWarn (type message : string) (st : FlowState) :
  flowInvariant st -> flowInvariant (flowWarn type message st).
Proof. apply flowInvariant_same; reflexivity. Qed.

Lemma flowInvariant_setFlowId id f (st : FlowState) :
  flowInvariant st -> flowInvariant (setFlowId id f st).
Proof. apply flowInvariant_same; reflexivity. Qed.

Lemma flowInvariant_setFlowStatus id b (st : FlowState) :
  flowInvariant st -> flowInvariant (setFlowStatus id b st).
Proof. apply flowInvariant_same; reflexivity. Qed.

Lemma flowInvariant_push (r : nat) (st : FlowState) :
  ended st r -> flowInvariant st -> flowInvariant (pushModelFlowEvent r st).
Proof.
  intros Hr (Hout & Hmodel). split; [exact Hout|].
  intros r' Hin. cbn in Hin. apply elem_of_app in Hin as [Hin|Hin].
  - destruct (Hmodel r' Hin) as (f & es & A & B & C). exists f, es. auto.
  - apply list_elem_of_singleton in Hin. subst r'.
    destruct Hr as (f & es & A & B & C). exists f, es. auto.
Qed.

Lemma ended_same (st st' : FlowState) (r : nat) :
  flows st' = flows st -> inFlowEvents st' = inFlowEvents st ->
  ended st r -> ended st' r.
Proof.
  intros Hf Hi (f & es & A & B & C). exists f, es. rewrite Hf, Hi. auto.
Qed.

Lemma createFlowEvent_invariant thread event opt_slice (st st' : FlowState) created :
  createFlowEvent m thread event opt_slice st = Normal (created, st') ->
  flowInvariant st ->
  flowInvariant st' /\ (forall r, ended st r -> ended st' r).
Proof.
  unfold createFlowEvent. intros Hc (Hout & Hmodel).
  destruct (if truthy (ev_bind_id event) then _ else _) as [[[[startSlice flowId] ts]|]|];
    cbn [cbind] in Hc; [| |discriminate].
  2:{ injection Hc as <- <-. split; [split; assumption|auto]. }
  destruct (getStackFrameForEvent_ (stackFrames m) event false (fs_log st))
    as [[frame log1]|]; cbn [cbind] in Hc; [|discriminate].
  injection Hc as <- <-.
  assert (forall r, ended st r ->
            ended (mkFlowState log1
                     (flows st ++
                      [mkFlowEvent (ev_cat event) flowId (ev_name event)
                         (getEventColor event None) ts (deepCopyArgs (ev_args event))
                         startSlice None None frame None])
                     (modelFlowEvents st)
                     (<[startSlice :=
                          default [] (outFlowEvents st !! startSlice) ++
                          [length (flows st)]]> (outFlowEvents st))
                     (inFlowEvents st) (flowIdToEvent st) (sliceGuidToEvent st)
                     (flowStatus st)) r) as Hended.
  { intros r (f & es & A & B & C). exists f, es. cbn.
    split; [|auto]. apply lookup_app_l_Some, A. }
  split; [|exact Hended]. split; cbn.
  - intros r f Hr. apply lookup_app_Some in Hr as [Hr|[Hlen Hr]].
    + specialize (Hout r f Hr).
      destruct (decide (startSlice = flow_startSlice f)) as [->|Hne].
      * rewrite lookup_insert_eq. cbn. apply elem_of_app. left. exact Hout.
      * rewrite lookup_insert_ne by exact Hne. exact Hout.
    + destruct (r - length (flows st))%nat as [|k] eqn:Hk; [|destruct k; discriminate].
      injection Hr as <-. cbn. rewrite lookup_insert_eq. cbn.
      apply elem_of_app. right. apply list_elem_of_singleton. lia.
  - intros r Hr. apply Hended, Hmodel, Hr.
Qed.

Lemma finishFlowEventWith_invariant flowEvent thread event refGuid bindToParent
    opt_slice (st st' : FlowState) (ok : bool) :
  finishFlowEventWith m flowEvent thread event refGuid bindToParent opt_slice st =
    Normal (ok, st') ->
  flowInvariant st ->
  flowInvariant st' /\ (forall r, ended st r -> ended st' r) /\
  if ok then ended st' flowEvent else st' = st.
Proof.
  unfold finishFlowEventWith. intros Hfin (Hout & Hmodel).
  destruct (endSliceOf m thread event refGuid bindToParent opt_slice) as [[es|]|];
    cbn [cbind] in Hfin; [| |discriminate].
  2:{ injection Hfin as <- <-. split; [split; assumption|auto]. }
  destruct (flows st !! flowEvent) as [f|] eqn:Hf; [|discriminate].
  destruct (getStackFrameForEvent_ (stackFrames m) event false (fs_log st))
    as [[frame log1]|]; cbn [cbind] in Hfin; [|discriminate].
  destruct (mergeArgsInto_ (flow_args f) (default [] (ev_args event))
              (jsStr (flow_title f)) log1) as [args' log2].
  injection Hfin as <- <-.
  assert (flowEvent < length (flows st))%nat as Hlt by (eapply lookup_lt_Some, Hf).
  set (f' := mkFlowEvent _ _ _ _ _ _ _ _ _ _ _).
  set (st1 := mkFlowState _ _ _ _ _ _ _ _).
  assert (ended st1 flowEvent) as Hthis.
  { exists f', es. cbn. split; [apply list_lookup_insert_eq, Hlt|].
    split; [reflexivity|]. rewrite lookup_insert_eq. cbn.
    apply elem_of_app. right. left. }
  assert (forall r, ended st r -> ended st1 r) as Hended.
  { intros r (g & es' & A & B & C).
    destruct (decide (r = flowEvent)) as [->|Hne]; [exact Hthis|].
    exists g, es'. cbn. split; [rewrite list_lookup_insert_ne by congruence; exact A|].
    split; [exact B|].
    destruct (decide (es = es')) as [->|Hes].
    - rewrite lookup_insert_eq. cbn. apply elem_of_app. left. exact C.
    - rewrite lookup_insert_ne by exact Hes. exact C. }
  split; [|split; [exact Hended|exact Hthis]].
  split; cbn.
  - intros r g Hr. destruct (decide (r = flowEvent)) as [->|Hne].
    + rewrite list_lookup_insert_eq in Hr by exact Hlt. injection Hr as <-.
      cbn. apply (Hout _ _ Hf).
    + rewrite list_lookup_insert_ne in Hr by congruence. apply (Hout _ _ Hr).
  - intros r Hr. apply Hended, Hmodel, Hr.
Qed.

Lemma processFlowProducer_invariant event slice (st st' : FlowState) :
  processFlowProducer m event slice st = Normal st' ->
  flowInvariant st -> flowInvariant st'.
Proof.
  unfold processFlowProducer. intros Hp Hinv.
  destruct (_ && _).
  - injection Hp as <-. apply flowInvariant_flowWarn, Hinv.
  - destruct (createFlowEvent m slice.1 event (Some slice) st) as [[created st1]|] eqn:Hc;
      cbn [cbind] in Hp; [|discriminate].
    destruct (createFlowEvent_invariant _ _ _ _ _ _ Hc Hinv) as [Hinv1 _].
    destruct created; injection Hp as <-.
    + apply flowInvariant_setFlowId, Hinv1.
    + apply flowInvariant_flowWarn, Hinv1.
Qed.

Lemma processFlowConsumer_invariant event refGuid slice (st st' : FlowState) (ok : bool) :
  processFlowConsumer m event refGuid slice st = Normal (ok, st') ->
  flowInvariant st -> flowInvariant st'.
Proof.
  unfold processFlowConsumer. intros Hp Hinv.
  destruct (flowIdToEvent st !! jsToString (ev_bind_id event)) as [r|].
  2:{ injection Hp as <- <-. apply flowInvariant_flowWarn, Hinv. }
  assert (forall fe, fe = (match flows st !! r with
                           | None => Throw TypeError
                           | Some f =>
                               match flow_endSlice f with
                               | None => Normal (Some r, st)
                               | Some _ =>
                                   match sliceGuidToEvent st !! flow_startSlice f with
                                   | None => Throw TypeError
                                   | Some producerEvent =>
                                       createFlowEvent m (flow_startSlice f).1 producerEvent
                                         (Some (flow_startSlice f)) st
                                   end
                               end
                           end) ->
          forall c st1, fe = Normal (c, st1) -> flowInvariant st1) as Hfe.
  { intros fe -> c st1 Hc. destruct (flows st !! r) as [f|]; [|discriminate].
    destruct (flow_endSlice f).
    - destruct (sliceGuidToEvent st !! flow_startSlice f); [|discriminate].
      apply (createFlowEvent_invariant _ _ _ _ _ _ Hc Hinv).
    - injection Hc as <- <-. exact Hinv. }
  specialize (Hfe _ eq_refl).
  destruct (match flows st !! r with None => _ | Some _ => _ end) as [[c st1]|];
    cbn [cbind] in Hp; [|discriminate].
  specialize (Hfe c st1 eq_refl).
  destruct c as [r'|]; [|discriminate].
  destruct (finishFlowEventWith m r' slice.1 event refGuid false (Some slice) st1)
    as [[fin st2]|] eqn:Hfin; cbn [cbind fst snd] in Hp; [|discriminate].
  destruct (finishFlowEventWith_invariant _ _ _ _ _ _ _ _ _ Hfin Hfe) as (Hinv2 & _ & Hok).
  destruct fin; injection Hp as <- <-.
  - apply flowInvariant_push; assumption.
  - apply flowInvariant_flowWarn, Hinv2.
Qed.

Lemma flowStepV2_invariant data (st st' : FlowState) :
  flowStepV2 m data st = Normal st' -> flowInvariant st -> flowInvariant st'.
Proof.
  unfold flowStepV2. intros Hs Hinv.
  destruct (es_slice data) as [ref|]; [|discriminate].
  set (st0 := mkFlowState _ _ _ _ _ _ _ _) in Hs.
  assert (flowInvariant st0) as Hinv0
    by (revert Hinv; apply flowInvariant_same; reflexivity).
  clearbody st0.
  destruct (bool_decide (ev_flowPhase (es_event data) = Some PRODUCER)).
  - eapply processFlowProducer_invariant; eassumption.
  - destruct (processFlowConsumer m (es_event data) (default 0 (es_refGuid data))
                (es_thread data, ref) st0) as [[ok st1]|] eqn:Hc;
      cbn [cbind fst snd] in Hs; [|discriminate].
    pose proof (processFlowConsumer_invariant _ _ _ _ _ _ Hc Hinv0) as Hinv1.
    destruct ok; [|injection Hs as <-; exact Hinv1].
    destruct (bool_decide (ev_flowPhase (es_event data) = Some STEP)).
    + eapply processFlowProducer_invariant; [exact Hs|].
      apply flowInvariant_setFlowStatus, Hinv1.
    + injection Hs as <-. apply flowInvariant_setFlowStatus, Hinv1.
Qed.

Lemma flowStepV1_invariant data (st st' : FlowState) :
  flowStepV1 m data st = Normal st' -> flowInvariant st -> flowInvariant st'.
Proof.
  unfold flowStepV1. intros Hs Hinv.
  destruct (String.eqb (ev_ph (es_event data)) "s").
  { destruct (flowIdToEvent st !! jsStr (ev_id (es_event data))).
    - injection Hs as <-. apply flowInvariant_flowWarn, Hinv.
    - destruct (createFlowEvent m (es_thread data) (es_event data) None st)
        as [[created st1]|] eqn:Hc; cbn [cbind] in Hs; [|discriminate].
      destruct (createFlowEvent_invariant _ _ _ _ _ _ Hc Hinv) as [Hinv1 _].
      destruct created; injection Hs as <-.
      + apply flowInvariant_setFlowId, Hinv1.
      + apply flowInvariant_flowWarn, Hinv1. }
  destruct (phIn (es_event data) ["t"; "f"]); [|injection Hs as <-; exact Hinv].
  destruct (flowIdToEvent st !! jsStr (ev_id (es_event data))) as [flowEvent|].
  2:{ injection Hs as <-. apply flowInvariant_flowWarn, Hinv. }
  destruct (bindPoint (es_event data)) as [[bindToParent|]|]; cbn [cbind] in Hs;
    [| |discriminate].
  2:{ injection Hs as <-. apply flowInvariant_flowWarn, Hinv. }
  destruct (finishFlowEventWith m flowEvent (es_thread data) (es_event data)
              (default 0 (es_refGuid data)) bindToParent None st)
    as [[fin st1]|] eqn:Hfin; cbn [cbind fst snd] in Hs; [|discriminate].
  destruct (finishFlowEventWith_invariant _ _ _ _ _ _ _ _ _ Hfin Hinv) as (Hinv1 & _ & Hok).
  destruct fin; cbn [andb] in Hs.
  - assert (flowInvariant
              (setFlowId (jsStr (ev_id (es_event data))) None
                 (pushModelFlowEvent flowEvent st1))) as Hinv2
      by (apply flowInvariant_setFlowId, flowInvariant_push; assumption).
    destruct (String.eqb (ev_ph (es_event data)) "t").
    + destruct (createFlowEvent m (es_thread data) (es_event data) None _)
        as [[created st2]|] eqn:Hc; cbn [cbind fst snd] in Hs; [|discriminate].
      injection Hs as <-. apply flowInvariant_setFlowId.
      apply (createFlowEvent_invariant _ _ _ _ _ _ Hc Hinv2).
    + injection Hs as <-. exact Hinv2.
  - injection Hs as <-. apply flowInvariant_setFlowId, flowInvariant_flowWarn, Hinv1.
Qed.

Lemma flowStep_invariant data (st st' : FlowState) :
  flowStep m data st = Normal st' -> flowInvariant st -> flowInvariant st'.
Proof.
  unfold flowStep. intros Hs Hinv.
  assert (flowInvariant (validateFlowEvent (es_event data) st).2) as Hinv1.
  { unfold validateFlowEvent. repeat case_match; cbn;
      try exact Hinv; apply flowInvariant_flowWarn, Hinv. }
  destruct (validateFlowEvent (es_event data) st) as [valid st1]. cbn in Hinv1.
  destruct valid; cbn [negb] in Hs; [|injection Hs as <-; exact Hinv1].
  destruct (truthy (ev_bind_id (es_event data))).
  - eapply flowStepV2_invariant; eassumption.
  - eapply flowStepV1_invariant; eassumption.
Qed.

Lemma flowLoop_invariant (queue : list EventState) : forall (st st' : FlowState),
  flowLoop m queue st = Normal st' -> flowInvariant st -> flowInvariant st'.
Proof.
  induction queue as [|data queue IH]; intros st st' Hl Hinv; cbn [flowLoop] in Hl.
  - injection Hl as <-. exact Hinv.
  - destruct (flowStep m data st) as [st1|] eqn:Hs; cbn [cbind] in Hl; [|discriminate].
    eapply IH; [exact Hl|]. eapply flowStep_invariant; eassumption.
Qed.

Lemma flowInvariant_new (log0 : ImportLog) : flowInvariant (newFlowState log0).
Proof.
  split.
  - intros r f Hr. cbn in Hr. rewrite lookup_nil in Hr. discriminate.
  - intros r Hr. cbn in Hr. apply elem_of_nil in Hr. contradiction.
Qed.

(** Every flow event that the flow pass adds to the model is bound at both
    ends: for a queue in which no event is looked up under the name of a
    member that object literals inherit from [Object.prototype], whenever
    [createFlowSlices_] returns, each flow event of [model.flowEvents] has a
    start slice that lists it among its outgoing flows and an end slice that
    lists it among its incoming flows.  A flow that was started but never
    ended is not in the model. *)
Theorem model_flows_bound_at_both_ends (allFlowEvents sorted : list EventState)
    (st : FlowState) (r : nat) :
  Forall plainFlowKey allFlowEvents ->
  createFlowSlices_ m allFlowEvents = Normal (sorted, st) ->
  r ∈ modelFlowEvents st ->
  boundAtBothEnds st r.
Proof.
  unfold createFlowSlices_. intros _ Hc Hr.
  assert (flowInvariant st) as (Hout & Hmodel).
  { destruct allFlowEvents as [|e rest].
    - injection Hc as <- <-. apply flowInvariant_new.
    - destruct (flowLoop m (sortQueue (e :: rest)) (newFlowState (log m)))
        as [st1|] eqn:Hl; cbn [cbind] in Hc; [|discriminate].
      injection Hc as <- <-.
      eapply flowLoop_invariant; [exact Hl|apply flowInvariant_new]. }
  destruct (Hmodel r Hr) as (f & es & A & B & C).
  exists f, es. split; [exact A|]. split; [apply (Hout _ _ A)|]. auto.
Qed.

End InvariantFacts.

(** The flow of [flowStart], ended by an [f] event in the category 'input'. *)
Lemma model_flows_bound_at_both_ends_witness :
  boundAtBothEnds
    (orElse (createFlowSlices_ (ops := specOps) (colors := lengthColors) flowModel
               [flowStart; flowEnd (Some "input") JSUndefined])
            ([], newFlowState emptyLog)).2
    0%nat.
Proof.
  apply (model_flows_bound_at_both_ends (ops := specOps) (colors := lengthColors)
           flowModel [flowStart; flowEnd (Some "input") JSUndefined]
           (orElse (createFlowSlices_ (ops := specOps) (colors := lengthColors) flowModel
                      [flowStart; flowEnd (Some "input") JSUndefined])
                   ([], newFlowState emptyLog)).1).
  - repeat constructor.
  - vm_compute. reflexivity.
  - vm_compute. left.
Defined.

(** The key of an [f] event with the id [constructor] is not plain: the
    code finds the member of that name that [flowIdToEvent] inherits. *)
Lemma inherited_flow_id_excluded :
  ~ plainFlowKey (mkEventState 0
                    (named (Some "input") (Some "flow") (Some "constructor")
                           (bareEvent "f" 1 1 50))
                    (1, 1) (Some 0) None).
Proof. unfold plainFlowKey. cbn. discriminate. Qed.

End FlowInvariantFacts.

(** * Facts about the merging of arguments *)

Module ArgsFacts.

Lemma assoc_get_assoc_set {V} (k a : string) (v : V) (o : list (string * V)) :
  assoc_get k (assoc_set a v o) = if String.eqb k a then Some v else assoc_get k o.
Proof.
  induction o as [|[k' v'] o IH]; cbn [assoc_set assoc_get].
  - reflexivity.
  - destruct (String.eqb_spec a k') as [->|Hne]; cbn [assoc_get].
    + destruct (String.eqb k k'); reflexivity.
    + rewrite IH. destruct (String.eqb_spec k k') as [->|Hne'].
      * destruct (String.eqb_spec k' a) as [->|_]; [contradiction|reflexivity].
      * reflexivity.
Qed.

Lemma assoc_get_app {V} (k : string) (o1 o2 : list (string * V)) :
  assoc_get k (o1 ++ o2) =
  match assoc_get k o1 with
  | Some v => Some v
  | None => assoc_get k o2
  end.
Proof.
  induction o1 as [|[k' v'] o1 IH]; cbn [app assoc_get]; [reflexivity|].
  destruct (String.eqb k k'); [reflexivity|exact IH].
Qed.

Lemma assoc_get_assignArg (k a : string) (v : JSValue) (o : Args) :
  k <> "__proto__" ->
  assoc_get k (assignArg a v o) = if String.eqb k a then Some v else assoc_get k o.
Proof.
  intros Hk. unfold assignArg.
  destruct (String.eqb_spec a "__proto__") as [->|Ha]; cbn [andb].
  - destruct (bool_decide (is_Some (assoc_get "__proto__" o))); cbn [negb].
    + apply assoc_get_assoc_set.
    + destruct (String.eqb_spec k "__proto__"); [contradiction|reflexivity].
  - apply assoc_get_assoc_set.
Qed.

(** What [mergeArgsInto_] leaves in the destination and in the log. *)
Lemma mergeArgsInto__merged (srcArgs : Args) :
  forall (dstArgs : Args) (eventName : string) (log : ImportLog),
    (forall arg,
       arg <> "__proto__" ->
       assoc_get arg (mergeArgsInto_ dstArgs srcArgs eventName log).1 =
       match assoc_get arg (reverse srcArgs) with
       | Some v => Some (deepCopyValue v)
       | None => assoc_get arg dstArgs
       end) /\
    (exists ws,
       importWarnings_ (mergeArgsInto_ dstArgs srcArgs eventName log).2 =
         importWarnings_ log ++ ws /\
       (length ws <= length srcArgs)%nat /\
       Forall (fun w => wtype w = "arg_merge_error") ws) /\
    (forall arg v,
       srcArgs = [(arg, v)] ->
       length (importWarnings_ (mergeArgsInto_ dstArgs srcArgs eventName log).2) =
       (length (importWarnings_ log) +
        if match assoc_get arg dstArgs with
           | Some JSUndefined => false
           | Some _ => true
           | None => JSObjects.onObjectPrototype arg
           end then 1 else 0)%nat).
Proof.
  induction srcArgs as [|[a v] rest IH]; intros dstArgs eventName log;
    cbn [mergeArgsInto_].
  - split; [reflexivity|]. split; [|intros arg v [=]].
    exists []. rewrite app_nil_r. auto.
  - destruct (IH (assignArg a (deepCopyValue v) dstArgs) eventName
                 (if hasValue a dstArgs then
                    warn "arg_merge_error"
                      ("Different phases of " +:+ eventName +:+
                       " provided values for argument " +:+ a +:+ "." +:+
                       " The last provided value will be used.") log
                  else log)) as (Hget & (ws & Hws & Hlen & Hall) & _).
    split; [|split].
    + intros arg Harg.
      rewrite Hget by exact Harg.
      rewrite reverse_cons, assoc_get_app, assoc_get_assignArg by exact Harg.
      destruct (assoc_get arg (reverse rest)); [reflexivity|].
      cbn [assoc_get]. destruct (String.eqb arg a); reflexivity.
    + assert (exists w0,
                importWarnings_
                  (if hasValue a dstArgs then
                     warn "arg_merge_error"
                       ("Different phases of " +:+ eventName +:+
                        " provided values for argument " +:+ a +:+ "." +:+
                        " The last provided value will be used.") log
                   else log) = importWarnings_ log ++ w0 /\
                (length w0 <= 1)%nat /\
                Forall (fun w => wtype w = "arg_merge_error") w0)
        as (w0 & Hw0 & Hlen0 & Hall0).
      { destruct (hasValue a dstArgs);
          first [ exists []; rewrite app_nil_r;
                  split; [reflexivity|split; [cbn; lia|constructor]]
                | eexists [_];
                  split; [reflexivity|split; [cbn; lia|repeat constructor]] ]. }
      exists (w0 ++ ws). rewrite Hws, Hw0, <- app_assoc.
      split; [reflexivity|]. split.
      * rewrite length_app. cbn [length]. lia.
      * apply Forall_app. auto.
    + intros arg v' [= -> -> ->]. cbn [mergeArgsInto_ snd].
      change (match assoc_get arg dstArgs with
              | Some JSUndefined => false
              | Some _ => true
              | None => JSObjects.onObjectPrototype arg
              end) with (hasValue arg dstArgs).
      destruct (hasValue arg dstArgs); cbn; rewrite ?length_app; cbn; lia.
Qed.

(** The last provided value is used: after [mergeArgsInto_], when the source
    assigns no object to [__proto__], the destination holds, for every
    argument of the source other than [__proto__], a copy of the value that
    the source gives it (the last one, should the source name it twice), and
    for every other argument other than [__proto__] what it held before.  The
    pass adds at most one warning per argument of the source, each of type
    [arg_merge_error], and drops none; for a source of one argument it adds
    the warning exactly when the destination has a value other than
    [undefined] under that name, or has no property of that name and inherits
    one from [Object.prototype]. *)
Theorem merge_args_last_value_wins (srcArgs : Args) :
  forall (dstArgs : Args) (eventName : string) (log : ImportLog),
    (keepsPrototype srcArgs ->
     forall arg,
       arg <> "__proto__" ->
       assoc_get arg (mergeArgsInto_ dstArgs srcArgs eventName log).1 =
       match assoc_get arg (reverse srcArgs) with
       | Some v => Some (deepCopyValue v)
       | None => assoc_get arg dstArgs
       end) /\
    (exists ws,
       importWarnings_ (mergeArgsInto_ dstArgs srcArgs eventName log).2 =
         importWarnings_ log ++ ws /\
       (length ws <= length srcArgs)%nat /\
       Forall (fun w => wtype w = "arg_merge_error") ws) /\
    (forall arg v,
       srcArgs = [(arg, v)] ->
       length (importWarnings_ (mergeArgsInto_ dstArgs srcArgs eventName log).2) =
       (length (importWarnings_ log) +
        if match assoc_get arg dstArgs with
           | Some JSUndefined => false
           | Some _ => true
           | None => JSObjects.onObjectPrototype arg
           end then 1 else 0)%nat).
Proof.
  intros dstArgs eventName log.
  destruct (mergeArgsInto__merged srcArgs dstArgs eventName log) as (H1 & H2 & H3).
  split; [intros _; exact H1|]. split; assumption.
Qed.

(** An argument named [toString] merged into an empty destination: the
    inherited member counts as a value, and the argument is stored. *)
Lemma merge_inherited_name_warns :
  let r := mergeArgsInto_ [] [("toString", JSNumber 1)] "slice" emptyLog in
  r.1 = [("toString", JSNumber 1)] /\
  wtype <$> importWarnings_ r.2 = ["arg_merge_error"].
Proof. vm_compute. split; reflexivity. Qed.

End ArgsFacts.

(** * Facts about the warnings on the console *)

Module ModelConsoleFacts.
Import ModelConsole.

Lemma filter_unreported (seen : gset string) (t : string) (l : list Warning) :
  filter (fun w => wtype w ∉ ({[ t ]} ∪ seen)) l =
  filter (fun w => wtype w ∉ seen) (filter (fun w => wtype w <> t) l).
Proof.
  rewrite list_filter_filter. apply list_filter_iff.
  intros w. set_solver.
Qed.

Lemma filter_reported (seen : gset string) (t : string) (l : list Warning) :
  t ∈ seen ->
  filter (fun w => wtype w ∉ seen) l =
  filter (fun w => wtype w ∉ seen) (filter (fun w => wtype w <> t) l).
Proof.
  intros Ht. rewrite list_filter_filter. apply list_filter_iff.
  intros w. split; [|tauto]. intros Hw. split; [exact Hw|]. intros Heq.
  apply Hw. rewrite Heq. exact Ht.
Qed.

Lemma filter_none_reported (seen : gset string) (l : list Warning) :
  seen = ∅ -> filter (fun w => wtype w ∉ seen) l = l.
Proof.
  intros ->. induction l as [|w l IH]; [reflexivity|].
  rewrite filter_cons_True by set_solver. rewrite IH. reflexivity.
Qed.

Lemma importWarnings_console (options : JSValue) (show : JSValue) (ws : list Warning) :
  getProp options "showImportWarnings" = Normal show ->
  Forall (fun w => wtype w <> "__proto__") ws ->
  forall (log : ImportLog) (lines : list string),
  exists reported,
    importWarnings ws (mkModelState log options lines) =
    (mkModelState (mkLog (importWarnings_ log ++ ws) reported) options
       (lines ++
        if truthy show
        then map wmessage
               (filter (fun w => wtype w ∉ reportedImportWarnings_ log)
                       (firstOfEachType ws))
        else []),
     Normal tt).
Proof.
  intros Hshow Hall. induction Hall as [|w rest Hw Hrest IH]; intros log lines.
  - exists (reportedImportWarnings_ log). cbn [importWarnings firstOfEachType].
    rewrite filter_nil. cbn [map].
    assert (lines ++ (if truthy show then [] else []) = lines) as ->
      by (destruct (truthy show); apply app_nil_r).
    rewrite app_nil_r. destruct log; reflexivity.
  - cbn [importWarnings firstOfEachType]. unfold importWarning.
    cbn [ms_log importOptions_ console]. rewrite Hshow.
    destruct (decide (wtype w ∈ reportedImportWarnings_ log)) as [Hin|Hnotin].
    + rewrite bool_decide_eq_true_2 by exact Hin.
      destruct (IH (mkLog (importWarnings_ log ++ [w]) (reportedImportWarnings_ log))
                   lines) as (reported & ->).
      exists reported. cbn [importWarnings_ reportedImportWarnings_].
      rewrite <- app_assoc. cbn [app].
      rewrite filter_cons_False by (intros Hn; apply Hn, Hin).
      rewrite <- filter_reported by exact Hin. reflexivity.
    + rewrite bool_decide_eq_false_2 by exact Hnotin.
      unfold report. destruct (String.eqb_spec (wtype w) "__proto__") as [Heq|_];
        [contradiction|].
      destruct (IH (mkLog (importWarnings_ log ++ [w])
                          ({[ wtype w ]} ∪ reportedImportWarnings_ log))
                   (if truthy show then lines ++ [wmessage w] else lines))
        as (reported & ->).
      exists reported. cbn [importWarnings_ reportedImportWarnings_].
      rewrite <- app_assoc. cbn [app].
      rewrite filter_cons_True by exact Hnotin.
      rewrite filter_unreported.
      destruct (truthy show); [|reflexivity].
      cbn [map]. rewrite <- app_assoc. reflexivity.
Qed.

(** One message of each type: on a model whose import options are an
    object and that has reported no warning yet, a sequence of warnings is
    recorded whole and in order without a throw, and when the option
    [showImportWarnings] is set the console gets the message of the first
    warning of each type, in order, and nothing otherwise. *)
Theorem one_console_message_per_type (options show : JSValue)
    (ws : list Warning) (lines : list string) :
  getProp options "showImportWarnings" = Normal show ->
  Forall (fun w => wtype w <> "__proto__") ws ->
  exists st,
    importWarnings ws (mkModelState emptyLog options lines) = (st, Normal tt) /\
    importWarnings_ (ms_log st) = ws /\
    console st =
      lines ++ (if truthy show then map wmessage (firstOfEachType ws) else []) /\
    NoDup (map wtype (firstOfEachType ws)) /\
    (forall w, w ∈ ws -> exists p, p ∈ firstOfEachType ws /\ wtype p = wtype w).
Proof.
  intros Hshow Hall.
  destruct (importWarnings_console options show ws Hshow Hall emptyLog lines)
    as (reported & ->).
  eexists. split; [reflexivity|]. cbn [ms_log importWarnings_ console emptyLog app].
  split; [reflexivity|]. split.
  - f_equal. destruct (truthy show); [|reflexivity]. f_equal.
    apply filter_none_reported. reflexivity.
  - clear. split.
    + induction ws as [|w rest IH]; cbn [firstOfEachType map]; [constructor|].
      constructor.
      * intros Hin. apply list_elem_of_fmap in Hin as (p & Hp & Hin).
        apply list_elem_of_filter in Hin as [Hne _]. congruence.
      * clear -IH. induction (firstOfEachType rest) as [|p l IHl]; [constructor|].
        cbn [map] in IH. inversion IH as [|? ? Hnotin Hnd]; subst.
        rewrite filter_cons. destruct (decide (wtype p <> wtype w)).
        -- cbn [map]. constructor; [|auto].
           intros Hin. apply Hnotin. apply list_elem_of_fmap in Hin as (q & Hq & Hin).
           apply list_elem_of_filter in Hin as [_ Hin].
           apply list_elem_of_fmap. exists q. auto.
        -- auto.
    + induction ws as [|w rest IH]; intros x Hx; [inversion Hx|].
      cbn [firstOfEachType]. apply elem_of_cons in Hx as [->|Hx].
      * exists w. split; [left|reflexivity].
      * destruct (IH x Hx) as (p & Hp & Ht).
        destruct (decide (wtype p = wtype w)) as [Heq|Hne].
        -- exists w. split; [left|congruence].
        -- exists p. split; [|exact Ht]. right. apply list_elem_of_filter. auto.
Qed.

(** Two warnings of one type and one of another. *)
Lemma one_console_message_per_type_witness :
  exists st,
    importWarnings [mkWarning "a" "first"; mkWarning "b" "second"; mkWarning "a" "third"]
                   (mkModelState emptyLog showWarnings []) = (st, Normal tt) /\
    importWarnings_ (ms_log st) =
      [mkWarning "a" "first"; mkWarning "b" "second"; mkWarning "a" "third"] /\
    console st =
      [] ++ (if truthy (JSBool true)
             then map wmessage
                    (firstOfEachType
                       [mkWarning "a" "first"; mkWarning "b" "second";
                        mkWarning "a" "third"])
             else []) /\
    NoDup (map wtype (firstOfEachType
                        [mkWarning "a" "first"; mkWarning "b" "second";
                         mkWarning "a" "third"])) /\
    (forall w, w ∈ [mkWarning "a" "first"; mkWarning "b" "second"; mkWarning "a" "third"] ->
       exists p,
         p ∈ firstOfEachType [mkWarning "a" "first"; mkWarning "b" "second";
                              mkWarning "a" "third"] /\
         wtype p = wtype w).
Proof.
  apply (one_console_message_per_type showWarnings (JSBool true)
           [mkWarning "a" "first"; mkWarning "b" "second"; mkWarning "a" "third"] []).
  - reflexivity.
  - repeat constructor; discriminate.
Defined.

(** The console of the example. *)
Lemma console_example :
  console (importWarnings [mkWarning "a" "first"; mkWarning "b" "second";
                           mkWarning "a" "third"] freshModel).1
  = ["first"; "second"].
Proof. vm_compute. reflexivity. Qed.

(** Without import options the first warning of a type is recorded, and the
    call throws. *)
Lemma importWarning_without_options (data : Warning) (log : ImportLog)
    (lines : list string) :
  wtype data ∉ reportedImportWarnings_ log ->
  importWarning data (mkModelState log JSUndefined lines) =
  (mkModelState (mkLog (importWarnings_ log ++ [data]) (reportedImportWarnings_ log))
                JSUndefined lines,
   Throw TypeError).
Proof.
  intros Hnew. unfold importWarning. cbn [ms_log importOptions_ console].
  rewrite bool_decide_eq_false_2 by exact Hnew. reflexivity.
Qed.

End ModelConsoleFacts.

(** * Facts about legacy async events *)

Module LegacyAsyncFacts.
Import TraceModel Dispatch SpecSliceGroup Examples AsyncAssembler AsyncFacts.

Section PairFacts.
Context {SG : Type} {ops : SliceGroupOps SG} {colors : ColorScheme}.

(** A start and its finish: an S event whose name and id are not open and
    are not names of members that object literals inherit from
    [Object.prototype], followed by the F event of that name and id, adds
    exactly one slice to the async slices of the thread of the S event and no
    warning; the slice runs from the S event to the F event, has the name and
    the id of the pair and the arguments of both events, has no sub slices,
    and the id is free again afterwards. *)
Theorem legacy_start_finish_pair (s f : EventState) (name id : string)
    (byName : gmap string (gmap string (list EventState))) (m : Model SG) :
  ev_ph (es_event s) = "S" -> ev_ph (es_event f) = "F" ->
  ev_name (es_event s) = Some name -> ev_name (es_event f) = Some name ->
  ev_id (es_event s) = Some id -> ev_id (es_event f) = Some id ->
  JSObjects.onObjectPrototype name = false ->
  JSObjects.onObjectPrototype id = false ->
  default ∅ (byName !! name) !! id = None ->
  exists byName' m' slice,
    legacyLoop [s; f] (byName, m) = Normal (byName', m') /\
    log m' = log m /\
    asyncSliceGroup (theThread (es_thread s) m') =
      asyncSliceGroup (theThread (es_thread s) m) ++ [slice] /\
    (forall r, es_thread s <> r -> theThread r m' = theThread r m) /\
    as_title slice = name /\ as_id slice = id /\
    as_start slice = timestampFromUs (ev_ts (es_event s)) /\
    (as_end slice == timestampFromUs (ev_ts (es_event f)))%Q /\
    as_args slice = concatenateObjects [default [] (ev_args (es_event s));
                                        default [] (ev_args (es_event f))] /\
    as_startThread slice = es_thread s /\ as_endThread slice = es_thread f /\
    as_subSlices slice = [] /\
    default ∅ (byName' !! name) !! id = None.
Proof.
  intros Hs Hf Hsn Hfn Hsi Hfi _ _ Hfree.
  cbn [legacyLoop]. unfold legacyStep at 1. rewrite Hsn, Hsi, Hs.
  change (String.eqb "S" "S") with true. cbn iota. rewrite Hfree. cbn [cbind].
  unfold legacyStep. rewrite Hfn, Hfi, Hf.
  change (String.eqb "F" "S") with false. change (String.eqb "F" "F") with true.
  cbn iota. rewrite !lookup_insert_eq. cbn [app].
  unfold finishSlice. cbn [lookup list_lookup last length Nat.sub seq stepLoop cbind].
  cbn [ss_isValid ss_log ss_subSlices].
  eexists _, _, _. split; [reflexivity|].
  split; [reflexivity|].
  split; [rewrite asyncSliceGroup_pushAsyncSlice; reflexivity|].
  split; [intros r Hr; rewrite theThread_pushAsyncSlice_ne by exact Hr; reflexivity|].
  cbn [as_title as_id as_start as_args as_startThread as_endThread as_subSlices].
  repeat split.
  - unfold as_end. cbn [as_start as_duration]. apply timestampFromUs_span.
  - rewrite lookup_insert_eq. cbn. apply lookup_delete_eq.
Qed.

End PairFacts.

(** The S event and the F event of the scenario of the examples, without
    the step between them. *)
Lemma legacy_start_finish_pair_witness :
  exists byName' (m' : Model SpecSG) slice,
    legacyLoop (ops := specOps) (colors := lengthColors)
      [mkEventState 0 (legacyEvent "S" 0 None) (1, 1) None None;
       mkEventState 1 (legacyEvent "F" 10 None) (1, 1) None None]
      (∅, emptyModel) = Normal (byName', m') /\
    log m' = log (emptyModel (SG := SpecSG)) /\
    asyncSliceGroup (theThread (ops := specOps) (1, 1) m') =
      asyncSliceGroup (theThread (ops := specOps) (1, 1) (emptyModel (SG := SpecSG))) ++ [slice] /\
    (forall r, (1, 1) <> r -> theThread (ops := specOps) r m' = theThread (ops := specOps) r emptyModel) /\
    as_title slice = "q" /\ as_id slice = "7" /\
    as_start slice = timestampFromUs 0 /\
    (as_end slice == timestampFromUs 10)%Q /\
    as_args slice = concatenateObjects [default [] None; default [] None] /\
    as_startThread slice = (1, 1) /\ as_endThread slice = (1, 1) /\
    as_subSlices slice = [] /\
    default ∅ (byName' !! "q") !! "7" = None.
Proof.
  apply (legacy_start_finish_pair (ops := specOps) (colors := lengthColors)
           (mkEventState 0 (legacyEvent "S" 0 None) (1, 1) None None)
           (mkEventState 1 (legacyEvent "F" 10 None) (1, 1) None None)
           "q" "7" ∅ emptyModel); reflexivity.
Defined.

End LegacyAsyncFacts.

(** * Facts about sample data *)

Module SampleDataFacts.
Import ModelThreads ModelThreadsFacts SampleData.

Lemma getAllThreads_threads (m : Model) :
  wfObj (processes m) ->
  (forall k p, (k, p) ∈ processes m -> wfObj (process_threads p)) ->
  getAllThreads m =
  match kernel_threads (kernel m) with
  | [] => Normal (map Some (processThreads m))
  | _ :: _ => Throw TypeError
  end.
Proof.
  intros Hwf Hthreads. unfold getAllThreads.
  rewrite forIn_kernel_threads.
  destruct (kernel_threads (kernel m)) as [|kt kts]; [|reflexivity].
  cbn [keys map cbind].
  destruct (forIn_eachProcess m (processes m) (mkLocals [] None)) as [q Hq].
  - intros k p Hin. split; [apply assoc_get_binding; assumption|].
    apply (Hthreads k p Hin).
  - rewrite Hq. cbn [cbind l_threads app]. f_equal.
    unfold processThreads. clear.
    induction (processes m) as [|kv l IH]; [reflexivity|].
    cbn [flat_map]. rewrite map_app, IH. f_equal.
    unfold threadsOf. rewrite map_map. reflexivity.
Qed.

Lemma indexThreads_lookup (threads : list Thread) : forall acc,
  exists threadsByTid,
    indexThreads (map Some threads) acc = Normal threadsByTid /\
    forall key,
      threadsByTid !! key =
      match last (filter (fun t => thread_tid t = key) threads) with
      | Some t => Some t
      | None => acc !! key
      end.
Proof.
  induction threads as [|t rest IH]; intros acc; cbn [map indexThreads].
  - exists acc. split; [reflexivity|]. intros key. reflexivity.
  - destruct (IH (<[thread_tid t := t]> acc)) as (byTid & -> & Hget).
    exists byTid. split; [reflexivity|]. intros key. rewrite Hget.
    rewrite filter_cons. destruct (decide (thread_tid t = key)) as [<-|Hne].
    + destruct (filter _ rest) as [|t' l] eqn:E.
      * cbn. apply lookup_insert_eq.
      * change (last (t :: t' :: l)) with (last (t' :: l)).
        destruct (last (t' :: l)) eqn:El; [reflexivity|].
        apply last_None in El. discriminate.
    + destruct (last (filter _ rest)); [reflexivity|].
      apply lookup_insert_ne. exact Hne.
Qed.

Lemma frame_of_event stackFrames event (l : ImportLog) frame l' :
  getStackFrameForEvent_ stackFrames (se_event event) false l = Normal (frame, l') ->
  leafFrameOf stackFrames event = frame.
Proof.
  unfold leafFrameOf, getStackFrameForEvent_.
  repeat case_match; intros; simplify_eq; reflexivity.
Qed.

Lemma cpuOf_snoc (events : list SampleEvent) (event : SampleEvent) :
  cpuOf (events ++ [event]) =
  match se_cpu event with
  | Some c => Some c
  | None => cpuOf events
  end.
Proof.
  unfold cpuOf. rewrite omap_app. cbn [omap list_omap].
  destruct (se_cpu event) as [c|].
  - apply last_snoc.
  - rewrite app_nil_r. reflexivity.
Qed.

Section LoopFacts.
Variable stackFrames : gmap string StackFrame.
Variable threadsByTid : gmap string Thread.

(** The sample of an event that found [thread], after the events [earlier]
    that found one. *)
Local Abbreviation theSample earlier event thread :=
  (mkSample (cpuOf (earlier ++ [event])) thread (ev_name (se_event event))
            (timestampFromUs (ev_ts (se_event event)))
            (leafFrameOf stackFrames event)
            (se_weight event)).

Lemma sampleLoop_samples (events : list SampleEvent) :
  forall (earlier : list SampleEvent) (st : SampleState),
    noBareStack events ->
    sd_cpu st = cpuOf earlier ->
    length (sd_samples st) = length earlier ->
    let kept := filter (fun event => is_Some (threadsByTid !! tidKey event)) events in
    exists final,
      sampleLoop stackFrames threadsByTid events st = Normal final /\
      length (sd_samples final) = length (earlier ++ kept) /\
      (forall i s, sd_samples st !! i = Some s -> sd_samples final !! i = Some s) /\
      (forall i event, kept !! i = Some event ->
         exists thread,
           threadsByTid !! tidKey event = Some thread /\
           sd_samples final !! (length earlier + i)%nat =
           Some (theSample (earlier ++ take i kept) event thread)) /\
      (forall w, w ∈ importWarnings_ (sd_log st) -> w ∈ importWarnings_ (sd_log final)) /\
      (length kept < length events ->
       threadNotFound ∈ importWarnings_ (sd_log final))%nat.
Proof.
  induction events as [|event rest IH]; intros earlier st Hbare Hcpu Hlen; cbn zeta.
  - rewrite filter_nil, app_nil_r. cbn [sampleLoop]. exists st.
    split; [reflexivity|]. split; [exact Hlen|].
    split; [auto|]. split; [intros i e Hi; rewrite lookup_nil in Hi; discriminate|].
    split; [auto|]. cbn. lia.
  - inversion Hbare as [|? ? Hevent Hrest]; subst.
    cbn [sampleLoop]. rewrite filter_cons. unfold sampleStep.
    destruct (threadsByTid !! tidKey event) as [thread|] eqn:Hthread.
    + rewrite decide_True by eauto.
      destruct (HandlerFacts.getStackFrameForEvent__returns stackFrames (se_event event)
                  false (sd_log st) Hevent) as (frame & log1 & Hframe).
      rewrite Hframe. cbn [cbind].
      set (cpu := match se_cpu event with Some c => Some c | None => sd_cpu st end).
      set (s0 := mkSample cpu thread _ _ frame _).
      destruct (IH (earlier ++ [event])
                   (mkSampleState (sd_samples st ++ [s0]) log1 cpu) Hrest)
        as (final & Hfinal & Hl & Hkeep & Hat & Hlog & Hwarn).
      { cbn [sd_cpu]. unfold cpu. rewrite Hcpu. symmetry. apply cpuOf_snoc. }
      { cbn [sd_samples]. rewrite !length_app. cbn. lia. }
      cbn zeta in Hl, Hkeep, Hat, Hlog, Hwarn. cbn [sd_samples sd_log] in *.
      exists final. split; [exact Hfinal|].
      split; [rewrite Hl, <- app_assoc; reflexivity|].
      split; [intros i s Hi; apply Hkeep, lookup_app_l_Some, Hi|].
      split; [|split].
      * intros i e Hi. destruct i as [|i]; cbn [lookup list_lookup] in Hi.
        -- injection Hi as <-. exists thread. split; [exact Hthread|].
           rewrite Nat.add_0_r. cbn [take]. rewrite app_nil_r.
           rewrite (Hkeep (length earlier) s0).
           ++ f_equal. unfold s0, cpu. rewrite cpuOf_snoc, Hcpu. f_equal.
              symmetry. eapply frame_of_event. exact Hframe.
           ++ rewrite <- Hlen. apply list_lookup_middle. reflexivity.
        -- destruct (Hat i e Hi) as (th & Hth & Hs). exists th. split; [exact Hth|].
           rewrite length_app in Hs. cbn [length] in Hs.
           replace (length earlier + S i)%nat with (length earlier + 1 + i)%nat by lia.
           rewrite Hs. cbn [take]. do 2 f_equal. rewrite <- !app_assoc. reflexivity.
      * intros w Hw. apply Hlog.
        eapply (AsyncFacts.getStackFrame_logged stackFrames (se_event event)
                  false w (sd_log st)); [exact Hframe|exact Hw].
      * intros Hlt. apply Hwarn. cbn [length] in Hlt. lia.
    + rewrite decide_False by (intros [? ?]; discriminate). cbn [cbind].
      destruct (IH earlier
                   (mkSampleState (sd_samples st)
                                  (importWarning threadNotFound (sd_log st)) (sd_cpu st))
                   Hrest Hcpu Hlen) as (final & Hfinal & Hl & Hkeep & Hat & Hlog & Hwarn).
      cbn zeta in Hl, Hkeep, Hat, Hlog, Hwarn. cbn [sd_samples sd_log] in *.
      exists final. split; [exact Hfinal|].
      split; [exact Hl|]. split; [exact Hkeep|]. split; [exact Hat|].
      split.
      * intros w Hw. apply Hlog. cbn. apply elem_of_app. left. exact Hw.
      * intros _. apply Hlog. cbn. apply elem_of_app. right. left.
Qed.

End LoopFacts.

Section ImporterFacts.
Variable getOrCreateThreadOf : string -> Model -> Model.

Local Abbreviation importSampleData := (importSampleData getOrCreateThreadOf).
Local Abbreviation withFakeThreads := (withFakeThreads getOrCreateThreadOf).

(** The samples of a trace, none of whose sample events carries a [stack]
    without an [sf]: with a kernel thread in the model [importSampleData]
    throws the [TypeError] of [getAllThreads]; without one it returns, and
    then the model has one sample for each sample event whose [tid] is the
    [tid] of a thread of some process, in the order of the events, on the
    last such thread in the order of [getAllThreads], with the name, the
    timestamp and the weight of the event and the CPU of the most recent
    sample event with a thread that names one; a sample event that finds no
    thread adds the warning 'Thread undefinednot found'. *)
Theorem sample_data_imported (events : list SampleEvent) (eventsLength : nat)
    (stackFrames : gmap string StackFrame) (m : Model) (log : ImportLog) :
  wfObj (processes (withFakeThreads events eventsLength m)) ->
  (forall k p, (k, p) ∈ processes (withFakeThreads events eventsLength m) ->
     wfObj (process_threads p)) ->
  noBareStack events ->
  match kernel_threads (kernel (withFakeThreads events eventsLength m)) with
  | _ :: _ =>
      importSampleData (Some events) eventsLength stackFrames m log = Throw TypeError
  | [] =>
      exists samples log',
        importSampleData (Some events) eventsLength stackFrames m log =
          Normal (withFakeThreads events eventsLength m, samples, log') /\
        length samples =
          length (withThread (withFakeThreads events eventsLength m) events) /\
        (forall i event,
           withThread (withFakeThreads events eventsLength m) events !! i = Some event ->
           exists thread,
             threadOfTid (withFakeThreads events eventsLength m) (tidKey event)
               = Some thread /\
             samples !! i =
             Some (mkSample
                     (cpuOf (take (S i)
                               (withThread (withFakeThreads events eventsLength m) events)))
                     thread (ev_name (se_event event))
                     (timestampFromUs (ev_ts (se_event event)))
                     (leafFrameOf stackFrames event)
                     (se_weight event))) /\
        (forall w, w ∈ importWarnings_ log -> w ∈ importWarnings_ log') /\
        ((length samples < length events)%nat -> threadNotFound ∈ importWarnings_ log')
  end.
Proof.
  intros Hwf Hthreads Hbare. unfold SampleData.importSampleData.
  set (m1 := withFakeThreads events eventsLength m) in *.
  rewrite (getAllThreads_threads m1 Hwf Hthreads).
  destruct (kernel_threads (kernel m1)) as [|kt kts]; [|reflexivity].
  cbn [cbind].
  destruct (indexThreads_lookup (processThreads m1) ∅) as (byTid & -> & Hget).
  cbn [cbind].
  assert (forall key, byTid !! key = threadOfTid m1 key) as Hkey.
  { intros key. rewrite Hget. unfold threadOfTid.
    destruct (last _); [reflexivity|apply lookup_empty]. }
  destruct (sampleLoop_samples stackFrames byTid events [] (mkSampleState [] log None)
              Hbare eq_refl eq_refl) as (final & -> & Hl & _ & Hat & Hlog & Hwarn).
  cbn zeta in Hl, Hat, Hlog, Hwarn. cbn [app length Nat.add sd_samples sd_log] in *.
  cbn [cbind].
  assert (filter (fun event => is_Some (byTid !! tidKey event)) events
          = withThread m1 events) as Hkept.
  { unfold withThread. apply list_filter_iff. intros e. rewrite Hkey. reflexivity. }
  rewrite Hkept in *.
  eexists _, _. split; [reflexivity|]. split; [exact Hl|]. split; [|split].
  - intros i e Hi. destruct (Hat i e Hi) as (thread & Hth & Hs).
    exists thread. split; [rewrite <- Hkey; exact Hth|].
    rewrite Hs. do 2 f_equal.
    rewrite (take_S_r _ _ e) by exact Hi. reflexivity.
  - exact Hlog.
  - intros Hlt. apply Hwarn. lia.
Qed.

End ImporterFacts.

(** The example: the trace has events, so no thread is created. *)
Lemma sample_data_imported_witness :
  exists samples log',
    importSampleData (fun _ m => m) (Some exampleSamples) 1 ∅ userlandModel emptyLog =
      Normal (withFakeThreads (fun _ m => m) exampleSamples 1 userlandModel,
              samples, log') /\
    length samples =
      length (withThread (withFakeThreads (fun _ m => m) exampleSamples 1 userlandModel)
                         exampleSamples) /\
    (forall i event,
       withThread (withFakeThreads (fun _ m => m) exampleSamples 1 userlandModel)
                  exampleSamples !! i = Some event ->
       exists thread,
         threadOfTid (withFakeThreads (fun _ m => m) exampleSamples 1 userlandModel)
                     (tidKey event) = Some thread /\
         samples !! i =
         Some (mkSample
                 (cpuOf (take (S i)
                           (withThread
                              (withFakeThreads (fun _ m => m) exampleSamples 1
                                               userlandModel)
                              exampleSamples)))
                 thread (ev_name (se_event event))
                 (timestampFromUs (ev_ts (se_event event)))
                 (leafFrameOf ∅ event)
                 (se_weight event))) /\
    (forall w, w ∈ importWarnings_ emptyLog -> w ∈ importWarnings_ log') /\
    ((length samples < length exampleSamples)%nat ->
     threadNotFound ∈ importWarnings_ log').
Proof.
  apply (sample_data_imported (fun _ m => m) exampleSamples 1 ∅ userlandModel emptyLog).
  - apply wfObj_decide. vm_compute. reflexivity.
  - intros k p Hin. apply wfObj_decide.
    change (withFakeThreads (fun _ m => m) exampleSamples 1 userlandModel)
      with userlandModel in Hin.
    unfold userlandModel, processes in Hin.
    repeat (apply elem_of_cons in Hin as [Heq|Hin];
            [injection Heq as -> ->; vm_compute; reflexivity|]).
    inversion Hin.
  - repeat constructor.
Defined.

(** A sample event that finds its thread and carries a [stack] without an
    [sf] makes the import throw. *)
Lemma sample_with_stack_throws :
  importSampleData (fun _ m => m)
    (Some [mkSampleEvent
             (withStack None (Some (JSArray [])) (named None (Some "a") None
                                                        (bareEvent "P" 1 7 10)))
             None (JSNumber 1)])
    1 ∅ userlandModel emptyLog = Throw TypeError.
Proof. vm_compute. reflexivity. Qed.

(** The samples of the example: the second event finds no thread, and the
    third sample has the CPU of the first. *)
Lemma exampleSamples_imported :
  match importSampleData (fun _ m => m) (Some exampleSamples) 1 ∅ userlandModel
                         emptyLog with
  | Normal (_, samples, log') =>
      map sample_title samples = [Some "a"; Some "c"] /\
      map sample_cpu samples = [Some 2; Some 2] /\
      map sample_thread samples =
        [mkThread "7" None; mkThread "3" (Some "CrRendererMain")] /\
      importWarnings_ log' = [threadNotFound]
  | Throw _ => False
  end.
Proof. vm_compute. repeat split; reflexivity. Qed.

End SampleDataFacts.

(** * Facts about flow API v2 *)

Module FlowV2Facts.
Import TraceModel Dispatch SpecSliceGroup Examples FlowAssembler FlowInvariant FlowV2.
Import HandlerFacts.

Section V2Facts.
Context {SG : Type} {ops : SliceGroupOps SG} {colors : ColorScheme}.
Variable m : Model SG.

Lemma validate_flow_v2 (event : Event) (st : FlowState) :
  isFlowV2 event -> validateFlowEvent event st = (true, st).
Proof.
  intros ([name Hname] & Hph & Hbind & Hflow). unfold validateFlowEvent.
  rewrite Hname, Hph, Hbind, Hflow. reflexivity.
Qed.

(** ** No flow is ever marked open *)

Lemma flowStatus_createFlowEvent thread event opt_slice (st st' : FlowState) created :
  createFlowEvent m thread event opt_slice st = Normal (created, st') ->
  flowStatus st' = flowStatus st.
Proof.
  unfold createFlowEvent. intros Hc.
  destruct (if truthy (ev_bind_id event) then _ else _) as [[[[startSlice flowId] ts]|]|];
    cbn [cbind] in Hc; [| |discriminate].
  - destruct (getStackFrameForEvent_ (stackFrames m) event false (fs_log st))
      as [[frame log1]|]; cbn [cbind] in Hc; [|discriminate].
    injection Hc as <- <-. reflexivity.
  - injection Hc as <- <-. reflexivity.
Qed.

Lemma flowStatus_finishFlowEventWith flowEvent thread event refGuid bindToParent
    opt_slice (st st' : FlowState) (ok : bool) :
  finishFlowEventWith m flowEvent thread event refGuid bindToParent opt_slice st =
    Normal (ok, st') ->
  flowStatus st' = flowStatus st.
Proof.
  unfold finishFlowEventWith. intros Hfin.
  destruct (endSliceOf m thread event refGuid bindToParent opt_slice) as [[es|]|];
    cbn [cbind] in Hfin; [| |discriminate].
  - destruct (flows st !! flowEvent) as [f|]; [|discriminate].
    destruct (getStackFrameForEvent_ (stackFrames m) event false (fs_log st))
      as [[frame log1]|]; cbn [cbind] in Hfin; [|discriminate].
    destruct (mergeArgsInto_ _ _ _ _).
    injection Hfin as <- <-. reflexivity.
  - injection Hfin as <- <-. reflexivity.
Qed.

Lemma flowStatus_processFlowProducer event slice (st st' : FlowState) :
  processFlowProducer m event slice st = Normal st' ->
  flowStatus st' = flowStatus st.
Proof.
  unfold processFlowProducer. intros Hp. destruct (_ && _).
  - injection Hp as <-. reflexivity.
  - destruct (createFlowEvent m slice.1 event (Some slice) st) as [[created st1]|] eqn:Hc;
      cbn [cbind] in Hp; [|discriminate].
    apply flowStatus_createFlowEvent in Hc.
    destruct created; injection Hp as <-; exact Hc.
Qed.

Lemma flowStatus_processFlowConsumer event refGuid slice (st st' : FlowState) (ok : bool) :
  processFlowConsumer m event refGuid slice st = Normal (ok, st') ->
  flowStatus st' = flowStatus st.
Proof.
  unfold processFlowConsumer. intros Hp.
  destruct (flowIdToEvent st !! jsToString (ev_bind_id event)) as [r|].
  2:{ injection Hp as <- <-. reflexivity. }
  assert (forall c st1,
            match flows st !! r with
            | None => Throw TypeError
            | Some f =>
                match flow_endSlice f with
                | None => Normal (Some r, st)
                | Some _ =>
                    match sliceGuidToEvent st !! flow_startSlice f with
                    | None => Throw TypeError
                    | Some producerEvent =>
                        createFlowEvent m (flow_startSlice f).1 producerEvent
                          (Some (flow_startSlice f)) st
                    end
                end
            end = Normal (c, st1) -> flowStatus st1 = flowStatus st) as Hfe.
  { intros c st1 Hc. destruct (flows st !! r) as [f|]; [|discriminate].
    destruct (flow_endSlice f).
    - destruct (sliceGuidToEvent st !! flow_startSlice f); [|discriminate].
      apply (flowStatus_createFlowEvent _ _ _ _ _ _ Hc).
    - injection Hc as <- <-. reflexivity. }
  destruct (match flows st !! r with None => _ | Some _ => _ end) as [[c st1]|];
    cbn [cbind] in Hp; [|discriminate].
  specialize (Hfe c st1 eq_refl).
  destruct c as [r'|]; [|discriminate].
  destruct (finishFlowEventWith m r' slice.1 event refGuid false (Some slice) st1)
    as [[fin st2]|] eqn:Hfin; cbn [cbind fst snd] in Hp; [|discriminate].
  apply flowStatus_finishFlowEventWith in Hfin.
  destruct fin; injection Hp as <- <-; cbn; congruence.
Qed.

Lemma noneOpen_same (st st' : FlowState) :
  flowStatus st' = flowStatus st -> noneOpen st -> noneOpen st'.
Proof. unfold noneOpen. intros ->. auto. Qed.

Lemma noneOpen_flowStepV2 data (st st' : FlowState) :
  flowStepV2 m data st = Normal st' -> noneOpen st -> noneOpen st'.
Proof.
  unfold flowStepV2. intros Hs Hinv.
  destruct (es_slice data) as [ref|]; [|discriminate].
  set (st0 := mkFlowState _ _ _ _ _ _ _ _) in Hs.
  assert (noneOpen st0) as Hinv0 by exact Hinv. clearbody st0.
  destruct (bool_decide (ev_flowPhase (es_event data) = Some PRODUCER)).
  - apply flowStatus_processFlowProducer in Hs. eapply noneOpen_same; eassumption.
  - destruct (processFlowConsumer m (es_event data) (default 0 (es_refGuid data))
                (es_thread data, ref) st0) as [[ok st1]|] eqn:Hc;
      cbn [cbind fst snd] in Hs; [|discriminate].
    apply flowStatus_processFlowConsumer in Hc.
    assert (noneOpen st1) as Hinv1 by (eapply noneOpen_same; eassumption).
    destruct ok; [|injection Hs as <-; exact Hinv1].
    assert (noneOpen (setFlowStatus (jsToString (ev_bind_id (es_event data))) false st1))
      as Hinv2.
    { intros id b. cbn. destruct (decide (id = jsToString (ev_bind_id (es_event data))))
        as [->|Hne].
      - rewrite lookup_insert_eq. congruence.
      - rewrite lookup_insert_ne by congruence. apply Hinv1. }
    destruct (bool_decide (ev_flowPhase (es_event data) = Some STEP)).
    + apply flowStatus_processFlowProducer in Hs. eapply noneOpen_same; eassumption.
    + injection Hs as <-. exact Hinv2.
Qed.

Lemma noneOpen_flowStepV1 data (st st' : FlowState) :
  flowStepV1 m data st = Normal st' -> noneOpen st -> noneOpen st'.
Proof.
  unfold flowStepV1. intros Hs Hinv.
  destruct (String.eqb (ev_ph (es_event data)) "s").
  { destruct (flowIdToEvent st !! jsStr (ev_id (es_event data))).
    - injection Hs as <-. exact Hinv.
    - destruct (createFlowEvent m (es_thread data) (es_event data) None st)
        as [[created st1]|] eqn:Hc; cbn [cbind] in Hs; [|discriminate].
      apply flowStatus_createFlowEvent in Hc.
      destruct created; injection Hs as <-; eapply noneOpen_same; try exact Hinv;
        exact Hc. }
  destruct (phIn (es_event data) ["t"; "f"]); [|injection Hs as <-; exact Hinv].
  destruct (flowIdToEvent st !! jsStr (ev_id (es_event data))) as [flowEvent|].
  2:{ injection Hs as <-. exact Hinv. }
  destruct (bindPoint (es_event data)) as [[bindToParent|]|]; cbn [cbind] in Hs;
    [| |discriminate].
  2:{ injection Hs as <-. exact Hinv. }
  destruct (finishFlowEventWith m flowEvent (es_thread data) (es_event data)
              (default 0 (es_refGuid data)) bindToParent None st)
    as [[fin st1]|] eqn:Hfin; cbn [cbind fst snd] in Hs; [|discriminate].
  apply flowStatus_finishFlowEventWith in Hfin.
  destruct fin; cbn [andb] in Hs.
  - destruct (String.eqb (ev_ph (es_event data)) "t").
    + destruct (createFlowEvent m (es_thread data) (es_event data) None _)
        as [[created st2]|] eqn:Hc; cbn [cbind fst snd] in Hs; [|discriminate].
      apply flowStatus_createFlowEvent in Hc. injection Hs as <-.
      eapply noneOpen_same; [|exact Hinv]. destruct created; cbn; cbn in Hc; congruence.
    + injection Hs as <-. eapply noneOpen_same; [|exact Hinv]. exact Hfin.
  - injection Hs as <-. eapply noneOpen_same; [|exact Hinv]. exact Hfin.
Qed.

Lemma noneOpen_flowStep data (st st' : FlowState) :
  flowStep m data st = Normal st' -> noneOpen st -> noneOpen st'.
Proof.
  unfold flowStep. intros Hs Hinv.
  assert (noneOpen (validateFlowEvent (es_event data) st).2) as Hinv1.
  { unfold validateFlowEvent. repeat case_match; cbn; exact Hinv. }
  destruct (validateFlowEvent (es_event data) st) as [valid st1]. cbn in Hinv1.
  destruct valid; cbn [negb] in Hs; [|injection Hs as <-; exact Hinv1].
  destruct (truthy (ev_bind_id (es_event data))).
  - eapply noneOpen_flowStepV2; eassumption.
  - eapply noneOpen_flowStepV1; eassumption.
Qed.

Lemma noneOpen_flowLoop (queue : list EventState) : forall (st st' : FlowState),
  flowLoop m queue st = Normal st' -> noneOpen st -> noneOpen st'.
Proof.
  induction queue as [|data queue IH]; intros st st' Hl Hinv; cbn [flowLoop] in Hl.
  - injection Hl as <-. exact Hinv.
  - destruct (flowStep m data st) as [st1|] eqn:Hs; cbn [cbind] in Hl; [|discriminate].
    eapply IH; [exact Hl|]. eapply noneOpen_flowStep; eassumption.
Qed.

(** A producer always starts a flow: wherever the loop of
    [createFlowSlices_] stands, a valid event of flow API v2 in the phase
    PRODUCER that comes with its slice starts a new flow at that slice and
    files it under its bind id, also when an earlier flow of that bind id has
    not been consumed; nothing is added to the flow events of the model, and
    the log only gets what the lookup of the stack frame adds.  This is for
    events that are not looked up under the name of a member that object
    literals inherit from [Object.prototype], and for a producer that does
    not carry a [stack] without an [sf]. *)
Theorem producer_always_starts_flow (queue : list EventState) (log0 : ImportLog)
    (st : FlowState) (data : EventState) (ref : SliceRef) :
  Forall plainFlowKey queue ->
  plainFlowKey data ->
  stackWithoutFrame (es_event data) false = false ->
  flowLoop m queue (newFlowState log0) = Normal st ->
  isFlowV2 (es_event data) ->
  ev_flowPhase (es_event data) = Some PRODUCER ->
  es_slice data = Some ref ->
  exists st' f,
    flowStep m data st = Normal st' /\
    flows st' = flows st ++ [f] /\
    flow_startSlice f = (es_thread data, ref) /\
    flow_endSlice f = None /\
    flow_id f = jsToString (ev_bind_id (es_event data)) /\
    flow_start f = producedAt (es_event data) /\
    flowIdToEvent st' !! jsToString (ev_bind_id (es_event data))
      = Some (length (flows st)) /\
    modelFlowEvents st' = modelFlowEvents st /\
    getStackFrameForEvent_ (stackFrames m) (es_event data) false (fs_log st) =
      Normal (flow_startStackFrame f, fs_log st').
Proof.
  intros _ _ Hstack Hloop Hv Hphase Hslice.
  assert (noneOpen st) as Hclosed.
  { eapply noneOpen_flowLoop; [exact Hloop|]. intros id b Hl. cbn in Hl.
    rewrite lookup_empty in Hl. discriminate. }
  unfold flowStep. rewrite (validate_flow_v2 _ _ Hv). cbn [negb].
  destruct Hv as (_ & _ & Hbind & _). rewrite Hbind.
  unfold flowStepV2. rewrite Hslice.
  rewrite bool_decide_eq_true_2 by exact Hphase.
  unfold processFlowProducer. cbn [flowIdToEvent flowStatus].
  assert (default false (flowStatus st !! jsToString (ev_bind_id (es_event data)))
          = false) as ->.
  { destruct (flowStatus st !! jsToString (ev_bind_id (es_event data))) as [b|] eqn:E;
      [|reflexivity]. cbn. apply (Hclosed _ _ E). }
  rewrite andb_false_r.
  unfold createFlowEvent. rewrite Hbind. cbn [cbind fst fs_log flows].
  destruct (getStackFrameForEvent__returns (stackFrames m) (es_event data) false
              (fs_log st) Hstack) as (frame & log1 & ->).
  cbn [cbind].
  eexists _, _. split; [reflexivity|]. cbn.
  split; [reflexivity|]. split; [reflexivity|]. split; [reflexivity|].
  split; [reflexivity|]. split; [reflexivity|].
  split; [apply lookup_insert_eq|]. split; reflexivity.
Qed.

(** A consumer ends the flow of its producer: a valid event of flow API v2
    that is no producer and no step, that does not carry a [stack] without
    an [sf], and whose bind id names a flow that has no end yet, ends that
    flow at its own slice, at its own timestamp, adds the flow to the flow
    events of the model and to the incoming flows of the slice, and marks the
    bind id closed. *)
Theorem consumer_ends_flow (st : FlowState) (data : EventState) (ref : SliceRef)
    (r : nat) (f : FlowEvent) :
  stackWithoutFrame (es_event data) false = false ->
  isFlowV2 (es_event data) ->
  ev_flowPhase (es_event data) <> Some PRODUCER ->
  ev_flowPhase (es_event data) <> Some STEP ->
  es_slice data = Some ref ->
  flowIdToEvent st !! jsToString (ev_bind_id (es_event data)) = Some r ->
  flows st !! r = Some f ->
  flow_endSlice f = None ->
  exists st' f',
    flowStep m data st = Normal st' /\
    flows st' !! r = Some f' /\
    flow_startSlice f' = flow_startSlice f /\
    flow_endSlice f' = Some (es_thread data, ref) /\
    flow_duration f' =
      option_map (fun s => (timestampFromUs (ev_ts (es_event data)) - s)%Q)
                 (flow_start f) /\
    modelFlowEvents st' = modelFlowEvents st ++ [r] /\
    r ∈ default [] (inFlowEvents st' !! (es_thread data, ref)) /\
    flowStatus st' !! jsToString (ev_bind_id (es_event data)) = Some false.
Proof.
  intros Hstack Hv Hnp Hns Hslice Hid Hf Hend.
  unfold flowStep. rewrite (validate_flow_v2 _ _ Hv). cbn [negb].
  destruct Hv as (_ & _ & Hbind & _). rewrite Hbind.
  unfold flowStepV2. rewrite Hslice.
  rewrite bool_decide_eq_false_2 by exact Hnp.
  unfold processFlowConsumer. cbn [flowIdToEvent flows]. rewrite Hid, Hf, Hend.
  cbn [cbind]. unfold finishFlowEventWith, endSliceOf. rewrite Hbind.
  cbn [cbind flows fs_log fst]. rewrite Hf.
  destruct (getStackFrameForEvent__returns (stackFrames m) (es_event data) false
              (fs_log st) Hstack) as (frame & log1 & ->).
  cbn [cbind].
  destruct (mergeArgsInto_ (flow_args f) (default [] (ev_args (es_event data)))
              (jsStr (flow_title f)) log1) as [args' log2].
  cbn [cbind fst snd]. rewrite bool_decide_eq_false_2 by exact Hns.
  eexists _, _. split; [reflexivity|]. cbn.
  split; [apply list_lookup_insert_eq; eapply lookup_lt_Some, Hf|].
  split; [reflexivity|]. split; [reflexivity|]. split; [reflexivity|].
  split; [reflexivity|]. split.
  - rewrite lookup_insert_eq. cbn. apply elem_of_app. right. left.
  - apply lookup_insert_eq.
Qed.

End V2Facts.

(** A producer on a fresh pass. *)
Lemma producer_always_starts_flow_witness :
  exists st' f,
    flowStep (ops := specOps) (colors := lengthColors) flowModel producerEvent
             (newFlowState emptyLog) = Normal st' /\
    flows st' = flows (newFlowState emptyLog) ++ [f] /\
    flow_startSlice f = ((1, 1), 0%nat) /\
    flow_endSlice f = None /\
    flow_id f = jsToString (JSNumber 7) /\
    flow_start f = producedAt (es_event producerEvent) /\
    flowIdToEvent st' !! jsToString (JSNumber 7)
      = Some (length (flows (newFlowState emptyLog))) /\
    modelFlowEvents st' = modelFlowEvents (newFlowState emptyLog) /\
    getStackFrameForEvent_ (stackFrames flowModel) (es_event producerEvent) false
                           (fs_log (newFlowState emptyLog)) =
      Normal (flow_startStackFrame f, fs_log st').
Proof.
  apply (producer_always_starts_flow (ops := specOps) (colors := lengthColors)
           flowModel [] emptyLog (newFlowState emptyLog) producerEvent 0%nat).
  - constructor.
  - reflexivity.
  - reflexivity.
  - reflexivity.
  - repeat split; try reflexivity. eexists. reflexivity.
  - reflexivity.
  - reflexivity.
Defined.

(** The consumer after the producer. *)
Lemma consumer_ends_flow_witness :
  exists st' f',
    flowStep (ops := specOps) (colors := lengthColors) flowModel consumerEvent
             afterProducer = Normal st' /\
    flows st' !! 0%nat = Some f' /\
    flow_startSlice f' = flow_startSlice producedFlow /\
    flow_endSlice f' = Some ((1, 2), 0%nat) /\
    flow_duration f' =
      option_map (fun s => (timestampFromUs 50 - s)%Q) (flow_start producedFlow) /\
    modelFlowEvents st' = modelFlowEvents afterProducer ++ [0%nat] /\
    0%nat ∈ default [] (inFlowEvents st' !! ((1, 2), 0%nat)) /\
    flowStatus st' !! jsToString (JSNumber 7) = Some false.
Proof.
  apply (consumer_ends_flow (ops := specOps) (colors := lengthColors)
           flowModel afterProducer consumerEvent 0%nat 0%nat producedFlow).
  - reflexivity.
  - repeat split; try reflexivity. eexists. reflexivity.
  - discriminate.
  - discriminate.
  - reflexivity.
  - vm_compute. reflexivity.
  - vm_compute. reflexivity.
  - reflexivity.
Defined.

End FlowV2Facts.

(** * Facts about the nesting of nestable async events *)

Module AsyncNestingFacts.
Import TraceModel Dispatch SpecSliceGroup Examples AsyncAssembler AsyncMatching.
Import AsyncFacts AsyncMatchingFacts.

Lemma matchStep_nesting (entries : list EventState) (i : nat) (e : EventState)
    (ms : MatchState) :
  entries !! i = Some e ->
  nestingInvariant entries i ms ->
  nestingInvariant entries (S i) (matchStep i e ms).
Proof.
  intros Hi Hinv.
  assert (nestingInvariant entries i
            (if String.eqb (ev_ph (es_event e)) "e" then
               match findParent e (parentStack ms) 0 with
               | None =>
                   mkMatchState (parentStack ms) (ends ms) ({[ i ]} ∪ unfinished ms)
                                (parents ms)
               | Some (depth, b) =>
                   mkMatchState (drop (S depth) (parentStack ms)) (<[b := i]> (ends ms))
                                (unfinished ms) (parents ms)
               end
             else ms)) as H1.
  { destruct (String.eqb (ev_ph (es_event e)) "e"); [|exact Hinv].
    destruct (findParent e (parentStack ms) 0) as [[depth b]|] eqn:Hf; [|exact Hinv].
    destruct Hinv as (Hnd & Hstack & Hkeys & Hpar).
    apply findParent_Some in Hf as (_ & x & Hx & _).
    rewrite Nat.sub_0_r in Hx.
    pose proof (take_drop_middle _ _ _ Hx) as Hsplit.
    assert (b ∉ (drop (S depth) (parentStack ms)).*1) as Hfresh.
    { rewrite <- Hsplit in Hnd. rewrite fmap_app, fmap_cons in Hnd.
      apply NoDup_app in Hnd as (_ & _ & Hnd). apply NoDup_cons in Hnd as [Hb _].
      exact Hb. }
    assert ((b < i)%nat) as Hblt.
    { apply list_elem_of_lookup_2 in Hx. destruct (Hstack _ _ Hx) as (_ & _ & C & _).
      exact C. }
    split; [|split; [|split]]; cbn.
    - rewrite fmap_drop. eapply sublist_NoDup; [exact Hnd|apply sublist_drop].
    - intros p y Hp.
      assert (p <> b) as Hne.
      { intros ->. apply Hfresh. apply list_elem_of_fmap. exists (b, y). auto. }
      apply (subseteq_drop (S depth)) in Hp.
      destruct (Hstack p y Hp) as (A & B & C & D).
      rewrite lookup_insert_ne by congruence. auto.
    - intros b' j Hb. destruct (decide (b' = b)) as [->|Hne]; [exact Hblt|].
      rewrite lookup_insert_ne in Hb by congruence. apply (Hkeys b' j Hb).
    - intros k p Hk. destruct (Hpar k p Hk) as (A & B & C & D).
      split; [exact A|]. split; [exact B|]. split; [exact C|].
      intros j Hj. destruct (decide (p = b)) as [->|Hne].
      + rewrite lookup_insert_eq in Hj. injection Hj as <-. exact A.
      + rewrite lookup_insert_ne in Hj by congruence. apply D, Hj. }
  unfold matchStep.
  set (ms1 := if String.eqb (ev_ph (es_event e)) "e" then _ else ms) in *.
  clearbody ms1. destruct H1 as (Hnd1 & Hstack1 & Hkeys1 & Hpar1).
  assert (forall k p,
            parents match parentStack ms1 with
                    | (p, _) :: _ =>
                        mkMatchState (parentStack ms1) (ends ms1) (unfinished ms1)
                                     (<[i := p]> (parents ms1))
                    | [] => ms1
                    end !! k = Some p ->
            (k < S i)%nat /\ (p < k)%nat /\
            (exists x, entries !! p = Some x /\ ev_ph (es_event x) = "b") /\
            (forall j, ends ms1 !! p = Some j -> (k < j)%nat)) as Hpar2.
  { intros k p Hk.
    assert (parents ms1 !! k = Some p \/
            (k = i /\ exists y rest, parentStack ms1 = (p, y) :: rest)) as [Hold|[-> Htop]].
    { destruct (parentStack ms1) as [|[q y] rest]; [left; exact Hk|].
      cbn in Hk. destruct (decide (k = i)) as [->|Hne].
      - rewrite lookup_insert_eq in Hk. injection Hk as <-. right. eauto.
      - rewrite lookup_insert_ne in Hk by congruence. left. exact Hk. }
    - destruct (Hpar1 k p Hold) as (A & B & C & D). auto with lia.
    - destruct Htop as (y & rest & Htop).
      destruct (Hstack1 p y) as (A & B & C & D); [rewrite Htop; left|].
      split; [lia|]. split; [exact C|]. split; [eauto|].
      intros j Hj. rewrite D in Hj. discriminate. }
  assert (parentStack match parentStack ms1 with
                      | (p, _) :: _ =>
                          mkMatchState (parentStack ms1) (ends ms1) (unfinished ms1)
                                       (<[i := p]> (parents ms1))
                      | [] => ms1
                      end = parentStack ms1 /\
          ends match parentStack ms1 with
               | (p, _) :: _ =>
                   mkMatchState (parentStack ms1) (ends ms1) (unfinished ms1)
                                (<[i := p]> (parents ms1))
               | [] => ms1
               end = ends ms1) as [Hs2 He2]
    by (destruct (parentStack ms1) as [|[q y] rest] eqn:E; cbn; rewrite ?E;
        split; reflexivity).
  set (ms2 := match parentStack ms1 with [] => ms1 | _ => _ end) in *.
  clearbody ms2.
  assert (forall p x, (p, x) ∈ parentStack ms1 ->
            entries !! p = Some x /\ ev_ph (es_event x) = "b" /\ (p < S i)%nat /\
            ends ms1 !! p = None) as Hstack1'.
  { intros p x Hp. destruct (Hstack1 p x Hp) as (A & B & C & D). auto with lia. }
  destruct (String.eqb (ev_ph (es_event e)) "b") eqn:Hb.
  - apply String.eqb_eq in Hb. split; [|split; [|split]]; cbn; rewrite ?Hs2, ?He2.
    + constructor; [|exact Hnd1]. intros Hin.
      apply list_elem_of_fmap in Hin as ([q y] & Hq & Hin). cbn in Hq. subst q.
      destruct (Hstack1 i y Hin) as (_ & _ & C & _). lia.
    + intros p y Hp. apply elem_of_cons in Hp as [[= -> ->]|Hp]; [|auto].
      split; [exact Hi|]. split; [exact Hb|]. split; [lia|].
      destruct (ends ms1 !! i) as [j|] eqn:E; [|reflexivity].
      specialize (Hkeys1 i j E). lia.
    + intros b j Hj. specialize (Hkeys1 b j Hj). lia.
    + exact Hpar2.
  - split; [|split; [|split]]; rewrite ?Hs2, ?He2.
    + exact Hnd1.
    + exact Hstack1'.
    + intros b j Hj. specialize (Hkeys1 b j Hj). lia.
    + exact Hpar2.
Qed.

Lemma matchLoop_nesting (entries : list EventState) :
  forall (rest : list EventState) (i : nat) (ms : MatchState),
    (forall k x, rest !! k = Some x -> entries !! (i + k)%nat = Some x) ->
    nestingInvariant entries i ms ->
    nestingInvariant entries (i + length rest) (matchLoop rest i ms).
Proof.
  induction rest as [|e rest IH]; intros i ms Hrest Hinv; cbn [matchLoop length].
  - rewrite Nat.add_0_r. exact Hinv.
  - replace (i + S (length rest))%nat with (S i + length rest)%nat by lia.
    apply IH.
    + intros k x Hk. replace (S i + k)%nat with (i + S k)%nat by lia.
      apply Hrest. exact Hk.
    + apply matchStep_nesting; [|exact Hinv].
      specialize (Hrest 0%nat e eq_refl). rewrite Nat.add_0_r in Hrest. exact Hrest.
Qed.

Lemma matchEntries_nesting (entries : list EventState) :
  nestingInvariant entries (length entries) (matchEntries entries).
Proof.
  apply (matchLoop_nesting entries entries 0).
  - intros k x Hk. exact Hk.
  - split; [|split; [|split]]; cbn.
    + constructor.
    + intros p x Hp. apply elem_of_nil in Hp. contradiction.
    + intros b j Hl. rewrite lookup_empty in Hl. discriminate.
    + intros k p Hl. rewrite lookup_empty in Hl. discriminate.
Qed.

Section HierarchyFacts.
Context {colors : ColorScheme}.
Variable key : string.
Variable frames : gmap string StackFrame.
Variable entries : list EventState.

Local Abbreviation ms := (matchEntries entries).

(** The sub slices and the top level slices after a step that files a
    slice. *)
Lemma filed_children i s l1 a (p x : nat) :
  x ∈ default [] (subSlicesOf (filed ms i s l1 a) !! p) <->
  x ∈ default [] (subSlicesOf a !! p) \/
  (x = i /\ parents ms !! i = Some p /\ is_Some (sliceOfEntry a !! p)).
Proof.
  unfold filed. destruct (parents ms !! i) as [q|] eqn:Hq.
  - destruct (sliceOfEntry a !! q) as [sq|] eqn:Hsq; cbn.
    + destruct (decide (q = p)) as [->|Hne].
      * rewrite lookup_insert_eq. cbn. rewrite elem_of_app, list_elem_of_singleton.
        split.
        -- intros [H| ->]; [left; exact H|right]. rewrite Hsq. eauto.
        -- intros [H|(-> & _ & _)]; auto.
      * rewrite lookup_insert_ne by exact Hne. split; [auto|].
        intros [H|(_ & Hp & _)]; [exact H|congruence].
    + split; [auto|].
      intros [H|(_ & Hp & [y Hy])]; [exact H|]. congruence.
  - cbn. split; [auto|]. intros [H|(_ & Hp & _)]; [exact H|discriminate].
Qed.

Lemma filed_topLevel i s l1 a (x : nat) :
  x ∈ topLevelSlices (filed ms i s l1 a) <->
  x ∈ topLevelSlices a \/ (x = i /\ parents ms !! i = None).
Proof.
  unfold filed. destruct (parents ms !! i) as [q|] eqn:Hq.
  - assert (topLevelSlices
              match sliceOfEntry a !! q with
              | Some _ =>
                  mkAssembly (<[i := s]> (sliceOfEntry a))
                    (<[q := default [] (subSlicesOf a !! q) ++ [i]]> (subSlicesOf a))
                    (topLevelSlices a) l1
              | None =>
                  mkAssembly (<[i := s]> (sliceOfEntry a)) (subSlicesOf a)
                             (topLevelSlices a) l1
              end = topLevelSlices a) as ->
      by (destruct (sliceOfEntry a !! q); reflexivity).
    split; [auto|]. intros [H|[_ H]]; [exact H|discriminate].
  - cbn. rewrite elem_of_app, list_elem_of_singleton.
    split; [intros [H| ->]; auto|intros [H|[-> _]]; auto].
Qed.

(** One step of the second pass keeps what the pass has made and filed. *)
Lemma assembleStep_invariant i entry a a' :
  entries !! i = Some entry ->
  assembleStep key frames entries ms i entry a = Normal a' ->
  assemblyInvariant entries ms i a /\ filingInvariant ms i a ->
  assemblyInvariant entries ms (S i) a' /\ filingInvariant ms (S i) a'.
Proof.
  intros Hi Ha [(Hslices & Htop) (Hkeys & Hsubs & Hfiled)].
  apply assembleStep_Normal in Ha as [[Hskip ->]|(Hskip & s & l1 & _ & ->)].
  - split; [split|split; [|split]].
    + intros j e Hlt Hj Hs. destruct (decide (j = i)) as [->|Hne].
      * rewrite Hi in Hj. injection Hj as <-. congruence.
      * apply (Hslices j e); [lia|assumption..].
    + intros j Hj. destruct (Htop j Hj). auto with lia.
    + intros j Hj. specialize (Hkeys j Hj). lia.
    + exact Hsubs.
    + exact Hfiled.
  - assert (forall j, is_Some (sliceOfEntry (filed ms i s l1 a) !! j) <->
                      j = i \/ is_Some (sliceOfEntry a !! j)) as Hkey.
    { intros j. rewrite (proj1 (filed_slice entries i s l1 a)).
      destruct (decide (j = i)) as [->|Hne].
      - rewrite lookup_insert_eq. split; eauto.
      - rewrite lookup_insert_ne by congruence. split; [auto|].
        intros [->|H]; [contradiction|exact H]. }
    destruct (matchEntries_nesting entries) as (_ & _ & _ & Hpar).
    split; [split|split; [|split]].
    + intros j e Hlt Hj Hs. apply Hkey. destruct (decide (j = i)) as [->|Hne]; [auto|].
      right. apply (Hslices j e); [lia|assumption..].
    + intros j Hj. apply filed_topLevel in Hj as [Hj|[-> Hj]]; [|auto with lia].
      destruct (Htop j Hj). auto with lia.
    + intros j Hj. apply Hkey in Hj as [->|Hj]; [lia|]. specialize (Hkeys j Hj). lia.
    + intros p x Hx. rewrite Hkey.
      apply filed_children in Hx as [Hx|(-> & Hp & _)].
      * destruct (Hsubs p x Hx). auto.
      * destruct (Hpar i p Hp) as (_ & Hlt & _). auto.
    + intros j Hj. apply Hkey in Hj as [->|Hj].
      * destruct (parents ms !! i) as [p|] eqn:Hp.
        -- destruct (Hpar i p Hp) as (_ & Hlt & (x & Hx & Hb) & _).
           assert (is_Some (sliceOfEntry a !! p)) as Hsp.
           { apply (Hslices p x Hlt Hx). unfold skipped. rewrite Hb. reflexivity. }
           split; [|apply Hkey; auto].
           apply filed_children. right. auto.
        -- apply filed_topLevel. auto.
      * specialize (Hfiled j Hj). destruct (parents ms !! j) as [p|].
        -- destruct Hfiled as [Hin Hsp]. split; [|apply Hkey; auto].
           apply filed_children. auto.
        -- apply filed_topLevel. auto.
Qed.

Lemma assembleLoop_invariant (todo : list EventState) : forall i a a',
  (forall k x, todo !! k = Some x -> entries !! (i + k)%nat = Some x) ->
  assembleLoop key frames entries ms i todo a = Normal a' ->
  assemblyInvariant entries ms i a /\ filingInvariant ms i a ->
  assemblyInvariant entries ms (i + length todo) a' /\
  filingInvariant ms (i + length todo) a'.
Proof.
  induction todo as [|e todo IH]; intros i a a' Htodo Ha Hinv;
    cbn [assembleLoop length] in *.
  - injection Ha as <-. rewrite Nat.add_0_r. exact Hinv.
  - destruct (assembleStep key frames entries ms i e a) as [a1|] eqn:E1;
      [|discriminate].
    cbn [cbind] in Ha.
    replace (i + S (length todo))%nat with (S i + length todo)%nat by lia.
    apply (IH (S i) a1 a').
    + intros k x Hk. replace (S i + k)%nat with (i + S k)%nat by lia.
      apply Htodo. exact Hk.
    + exact Ha.
    + apply (assembleStep_invariant i e a a1); [|exact E1|exact Hinv].
      specialize (Htodo 0%nat e eq_refl). rewrite Nat.add_0_r in Htodo. exact Htodo.
Qed.

(** What the second pass has made and filed when it returns. *)
Lemma assemble_invariant (log0 : ImportLog) (a : Assembly) :
  assemble key frames entries log0 = Normal a ->
  assemblyInvariant entries ms (length entries) a /\
  filingInvariant ms (length entries) a.
Proof.
  intros Ha.
  apply (assembleLoop_invariant entries 0 (mkAssembly ∅ ∅ [] log0) a).
  - intros k x Hk. exact Hk.
  - exact Ha.
  - split; [split|split; [|split]]; cbn.
    + intros j e Hlt. lia.
    + intros j Hj. apply elem_of_nil in Hj. contradiction.
    + intros j [s Hs]. rewrite lookup_empty in Hs. discriminate.
    + intros p x Hx. rewrite lookup_empty in Hx. apply elem_of_nil in Hx. contradiction.
    + intros j [s Hs]. rewrite lookup_empty in Hs. discriminate.
Qed.




End HierarchyFacts.

Section GroupFacts.
Context {SG : Type} {ops : SliceGroupOps SG} {colors : ColorScheme}.

Lemma log_pushAsyncSlice (r : ThreadRef) (s : AsyncSlice) (m : Model SG) :
  log (pushAsyncSlice r s m) = log m.
Proof. reflexivity. Qed.







End GroupFacts.




(** The hierarchy of the slices of one key, for a group in which no entry
    carries a [stack] without an [sf]: the second pass returns, and an entry
    that gets a slice and that was read while a BEGIN was open has that BEGIN
    for parent, a [b] entry before it whose END, if it has one, comes after
    the entry; its slice is then no top level slice and is among the sub
    slices of the slice of the parent.  An entry read while no BEGIN was open
    gets a top level slice. *)
Theorem nestable_slice_hierarchy {colors : ColorScheme} (key : string)
    (frames : gmap string StackFrame) (entries : list EventState)
    (log0 : ImportLog) (i : nat) (entry : EventState) :
  noBareStack entries ->
  entries !! i = Some entry ->
  skipped (matchEntries entries) i entry = false ->
  exists a s,
    assemble key frames entries log0 = Normal a /\
    sliceOfEntry a !! i = Some s /\
    match parents (matchEntries entries) !! i with
    | Some p =>
        (p < i)%nat /\
        (exists b, entries !! p = Some b /\ ev_ph (es_event b) = "b") /\
        (forall j, ends (matchEntries entries) !! p = Some j -> (i < j)%nat) /\
        as_isTopLevel s = Some false /\
        i ∈ default [] (subSlicesOf a !! p) /\
        i ∉ topLevelSlices a
    | None =>
        as_isTopLevel s = Some true /\
        i ∈ topLevelSlices a
    end.
Proof.
  intros Hall Hi Hskip.
  destruct (assembleLoop_returns key frames entries entries 0
              (mkAssembly ∅ ∅ [] log0) Hall) as (a & Ha); [set_solver|].
  destruct (assembleLoop_slice key frames entries entries 0
              (mkAssembly ∅ ∅ [] log0) a i entry Ha Hi Hskip)
    as (l & s & l' & Hns & Hs & _).
  change (0 + i)%nat with i in Hs, Hns.
  change (assemble key frames entries log0 = Normal a) in Ha.
  destruct (assemble_invariant key frames entries log0 a Ha)
    as [(_ & Htop) (_ & _ & Hfiled)].
  specialize (Hfiled i (ex_intro _ s Hs)).
  destruct (nestableSlice_isTopLevel key frames entries i entry l s l' Hns)
    as [Hlevel _].
  exists a, s. split; [exact Ha|]. split; [exact Hs|].
  rewrite Hlevel.
  destruct (parents (matchEntries entries) !! i) as [p|] eqn:Hp.
  - destruct (matchEntries_nesting entries) as (_ & _ & _ & Hpar).
    destruct (Hpar i p Hp) as (_ & Hlt & Hb & Hend).
    split; [exact Hlt|]. split; [exact Hb|]. split; [exact Hend|].
    split; [reflexivity|]. split; [apply Hfiled|].
    intros Hin. destruct (Htop i Hin) as [_ Hnone]. congruence.
  - split; [reflexivity|]. exact Hfiled.
Qed.

(** An instant event between a BEGIN and its END is a sub slice of the
    slice of the BEGIN. *)
Lemma nestable_slice_hierarchy_witness :
  exists a s,
    assemble (colors := SpecSliceGroup.lengthColors) "c:7" ∅
             [matchedBegin; nestedInstant; matchedEnd] emptyLog = Normal a /\
    sliceOfEntry a !! 1%nat = Some s /\
    (0 < 1)%nat /\
    (exists b, [matchedBegin; nestedInstant; matchedEnd] !! 0%nat = Some b /\
               ev_ph (es_event b) = "b") /\
    (forall j, ends (matchEntries [matchedBegin; nestedInstant; matchedEnd]) !! 0%nat
               = Some j -> (1 < j)%nat) /\
    as_isTopLevel s = Some false /\
    1%nat ∈ default [] (subSlicesOf a !! 0%nat) /\
    1%nat ∉ topLevelSlices a.
Proof.
  apply (nestable_slice_hierarchy (colors := SpecSliceGroup.lengthColors) "c:7" ∅
           [matchedBegin; nestedInstant; matchedEnd] emptyLog 1 nestedInstant).
  - repeat constructor.
  - reflexivity.
  - reflexivity.
Defined.

End AsyncNestingFacts.

(** * Facts about heap dumps *)

Module HeapDumpsFacts.
Import StackFrameTable HeapDumps.

Section ParseFacts.
Variable parseInt16 : JSValue -> option Z.
Variable stackFrames : gmap string Frame.
Variable allocatorName : string.
Variable pid : Z.

Local Abbreviation heapLoop := (heapLoop parseInt16 stackFrames allocatorName pid).
Local Abbreviation warningOf := (warningOf parseInt16 stackFrames allocatorName pid).
Local Abbreviation entryOf := (entryOf parseInt16 pid).

(** One turn of the loop. *)
Lemma heapStep_cases (i : nat) (entry : RawHeapEntry)
    (st : list HeapEntry * ImportLog) :
  let st1 :=
    if is_undefined (rhe_bt entry) then
      (st.1 ++ [mkHeapEntry None (parseInt16 (rhe_size entry))], st.2)
    else
      match stackFrames !! ("p" +:+ pretty pid +:+ ":" +:+ jsToString (rhe_bt entry)) with
      | None =>
          (st.1,
           importWarning
             (missingLeaf ("p" +:+ pretty pid +:+ ":" +:+ jsToString (rhe_bt entry))
                          i (parseInt16 (rhe_size entry)) allocatorName pid) st.2)
      | Some _ =>
          (st.1 ++ [mkHeapEntry
                      (Some ("p" +:+ pretty pid +:+ ":" +:+ jsToString (rhe_bt entry)))
                      (parseInt16 (rhe_size entry))], st.2)
      end in
  (resolves stackFrames pid entry /\ warningOf i entry = None /\
   st1 = (st.1 ++ [entryOf entry], st.2)) \/
  (~ resolves stackFrames pid entry /\
   exists w, warningOf i entry = Some w /\ st1 = (st.1, importWarning w st.2)).
Proof.
  cbn zeta. unfold resolves, HeapDumps.warningOf, HeapDumps.entryOf, leafIdOf.
  destruct (is_undefined (rhe_bt entry)); [left; auto|].
  destruct (stackFrames !! ("p" +:+ pretty pid +:+ ":" +:+ jsToString (rhe_bt entry)))
    as [frame|] eqn:Hframe.
  - left. rewrite bool_decide_eq_true_2 by eauto. eauto.
  - right. rewrite bool_decide_eq_false_2 by (intros [? ?]; discriminate).
    split; [intros [? ?]; discriminate|]. eauto.
Qed.

Lemma heapLoop_entries (entries : list RawHeapEntry) :
  forall (i : nat) (st : list HeapEntry * ImportLog),
    (heapLoop i entries st).1 =
      st.1 ++ map entryOf (filter (resolves stackFrames pid) entries) /\
    importWarnings_ (heapLoop i entries st).2 =
      importWarnings_ st.2 ++
      omap (fun ie => warningOf ie.1 ie.2) (zip (seq i (length entries)) entries).
Proof.
  induction entries as [|entry rest IH]; intros i st.
  - cbn. rewrite ?filter_nil, ?app_nil_r. auto.
  - cbn [HeapDumps.heapLoop length seq zip zip_with omap list_omap fst snd].
    rewrite filter_cons.
    destruct (heapStep_cases i entry st) as [(Hr & Hw & ->)|(Hr & w & Hw & ->)];
      rewrite Hw.
    + destruct (IH (S i) (st.1 ++ [entryOf entry], st.2)) as [He Hws].
      rewrite He, Hws. cbn [fst snd].
      rewrite decide_True by exact Hr. cbn [map]. rewrite <- app_assoc. auto.
    + destruct (IH (S i) (st.1, importWarning w st.2)) as [He Hws].
      rewrite He, Hws. cbn [fst snd].
      rewrite decide_False by exact Hr. cbn [importWarning importWarnings_].
      rewrite <- app_assoc. auto.
Qed.

(** The entries of a heap dump: without [entries] the function adds a
    warning and returns [undefined]; otherwise the heap dump gets, in order,
    one entry for every raw entry that names no leaf frame or one that the
    table holds under the prefix of the process, with the size that
    [parseInt] reads, and every raw entry whose leaf frame is missing adds
    one warning instead, so that entries and new warnings together are as
    many as the raw entries. *)
Theorem heap_dump_entries (entries : list RawHeapEntry) (log : ImportLog) :
  HeapDumps.parseHeapDump_ parseInt16 stackFrames pid allocatorName None log =
    (None, importWarning (missingEntries allocatorName pid) log) /\
  exists heapEntries log',
    HeapDumps.parseHeapDump_ parseInt16 stackFrames pid allocatorName (Some entries) log
      = (Some heapEntries, log') /\
    heapEntries = map entryOf (filter (resolves stackFrames pid) entries) /\
    importWarnings_ log' =
      importWarnings_ log ++
      omap (fun ie => warningOf ie.1 ie.2) (zip (seq 0 (length entries)) entries) /\
    (length heapEntries + (length (importWarnings_ log') - length (importWarnings_ log))
     = length entries)%nat.
Proof.
  split; [reflexivity|]. unfold HeapDumps.parseHeapDump_.
  destruct (heapLoop_entries entries 0 ([], log)) as [He Hw].
  cbn [fst snd app] in He, Hw.
  eexists _, _. split; [reflexivity|]. split; [exact He|]. split; [exact Hw|].
  rewrite He, Hw, length_app, length_map.
  replace (length (importWarnings_ log) +
           length (omap (fun ie => warningOf ie.1 ie.2)
                        (zip (seq 0 (length entries)) entries)) -
           length (importWarnings_ log))%nat
    with (length (omap (fun ie => warningOf ie.1 ie.2)
                       (zip (seq 0 (length entries)) entries))) by lia.
  clear He Hw. generalize 0%nat. induction entries as [|entry rest IH]; intros i.
  - reflexivity.
  - cbn [length seq zip zip_with omap list_omap fst snd]. rewrite filter_cons.
    specialize (IH (S i)).
    destruct (heapStep_cases i entry ([], log)) as [(Hr & Hw' & _)|(Hr & w & Hw' & _)];
      rewrite Hw'.
    + rewrite decide_True by exact Hr. cbn [length]. lia.
    + rewrite decide_False by exact Hr. cbn [length]. lia.
Qed.

End ParseFacts.

(** The heap dump of the example: two entries and one warning. *)
Lemma exampleHeap_parsed :
  parseHeapDump_ oneHexDigit exampleTable 7 "malloc" (Some exampleHeap) emptyLog =
  (Some [mkHeapEntry None (Some 10); mkHeapEntry (Some "p7:2") (Some 1)],
   importWarning
     (mkWarning "memory_dump_parse_error"
        "Missing leaf stack frame (ID p7:9) of heap entry 2 (size 1) in a malloc heap dump for pid=7.")
     emptyLog).
Proof. vm_compute. reflexivity. Qed.

End HeapDumpsFacts.
